(* ===== verification/_CoqProject ===== *)
-Q . S2P
Prelude.v
Prog.v
Uuid.v
Model.v
Codecs.v
Schema.v
Migrations.v
MigrationFacts.v
IsoTime.v
Json.v
JsonFacts.v
Cursor.v
Services.v
Reference.v
Repository.v
RepositoryFacts.v
Storage.v
Queue.v
Retry.v
Progress.v
Handlers.v
Payloads.v
Schemas.v
Logging.v
Meters.v
Credits.v
Worker.v
Ticker.v
Idempotency.v
TokenCache.v
Api.v
Auth.v
Effects.v
Along.v
Scenario.v
Listing.v
RateLimit.v
Middleware.v
Observability.v
Process.v
Lifecycle.v
RetryFacts.v
WorkerFacts.v
Heartbeat.v
HandlerFacts.v
PayloadFacts.v
QueueFacts.v
TickerFacts.v
ReaperFacts.v
ApiFacts.v
Observed.v
System.v
ObservedFacts.v
Accounts.v
Counting.v
Delivery.v
Lost.v
Races.v
