(* ===== verification/Prelude.v ===== *)
(** A background-job service, verified.

    The program (src/app) accepts jobs over HTTP, keeps each as a row of the
    Postgres table [jobs], hands its id to one of three Redis streams or to a
    delayed set, and runs it in one of several workers; a ticker promotes due jobs,
    hands off what a crash left behind and reclaims the messages of dead workers.
    Postgres is the source of truth and Redis a queue of hints, so the question all
    through is what happens when any process stops between two awaits.

    ** How the program is modelled

    A coroutine is a value of [Prog.prog]: a tree of atomic effects on a shared
    world, one effect for each await that commits a transaction, sends a Redis
    command or reads a clock or a random number.  [exec] runs it alone, [exec_upto]
    stops it after some effects (a crash), [pool_step] interleaves any number of
    them, and [safe] and [all_steps] are the rules for what interference leaves.
    Errors are values of [exn].  Everything is executable, and the reference
    instances make every theorem's witness a computation.

    Code that is not in the repository is an interface with documented laws:
    [Postgres], [Redis], [Otel], [Entropy] (Services.v), [FieldTypes] (Schemas.v),
    [Orm] (Api.v), [Timestamps] (Listing.v), [Apiserver] (Auth.v), [Limiter]
    (RateLimit.v), [RedisInfo] (Observability.v), [Ddl] (Schema.v) and [Platform]
    (Process.v).  Each has an instance: Reference.v holds those of Postgres, Redis,
    telemetry and entropy, Scenario.v those of the field types and the ORM with the
    worlds the witnesses start from, and the other files end with their own.
    [Pydantic] (Payloads.v) is what the routes and the worker use of the payload
    models, and Schemas.v discharges it with the models themselves.

    ** Files

    Foundations: Prelude.v (notations, [simp_bool], lists, ordered dicts, results
    that may raise), Prog.v (programs), Uuid.v (UUIDs and their text), Services.v
    and Reference.v (the services), Effects.v and Along.v (runs without
    interference; the relation on rows each coroutine's effects respect).

    - Model.v: app/schemas/enums.py, app/models/job.py, app/core/config.py.
    - Codecs.v, IsoTime.v, Json.v: what app/cursor.py, app/idempotency.py and the
      metrics use of the language's library: base64, UTF-8, -16 and -32, the
      calendar and [datetime.fromisoformat], [json.dumps] and [json.loads];
      JsonFacts.v: that loads undoes dumps, and dumps writes printable ASCII.
    - Cursor.v: app/cursor.py.  Listing.v: [list_jobs] of app/repository.py and its
      route, against the sorted listing of the whole table.
    - Repository.v, RepositoryFacts.v: the other statements of app/repository.py as
      transactions, and [row_step], the guarded changes of a row.
    - Queue.v, QueueFacts.v: app/queue.  Retry.v, RetryFacts.v: app/retry.py.
    - Progress.v, Handlers.v, HandlerFacts.v: app/jobs, app/worker/context.py and
      timeout.py; Progress.v has the percentage in binary64.
    - Payloads.v, PayloadFacts.v: the allowlist policy of app/schemas/payloads.py;
      Schemas.v: its models, field by field.
    - Logging.v: app/core/logging.py, with the language's loggers and records.
    - Worker.v, WorkerFacts.v: app/worker/runner.py and recycler.py.  Heartbeat.v: the
      loop in time, and what /health says of it.
    - Ticker.v, TickerFacts.v, ReaperFacts.v: app/ticker/runner.py.
    - Idempotency.v: app/idempotency.py with an executable SHA-256.
    - Api.v, ApiFacts.v: app/api/routes.py and app/schemas/api.py.
    - TokenCache.v, Auth.v: app/auth and app/api/deps.py.
    - RateLimit.v, Middleware.v: app/api/ratelimit.py and middleware.py.
    - Observability.v: app/observability.py, the routes /ready and /stats, the
      ticker's gauges, the answers of app/core/healthcheck.py.
    - Schema.v, Migrations.v, MigrationFacts.v: alembic/versions and alembic/env.py.
      Storage.v: that the table the [Postgres] interface describes is one of the head
      revision.
    - Meters.v: app/core/metrics.py, and programs that record and log events: the rules
      for what is left of them without ([erases]) and for what they record whatever
      the others do ([yields]).  Credits.v: counting by credits in a pool of threads.
    - Observed.v: the functions of app/retry.py, app/worker, app/ticker, the
      submission of app/api/routes.py and app/api/deps.py with each measurement and log
      line in its place; [obs_f] is the whole of the function whose effect on the
      services is [f].  ObservedFacts.v: that it is; Accounts.v: what is counted and
      logged; Counting.v: the counters of the whole deployment.
    - System.v: the whole deployment.  Delivery.v: that no waiting job is lost, over
      an effect-by-effect relation on the rows and Redis; Lost.v: that a job nothing
      names is lost for good, and that the reaper can make one; Races.v: the two
      interleavings outside the relation of Delivery.v.
    - Process.v: the state of a process (the calls it has made, what it holds, its
      loggers), app/core/telemetry.py, db.py, redis.py and the start and stop of
      healthcheck.py.  Lifecycle.v: [run_forever] of the worker and the ticker,
      app/main.py and the [__main__] modules, over the coroutines of the other files.

    ** What the theorems show

    - The deployment (System.v, by induction on reachability under any interleaving
      and crash): rows stay well-formed, final states stay final, claims and their
      ends alternate and count attempts, an idempotency key binds for ever, identity
      columns never change.
    - Delivery (Delivery.v): crashes anywhere leave every waiting job with a hint in
      Redis or in the reconciler's reach, and the reconciler then hands it off.
      What breaks it is stated as generally: a waiting job that nothing in Redis names
      and whose row is marked as handed off stays lost whatever starts later
      ([lost_for_good]); the reaper brings that about for messages read and not claimed
      ([reap_strands_unclaimed]), a promotion for a job scheduled again before its ZREM
      ([promotion_race_strands]).
    - Progress: a claimed job is settled whatever its handler does; the reaper and
      the reconciler terminate, clear exactly the stale messages and hand off exactly
      the waiting rows; a draining worker starts nothing; the semaphore's slots add
      up; a busy worker reports itself alive, a draining one may not (Heartbeat.v).
    - Each route and operation on every branch: submission, replay, retry, cancel,
      listing, promotion, retry or failure, strict priority, batches that account for
      every item.
    - Equivalence and refinement: pages against the reference listing, also while the
      table changes; the bounded token cache against an unbounded one; the body
      limit against the bare application.
    - Round trips: cursors; migrations; JSON documents, from which what is hashed
      determines a submission and a log record is one line that cannot be forged.
    - Instruments: each delivery, each decision on a token and each accepted job is
      counted once, under the label of what was done, and every line about a delivery
      names its job; a delivery cut at any effect has counted at most once (Accounts.v);
      under any interleaving and crash the counters never run ahead of the table
      (Counting.v).  That a measurement or a line leaves the world as it is and raises
      nothing is how the model has them, not a theorem; ObservedFacts.v only ties the
      two texts of a coroutine, with events and without.
    - Processes: a failing call of the set-up of telemetry never gets in the way (one of
      its shutdown, or of a gauge's registration, would); a taken port fails before
      Postgres or Redis is touched; a process does to them what its loop does and closes
      what it opened.
    - Security: only users the cluster vouched for pass and each answer of it has its
      status, both said of the JSON of its answer and not of the code that reads it;
      other owners' jobs are 404, rate limits are per caller and bounded, validated
      payloads are inside the allowlists, by domains and their subdomains, and the
      declared bounds.
    - Types: a populated database migrates from any revision to the schema the ORM
      was written for with every row of jobs kept, every job fits it, and its constraints
      refuse exactly the inserts the program sees refused.

    ** Bounds, fuel, and simplifications

    Times and durations are integers of microseconds, also where the code has float
    seconds; [int(x * 1000)] and comparisons are exact there, and the percentage of
    a batch, where rounding matters, is computed in binary64.  Attempts and progress
    are unbounded integers, and so is INTEGER in Schema.v, which PostgreSQL bounds to 32
    bits.  An INSERT of text or JSON that PostgreSQL cannot hold (a NUL, a NaN; [storable]
    in Services.v) is refused; an UPDATE is taken to succeed: what it writes is
    built by the program from rows that are stored.  A review of a token answers the JSON types its API declares
    ([review_types] in Auth.v).  A service that fails in the middle of a coroutine is a
    cut at that effect, like a crash: [safe], [all_steps] and [during] speak of every
    one.  A read that would block without end (BLOCK 0) runs out of fuel.  Loops of the code that are
    not structural take fuel: [reap_stale] needs one more than the longest pending
    list, [reconcile_orphans] one more than the waiting rows, [ticks] and
    [ticker_main] the number of ticks to run, the JSON parser the length of its
    text; the theorems prove that much is enough.  Strings are lists of characters
    below 256 except in the decoders, which work on code points and bytes.  The
    database session reads times in UTC.  A session's rollback after an error is
    the effect that did not happen.  What is measured and logged is kept apart from
    the coroutines, in Observed.v; histograms record microseconds.  Spans are left
    out, and so is the trace context on a log line.  [start] takes as fuel the number
    of polls of the health server, and one more than the polls it needs is enough.

    ** Not modelled

    The SDKs a process configures (OpenTelemetry, uvicorn, SQLAlchemy, redis-py) are
    the [Platform]: a call may fail and has no other effect than what is open.  The
    flag a signal sets is the environment's choice of when a loop stops.  The
    value of the worker's CPU gauge, a float that psutil reads.
    app/schemas/results.py, type declarations.  Parsing of e-mail addresses and URLs
    and reading settings from the environment, which pydantic does.  The offline
    mode of alembic and its engine.  The ORM's session across the statements of one
    request, beyond what [Orm] and [from_session] say of it. *)
From stdpp Require Export base tactics option list gmap strings numbers sorting relations.
Set Default Goal Selector "!".

(** * Notations *)

Declare Scope jobs_scope.
Delimit Scope jobs_scope with jobs.
Open Scope jobs_scope.

(** Timestamps and durations are integers counting microseconds. *)
Abbreviation datetime := Z (only parsing).
Abbreviation duration := Z (only parsing).
Abbreviation seconds s := (s * 1000000)%Z (only parsing).

(** * Tactics *)

(** Case analysis on every [match] or [if] of the goal, then cleaning up. *)
Ltac crush_match := repeat (case_match; simplify_eq/=).

(** Turn boolean tests of the code into the propositions they decide. *)
Ltac simp_bool :=
  repeat match goal with
  | H : _ && _ = true |- _ => apply andb_true_iff in H; destruct H
  | H : _ || _ = false |- _ => apply orb_false_iff in H; destruct H
  | H : negb _ = true |- _ => apply negb_true_iff in H
  | H : negb _ = false |- _ => apply negb_false_iff in H
  | H : bool_decide _ = true |- _ => apply bool_decide_eq_true in H
  | H : bool_decide _ = false |- _ => apply bool_decide_eq_false in H
  | H : (_ <=? _)%Z = true |- _ => apply Z.leb_le in H
  | H : (_ <=? _)%Z = false |- _ => apply Z.leb_gt in H
  | H : (_ <? _)%Z = true |- _ => apply Z.ltb_lt in H
  | H : (_ <? _)%Z = false |- _ => apply Z.ltb_ge in H
  | H : (_ =? _)%Z = true |- _ => apply Z.eqb_eq in H
  | H : (_ =? _)%Z = false |- _ => apply Z.eqb_neq in H
  | H : (_ <=? _)%N = true |- _ => apply N.leb_le in H
  | H : (_ <=? _)%N = false |- _ => apply N.leb_gt in H
  | H : (_ <? _)%N = true |- _ => apply N.ltb_lt in H
  | H : (_ <? _)%N = false |- _ => apply N.ltb_ge in H
  | H : (_ =? _)%N = true |- _ => apply N.eqb_eq in H
  | H : (_ =? _)%N = false |- _ => apply N.eqb_neq in H
  | H : (_ =? _)%nat = true |- _ => apply Nat.eqb_eq in H
  | H : (_ =? _)%nat = false |- _ => apply Nat.eqb_neq in H
  end.

(** The pair-returning calls of the model: name the two halves. *)
Ltac pair_split t d x E :=
  destruct t as [d x] eqn:E; simpl in *.

(** * Python built-ins shared by the components *)

(** [l[i]] of a Python list: a negative index counts from the end, an index out
    of range raises [IndexError] ([None] here). *)
Definition py_index {A} (l : list A) (i : Z) : option A :=
  let n := Z.of_nat (length l) in
  if ((0 <=? i) && (i <? n))%Z then l !! Z.to_nat i
  else if ((- n <=? i) && (i <? 0))%Z then l !! Z.to_nat (n + i)
  else None.

Lemma py_index_nonneg {A} (l : list A) (i : Z) :
  (0 <= i)%Z -> py_index l i = l !! Z.to_nat i.
Proof.
  intros Hi. unfold py_index.
  destruct ((0 <=? i) && (i <? Z.of_nat (length l)))%Z eqn:E1; [done|].
  destruct ((- Z.of_nat (length l) <=? i) && (i <? 0))%Z eqn:E2; [lia|].
  symmetry. apply lookup_ge_None. lia.
Qed.

Lemma py_index_neg {A} (l : list A) (i : Z) :
  (i < 0)%Z -> (- Z.of_nat (length l) <= i)%Z ->
  py_index l i = l !! Z.to_nat (Z.of_nat (length l) + i).
Proof.
  intros Hi Hl. unfold py_index.
  rewrite (proj2 (Z.leb_gt 0 i)) by lia. simpl.
  rewrite (proj2 (Z.leb_le (- Z.of_nat (length l)) i)) by lia.
  by rewrite (proj2 (Z.ltb_lt i 0)) by lia.
Qed.

(** [dict(pairs)[k]]: the last binding of a key wins; [None] is the [KeyError]. *)
Fixpoint dict_get {K V} `{EqDecision K} (k : K) (l : list (K * V)) : option V :=
  match l with
  | [] => None
  | (k', v) :: l' =>
      match dict_get k l' with
      | Some v' => Some v'
      | None => if decide (k' = k) then Some v else None
      end
  end.

(** Results that may be an exception, in sequence: [x ← r; k] is a call that
    propagates what [r] raises. *)
#[export] Instance sum_mbind E : MBind (sum E) := fun A B k r =>
  match r with inl e => inl e | inr x => k x end.

Lemma sum_bind_inl {E A B} (e : E) (k : A -> E + B) : (inl e ≫= k) = inl e.
Proof. reflexivity. Qed.
Lemma sum_bind_inr {E A B} (a : A) (k : A -> E + B) : ((inr a : E + A) ≫= k) = k a.
Proof. reflexivity. Qed.

(** * Lists *)

Lemma filter_list_length_le {A} (P : A -> Prop) `{!forall x, Decision (P x)} (l : list A) :
  length (filter P l) <= length l.
Proof.
  induction l as [|x l IH]; [done|]. rewrite filter_cons. case_decide; simpl; lia.
Qed.

Lemma filter_keep_all {A} (P : A -> Prop) `{!forall x, Decision (P x)} (l : list A) :
  (forall x, x ∈ l -> P x) -> filter P l = l.
Proof.
  induction l as [|x l IH]; intros HP; [done|].
  rewrite filter_cons_True by (apply HP; set_solver). f_equal. apply IH. set_solver.
Qed.

Lemma filter_keep_none {A} (P : A -> Prop) `{!forall x, Decision (P x)} (l : list A) :
  (forall x, x ∈ l -> ~ P x) -> filter P l = [].
Proof.
  induction l as [|x l IH]; intros HP; [done|].
  rewrite filter_cons_False by (apply HP; set_solver). apply IH. set_solver.
Qed.

Lemma filter_ext_in {A} (P Q : A -> Prop) `{!forall x, Decision (P x), !forall x, Decision (Q x)} (l : list A) :
  (forall x, x ∈ l -> P x <-> Q x) -> filter P l = filter Q l.
Proof.
  induction l as [|x l IH]; intros HPQ; [done|].
  assert (P x <-> Q x) as Hx by (apply HPQ; set_solver).
  assert (filter P l = filter Q l) as IHl by (apply IH; set_solver).
  rewrite !filter_cons, IHl. by repeat case_decide; try tauto.
Qed.

(** * Insertion-ordered dicts *)

Section Dict.
Context {K V : Type} `{EqDecision K}.
Implicit Types (l : list (K * V)).

Fixpoint od_get (k : K) l : option V :=
  match l with
  | [] => None
  | (k', v) :: l' => if decide (k' = k) then Some v else od_get k l'
  end.

(** [d[k] = v]: an existing key keeps its place. *)
Fixpoint od_set (k : K) (v : V) l : list (K * V) :=
  match l with
  | [] => [(k, v)]
  | (k', v') :: l' => if decide (k' = k) then (k, v) :: l' else (k', v') :: od_set k v l'
  end.

(** [d.pop(k, None)] *)
Definition od_del (k : K) l : list (K * V) := filter (fun e => e.1 <> k) l.

Lemma od_get_set k v k' l : od_get k' (od_set k v l) = if decide (k' = k) then Some v else od_get k' l.
Proof.
  induction l as [|[k1 v1] l IH]; cbn [od_set od_get].
  - repeat case_decide; congruence.
  - destruct (decide (k1 = k)); cbn [od_get]; [|rewrite IH]; repeat case_decide; congruence.
Qed.

Lemma od_get_elem k v l : od_get k l = Some v -> (k, v) ∈ l.
Proof.
  induction l as [|[k1 v1] l IH]; [done|]. cbn. case_decide; [|set_solver].
  intros [= ->]. subst. by left.
Qed.

Lemma elem_od_get k v l : NoDup l.*1 -> (k, v) ∈ l -> od_get k l = Some v.
Proof.
  induction l as [|[k1 v1] l IH]; [set_solver|]. cbn. intros [Hn Hd]%NoDup_cons.
  intros [E|Hl]%elem_of_cons; [simplify_eq; by rewrite decide_True|].
  rewrite decide_False; [by apply IH|]. intros ->. apply Hn. apply list_elem_of_fmap. by exists (k, v).
Qed.

Lemma od_get_None k l : od_get k l = None <-> k ∉ l.*1.
Proof.
  induction l as [|[k1 v1] l IH]; cbn; [set_solver|]. rewrite not_elem_of_cons.
  case_decide; [|by rewrite IH; naive_solver]. naive_solver.
Qed.

Lemma od_set_keys k v l : (od_set k v l).*1 = if decide (k ∈ l.*1) then l.*1 else l.*1 ++ [k].
Proof.
  induction l as [|[k1 v1] l IH]; [done|]. cbn [od_set]. destruct (decide (k1 = k)) as [->|Hne].
  - cbn. by rewrite decide_True by by left.
  - cbn. rewrite IH. destruct (decide (k ∈ l.*1)).
    + by rewrite decide_True by by right.
    + rewrite decide_False; [done|]. set_solver.
Qed.

Lemma od_set_NoDup k v l : NoDup l.*1 -> NoDup (od_set k v l).*1.
Proof.
  intros Hl. rewrite od_set_keys. case_decide; [done|].
  apply NoDup_app. split; [done|]. split; [set_solver|apply NoDup_singleton].
Qed.

Lemma od_sub_NoDup l l' : sublist l' l -> NoDup l.*1 -> NoDup l'.*1.
Proof. intros Hs Hn. eapply sublist_NoDup; [done|by apply fmap_sublist]. Qed.
Lemma od_get_del k k' l : od_get k' (od_del k l) = if decide (k' = k) then None else od_get k' l.
Proof.
  unfold od_del. induction l as [|[k1 v1] l IH]; [by case_decide|]. cbn [od_get].
  destruct (decide (k1 = k)) as [->|Hne].
  - rewrite filter_cons_False by (cbn; naive_solver). rewrite IH. repeat case_decide; congruence.
  - rewrite filter_cons_True by done. cbn [od_get]. rewrite IH. repeat case_decide; congruence.
Qed.
End Dict.

(** * Hint databases *)

Create HintDb jobs.
Create Rewrite HintDb jobs_rw.
#[export] Hint Resolve py_index_nonneg : jobs.
#[export] Hint Rewrite @sum_bind_inl @sum_bind_inr : jobs_rw.
