(* ===== verification/Prog.v ===== *)
(** Programs as sequences of atomic effects.

    Every coroutine of the service is a value of [prog]: a tree whose nodes are
    the awaited calls, each an atomic function on the shared world (one committed
    Postgres transaction, one Redis command, one clock or random read), and whose
    leaves return a value or raise an exception.  The file gives

    - the monad ([Ret], [Raise], [Step], bind) and [attempt], the [try] of the code;
    - [exec], a run without interference, and [exec_upto], a run that stops after
      some number of effects (a crash, or an error of a service);
    - [always], a weakest precondition with a crash condition;
    - [all_steps], a relation every atomic effect respects, whatever state the
      other processes left, and [pool_step], the interleaving of threads. *)
From stdpp Require Import base tactics option list relations.
From S2P Require Import Prelude.
Set Default Goal Selector "!".

Inductive prog (W E A : Type) : Type :=
| Ret (a : A)
| Raise (e : E)
| Step {X : Type} (f : W -> W * X) (k : X -> prog W E A).
Arguments Ret {W E A} a.
Arguments Raise {W E A} e.
Arguments Step {W E A X} f k.

Fixpoint prog_bind {W E A B} (k : A -> prog W E B) (p : prog W E A) : prog W E B :=
  match p with
  | Ret a => k a
  | Raise e => Raise e
  | Step f c => Step f (fun x => prog_bind k (c x))
  end.

#[export] Instance prog_mret W E : MRet (prog W E) := fun A => Ret.
#[export] Instance prog_mbind W E : MBind (prog W E) := fun A B => prog_bind.

(** [try: p] with the exception as a value; the [except] clauses match on it. *)
Fixpoint attempt {W E A} (p : prog W E A) : prog W E (E + A) :=
  match p with
  | Ret a => Ret (inr a)
  | Raise e => Ret (inl e)
  | Step f k => Step f (fun x => attempt (k x))
  end.

(** One atomic effect. *)
Definition act {W E X} (f : W -> W * X) : prog W E X := Step f Ret.

(** [for x in l: body x] *)
Fixpoint for_each {W E A} (body : A -> prog W E unit) (l : list A) : prog W E unit :=
  match l with
  | [] => Ret tt
  | x :: l' => prog_bind (fun _ => for_each body l') (body x)
  end.

(** A program on a part of a larger world. *)
Fixpoint zoom {V W E A} (get : W -> V) (put : V -> W -> W) (p : prog V E A) : prog W E A :=
  match p with
  | Ret a => Ret a
  | Raise e => Raise e
  | Step f k => Step (fun w => let r := f (get w) in (put r.1 w, r.2)) (fun x => zoom get put (k x))
  end.

(** A run to completion without interference. *)
Fixpoint exec {W E A} (p : prog W E A) (w : W) : W * (E + A) :=
  match p with
  | Ret a => (w, inr a)
  | Raise e => (w, inl e)
  | Step f k => let r := f w in exec (k r.2) r.1
  end.

(** The world after at most [n] effects: where a crash leaves it. *)
Fixpoint exec_upto {W E A} (n : nat) (p : prog W E A) (w : W) : W :=
  match n, p with
  | S n', Step f k => let r := f w in exec_upto n' (k r.2) r.1
  | _, _ => w
  end.

(** ** Equations *)

Section Equations.
Context {W E : Type}.

Lemma bind_ret {A B} (a : A) (k : A -> prog W E B) : (Ret a ≫= k) = k a.
Proof. done. Qed.

Lemma exec_bind {A B} (p : prog W E A) (k : A -> prog W E B) (w : W) :
  exec (p ≫= k) w =
  match exec p w with
  | (w', inr a) => exec (k a) w'
  | (w', inl e) => (w', inl e)
  end.
Proof. revert w. induction p as [a|e|X f c IH]; intros w; [done..|]. apply IH. Qed.

Lemma exec_for_each_cons {A} (body : A -> prog W E unit) x l (w : W) :
  exec (for_each body (x :: l)) w =
  match exec (body x) w with
  | (w', inr _) => exec (for_each body l) w'
  | (w', inl e) => (w', inl e)
  end.
Proof. apply (exec_bind (body x) (fun _ => for_each body l)). Qed.

Lemma exec_attempt {A} (p : prog W E A) (w : W) :
  exec (attempt p) w = ((exec p w).1, inr (exec p w).2).
Proof. revert w. induction p as [a|e|X f c IH]; intros w; [done..|]. apply IH. Qed.

Lemma exec_act {X} (f : W -> W * X) (w : W) :
  exec (act (E:=E) f) w = ((f w).1, inr (f w).2).
Proof. done. Qed.

Lemma exec_zoom {V A} (get : W -> V) (put : V -> W -> W) (p : prog V E A) (w : W) :
  (forall w, put (get w) w = w) -> (forall v v' w, put v (put v' w) = put v w) ->
  (forall v w, get (put v w) = v) ->
  exec (zoom get put p) w = (put (exec p (get w)).1 w, (exec p (get w)).2).
Proof.
  intros Hgp Hpp Hpg. revert w. induction p as [a|e|X f c IH]; intros w; simpl; [by rewrite Hgp..|].
  by rewrite IH, Hpp, Hpg.
Qed.

Lemma exec_upto_exec {A} (p : prog W E A) (w : W) :
  exists n, exec_upto n p w = (exec p w).1.
Proof.
  revert w. induction p as [a|e|X f c IH]; intros w; [by exists 0..|].
  destruct (IH (f w).2 (f w).1) as [n Hn]. by exists (S n).
Qed.
End Equations.
#[export] Hint Rewrite @exec_bind @exec_attempt @exec_act : jobs_rw.

(** ** A weakest precondition with a crash condition *)

Fixpoint always {W E A} (I : W -> Prop) (p : prog W E A)
    (Q : E + A -> W -> Prop) (w : W) : Prop :=
  match p with
  | Ret a => I w /\ Q (inr a) w
  | Raise e => I w /\ Q (inl e) w
  | Step f k => I w /\ always I (k (f w).2) Q (f w).1
  end.

Section Always.
Context {W E : Type}.
Implicit Types (I : W -> Prop).

Lemma always_now {A} I (p : prog W E A) Q w : always I p Q w -> I w.
Proof. by destruct p; intros [??]. Qed.

Lemma always_mono {A} I (p : prog W E A) (Q Q' : E + A -> W -> Prop) w :
  always I p Q w -> (forall r w', I w' -> Q r w' -> Q' r w') -> always I p Q' w.
Proof.
  revert w. induction p as [a|e|X f c IH]; intros w [HI HQ] HQQ; split; eauto.
Qed.

Lemma always_weaken {A} I I' (p : prog W E A) (Q : E + A -> W -> Prop) w :
  always I p Q w -> (forall w', I w' -> I' w') -> always I' p Q w.
Proof.
  revert w. induction p as [a|e|X f c IH]; intros w [HI HQ] HII; split; eauto.
Qed.

Lemma always_bind {A B} I (p : prog W E A) (k : A -> prog W E B) Q w :
  always I p (fun r w' =>
    match r with inr a => always I (k a) Q w' | inl e => Q (inl e) w' end) w ->
  always I (p ≫= k) Q w.
Proof.
  revert w. induction p as [a|e|X f c IH]; intros w; simpl.
  - by intros [_ ?].
  - done.
  - intros [??]. split; [done|]. by apply IH.
Qed.

Lemma always_attempt {A} I (p : prog W E A) Q w :
  always I p (fun r w' => Q (inr r) w') w -> always I (attempt p) Q w.
Proof.
  revert w. induction p as [a|e|X f c IH]; intros w; simpl; [done..|].
  intros [??]. split; [done|]. by apply IH.
Qed.

Lemma always_act {X} I (f : W -> W * X) (Q : E + X -> W -> Prop) w :
  I w -> I (f w).1 -> Q (inr (f w).2) (f w).1 -> always I (act f) Q w.
Proof. done. Qed.

Lemma always_for_each {A} I (body : A -> prog W E unit) (l : list A) Q w :
  I w ->
  (forall x w', I w' -> x ∈ l ->
     always I (body x) (fun r _ => exists u : unit, r = inr u) w') ->
  (forall w', I w' -> Q (inr tt) w') ->
  always I (for_each body l) Q w.
Proof.
  revert w. induction l as [|x l IH]; intros w HI Hb HQ; simpl; [by auto|].
  apply always_bind. eapply always_mono; [apply Hb; [done|set_solver]|].
  intros r w' HI' [u ->]. apply IH; [done| |done].
  intros y w'' ??. apply Hb; [done|set_solver].
Qed.

(** What [always] promises: of the completed run, and of every crash point. *)
Lemma always_exec {A} I (p : prog W E A) Q w :
  always I p Q w -> I (exec p w).1 /\ Q (exec p w).2 (exec p w).1.
Proof.
  revert w. induction p as [a|e|X f c IH]; intros w [HI HQ]; [done..|].
  by apply IH.
Qed.

Lemma always_upto {A} I (p : prog W E A) Q w n :
  always I p Q w -> I (exec_upto n p w).
Proof.
  revert w n. induction p as [a|e|X f c IH]; intros w [|n] [HI HQ]; try done.
  by apply IH.
Qed.
End Always.

(** ** Interference *)

(** Every atomic effect of [p] moves the world along [R], whatever world the other
    processes hand it and whatever the earlier effects answered. *)
Fixpoint all_steps {W E A} (R : W -> W -> Prop) (p : prog W E A) : Prop :=
  match p with
  | Ret _ | Raise _ => True
  | Step f k => (forall w, R w (f w).1) /\ forall x, all_steps R (k x)
  end.

Section AllSteps.
Context {W E : Type}.
Implicit Types (R : W -> W -> Prop).

Lemma all_steps_bind {A B} R (p : prog W E A) (k : A -> prog W E B) :
  all_steps R p -> (forall a, all_steps R (k a)) -> all_steps R (p ≫= k).
Proof. induction p as [a|e|X f c IH]; simpl; [by auto..|]. intros [??] ?. split; [done|]. intros x. by apply IH. Qed.

Lemma all_steps_attempt {A} R (p : prog W E A) :
  all_steps R p -> all_steps R (attempt p).
Proof. induction p as [a|e|X f c IH]; simpl; [done..|]. intros [??]. split; [done|]. intros x. by apply IH. Qed.

Lemma all_steps_act {X} R (f : W -> W * X) :
  (forall w, R w (f w).1) -> all_steps (E:=E) R (act f).
Proof. done. Qed.

Lemma all_steps_for_each {A} R (body : A -> prog W E unit) (l : list A) :
  (forall x, all_steps R (body x)) -> all_steps R (for_each body l).
Proof. intros Hb. induction l as [|x l IH]; [done|]. by apply all_steps_bind. Qed.

Lemma all_steps_mono {A} R R' (p : prog W E A) :
  (forall w w', R w w' -> R' w w') -> all_steps R p -> all_steps R' p.
Proof. intros HR. induction p as [a|e|X f c IH]; simpl; [done..|]. intros [??]. split; eauto. Qed.

Lemma all_steps_exec_upto {A} R (p : prog W E A) w n :
  all_steps R p -> rtc R w (exec_upto n p w).
Proof.
  revert w n. induction p as [a|e|X f c IH]; intros w [|n]; try done.
  simpl. intros [Hf Hk]. eapply rtc_l; [apply Hf|]. by apply IH.
Qed.

Lemma all_steps_exec {A} R (p : prog W E A) w :
  all_steps R p -> rtc R w (exec p w).1.
Proof.
  intros Hp. destruct (exec_upto_exec p w) as [n <-]. by apply all_steps_exec_upto.
Qed.
End AllSteps.
#[export] Hint Resolve all_steps_bind all_steps_attempt all_steps_for_each all_steps_act : jobs.

(** ** Values and exceptions *)

(** The values [p] may return, whatever its effects answer, are in [P]. *)
Fixpoint returns {W E A} (P : A -> Prop) (p : prog W E A) : Prop :=
  match p with
  | Ret a => P a
  | Raise _ => True
  | Step f k => forall x, returns P (k x)
  end.

Section Returns.
Context {W E : Type}.

Lemma returns_bind {A B} (P : A -> Prop) (Q : B -> Prop) (p : prog W E A) (k : A -> prog W E B) :
  returns P p -> (forall a, P a -> returns Q (k a)) -> returns Q (p ≫= k).
Proof. induction p as [a|e|X f c IH]; simpl; [by auto..|]. intros Hc Hk x. by apply IH. Qed.

Lemma returns_any {A} (p : prog W E A) : returns (fun _ => True) p.
Proof. by induction p. Qed.

Lemma all_steps_bind_returns {A B} R (P : A -> Prop) (p : prog W E A) (k : A -> prog W E B) :
  all_steps R p -> returns P p -> (forall a, P a -> all_steps R (k a)) -> all_steps R (p ≫= k).
Proof.
  induction p as [a|e|X f c IH]; simpl; [by auto..|]. intros [??] Hr Hk. split; [done|].
  intros x. by apply IH.
Qed.
End Returns.

(** The exceptions [p] may raise, whatever its effects answer, are in [P]. *)
Fixpoint throws {W E A} (P : E -> Prop) (p : prog W E A) : Prop :=
  match p with
  | Ret _ => True
  | Raise e => P e
  | Step f k => forall x, throws P (k x)
  end.

Section Throws.
Context {W E : Type}.

Lemma throws_bind {A B} (P : E -> Prop) (p : prog W E A) (k : A -> prog W E B) :
  throws P p -> (forall a, throws P (k a)) -> throws P (p ≫= k).
Proof. induction p as [a|e|X f c IH]; simpl; [by auto..|]. intros Hc Hk x. by apply IH. Qed.

Lemma throws_attempt {A} (P : E -> Prop) (p : prog W E A) : throws P (attempt p).
Proof. by induction p. Qed.

Lemma throws_bind_returns {A B} (P : E -> Prop) (V : A -> Prop) (p : prog W E A) (k : A -> prog W E B) :
  throws P p -> returns V p -> (forall a, V a -> throws P (k a)) -> throws P (p ≫= k).
Proof. induction p as [a|e|X f c IH]; simpl; [by auto..|]. intros Hc Hr Hk x. by apply IH. Qed.

(** What [attempt] answers, when it answers an exception. *)
Lemma attempt_returns {A} (P : E -> Prop) (p : prog W E A) :
  throws P p -> returns (fun r => match r with inl e => P e | inr _ => True end) (attempt p).
Proof. induction p as [a|e|X f c IH]; simpl; eauto. Qed.

Lemma throws_mono {A} (P Q : E -> Prop) (p : prog W E A) :
  (forall e, P e -> Q e) -> throws P p -> throws Q p.
Proof. intros H. induction p as [a|e|X f c IH]; simpl; eauto. Qed.

Lemma throws_exec {A} (P : E -> Prop) (p : prog W E A) w e :
  throws P p -> (exec p w).2 = inl e -> P e.
Proof.
  revert w. induction p as [a|e'|X f c IH]; intros w Hp He; simpl in *; [done|by simplify_eq|].
  eapply IH; [apply Hp|done].
Qed.
End Throws.

(** ** Rely and guarantee on an invariant *)

(** As long as the other processes keep [I], every effect of [p] keeps it, and what
    [p] returns or raises is in [Q]. *)
Fixpoint safe {W E A} (I : W -> Prop) (Q : E + A -> Prop) (p : prog W E A) : Prop :=
  match p with
  | Ret a => Q (inr a)
  | Raise e => Q (inl e)
  | Step f k => forall w, I w -> I (f w).1 /\ safe I Q (k (f w).2)
  end.

Section Safe.
Context {W E : Type}.
Implicit Types (I : W -> Prop).

Lemma safe_mono {A} I (Q Q' : E + A -> Prop) (p : prog W E A) :
  (forall r, Q r -> Q' r) -> safe I Q p -> safe I Q' p.
Proof.
  intros HQ. induction p as [a|e|X f c IH]; simpl; [by auto..|].
  intros Hp w Hw. destruct (Hp w Hw). eauto.
Qed.

Lemma safe_bind {A B} I (Q : E + B -> Prop) (p : prog W E A) (k : A -> prog W E B) :
  safe I (fun r => match r with inr a => safe I Q (k a) | inl e => Q (inl e) end) p -> safe I Q (p ≫= k).
Proof.
  induction p as [a|e|X f c IH]; simpl; [done..|]. intros Hp w Hw.
  destruct (Hp w Hw) as [? Hc]. split; [done|]. by apply IH.
Qed.

Lemma safe_attempt {A} I (Q : E + (E + A) -> Prop) (p : prog W E A) :
  safe I (fun r => Q (inr r)) p -> safe I Q (attempt p).
Proof.
  induction p as [a|e|X f c IH]; simpl; [done..|]. intros Hp w Hw.
  destruct (Hp w Hw) as [? Hc]. split; [done|]. by apply IH.
Qed.

Lemma safe_exec {A} I Q (p : prog W E A) w : safe I Q p -> I w -> I (exec p w).1 /\ Q (exec p w).2.
Proof.
  revert w. induction p as [a|e|X f c IH]; intros w; simpl; [done..|]. intros Hp Hw.
  destruct (Hp w Hw). by apply IH.
Qed.
End Safe.

Section Pool.
Context {W E : Type}.

(** A process between two of its effects; its result no longer matters. *)
Notation thread := (prog W E unit).

(** The processes of the deployment, scheduled arbitrarily: any thread may do
    its next effect, die at any point, a new one may start, and the rest of the
    world (clocks, other writers) may move along [env]. *)
Inductive pool_step (spawn : thread -> Prop) (env : W -> W -> Prop) :
    relation (list thread * W) :=
| pool_run ts1 ts2 X (f : W -> W * X) k w :
    pool_step spawn env (ts1 ++ Step f k :: ts2, w) (ts1 ++ k (f w).2 :: ts2, (f w).1)
| pool_die ts1 ts2 t w :
    pool_step spawn env (ts1 ++ t :: ts2, w) (ts1 ++ ts2, w)
| pool_spawn ts t w :
    spawn t -> pool_step spawn env (ts, w) (t :: ts, w)
| pool_env ts w w' :
    env w w' -> pool_step spawn env (ts, w) (ts, w').

(** Whatever the schedule, the world only moves along [R]. *)
Lemma pool_steps_along (spawn : thread -> Prop) (env R : relation W) c c' :
  (forall t, spawn t -> all_steps R t) ->
  (forall w w', env w w' -> R w w') ->
  rtc (pool_step spawn env) c c' ->
  Forall (all_steps R) c.1 ->
  rtc R c.2 c'.2.
Proof.
  intros Hspawn Henv Hc. induction Hc as [c|c c1 c' Hstep _ IH]; [done|].
  destruct Hstep as [ts1 ts2 X f k w|ts1 ts2 t w|ts t w Ht|ts w w' Hw]; simpl in *.
  - rewrite Forall_app, Forall_cons. intros (H1 & [Hf Hk] & H2).
    eapply rtc_l; [apply Hf|]. apply IH. rewrite Forall_app, Forall_cons. eauto.
  - rewrite Forall_app, Forall_cons. intros (H1 & _ & H2).
    apply IH. by rewrite Forall_app.
  - intros H1. apply IH. constructor; eauto.
  - intros H1. eapply rtc_l; eauto.
Qed.
End Pool.
