(* ===== verification/Uuid.v ===== *)
(** UUIDs: the 128-bit values that name jobs and users, their canonical text
    [str(u)] and the parser [UUID(s)] of Python's [uuid] module, which the queue
    relies on to carry a job id through a Redis message field. *)
From stdpp Require Import base tactics option list strings numbers countable.
From Stdlib Require Import Ascii.
From S2P Require Import Prelude.
Set Default Goal Selector "!".
Open Scope N_scope.

Record uuid := Uuid { uuid_int : N; uuid_bound : (uuid_int <? 2 ^ 128) = true }.

Lemma uuid_eq (u v : uuid) : uuid_int u = uuid_int v -> u = v.
Proof.
  destruct u as [n Hn], v as [m Hm]; simpl. intros <-. f_equal. apply proof_irrel.
Qed.

#[export] Instance uuid_eq_dec : EqDecision uuid.
Proof.
  intros u v. destruct (decide (uuid_int u = uuid_int v)) as [E|E].
  - left. by apply uuid_eq.
  - right. by intros ->.
Defined.

Definition uuid_of_N (n : N) : option uuid :=
  match Bool.bool_dec (n <? 2 ^ 128) true with
  | left H => Some (Uuid n H)
  | right _ => None
  end.

Lemma uuid_of_N_int (u : uuid) : uuid_of_N (uuid_int u) = Some u.
Proof.
  unfold uuid_of_N. destruct (Bool.bool_dec _ _) as [H|H].
  - f_equal. by apply uuid_eq.
  - by destruct H, u.
Qed.

#[export] Instance uuid_countable : Countable uuid :=
  inj_countable uuid_int uuid_of_N uuid_of_N_int.

(** The order Postgres uses on the [uuid] type (bytes, so the integers). *)
Definition uuid_lt (u v : uuid) : bool := uuid_int u <? uuid_int v.

(** ** Text *)

Definition hex_digit (d : N) : ascii :=
  if d <? 10 then ascii_of_N (48 + d) else ascii_of_N (87 + d).

Definition hex_value (c : ascii) : option N :=
  let n := N_of_ascii c in
  if (48 <=? n) && (n <=? 57) then Some (n - 48)
  else if (97 <=? n) && (n <=? 102) then Some (n - 87)
  else if (65 <=? n) && (n <=? 70) then Some (n - 55)
  else None.

(** ['%0kx' % n] *)
Fixpoint hex_fixed (k : nat) (n : N) : list ascii :=
  match k with
  | 0%nat => []
  | S k' => hex_fixed k' (n / 16) ++ [hex_digit (n mod 16)]
  end.

Definition uuid_text (u : uuid) : list ascii :=
  let h := hex_fixed 32 (uuid_int u) in
  take 8 h ++ "-"%char :: take 4 (drop 8 h) ++ "-"%char :: take 4 (drop 12 h) ++
  "-"%char :: take 4 (drop 16 h) ++ "-"%char :: drop 20 h.

(** [str(u)] *)
Definition str_uuid (u : uuid) : string := String.string_of_list_ascii (uuid_text u).

Definition starts_with (p l : list ascii) : bool := bool_decide (take (length p) l = p).

(** [s.replace(p, '')], scanning left to right. *)
Fixpoint remove_all (fuel : nat) (p l : list ascii) : list ascii :=
  match fuel, l with
  | S fuel', c :: l' =>
      if starts_with p l then remove_all fuel' p (drop (length p) l)
      else c :: remove_all fuel' p l'
  | _, _ => l
  end.

Definition replace_empty (p : string) (l : list ascii) : list ascii :=
  remove_all (length l) (String.list_ascii_of_string p) l.

Fixpoint drop_while (f : ascii -> bool) (l : list ascii) : list ascii :=
  match l with
  | c :: l' => if f c then drop_while f l' else l
  | [] => []
  end.

Definition strip_chars (f : ascii -> bool) (l : list ascii) : list ascii :=
  rev (drop_while f (rev (drop_while f l))).

Definition is_brace (c : ascii) : bool := bool_decide (c = "{"%char \/ c = "}"%char).
Definition is_space (c : ascii) : bool :=
  let n := N_of_ascii c in
  ((9 <=? n) && (n <=? 13)) || ((28 <=? n) && (n <=? 32)) || (n =? 133) || (n =? 160).

(** The digits of [int(s, 16)]: single underscores may separate digits. *)
Fixpoint digits16 (acc : N) (after_digit : bool) (l : list ascii) : option N :=
  match l with
  | [] => if after_digit then Some acc else None
  | c :: l' =>
      if bool_decide (c = "_"%char) then
        if after_digit then digits16 acc false l' else None
      else match hex_value c with
           | Some d => digits16 (acc * 16 + d) true l'
           | None => None
           end
  end.

(** [int(s, 16)] on text without a minus sign. *)
Definition int16 (l : list ascii) : option N :=
  let l := strip_chars is_space l in
  let l := match l with c :: l' => if bool_decide (c = "+"%char) then l' else l | [] => [] end in
  match l with
  | c :: x :: r =>
      if bool_decide (c = "0"%char /\ (x = "x"%char \/ x = "X"%char)) then
        match r with
        | u :: r' => if bool_decide (u = "_"%char) then digits16 0 false r' else digits16 0 false r
        | [] => None
        end
      else digits16 0 false l
  | _ => digits16 0 false l
  end.

(** [UUID(s)]; [None] is the [ValueError]. *)
Definition parse_uuid (s : string) : option uuid :=
  let hex := replace_empty "uuid:" (replace_empty "urn:" (String.list_ascii_of_string s)) in
  let hex := List.filter (fun c => negb (bool_decide (c = "-"%char))) (strip_chars is_brace hex) in
  if (length hex =? 32)%nat then int16 hex ≫= uuid_of_N else None.

(** ** Round trip *)

Section Roundtrip.
Definition is_hex (c : ascii) : Prop := exists d, d < 16 /\ c = hex_digit d.

Lemma lt16_cases (P : N -> Prop) :
  Forall P (map N.of_nat (seq 0 16)) -> forall d, d < 16 -> P d.
Proof.
  intros HP d Hd. rewrite Forall_forall in HP. apply HP, list_elem_of_In, in_map_iff.
  exists (N.to_nat d). split; [lia|]. apply in_seq. lia.
Qed.

Lemma hex_digit_cases (P : ascii -> Prop) :
  Forall P ["0"; "1"; "2"; "3"; "4"; "5"; "6"; "7"; "8"; "9";
            "a"; "b"; "c"; "d"; "e"; "f"]%char ->
  forall c, is_hex c -> P c.
Proof.
  intros HP c (d & Hd & ->). revert d Hd. apply lt16_cases. simpl.
  repeat (apply Forall_cons in HP as [? HP]). by repeat (constructor; [assumption|]).
Qed.

Lemma hex_value_digit (d : N) : d < 16 -> hex_value (hex_digit d) = Some d.
Proof. revert d. apply lt16_cases. repeat (constructor; [reflexivity|]). constructor. Qed.

Lemma hex_fixed_length k n : length (hex_fixed k n) = k.
Proof. revert n. induction k as [|k IH]; intros n; [done|]. simpl. rewrite length_app, IH. simpl. lia. Qed.

Lemma hex_fixed_hex k n : Forall is_hex (hex_fixed k n).
Proof.
  revert n. induction k as [|k IH]; intros n; simpl; [done|].
  apply Forall_app. split; [done|]. constructor; [|done].
  exists (n mod 16). split; [|done]. apply N.mod_lt. lia.
Qed.

Lemma digits16_app acc b l l' v :
  digits16 acc b l = Some v -> l <> [] -> digits16 acc b (l ++ l') = digits16 v true l'.
Proof.
  revert acc b. induction l as [|c l IH]; intros acc b; [done|]. simpl.
  intros H _. destruct l as [|c' l''].
  - simpl in *. repeat case_match; simplify_eq/=; done.
  - repeat case_match; try done; by apply IH.
Qed.

Lemma digits16_hex_fixed k n acc b :
  digits16 acc b (hex_fixed (S k) n) = Some (acc * 16 ^ N.of_nat (S k) + n mod 16 ^ N.of_nat (S k)).
Proof.
  revert n. induction k as [|k IH]; intros n.
  - simpl hex_fixed. change (16 ^ N.of_nat 1) with 16. simpl digits16.
    assert (n mod 16 < 16) as Hd by (apply N.mod_lt; lia).
    rewrite bool_decide_eq_false_2.
    + by rewrite hex_value_digit.
    + revert Hd. generalize (n mod 16). intros d Hd E.
      apply (f_equal hex_value) in E. rewrite hex_value_digit in E; [|done]. discriminate E.
  - change (hex_fixed (S (S k)) n) with (hex_fixed (S k) (n / 16) ++ [hex_digit (n mod 16)]).
    erewrite digits16_app; [|apply IH|].
    2:{ intros E. apply (f_equal length) in E. by rewrite hex_fixed_length in E. }
    assert (n mod 16 < 16) as Hd by (apply N.mod_lt; lia).
    cbn [digits16]. rewrite bool_decide_eq_false_2.
    2:{ revert Hd. generalize (n mod 16). intros d Hd E.
        apply (f_equal hex_value) in E. rewrite hex_value_digit in E; [|done]. discriminate E. }
    rewrite hex_value_digit by done. f_equal.
    rewrite !(Nat2N.inj_succ (S k)), !N.pow_succ_r'.
    rewrite (N.Div0.mod_mul_r n 16). lia.
Qed.

Lemma remove_all_hexdash fuel p l :
  Forall (fun c => is_hex c \/ c = "-"%char) l ->
  (exists c p', p = c :: p' /\ ~ (is_hex c \/ c = "-"%char)) ->
  remove_all fuel p l = l.
Proof.
  intros Hl (c & p' & -> & Hc). revert l Hl.
  induction fuel as [|fuel IH]; intros l Hl; [by destruct l|].
  destruct l as [|x l]; [done|]. apply Forall_cons in Hl as [Hx Hl].
  cbn [remove_all]. unfold starts_with. rewrite bool_decide_eq_false_2.
  - by rewrite IH.
  - cbn. intros E. injection E as ->. by apply Hc.
Qed.

Lemma drop_while_false f (l : list ascii) :
  Forall (fun c => f c = false) l -> drop_while f l = l.
Proof. destruct l as [|c l]; [done|]. intros [Hc _]%Forall_cons. simpl. by rewrite Hc. Qed.

Lemma strip_chars_none f (l : list ascii) :
  Forall (fun c => f c = false) l -> strip_chars f l = l.
Proof.
  intros H. unfold strip_chars. rewrite (drop_while_false f l H).
  rewrite drop_while_false; [apply rev_involutive|]. by apply Forall_rev.
Qed.

Lemma filter_all (f : ascii -> bool) l :
  Forall (fun c => f c = true) l -> List.filter f l = l.
Proof. induction 1 as [|c l Hc _ IH]; [done|]. simpl. by rewrite Hc, IH. Qed.

Lemma uuid_text_chars u : Forall (fun c => is_hex c \/ c = "-"%char) (uuid_text u).
Proof.
  pose proof (hex_fixed_hex 32 (uuid_int u)) as H.
  assert (Forall (fun c => is_hex c \/ c = "-"%char) (hex_fixed 32 (uuid_int u))) as H'.
  { eapply Forall_impl; [apply H|]. by left. }
  unfold uuid_text. rewrite !Forall_app, !Forall_cons, !Forall_app, !Forall_cons, !Forall_app,
    !Forall_cons, !Forall_app, !Forall_cons.
  repeat split; auto using Forall_take, Forall_drop.
Qed.

Lemma uuid_text_no_dash u :
  List.filter (fun c => negb (bool_decide (c = "-"%char))) (uuid_text u) =
  hex_fixed 32 (uuid_int u).
Proof.
  set (h := hex_fixed 32 (uuid_int u)).
  assert (Forall (fun c => negb (bool_decide (c = "-"%char)) = true) h) as Hh.
  { eapply Forall_impl; [apply hex_fixed_hex|]. apply hex_digit_cases.
    repeat (constructor; [reflexivity|]). constructor. }
  unfold uuid_text. fold h. repeat (rewrite List.filter_app; cbn [List.filter];
    rewrite bool_decide_eq_true_2 by done; cbn [negb]).
  rewrite !filter_all by auto using Forall_take, Forall_drop.
  rewrite <-(take_drop 8 h) at 5. rewrite <-(take_drop 4 (drop 8 h)) at 2.
  rewrite <-(take_drop 4 (drop 4 (drop 8 h))), <-(take_drop 4 (drop 4 (drop 4 (drop 8 h)))).
  by rewrite !drop_drop.
Qed.

Lemma int16_hex_fixed n : n < 2 ^ 128 -> int16 (hex_fixed 32 n) = Some n.
Proof.
  intros Hn. unfold int16.
  rewrite strip_chars_none.
  2:{ eapply Forall_impl; [apply hex_fixed_hex|]. apply hex_digit_cases.
      repeat (constructor; [reflexivity|]). constructor. }
  assert (digits16 0 false (hex_fixed 32 n) = Some n) as Hd.
  { rewrite (digits16_hex_fixed 31). f_equal. change (16 ^ N.of_nat 32) with (2 ^ 128).
    rewrite N.mod_small by done. lia. }
  assert (Forall (fun c => ~ (c = "+"%char) /\ ~ (c = "x"%char \/ c = "X"%char)) (hex_fixed 32 n)) as Hh.
  { eapply Forall_impl; [apply hex_fixed_hex|]. apply hex_digit_cases.
    repeat (constructor; [split; [discriminate|by intros [|]]|]). constructor. }
  revert Hd Hh. generalize (hex_fixed 32 n). intros [|c l] Hd Hh; [done|].
  apply Forall_cons in Hh as [[Hc _] Hh]. rewrite bool_decide_eq_false_2 by done.
  destruct l as [|x r]; [done|].
  apply Forall_cons in Hh as [[_ Hx] _]. rewrite bool_decide_eq_false_2; [done|].
  by intros [_ ?].
Qed.

(** [UUID(str(u)) == u]: the id a producer writes is the id a consumer reads. *)
Lemma parse_str_uuid u : parse_uuid (str_uuid u) = Some u.
Proof.
  pose proof (uuid_text_chars u) as Hc.
  unfold parse_uuid, str_uuid, replace_empty.
  rewrite String.list_ascii_of_string_of_list_ascii.
  assert (~ (is_hex "u" \/ "u"%char = "-"%char)) as Hu.
  { intros [H|[=]]. revert H. intros H. eapply (hex_digit_cases (fun c => c <> "u"%char)) in H; [done|].
    repeat (constructor; [discriminate|]). constructor. }
  assert (forall fuel p, remove_all fuel ("u"%char :: p) (uuid_text u) = uuid_text u) as Hr.
  { intros. apply remove_all_hexdash; eauto. }
  cbn [String.list_ascii_of_string]. rewrite !Hr.
  rewrite strip_chars_none.
  2:{ eapply Forall_impl; [apply Hc|]. intros c [Hh| ->]; [|done]. revert c Hh.
      apply hex_digit_cases. repeat (constructor; [reflexivity|]). constructor. }
  rewrite uuid_text_no_dash, hex_fixed_length, int16_hex_fixed.
  - apply uuid_of_N_int.
  - apply N.ltb_lt, uuid_bound.
Qed.
End Roundtrip.
#[export] Hint Rewrite parse_str_uuid : jobs_rw.

Lemma str_uuid_inj u v : str_uuid u = str_uuid v -> u = v.
Proof. intros E. apply (f_equal parse_uuid) in E. autorewrite with jobs_rw in E. by simplify_eq. Qed.
