(* ===== verification/Model.v ===== *)
(** The data of the service: the enums of app/schemas/enums.py, JSON values, the
    exceptions the code raises and catches, the [jobs] row of app/models/job.py,
    and the settings of app/core/config.py with their stream routing. *)
From stdpp Require Import base tactics option list gmap strings numbers.
From S2P Require Import Prelude Uuid.
Set Default Goal Selector "!".
Open Scope Z_scope.

(** * Enums *)

Inductive JobType := email | webhook | report | batch.
Inductive JobStatus := scheduled | pending | processing | completed | failed | cancelled.
Inductive JobPriority := high | normal | low.
Inductive ReportType := sales | ops | weekly_summary.

#[export] Instance JobType_eq_dec : EqDecision JobType.
Proof. solve_decision. Defined.
#[export] Instance JobStatus_eq_dec : EqDecision JobStatus.
Proof. solve_decision. Defined.
#[export] Instance JobPriority_eq_dec : EqDecision JobPriority.
Proof. solve_decision. Defined.
#[export] Instance ReportType_eq_dec : EqDecision ReportType.
Proof. solve_decision. Defined.

(** The members in declaration order, as [for s in JobStatus] enumerates them. *)
Definition JobStatus_members : list JobStatus :=
  [scheduled; pending; processing; completed; failed; cancelled].

Definition JobType_value (t : JobType) : string :=
  match t with email => "email" | webhook => "webhook" | report => "report" | batch => "batch" end.
Definition JobStatus_value (s : JobStatus) : string :=
  match s with
  | scheduled => "scheduled" | pending => "pending" | processing => "processing"
  | completed => "completed" | failed => "failed" | cancelled => "cancelled"
  end.
Definition JobPriority_value (p : JobPriority) : string :=
  match p with high => "high" | normal => "normal" | low => "low" end.

(** * JSON values and exceptions *)

(** What [json.loads] and a JSONB column hold.  A float keeps its [repr]. *)
Inductive json :=
| JNull
| JBool (b : bool)
| JInt (z : Z)
| JFloat (repr : string)
| JStr (s : string)
| JArr (l : list json)
| JObj (l : list (string * json)).

(** The exceptions the modelled code raises or catches; [HTTPError] is a subclass of
    [httpx.HTTPError], [OtherError] any other subclass of [Exception], each with its
    class name. *)
Inductive exn :=
| ValueError (msg : string)
| KeyError (key : string)
| IndexError
| StopIteration
| ValidationError (msg : string)
| PayloadPolicyError (msg : string)
| IntegrityError
| MultipleResultsFound
| ResponseError (msg : string)
| WebhookFailedError (msg : string)
| JobCancelled (summary : json)
| HandlerTimeout
| CancelledError
| HTTPError (class_name : string)
| TokenReviewUnavailable (msg : string)
| HTTPException (status_code : Z) (detail : string)
| OutOfFuel
| OtherError (class_name msg : string).

(** [type(exc).__name__] *)
Definition exn_name (e : exn) : string :=
  match e with
  | ValueError _ => "ValueError" | KeyError _ => "KeyError" | IndexError => "IndexError"
  | StopIteration => "StopIteration"
  | ValidationError _ => "ValidationError" | PayloadPolicyError _ => "PayloadPolicyError"
  | IntegrityError => "IntegrityError" | MultipleResultsFound => "MultipleResultsFound"
  | ResponseError _ => "ResponseError" | WebhookFailedError _ => "WebhookFailedError"
  | JobCancelled _ => "JobCancelled" | HandlerTimeout => "HandlerTimeout"
  | CancelledError => "CancelledError"
  | HTTPError c => c
  | TokenReviewUnavailable _ => "TokenReviewUnavailable"
  | HTTPException _ _ => "HTTPException" | OutOfFuel => "OutOfFuel"
  | OtherError c _ => c
  end.

(** [str(exc)] *)
Definition exn_str (e : exn) : string :=
  match e with
  | ValueError m | KeyError m | ValidationError m | PayloadPolicyError m
  | ResponseError m | WebhookFailedError m | TokenReviewUnavailable m
  | OtherError _ m => m
  | JobCancelled _ => "job cancelled"
  | HTTPException _ d => d
  | _ => ""
  end.

(** A Python [dict[str, str]]: message fields and trace carriers. *)
Abbreviation fields := (gmap string string).

(** A datetime as parsed: the clock reading in µs, and the offset if it has one. *)
Record raw_datetime := mkRaw { raw_reading : Z; raw_offset : option Z }.

(** * The jobs row *)

Record Job := mkJob {
  j_id : uuid;
  j_user_id : option uuid;
  j_user_name : option string;
  j_type : JobType;
  j_payload : json;
  j_status : JobStatus;
  j_priority : JobPriority;
  j_result : option json;
  j_error : option json;
  j_attempts : Z;
  j_max_attempts : Z;
  j_created_at : datetime;
  j_started_at : option datetime;
  j_completed_at : option datetime;
  j_scheduled_at : option datetime;
  j_is_synced_to_redis : bool;
  j_progress : option Z;
  j_cancel_requested_at : option datetime;
  j_idempotency_key : option string;
  j_idempotency_hash : option string;
  j_trace_context : option fields;
}.

(** The columns an UPDATE of the repository may set.  Each setter is written over
    the whole row so that the columns it leaves alone are visibly the same. *)
Definition set_status (v : JobStatus) (j : Job) : Job :=
  mkJob (j_id j) (j_user_id j) (j_user_name j) (j_type j) (j_payload j) v (j_priority j)
    (j_result j) (j_error j) (j_attempts j) (j_max_attempts j) (j_created_at j) (j_started_at j)
    (j_completed_at j) (j_scheduled_at j) (j_is_synced_to_redis j) (j_progress j)
    (j_cancel_requested_at j) (j_idempotency_key j) (j_idempotency_hash j) (j_trace_context j).
Definition set_result (v : option json) (j : Job) : Job :=
  mkJob (j_id j) (j_user_id j) (j_user_name j) (j_type j) (j_payload j) (j_status j) (j_priority j)
    v (j_error j) (j_attempts j) (j_max_attempts j) (j_created_at j) (j_started_at j)
    (j_completed_at j) (j_scheduled_at j) (j_is_synced_to_redis j) (j_progress j)
    (j_cancel_requested_at j) (j_idempotency_key j) (j_idempotency_hash j) (j_trace_context j).
Definition set_error (v : option json) (j : Job) : Job :=
  mkJob (j_id j) (j_user_id j) (j_user_name j) (j_type j) (j_payload j) (j_status j) (j_priority j)
    (j_result j) v (j_attempts j) (j_max_attempts j) (j_created_at j) (j_started_at j)
    (j_completed_at j) (j_scheduled_at j) (j_is_synced_to_redis j) (j_progress j)
    (j_cancel_requested_at j) (j_idempotency_key j) (j_idempotency_hash j) (j_trace_context j).
Definition set_attempts (v : Z) (j : Job) : Job :=
  mkJob (j_id j) (j_user_id j) (j_user_name j) (j_type j) (j_payload j) (j_status j) (j_priority j)
    (j_result j) (j_error j) v (j_max_attempts j) (j_created_at j) (j_started_at j)
    (j_completed_at j) (j_scheduled_at j) (j_is_synced_to_redis j) (j_progress j)
    (j_cancel_requested_at j) (j_idempotency_key j) (j_idempotency_hash j) (j_trace_context j).
Definition set_started_at (v : option datetime) (j : Job) : Job :=
  mkJob (j_id j) (j_user_id j) (j_user_name j) (j_type j) (j_payload j) (j_status j) (j_priority j)
    (j_result j) (j_error j) (j_attempts j) (j_max_attempts j) (j_created_at j) v
    (j_completed_at j) (j_scheduled_at j) (j_is_synced_to_redis j) (j_progress j)
    (j_cancel_requested_at j) (j_idempotency_key j) (j_idempotency_hash j) (j_trace_context j).
Definition set_completed_at (v : option datetime) (j : Job) : Job :=
  mkJob (j_id j) (j_user_id j) (j_user_name j) (j_type j) (j_payload j) (j_status j) (j_priority j)
    (j_result j) (j_error j) (j_attempts j) (j_max_attempts j) (j_created_at j) (j_started_at j)
    v (j_scheduled_at j) (j_is_synced_to_redis j) (j_progress j)
    (j_cancel_requested_at j) (j_idempotency_key j) (j_idempotency_hash j) (j_trace_context j).
Definition set_scheduled_at (v : option datetime) (j : Job) : Job :=
  mkJob (j_id j) (j_user_id j) (j_user_name j) (j_type j) (j_payload j) (j_status j) (j_priority j)
    (j_result j) (j_error j) (j_attempts j) (j_max_attempts j) (j_created_at j) (j_started_at j)
    (j_completed_at j) v (j_is_synced_to_redis j) (j_progress j)
    (j_cancel_requested_at j) (j_idempotency_key j) (j_idempotency_hash j) (j_trace_context j).
Definition set_is_synced_to_redis (v : bool) (j : Job) : Job :=
  mkJob (j_id j) (j_user_id j) (j_user_name j) (j_type j) (j_payload j) (j_status j) (j_priority j)
    (j_result j) (j_error j) (j_attempts j) (j_max_attempts j) (j_created_at j) (j_started_at j)
    (j_completed_at j) (j_scheduled_at j) v (j_progress j)
    (j_cancel_requested_at j) (j_idempotency_key j) (j_idempotency_hash j) (j_trace_context j).
Definition set_progress (v : option Z) (j : Job) : Job :=
  mkJob (j_id j) (j_user_id j) (j_user_name j) (j_type j) (j_payload j) (j_status j) (j_priority j)
    (j_result j) (j_error j) (j_attempts j) (j_max_attempts j) (j_created_at j) (j_started_at j)
    (j_completed_at j) (j_scheduled_at j) (j_is_synced_to_redis j) v
    (j_cancel_requested_at j) (j_idempotency_key j) (j_idempotency_hash j) (j_trace_context j).
Definition set_cancel_requested_at (v : option datetime) (j : Job) : Job :=
  mkJob (j_id j) (j_user_id j) (j_user_name j) (j_type j) (j_payload j) (j_status j) (j_priority j)
    (j_result j) (j_error j) (j_attempts j) (j_max_attempts j) (j_created_at j) (j_started_at j)
    (j_completed_at j) (j_scheduled_at j) (j_is_synced_to_redis j) (j_progress j)
    v (j_idempotency_key j) (j_idempotency_hash j) (j_trace_context j).

(** [Job.status.in_([...])] *)
Definition status_in (ss : list JobStatus) (j : Job) : bool := bool_decide (j_status j ∈ ss).

(** * Settings *)

(** The settings the modelled code reads.  Float seconds are microseconds. *)
Record Settings := mkSettings {
  database_url : string;
  redis_url : string;
  stream_high : string;
  stream_normal : string;
  stream_low : string;
  consumer_group : string;
  block_ms : Z;
  delayed_zset : string;
  ticker_interval_s : duration;
  ticker_batch_size : nat;
  reconcile_interval_s : duration;
  reconcile_grace_s : duration;
  reconcile_batch_size : nat;
  log_level : string;
  job_handler_timeout_s : duration;
  visibility_timeout_s : duration;
  reaper_interval_s : duration;
  reaper_batch_size : nat;
  max_attempts : Z;
  retry_backoff_schedule : list Z;
  cancel_poll_interval_s : duration;
  worker_concurrency : nat;
  db_pool_size : Z;
  db_disable_prepared_statements : bool;
  worker_max_rss_mb : option Z;
  auth_cache_ttl_s : duration;
  auth_tokenreview_url : string;
  auth_sa_token_file : string;
  auth_ca_file : string;
  auth_required_group : string;
  auth_timeout_s : duration;
  otel_enabled : bool;
  otel_exporter_otlp_endpoint : string;
  health_port : option Z;
  rate_limit_enabled : bool;
  submit_rate_limit_per_min : Z;
  control_rate_limit_per_min : Z;
  read_rate_limit_per_min : Z;
  stats_rate_limit_per_min : Z;
  forwarded_allow_ips : string;
  webhook_allowed_hosts : list string;
  email_allowed_domains : list string;
  max_request_body_bytes : Z;
}.

(** The defaults of the class body, with the two fields that have none. *)
Definition settings_for (db_url rd_url : string) : Settings := {|
  database_url := db_url;
  redis_url := rd_url;
  stream_high := "jobs:stream:high";
  stream_normal := "jobs:stream:normal";
  stream_low := "jobs:stream:low";
  consumer_group := "workers";
  block_ms := 5000;
  delayed_zset := "jobs:delayed";
  ticker_interval_s := seconds 1;
  ticker_batch_size := 100;
  reconcile_interval_s := seconds 60;
  reconcile_grace_s := seconds 10;
  reconcile_batch_size := 500;
  log_level := "INFO";
  job_handler_timeout_s := seconds 45;
  visibility_timeout_s := seconds 60;
  reaper_interval_s := seconds 30;
  reaper_batch_size := 100;
  max_attempts := 4;
  retry_backoff_schedule := [0; 30; 120];
  cancel_poll_interval_s := seconds 2;
  worker_concurrency := 10;
  db_pool_size := 5;
  db_disable_prepared_statements := false;
  worker_max_rss_mb := None;
  auth_cache_ttl_s := seconds 60;
  auth_tokenreview_url := "https://kubernetes.default.svc/apis/authentication.k8s.io/v1/tokenreviews";
  auth_sa_token_file := "/var/run/secrets/kubernetes.io/serviceaccount/token";
  auth_ca_file := "/var/run/secrets/kubernetes.io/serviceaccount/ca.crt";
  auth_required_group := "jobprocessor-users";
  auth_timeout_s := seconds 2;
  otel_enabled := false;
  otel_exporter_otlp_endpoint := "http://localhost:4317";
  health_port := None;
  rate_limit_enabled := true;
  submit_rate_limit_per_min := 20;
  control_rate_limit_per_min := 30;
  read_rate_limit_per_min := 120;
  stats_rate_limit_per_min := 30;
  forwarded_allow_ips := "127.0.0.1";
  webhook_allowed_hosts := [];
  email_allowed_domains := [];
  max_request_body_bytes := 262144;
|}.

Definition default_settings : Settings := settings_for "" "".

(** The model validator: a worker gives a job up before the reaper calls it stale. *)
Definition check_timeout_invariant (s : Settings) : exn + Settings :=
  if visibility_timeout_s s <=? job_handler_timeout_s s
  then inl (ValueError "job_handler_timeout_s must be < visibility_timeout_s")
  else inr s.

Definition ordered_streams (s : Settings) : list string :=
  [stream_high s; stream_normal s; stream_low s].

Definition priority_streams (s : Settings) : list (JobPriority * string) :=
  [(high, stream_high s); (normal, stream_normal s); (low, stream_low s)].

(** [dict(self.priority_streams)[priority]]; every priority is a key. *)
Definition stream_for_priority (s : Settings) (p : JobPriority) : string :=
  default "" (dict_get p (priority_streams s)).

Lemma stream_for_priority_ordered (s : Settings) (p : JobPriority) :
  stream_for_priority s p ∈ ordered_streams s.
Proof. destruct p; set_solver. Qed.

(** ** Setters leave the key columns alone *)

(** The columns that identify a row or carry a unique index, and the owner. *)
Definition j_key (j : Job) : uuid * option uuid * option string :=
  (j_id j, j_user_id j, j_idempotency_key j).

Definition keeps_key (f : Job -> Job) : Prop := forall j, j_key (f j) = j_key j.

Lemma keeps_key_id f j : keeps_key f -> j_id (f j) = j_id j.
Proof. intros H. specialize (H j). unfold j_key in H. congruence. Qed.
