(* ===== verification/Codecs.v ===== *)
(** Text codecs of the Python standard library that cursors and tokens go through:
    [base64] with the URL-safe alphabet, UTF-8, and the decoding of JSON bytes.

    A Python [str] is a list of code points, [bytes] a list of numbers below 256.
    A decoder answers [None] where Python raises a [ValueError] (of which
    [binascii.Error] and [UnicodeDecodeError] are subclasses). *)
From stdpp Require Import base tactics option list numbers.
From Stdlib Require Import Ascii.
From S2P Require Import Prelude.
Set Default Goal Selector "!".
Open Scope N_scope.

Abbreviation pystr := (list N) (only parsing).
Abbreviation bytes := (list N) (only parsing).

(** The code points of a string literal. *)
Definition points (s : string) : pystr := N_of_ascii <$> String.list_ascii_of_string s.

Lemma lt_cases (P : N -> Prop) (n : nat) :
  Forall P (map N.of_nat (seq 0 n)) -> forall d, d < N.of_nat n -> P d.
Proof.
  intros HP d Hd. rewrite Forall_forall in HP. apply HP, list_elem_of_In, in_map_iff.
  exists (N.to_nat d). split; [lia|]. apply in_seq. lia.
Qed.

(** * Base64 *)

(** [base64.urlsafe_b64encode]: the standard alphabet with ['-'] and ['_']. *)
Definition b64_symbol (d : N) : N :=
  if d <? 26 then 65 + d else if d <? 52 then 71 + d else if d <? 62 then d - 4
  else if d =? 62 then 45 else 95.

(** [base64.urlsafe_b64decode] translates ['-'] and ['_'] to ['+'] and ['/'], so it
    accepts both spellings. *)
Definition b64_value (c : N) : option N :=
  if (65 <=? c) && (c <=? 90) then Some (c - 65)
  else if (97 <=? c) && (c <=? 122) then Some (c - 71)
  else if (48 <=? c) && (c <=? 57) then Some (c + 4)
  else if (c =? 45) || (c =? 43) then Some 62
  else if (c =? 95) || (c =? 47) then Some 63
  else None.

Definition b64_pad : N := 61.

Fixpoint urlsafe_b64encode (l : bytes) : bytes :=
  match l with
  | [] => []
  | [a] => [b64_symbol (a / 4); b64_symbol (a mod 4 * 16); b64_pad; b64_pad]
  | [a; b] =>
      [b64_symbol (a / 4); b64_symbol (a mod 4 * 16 + b / 16); b64_symbol (b mod 16 * 4); b64_pad]
  | a :: b :: c :: l' =>
      b64_symbol (a / 4) :: b64_symbol (a mod 4 * 16 + b / 16) ::
      b64_symbol (b mod 16 * 4 + c / 64) :: b64_symbol (c mod 64) :: urlsafe_b64encode l'
  end.

(** [binascii.a2b_base64] in its lenient mode: [quad] symbols of the current group
    of four are read, [left] holds their bits not yet written, [pads] counts the
    padding signs since the last symbol; other characters are skipped. *)
Fixpoint a2b (quad left pads : N) (l : bytes) : option bytes :=
  match l with
  | [] => if quad =? 0 then Some [] else None
  | c :: l' =>
      if c =? b64_pad then
        if 2 <=? quad then
          if 4 <=? quad + (pads + 1) then Some [] else a2b quad left (pads + 1) l'
        else a2b quad left pads l'
      else match b64_value c with
      | None => a2b quad left pads l'
      | Some v =>
          if quad =? 0 then a2b 1 v 0 l'
          else if quad =? 1 then cons (left * 4 + v / 16) <$> a2b 2 (v mod 16) 0 l'
          else if quad =? 2 then cons (left * 16 + v / 4) <$> a2b 3 (v mod 4) 0 l'
          else cons (left * 64 + v) <$> a2b 0 0 0 l'
      end
  end.

Definition urlsafe_b64decode (l : bytes) : option bytes := a2b 0 0 0 l.

Definition is_byte (b : N) : Prop := b < 256.

Lemma b64_symbol_cases d :
  d < 64 -> b64_value (b64_symbol d) = Some d /\ (b64_symbol d =? b64_pad) = false.
Proof.
  revert d. apply (lt_cases _ 64). repeat (constructor; [by split|]). constructor.
Qed.

Lemma a2b_symbol quad left pads d l :
  d < 64 ->
  a2b quad left pads (b64_symbol d :: l) =
    if quad =? 0 then a2b 1 d 0 l
    else if quad =? 1 then cons (left * 4 + d / 16) <$> a2b 2 (d mod 16) 0 l
    else if quad =? 2 then cons (left * 16 + d / 4) <$> a2b 3 (d mod 4) 0 l
    else cons (left * 64 + d) <$> a2b 0 0 0 l.
Proof. intros [Hv Hp]%b64_symbol_cases. cbn [a2b]. by rewrite Hp, Hv. Qed.

Lemma byte_groups (P : bytes -> Prop) :
  P [] -> (forall a, P [a]) -> (forall a b, P [a; b]) ->
  (forall a b c l, P l -> P (a :: b :: c :: l)) -> forall l, P l.
Proof.
  intros H0 H1 H2 H3. fix go 1. intros [|a [|b [|c l]]]; [done..|]. apply H3, go.
Qed.

(** Linear arithmetic with quotients and remainders by constants. *)
Ltac by_div := zify; Z.to_euclidean_division_equations; lia.

Ltac b64_step :=
  rewrite a2b_symbol by (by_div); cbn [N.eqb Pos.eqb].

Lemma b64_roundtrip (l : bytes) :
  Forall is_byte l -> urlsafe_b64decode (urlsafe_b64encode l) = Some l.
Proof.
  unfold urlsafe_b64decode, is_byte. pattern l. revert l. apply byte_groups; [done|..].
  - intros a. rewrite !Forall_cons. intros (Ha & _). cbn [urlsafe_b64encode].
    do 2 b64_step. simpl. do 2 f_equal. by_div.
  - intros a b. rewrite !Forall_cons. intros (Ha & Hb & _). cbn [urlsafe_b64encode].
    do 3 b64_step. simpl. do 2 f_equal; [|f_equal]; by_div.
  - intros a b c l' IH. rewrite !Forall_cons. intros (Ha & Hb & Hc & Hl). cbn [urlsafe_b64encode].
    do 4 b64_step. rewrite (IH Hl). simpl.
    do 2 f_equal; [|f_equal; [|f_equal]]; by_div.
Qed.

(** * Unicode encodings *)

Definition is_surrogate (c : N) : bool := (0xD800 <=? c) && (c <=? 0xDFFF).

Definition utf8_char (c : N) : bytes :=
  if c <? 0x80 then [c]
  else if c <? 0x800 then [0xC0 + c / 64; 0x80 + c mod 64]
  else if c <? 0x10000 then [0xE0 + c / 4096; 0x80 + c / 64 mod 64; 0x80 + c mod 64]
  else [0xF0 + c / 262144; 0x80 + c / 4096 mod 64; 0x80 + c / 64 mod 64; 0x80 + c mod 64].

(** [s.encode()]; a lone surrogate is a [UnicodeEncodeError]. *)
Fixpoint utf8_encode (s : pystr) : option bytes :=
  match s with
  | [] => Some []
  | c :: s' => if is_surrogate c then None else app (utf8_char c) <$> utf8_encode s'
  end.

Definition is_cont (b : N) : bool := (0x80 <=? b) && (b <=? 0xBF).

(** [b.decode('utf-8', 'surrogatepass')]: no overlong form, nothing above U+10FFFF. *)
Fixpoint utf8_decode (l : bytes) : option pystr :=
  match l with
  | [] => Some []
  | a :: l1 =>
      if a <? 0x80 then cons a <$> utf8_decode l1
      else match l1 with
      | b :: l2 =>
          if is_cont b then
            if (0xC2 <=? a) && (a <=? 0xDF) then cons ((a - 0xC0) * 64 + (b - 0x80)) <$> utf8_decode l2
            else match l2 with
            | c :: l3 =>
                if is_cont c then
                  if (0xE0 <=? a) && (a <=? 0xEF) then
                    let p := (a - 0xE0) * 4096 + (b - 0x80) * 64 + (c - 0x80) in
                    if p <? 0x800 then None else cons p <$> utf8_decode l3
                  else match l3 with
                  | d :: l4 =>
                      if is_cont d && (0xF0 <=? a) && (a <=? 0xF4) then
                        let p := (a - 0xF0) * 262144 + (b - 0x80) * 4096 + (c - 0x80) * 64 + (d - 0x80) in
                        if (p <? 0x10000) || (0x10FFFF <? p) then None else cons p <$> utf8_decode l4
                      else None
                  | [] => None
                  end
                else None
            | [] => None
            end
          else None
      | [] => None
      end
  end.

(** The code units of UTF-16 and UTF-32, [hi] telling the byte order. *)
Fixpoint units16 (hi : bool) (l : bytes) : option (list N) :=
  match l with
  | [] => Some []
  | a :: b :: l' => cons (if hi then a * 256 + b else b * 256 + a) <$> units16 hi l'
  | _ => None
  end.

Fixpoint units32 (hi : bool) (l : bytes) : option (list N) :=
  match l with
  | [] => Some []
  | a :: b :: c :: d :: l' =>
      cons (if hi then ((a * 256 + b) * 256 + c) * 256 + d else ((d * 256 + c) * 256 + b) * 256 + a)
        <$> units32 hi l'
  | _ => None
  end.

Definition is_high (u : N) : bool := (0xD800 <=? u) && (u <=? 0xDBFF).
Definition is_low (u : N) : bool := (0xDC00 <=? u) && (u <=? 0xDFFF).
Definition join_pair (u v : N) : N := 0x10000 + (u - 0xD800) * 1024 + (v - 0xDC00).

(** A surrogate without its partner passes. *)
Fixpoint join_surrogates (us : list N) : pystr :=
  match us with
  | [] => []
  | u :: us' =>
      match us' with
      | v :: us'' => if is_high u && is_low v then join_pair u v :: join_surrogates us''
                     else u :: join_surrogates us'
      | [] => [u]
      end
  end.

Definition utf16_decode (hi : bool) (l : bytes) : option pystr := join_surrogates <$> units16 hi l.
Definition utf32_decode (hi : bool) (l : bytes) : option pystr :=
  us ← units32 hi l; if forallb (fun u => u <=? 0x10FFFF) us then Some us else None.

(** [b.decode(json.detect_encoding(b), 'surrogatepass')] *)
Definition json_text (b : bytes) : option pystr :=
  match b with
  | 0 :: 0 :: 0xFE :: 0xFF :: l => utf32_decode true l
  | 0xFF :: 0xFE :: 0 :: 0 :: l => utf32_decode false l
  | 0xFE :: 0xFF :: l => utf16_decode true l
  | 0xFF :: 0xFE :: l => utf16_decode false l
  | 0xEF :: 0xBB :: 0xBF :: l => utf8_decode l
  | b0 :: b1 :: b2 :: b3 :: _ =>
      if b0 =? 0 then (if b1 =? 0 then utf32_decode true b else utf16_decode true b)
      else if b1 =? 0 then
        (if (b2 =? 0) && (b3 =? 0) then utf32_decode false b else utf16_decode false b)
      else utf8_decode b
  | [b0; b1] =>
      if b0 =? 0 then utf16_decode true b else if b1 =? 0 then utf16_decode false b else utf8_decode b
  | _ => utf8_decode b
  end.

(** ** ASCII text *)

(** Characters that every codec here leaves alone. *)
Definition is_plain (c : N) : Prop := 32 <= c < 127.

Lemma utf8_plain s : Forall is_plain s -> utf8_encode s = Some s.
Proof.
  unfold is_plain. induction 1 as [|c s Hc _ IH]; [done|]. cbn [utf8_encode].
  unfold is_surrogate, utf8_char.
  rewrite (proj2 (N.leb_gt _ _)) by lia. cbn [andb]. rewrite (proj2 (N.ltb_lt c 0x80)) by lia.
  by rewrite IH.
Qed.

Lemma utf8_decode_plain s : Forall is_plain s -> utf8_decode s = Some s.
Proof.
  unfold is_plain. induction 1 as [|c s Hc _ IH]; [done|]. cbn [utf8_decode].
  rewrite (proj2 (N.ltb_lt c 0x80)) by lia. by rewrite IH.
Qed.

Lemma is_plain_byte s : Forall is_plain s -> Forall is_byte s.
Proof. intros H. eapply Forall_impl; [done|]. unfold is_plain, is_byte. intros. lia. Qed.

Lemma b64_symbol_plain d : is_plain (b64_symbol d).
Proof. unfold is_plain, b64_symbol. repeat case_match; simp_bool; lia. Qed.

Lemma b64_plain l : Forall is_plain (urlsafe_b64encode l).
Proof.
  pattern l. revert l. apply byte_groups.
  - constructor.
  - intros. cbn [urlsafe_b64encode]. repeat constructor; apply b64_symbol_plain || done.
  - intros. cbn [urlsafe_b64encode]. repeat constructor; apply b64_symbol_plain || done.
  - intros. cbn [urlsafe_b64encode]. repeat constructor; apply b64_symbol_plain || done.
Qed.
