(* ===== verification/Schema.v ===== *)
(** The database's schema and the statements that change it, as the migrations of
    alembic/versions use them.

    A catalog is the schema (enum types, tables, indexes, foreign keys) with the
    rows of each table.  [effect] is what PostgreSQL documents each statement to
    do: [schema_effect] is its part on the schema, with the errors for objects that
    are missing, already there or still in use, and [data_effect] its part on the
    rows, with the errors for rows that break a constraint.  The [Ddl] interface is
    a database that behaves so; Reference instance [Catalogs] is the catalog itself.

    [effect_ok] is type safety: a statement keeps every row typed by its table and
    every constraint satisfied. *)
From stdpp Require Import base tactics option list gmap strings numbers.
From S2P Require Import Prelude Uuid Model.
Set Default Goal Selector "!".
Open Scope Z_scope.

(** * Values and schemas *)

Inductive coltype := TUuid | TJsonb | TTimestamptz | TInteger | TText | TBoolean | TEnum (name : string).
#[export] Instance coltype_eq_dec : EqDecision coltype.
Proof. solve_decision. Defined.

Definition json_dec : forall a b : json, {a = b} + {a <> b}.
Proof.
  fix json_dec 1. intros [] []; try (right; congruence).
  - by left.
  - destruct (decide (b = b0)); [left|right]; congruence.
  - destruct (decide (z = z0)); [left|right]; congruence.
  - destruct (decide (repr = repr0)); [left|right]; congruence.
  - destruct (decide (s = s0)); [left|right]; congruence.
  - destruct (List.list_eq_dec json_dec l l0); [left|right]; congruence.
  - assert ({l = l0} + {l <> l0}) as [|]; [|left; congruence|right; congruence].
    apply List.list_eq_dec. intros [k v] [k' v'].
    destruct (decide (k = k')); [|right; congruence].
    destruct (json_dec v v'); [left|right]; congruence.
Defined.
#[export] Instance json_eq_dec : EqDecision json := json_dec.

(** A cell; the label of an enum stands for its value. *)
Inductive value :=
| VNull
| VUuid (u : uuid)
| VJson (j : json)
| VTime (t : datetime)
| VInt (z : Z)
| VText (s : string)
| VBool (b : bool)
| VEnum (label : string).
#[export] Instance value_eq_dec : EqDecision value.
Proof. solve_decision. Defined.

(** A server default: a literal, or a call such as [now()]. *)
Inductive default_expr := Const (v : value) | Call (function : string).
#[export] Instance default_expr_eq_dec : EqDecision default_expr.
Proof. solve_decision. Defined.

Record column := Column {
  c_name : string;
  c_type : coltype;
  c_nullable : bool;
  c_primary : bool;
  c_default : option default_expr;
}.
#[export] Instance column_eq_dec : EqDecision column.
Proof. solve_decision. Defined.

(** The condition of a partial index. *)
Inductive predicate :=
| NotNull (col : string)
| IsFalse (col : string)
| OneOf (col : string) (labels : list string)
| Both (p q : predicate).
#[export] Instance predicate_eq_dec : EqDecision predicate.
Proof. solve_decision. Defined.

Record index := Index {
  ix_name : string;
  ix_table : string;
  ix_columns : list string;
  ix_unique : bool;
  ix_where : option predicate;
}.
#[export] Instance index_eq_dec : EqDecision index.
Proof. solve_decision. Defined.

(** A foreign key on one column; deleting the row referred to sets it to null. *)
Record fkey := ForeignKey {
  fk_name : string;
  fk_table : string;
  fk_ref_table : string;
  fk_column : string;
  fk_ref_column : string;
}.
#[export] Instance fkey_eq_dec : EqDecision fkey.
Proof. solve_decision. Defined.

Record Schema := mkSchema {
  s_enums : list (string * list string);
  s_tables : list (string * list column);
  s_indexes : list index;
  s_fkeys : list fkey;
}.

Abbreviation row := (gmap string value).
Abbreviation contents := (list (string * list row)).

Record Catalog := mkCatalog { schema : Schema; data : contents }.

Definition set_enums e (s : Schema) := mkSchema e (s_tables s) (s_indexes s) (s_fkeys s).
Definition set_tables t (s : Schema) := mkSchema (s_enums s) t (s_indexes s) (s_fkeys s).
Definition set_indexes i (s : Schema) := mkSchema (s_enums s) (s_tables s) i (s_fkeys s).
Definition set_fkeys f (s : Schema) := mkSchema (s_enums s) (s_tables s) (s_indexes s) f.

Definition rows_of (d : contents) (t : string) : list row := default [] (od_get t d).

(** * Statements *)

Inductive statement :=
| create_enum (name : string) (labels : list string)     (** [ENUM.create(checkfirst=True)] *)
| drop_enum (name : string)                              (** [ENUM.drop(checkfirst=True)] *)
| add_enum_value (name label : string)                   (** [ALTER TYPE .. ADD VALUE IF NOT EXISTS] *)
| create_table (name : string) (columns : list column)
| drop_table (name : string)
| add_column (table : string) (c : column)
| drop_column (table name : string)
| create_index (ix : index)
| drop_index (name : string)
| create_foreign_key (fk : fkey)
| drop_constraint (name : string)
| update_all (table col : string) (v : value).           (** [UPDATE table SET col = v] *)

Definition sql_error {A} (class_name : string) : exn + A := inl (OtherError class_name "").

(** ** The rows *)

Definition set_cell (n : string) (v : value) (l : list row) : list row := <[n := v]> <$> l.
Definition del_cell (n : string) (l : list row) : list row := delete n <$> l.

Definition cell (r : row) (n : string) : value := default VNull (r !! n).

(** The key of a row in an index: none when a column is null, as nulls are distinct. *)
Definition row_key (cols : list string) (r : row) : option (list value) :=
  let k := cell r <$> cols in if decide (VNull ∈ k) then None else Some k.

Fixpoint selects (p : predicate) (r : row) : bool :=
  match p with
  | NotNull n => negb (bool_decide (cell r n = VNull))
  | IsFalse n => bool_decide (cell r n = VBool false)
  | OneOf n ls => bool_decide (cell r n ∈ VEnum <$> ls)
  | Both p q => selects p r && selects q r
  end.

Definition keys_of (cols : list string) (where_ : option predicate) (l : list row) : list (list value) :=
  omap (fun r => if default true ((fun p => selects p r) <$> where_) then row_key cols r else None) l.

Definition unique_in (cols : list string) (where_ : option predicate) (l : list row) : bool :=
  bool_decide (NoDup (keys_of cols where_ l)).

(** Every cell of [col] that is not null is a [ref_col] of [refs]. *)
Definition refs_in (col : string) (l : list row) (ref_col : string) (refs : list row) : bool :=
  bool_decide (Forall (fun r => cell r col = VNull \/ cell r col ∈ (fun r => cell r ref_col) <$> refs) l).

(** Whether a column may hold a value.  INTEGER is unbounded here, 32 bits wide in
    PostgreSQL: the program's integers are attempts, counted up to a setting, and
    percentages. *)
Definition fits (enums : list (string * list string)) (c : column) (v : value) : bool :=
  match v, c_type c with
  | VNull, _ => c_nullable c
  | VUuid _, TUuid | VJson _, TJsonb | VTime _, TTimestamptz | VInt _, TInteger
  | VText _, TText | VBool _, TBoolean => true
  | VEnum l, TEnum n => match od_get n enums with Some ls => bool_decide (l ∈ ls) | None => false end
  | _, _ => false
  end.

Definition primary_key (cols : list column) : list string := c_name <$> filter (fun c => c_primary c = true) cols.

(** Every unique index, primary key and foreign key holds. *)
Definition index_holds (d : contents) (ix : index) : bool :=
  negb (ix_unique ix) || unique_in (ix_columns ix) (ix_where ix) (rows_of d (ix_table ix)).
Definition key_holds (d : contents) (t : string * list column) : bool :=
  bool_decide (primary_key t.2 = []) || unique_in (primary_key t.2) None (rows_of d t.1).
Definition fkey_holds (d : contents) (fk : fkey) : bool :=
  refs_in (fk_column fk) (rows_of d (fk_table fk)) (fk_ref_column fk) (rows_of d (fk_ref_table fk)).
Definition holds (s : Schema) (d : contents) : bool :=
  forallb (index_holds d) (s_indexes s) && forallb (key_holds d) (s_tables s) &&
  forallb (fkey_holds d) (s_fkeys s).

(** ** On the schema *)

Fixpoint predicate_columns (p : predicate) : list string :=
  match p with
  | NotNull n | IsFalse n | OneOf n _ => [n]
  | Both p q => predicate_columns p ++ predicate_columns q
  end.
Definition index_mentions (ix : index) : list string :=
  ix_columns ix ++ default [] (predicate_columns <$> ix_where ix).

Definition has_type (s : Schema) (c : column) : bool :=
  match c_type c with TEnum n => bool_decide (is_Some (od_get n (s_enums s))) | _ => true end.

Definition has_columns (s : Schema) (t : string) (cols : list string) : bool :=
  match od_get t (s_tables s) with
  | Some cs => bool_decide (Forall (fun n => n ∈ c_name <$> cs) cols)
  | None => false
  end.

(** Some column has the enum type [n]. *)
Definition in_use (n : string) (s : Schema) : bool :=
  existsb (fun t => existsb (fun c => bool_decide (c_type c = TEnum n)) t.2) (s_tables s).

(** A primary key goes with any of its columns. *)
Definition without_column (n : string) (cs : list column) : list column :=
  let rest := filter (fun c => c_name c <> n) cs in
  if decide (n ∈ primary_key cs)
  then (fun c => Column (c_name c) (c_type c) (c_nullable c) false (c_default c)) <$> rest else rest.

(** A foreign key refers to a primary key or a unique index. *)
Definition has_key (s : Schema) (t col : string) : bool :=
  match od_get t (s_tables s) with Some cs => bool_decide (primary_key cs = [col]) | None => false end ||
  existsb (fun i => bool_decide (ix_table i = t /\ ix_columns i = [col] /\ ix_where i = None) && ix_unique i) (s_indexes s).

Definition schema_effect (o : statement) (s : Schema) : exn + Schema :=
  match o with
  | create_enum n labels =>
      match od_get n (s_enums s) with
      | Some _ => inr s
      | None => inr (set_enums (od_set n labels (s_enums s)) s)
      end
  | drop_enum n =>
      if in_use n s then sql_error "DependentObjectsStillExist"
      else inr (set_enums (od_del n (s_enums s)) s)
  | add_enum_value n l =>
      match od_get n (s_enums s) with
      | None => sql_error "UndefinedObject"
      | Some ls => inr (if decide (l ∈ ls) then s else set_enums (od_set n (ls ++ [l]) (s_enums s)) s)
      end
  | create_table n cols =>
      match od_get n (s_tables s) with
      | Some _ => sql_error "DuplicateTable"
      | None => if forallb (has_type s) cols then inr (set_tables (od_set n cols (s_tables s)) s)
                else sql_error "UndefinedObject"
      end
  | drop_table n =>
      match od_get n (s_tables s) with
      | None => sql_error "UndefinedTable"
      | Some _ =>
          if existsb (fun f => bool_decide (fk_ref_table f = n /\ fk_table f <> n)) (s_fkeys s)
          then sql_error "DependentObjectsStillExist"
          else inr (mkSchema (s_enums s) (od_del n (s_tables s))
                      (filter (fun i => ix_table i <> n) (s_indexes s))
                      (filter (fun f => fk_table f <> n) (s_fkeys s)))
      end
  | add_column t c =>
      match od_get t (s_tables s) with
      | None => sql_error "UndefinedTable"
      | Some cs =>
          if decide (c_name c ∈ c_name <$> cs) then sql_error "DuplicateColumn"
          else if c_primary c then sql_error "InvalidTableDefinition"
          else if has_type s c then inr (set_tables (od_set t (cs ++ [c]) (s_tables s)) s)
          else sql_error "UndefinedObject"
      end
  | drop_column t n =>
      match od_get t (s_tables s) with
      | None => sql_error "UndefinedTable"
      | Some cs =>
          if negb (has_columns s t [n]) then sql_error "UndefinedColumn"
          else if existsb (fun f => bool_decide (fk_ref_table f = t /\ fk_ref_column f = n)) (s_fkeys s)
          then sql_error "DependentObjectsStillExist"
          else inr (mkSchema (s_enums s) (od_set t (without_column n cs) (s_tables s))
                      (filter (fun i => ~ (ix_table i = t /\ n ∈ index_mentions i)) (s_indexes s))
                      (filter (fun f => ~ (fk_table f = t /\ fk_column f = n)) (s_fkeys s)))
      end
  | create_index ix =>
      if decide (ix_name ix ∈ ix_name <$> s_indexes s) then sql_error "DuplicateTable"
      else if has_columns s (ix_table ix) (index_mentions ix)
      then inr (set_indexes (s_indexes s ++ [ix]) s)
      else sql_error "UndefinedColumn"
  | drop_index n =>
      if decide (n ∈ ix_name <$> s_indexes s)
      then inr (set_indexes (filter (fun i => ix_name i <> n) (s_indexes s)) s)
      else sql_error "UndefinedObject"
  | create_foreign_key fk =>
      if decide (fk_name fk ∈ fk_name <$> s_fkeys s) then sql_error "DuplicateObject"
      else if has_columns s (fk_table fk) [fk_column fk] && has_columns s (fk_ref_table fk) [fk_ref_column fk]
      then if has_key s (fk_ref_table fk) (fk_ref_column fk) then inr (set_fkeys (s_fkeys s ++ [fk]) s)
           else sql_error "InvalidForeignKey"
      else sql_error "UndefinedColumn"
  | drop_constraint n =>
      if decide (n ∈ fk_name <$> s_fkeys s)
      then inr (set_fkeys (filter (fun f => fk_name f <> n) (s_fkeys s)) s)
      else sql_error "UndefinedObject"
  | update_all t n _ => if has_columns s t [n] then inr s else sql_error "UndefinedColumn"
  end.

(** ** On the rows *)

(** What a new column holds in the rows already there. *)
Definition fill (c : column) : value := match c_default c with Some (Const v) => v | _ => VNull end.

Definition data_effect (o : statement) (s : Schema) (d : contents) : exn + contents :=
  match o with
  | create_table n _ => inr (od_set n [] d)
  | drop_table n => inr (od_del n d)
  | add_column t c =>
      if fits (s_enums s) c (fill c) || bool_decide (rows_of d t = [])
      then inr (od_set t (set_cell (c_name c) (fill c) (rows_of d t)) d)
      else inl IntegrityError
  | drop_column t n => inr (od_set t (del_cell n (rows_of d t)) d)
  | create_index ix => if index_holds d ix then inr d else inl IntegrityError
  | create_foreign_key fk => if fkey_holds d fk then inr d else inl IntegrityError
  | update_all t n v =>
      let d' := od_set t (set_cell n v (rows_of d t)) d in
      let column := find (fun c => bool_decide (c_name c = n)) (default [] (od_get t (s_tables s))) in
      if default false ((fun c => fits (s_enums s) c v) <$> column) && holds s d' then inr d'
      else inl IntegrityError
  | _ => inr d
  end.

Definition effect (o : statement) (c : Catalog) : exn + Catalog :=
  s ← schema_effect o (schema c);
  d ← data_effect o (schema c) (data c);
  inr (mkCatalog s d).

(** A script is its statements in order. *)
Fixpoint effects (os : list statement) (c : Catalog) : exn + Catalog :=
  match os with
  | [] => inr c
  | o :: os' => c' ← effect o c; effects os' c'
  end.

(** * A database that behaves so *)

(** The law speaks of a new column only when its default, if any, is a literal. *)
Definition literal (o : statement) : bool :=
  match o with
  | add_column _ c => match c_default c with Some (Call _) => false | _ => true end
  | _ => true
  end.

Class Ddl := {
  ddl_db : Type;
  catalog : ddl_db -> Catalog;
  ddl : statement -> ddl_db -> exn + ddl_db;
  ddl_effect o d : literal o = true -> (d' ← ddl o d; inr (catalog d')) = effect o (catalog d);
}.

(** The statements of a script, in order. *)
Fixpoint run_script `{Ddl} (os : list statement) (d : ddl_db) : exn + ddl_db :=
  match os with
  | [] => inr d
  | o :: os' => d' ← ddl o d; run_script os' d'
  end.

Lemma run_script_effects `{Ddl} os d :
  forallb literal os = true -> (d' ← run_script os d; inr (catalog d')) = effects os (catalog d).
Proof.
  revert d. induction os as [|o os IH]; intros d; [done|]. cbn [forallb run_script effects].
  intros [Ho Hos]%andb_true_iff. specialize (ddl_effect o d Ho) as E.
  rewrite <-E. destruct (ddl o d) as [e|d']; [done|].
  rewrite sum_bind_inr. by apply IH.
Qed.

Module Catalogs.
#[export] Program Instance catalogs : Ddl := {| ddl_db := Catalog; catalog c := c; ddl := effect |}.
Next Obligation. intros o d _. by destruct (effect o d). Qed.
End Catalogs.

(** * Lemmas *)

(** ** Cells, keys and references *)

Lemma rows_of_set d t l t' : rows_of (od_set t l d) t' = if decide (t' = t) then l else rows_of d t'.
Proof. unfold rows_of. rewrite od_get_set. by case_decide. Qed.
Lemma rows_of_del d t t' : rows_of (od_del t d) t' = if decide (t' = t) then [] else rows_of d t'.
Proof. unfold rows_of. rewrite od_get_del. by case_decide. Qed.

Lemma cell_set r n v m : cell (<[n := v]> r) m = if decide (m = n) then v else cell r m.
Proof.
  unfold cell. destruct (decide (m = n)) as [->|]; [by rewrite lookup_insert_eq|by rewrite lookup_insert_ne].
Qed.
Lemma cell_del r n m : m <> n -> cell (delete n r) m = cell r m.
Proof. intros. unfold cell. by rewrite lookup_delete_ne. Qed.

(** Rows with the same cells in some columns. *)
Definition agree (cols : list string) (r r' : row) : Prop := Forall (fun n => cell r n = cell r' n) cols.

Lemma agree_set cols n v r : n ∉ cols -> agree cols (<[n := v]> r) r.
Proof. intros Hn. apply Forall_forall. intros m Hm. rewrite cell_set, decide_False; [done|]. by intros ->. Qed.
Lemma agree_del cols n r : n ∉ cols -> agree cols (delete n r) r.
Proof. intros Hn. apply Forall_forall. intros m Hm. apply cell_del. by intros ->. Qed.

Lemma agree_key cols r r' : agree cols r r' -> row_key cols r = row_key cols r'.
Proof.
  intros Ha. unfold row_key. assert (cell r <$> cols = cell r' <$> cols) as ->; [|done].
  induction Ha as [|n cols Hn _ IH]; [done|]. cbn. by rewrite Hn, IH.
Qed.

Lemma agree_selects p r r' : agree (predicate_columns p) r r' -> selects p r = selects p r'.
Proof.
  induction p as [n|n|n ls|p IHp q IHq]; cbn [predicate_columns selects]; unfold agree.
  1-3: by rewrite Forall_singleton; intros ->.
  intros [Hp Hq]%Forall_app. by rewrite IHp, IHq.
Qed.

Lemma keys_of_map cols w (f : row -> row) l :
  (forall r, agree (cols ++ default [] (predicate_columns <$> w)) (f r) r) ->
  keys_of cols w (f <$> l) = keys_of cols w l.
Proof.
  intros Hf. unfold keys_of. induction l as [|r l IH]; [done|]. cbn [fmap list_fmap omap list_omap].
  destruct (Forall_app (fun n => cell (f r) n = cell r n) cols (default [] (predicate_columns <$> w))) as [H _].
  destruct (H (Hf r)) as [Hc Hp]. rewrite (agree_key _ _ _ Hc).
  assert (default true ((fun p => selects p (f r)) <$> w) = default true ((fun p => selects p r) <$> w)) as ->.
  { destruct w as [p|]; [|done]. cbn in *. by apply agree_selects. }
  change (omap _ (f <$> l)) with (keys_of cols w (f <$> l)). unfold keys_of. by rewrite IH.
Qed.

Lemma refs_in_cells col ref_col l l' refs refs' :
  (fun r => cell r col) <$> l = (fun r => cell r col) <$> l' ->
  (fun r => cell r ref_col) <$> refs = (fun r => cell r ref_col) <$> refs' ->
  refs_in col l ref_col refs = refs_in col l' ref_col refs'.
Proof.
  intros Hl Hr. unfold refs_in. rewrite Hr. apply bool_decide_ext.
  set (P := fun v => v = VNull \/ v ∈ (fun r => cell r ref_col) <$> refs').
  change (Forall (P ∘ (fun r => cell r col)) l <-> Forall (P ∘ (fun r => cell r col)) l').
  by rewrite <-!Forall_fmap, Hl.
Qed.

Lemma cells_map (f : row -> row) n (l : list row) :
  (forall r, agree [n] (f r) r) -> (fun r => cell r n) <$> (f <$> l) = (fun r => cell r n) <$> l.
Proof.
  intros Hf. induction l as [|r l IH]; [done|]. cbn. rewrite IH. f_equal.
  by destruct (Forall_cons_1 _ _ _ (Hf r)) as [E _].
Qed.

(** A row map that leaves the columns of a constraint alone leaves the constraint alone. *)
Definition spares (f : row -> row) (t : string) (d : contents) (t' : string) (cols : list string) : Prop :=
  t' <> t \/ forall r, agree cols (f r) r.

Lemma index_holds_map f t d ix :
  spares f t d (ix_table ix) (index_mentions ix) ->
  index_holds (od_set t (f <$> rows_of d t) d) ix = index_holds d ix.
Proof.
  intros Hs. unfold index_holds, unique_in. rewrite rows_of_set. case_decide as E; [|done].
  destruct Hs as [?|Ha]; [done|]. by rewrite keys_of_map, E.
Qed.

Lemma key_holds_map f t d tc :
  spares f t d tc.1 (primary_key tc.2) ->
  key_holds (od_set t (f <$> rows_of d t) d) tc = key_holds d tc.
Proof.
  intros Hs. unfold key_holds, unique_in. rewrite rows_of_set. case_decide as E; [|done].
  destruct Hs as [?|Ha]; [done|]. rewrite keys_of_map, E; [done|]. cbn. by rewrite app_nil_r.
Qed.

Lemma fkey_holds_map f t d fk :
  spares f t d (fk_table fk) [fk_column fk] -> spares f t d (fk_ref_table fk) [fk_ref_column fk] ->
  fkey_holds (od_set t (f <$> rows_of d t) d) fk = fkey_holds d fk.
Proof.
  intros H1 H2. unfold fkey_holds. apply refs_in_cells; rewrite rows_of_set; case_decide as E; try done; rewrite E.
  - destruct H1 as [?|?]; [done|]. by apply cells_map.
  - destruct H2 as [?|?]; [done|]. by apply cells_map.
Qed.

(** ** Types *)

Definition typed_row (enums : list (string * list string)) (cols : list column) (r : row) : Prop :=
  (forall n, is_Some (r !! n) <-> n ∈ c_name <$> cols) /\
  Forall (fun c => fits enums c (cell r (c_name c)) = true) cols.

Definition well_typed (s : Schema) (d : contents) : Prop :=
  forall t cols, od_get t (s_tables s) = Some cols -> Forall (typed_row (s_enums s) cols) (rows_of d t).

(** Indexes and foreign keys are on columns that exist, and no name is used twice. *)
Definition schema_ok (s : Schema) : bool :=
  bool_decide (NoDup (s_tables s).*1) &&
  forallb (fun t => bool_decide (NoDup (c_name <$> t.2))) (s_tables s) &&
  forallb (fun i => has_columns s (ix_table i) (index_mentions i)) (s_indexes s) &&
  forallb (fun f => has_columns s (fk_table f) [fk_column f] &&
                    has_columns s (fk_ref_table f) [fk_ref_column f]) (s_fkeys s).

(** A database whose rows are typed and satisfy the constraints. *)
Definition ok (c : Catalog) : Prop := well_typed (schema c) (data c) /\ holds (schema c) (data c) = true.

Lemma forallb_elem {A} (f : A -> bool) l : forallb f l = true <-> forall x, x ∈ l -> f x = true.
Proof. rewrite forallb_forall. by setoid_rewrite list_elem_of_In. Qed.

Lemma has_columns_spec s t cols :
  has_columns s t cols = true <->
  exists cs, od_get t (s_tables s) = Some cs /\ Forall (fun n => n ∈ c_name <$> cs) cols.
Proof.
  unfold has_columns. destruct (od_get t (s_tables s)) as [cs|]; [|naive_solver].
  rewrite bool_decide_eq_true. naive_solver.
Qed.

Lemma holds_spec s d :
  holds s d = true <->
  (forall i, i ∈ s_indexes s -> index_holds d i = true) /\
  (forall t, t ∈ s_tables s -> key_holds d t = true) /\
  (forall f, f ∈ s_fkeys s -> fkey_holds d f = true).
Proof. unfold holds. rewrite !andb_true_iff, !forallb_elem. tauto. Qed.

Record schema_facts (s : Schema) : Prop := {
  sf_tables : NoDup (s_tables s).*1;
  sf_columns t cs : od_get t (s_tables s) = Some cs -> NoDup (c_name <$> cs);
  sf_index i : i ∈ s_indexes s -> has_columns s (ix_table i) (index_mentions i) = true;
  sf_fkey f : f ∈ s_fkeys s -> has_columns s (fk_table f) [fk_column f] = true /\
                              has_columns s (fk_ref_table f) [fk_ref_column f] = true;
}.

Lemma schema_ok_facts s : schema_ok s = true -> schema_facts s.
Proof.
  unfold schema_ok. rewrite !andb_true_iff, !bool_decide_eq_true, !forallb_elem.
  intros [[[Ht Hc] Hi] Hf]. split; [done| |done|].
  - intros t cs Hg. apply od_get_elem, Hc in Hg. by apply bool_decide_eq_true in Hg.
  - intros f Hin. by apply andb_true_iff, Hf.
Qed.

Lemma primary_key_sub cs n : n ∈ primary_key cs -> n ∈ c_name <$> cs.
Proof.
  unfold primary_key. intros (c & -> & [_ Hc]%list_elem_of_filter)%list_elem_of_fmap. by apply list_elem_of_fmap_2.
Qed.

Lemma elem_od_set {V} (t : string) (v : V) l e :
  NoDup l.*1 -> e ∈ od_set t v l -> e = (t, v) \/ (e ∈ l /\ e.1 <> t).
Proof.
  intros Hn He. destruct e as [t' v']. apply elem_od_get in He; [|by apply od_set_NoDup].
  rewrite od_get_set in He. case_decide; [left; congruence|right]. split; [by apply od_get_elem|done].
Qed.

Lemma elem_od_del {V} (t : string) (l : list (string * V)) e : e ∈ od_del t l -> e ∈ l /\ e.1 <> t.
Proof. unfold od_del. rewrite list_elem_of_filter. tauto. Qed.

(** ** Every statement keeps rows typed and constraints satisfied *)

Lemma NoDup_fmap_same {A B} (f : A -> B) l x y : NoDup (f <$> l) -> x ∈ l -> y ∈ l -> f x = f y -> x = y.
Proof.
  induction l as [|z l IH]; [set_solver|]. cbn. intros [Hz Hn]%NoDup_cons.
  intros [->|Hx]%elem_of_cons [->|Hy]%elem_of_cons E; [done| | |by apply IH].
  - destruct Hz. rewrite E. by apply list_elem_of_fmap_2.
  - destruct Hz. rewrite <-E. by apply list_elem_of_fmap_2.
Qed.

Lemma fits_mono e e' c v :
  (forall n ls, od_get n e = Some ls -> exists ls', od_get n e' = Some ls' /\ ls ⊆ ls') ->
  fits e c v = true -> fits e' c v = true.
Proof.
  intros Hm. unfold fits. destruct v; try done. destruct (c_type c); try done.
  destruct (od_get name e) as [ls|] eqn:E; [|done]. destruct (Hm _ _ E) as (ls' & -> & Hsub).
  rewrite !bool_decide_eq_true. apply Hsub.
Qed.

Lemma well_typed_mono s s' d :
  s_tables s' = s_tables s ->
  (forall n ls, od_get n (s_enums s) = Some ls -> exists ls', od_get n (s_enums s') = Some ls' /\ ls ⊆ ls') ->
  well_typed s d -> well_typed s' d.
Proof.
  intros Et Hm Hw t cols Hc. rewrite Et in Hc. eapply Forall_impl; [exact (Hw t cols Hc)|].
  intros r [Hd Hf]. split; [done|]. eapply Forall_impl; [exact Hf|]. intros c. by apply fits_mono.
Qed.

Lemma typed_row_set e cols c r v :
  c_name c ∉ c_name <$> cols -> fits e c v = true ->
  typed_row e cols r -> typed_row e (cols ++ [c]) (<[c_name c := v]> r).
Proof.
  intros Hn Hv [Hd Hf]. split.
  - intros n. rewrite fmap_app, elem_of_app, <-Hd. change (c_name <$> [c]) with [c_name c].
    rewrite list_elem_of_singleton, lookup_insert_is_Some.
    destruct (decide (n = c_name c)) as [->|]; naive_solver.
  - apply Forall_app. split.
    + rewrite Forall_forall in Hf |- *. intros c' Hc'. rewrite cell_set, decide_False; [by apply Hf|].
      intros E. apply Hn. rewrite <-E. by apply list_elem_of_fmap_2.
    + apply Forall_singleton. by rewrite cell_set, decide_True.
Qed.

Lemma typed_row_update e cols c r v :
  NoDup (c_name <$> cols) -> c ∈ cols -> fits e c v = true ->
  typed_row e cols r -> typed_row e cols (<[c_name c := v]> r).
Proof.
  intros Hnd Hc Hv [Hd Hf]. split.
  - intros n. rewrite <-Hd, lookup_insert_is_Some. destruct (decide (n = c_name c)) as [->|]; [|naive_solver].
    rewrite Hd. split; [intros _; by apply list_elem_of_fmap_2|by left].
  - rewrite Forall_forall in Hf |- *. intros c' Hc'. rewrite cell_set. case_decide as E; [|by apply Hf].
    by rewrite (NoDup_fmap_same c_name cols c' c).
Qed.

Lemma without_column_names n cs m : m ∈ c_name <$> without_column n cs <-> m ∈ c_name <$> cs /\ m <> n.
Proof.
  assert (m ∈ c_name <$> filter (fun c => c_name c <> n) cs <-> m ∈ c_name <$> cs /\ m <> n) as Hf.
  { rewrite !list_elem_of_fmap. setoid_rewrite list_elem_of_filter. naive_solver. }
  unfold without_column. case_decide; [|done]. by rewrite <-list_fmap_compose.
Qed.

Lemma typed_row_del e cols n r : typed_row e cols r -> typed_row e (without_column n cols) (delete n r).
Proof.
  intros [Hd Hf]. split.
  - intros m. rewrite without_column_names, <-Hd, lookup_delete_is_Some. naive_solver.
  - assert (Forall (fun c => fits e c (cell (delete n r) (c_name c)) = true) (filter (fun c => c_name c <> n) cols)) as Hr.
    { rewrite Forall_forall in Hf |- *. intros c [Hn Hc]%list_elem_of_filter. rewrite cell_del by done. by apply Hf. }
    unfold without_column. case_decide; [|done]. by apply Forall_fmap.
Qed.

Lemma primary_key_without n cs :
  primary_key (without_column n cs) = [] \/ (primary_key (without_column n cs) = primary_key cs /\ n ∉ primary_key cs).
Proof.
  unfold without_column. destruct (decide (n ∈ primary_key cs)) as [Hn|Hn].
  - left. unfold primary_key. rewrite filter_keep_none; [done|]. by intros c (c' & -> & _)%list_elem_of_fmap.
  - right. split; [|done]. unfold primary_key in *. f_equal.
    rewrite list_filter_filter. apply filter_ext_in. intros c Hc. split; [tauto|]. intros Hp. split; [done|].
    intros E. apply Hn. rewrite <-E. by apply list_elem_of_fmap_2, list_elem_of_filter.
Qed.

Definition grows (s s' : Schema) : Prop :=
  forall n ls, od_get n (s_enums s) = Some ls -> exists ls', od_get n (s_enums s') = Some ls' /\ ls ⊆ ls'.
Lemma grows_same s s' : s_enums s' = s_enums s -> grows s s'.
Proof. intros E n ls Hn. rewrite E. by exists ls. Qed.

(** Constraints after the rows of one table were mapped. *)
Lemma holds_map s s' f t d :
  holds s d = true ->
  (forall i, i ∈ s_indexes s' -> i ∈ s_indexes s /\ spares f t d (ix_table i) (index_mentions i)) ->
  (forall tc, tc ∈ s_tables s' -> primary_key tc.2 = [] \/
     exists cs, (tc.1, cs) ∈ s_tables s /\ primary_key cs = primary_key tc.2 /\ spares f t d tc.1 (primary_key cs)) ->
  (forall k, k ∈ s_fkeys s' -> k ∈ s_fkeys s /\ spares f t d (fk_table k) [fk_column k] /\
     spares f t d (fk_ref_table k) [fk_ref_column k]) ->
  holds s' (od_set t (f <$> rows_of d t) d) = true.
Proof.
  rewrite !holds_spec. intros (Hi & Ht & Hk) Hi' Ht' Hk'. split_and!.
  - intros i [Hin Hs]%Hi'. rewrite index_holds_map by done. by apply Hi.
  - intros tc Hin. destruct (Ht' tc Hin) as [E|(cs & Hcs & E & Hs)].
    { unfold key_holds. by rewrite bool_decide_eq_true_2. }
    rewrite key_holds_map by by rewrite <-E. apply Ht in Hcs. unfold key_holds in *. cbn [fst snd] in Hcs.
    by rewrite E in Hcs.
  - intros k (Hin & H1 & H2)%Hk'. rewrite fkey_holds_map by done. by apply Hk.
Qed.

(** A table no constraint mentions may get any rows. *)
Lemma holds_rows s s' d d' t :
  holds s d = true ->
  (forall t', t' <> t -> rows_of d' t' = rows_of d t') ->
  (forall i, i ∈ s_indexes s' -> i ∈ s_indexes s /\ ix_table i <> t) ->
  (forall tc, tc ∈ s_tables s' -> (tc ∈ s_tables s /\ tc.1 <> t) \/ (tc.1 = t /\ rows_of d' t = [])) ->
  (forall k, k ∈ s_fkeys s' -> k ∈ s_fkeys s /\ fk_table k <> t /\ fk_ref_table k <> t) ->
  holds s' d' = true.
Proof.
  rewrite !holds_spec. intros (Hi & Ht & Hk) Hr Hi' Ht' Hk'. split_and!.
  - intros i [Hin Hn]%Hi'. unfold index_holds. rewrite Hr by done. by apply Hi.
  - intros tc [[Hin Hn]|[Et E]]%Ht'; unfold key_holds; [rewrite Hr by done; by apply Ht|]. rewrite Et, E.
    apply orb_true_iff. right. apply bool_decide_eq_true. constructor.
  - intros k (Hin & H1 & H2)%Hk'. unfold fkey_holds. rewrite !Hr by done. by apply Hk.
Qed.

Lemma rows_of_well_typed_set s s' t cols l d :
  well_typed s d -> grows s s' -> NoDup (s_tables s).*1 -> s_tables s' = od_set t cols (s_tables s) ->
  Forall (typed_row (s_enums s') cols) l -> well_typed s' (od_set t l d).
Proof.
  intros Hw Hg Hn Et Hl t' cs Hcs. rewrite Et, od_get_set in Hcs. rewrite rows_of_set.
  case_decide; [by simplify_eq|]. eapply Forall_impl; [exact (Hw t' cs Hcs)|].
  intros r [Hd Hf]. split; [done|]. eapply Forall_impl; [exact Hf|]. intros c. by apply fits_mono.
Qed.

(** One lemma per statement that touches rows; the others are [holds_mono]. *)
Lemma holds_mono s s' d :
  holds s d = true -> s_tables s' = s_tables s ->
  (forall i, i ∈ s_indexes s' -> i ∈ s_indexes s \/ index_holds d i = true) ->
  (forall k, k ∈ s_fkeys s' -> k ∈ s_fkeys s \/ fkey_holds d k = true) -> holds s' d = true.
Proof.
  rewrite !holds_spec. intros (Hi & Ht & Hk) E Hi' Hk'. split_and!.
  - intros i [?|?]%Hi'; [by apply Hi|done].
  - rewrite E. done.
  - intros k [?|?]%Hk'; [by apply Hk|done].
Qed.

Lemma add_column_ok s d t c cs v :
  schema_facts s -> ok (mkCatalog s d) -> od_get t (s_tables s) = Some cs -> c_name c ∉ c_name <$> cs ->
  c_primary c = false -> (fits (s_enums s) c v = true \/ rows_of d t = []) ->
  ok (mkCatalog (set_tables (od_set t (cs ++ [c]) (s_tables s)) s) (od_set t (set_cell (c_name c) v (rows_of d t)) d)).
Proof.
  intros F [Hw Hh] Hcs Hn Hp Hv. cbn in Hw, Hh. split; cbn.
  - apply (rows_of_well_typed_set s _ t (cs ++ [c])); [done|by apply grows_same|apply F|done|].
    destruct Hv as [Hv| ->]; [|constructor]. apply Forall_fmap. eapply Forall_impl; [exact (Hw t cs Hcs)|].
    intros r. by apply typed_row_set.
  - assert (forall t' ns, has_columns s t' ns = true -> spares <[c_name c := v]> t d t' ns) as Hs.
    { intros t' ns (cs' & Hcs' & Hns)%has_columns_spec. destruct (decide (t' = t)) as [->|]; [|by left].
      right. intros r. apply agree_set. intros Hin. rewrite Forall_forall in Hns. apply Hns in Hin. congruence. }
    apply (holds_map s); [done| | |].
    + intros i Hi. split; [done|]. by apply Hs, (sf_index s F).
    + intros [t' cs'] Ht. right. apply elem_od_set in Ht as [[= -> ->]|[Ht Hne]]; [| |apply F].
      * exists cs. split; [by apply od_get_elem|]. cbn. split.
        { unfold primary_key. rewrite filter_app, (filter_keep_none _ [c]); [by rewrite app_nil_r|].
          intros c' ->%list_elem_of_singleton. by rewrite Hp. }
        right. intros r. apply agree_set. intros Hin. by apply Hn, primary_key_sub.
      * exists cs'. split_and!; [done|done|by left].
    + intros k Hk. destruct (sf_fkey s F k Hk). split_and!; [done|by apply Hs|by apply Hs].
Qed.

Lemma drop_column_ok s d t n cs :
  schema_facts s -> ok (mkCatalog s d) -> od_get t (s_tables s) = Some cs ->
  (forall k, k ∈ s_fkeys s -> ~ (fk_ref_table k = t /\ fk_ref_column k = n)) ->
  ok (mkCatalog (mkSchema (s_enums s) (od_set t (without_column n cs) (s_tables s))
        (filter (fun i => ~ (ix_table i = t /\ n ∈ index_mentions i)) (s_indexes s))
        (filter (fun f => ~ (fk_table f = t /\ fk_column f = n)) (s_fkeys s)))
     (od_set t (del_cell n (rows_of d t)) d)).
Proof.
  intros F [Hw Hh] Hcs Hk. cbn in Hw, Hh. split; cbn.
  - apply (rows_of_well_typed_set s _ t (without_column n cs)); [done|by apply grows_same|apply F|done|].
    apply Forall_fmap. eapply Forall_impl; [exact (Hw t cs Hcs)|]. intros r. by apply typed_row_del.
  - assert (forall t' ns, ~ (t' = t /\ n ∈ ns) -> spares (delete n) t d t' ns) as Hs.
    { intros t' ns Hns. destruct (decide (t' = t)) as [->|]; [right|by left]. intros r. apply agree_del. tauto. }
    apply (holds_map s); [done| | |].
    + intros i [Hi Hin]%list_elem_of_filter. split; [done|]. by apply Hs.
    + intros [t' cs'] Ht. apply elem_od_set in Ht as [[= -> ->]|[Ht Hne]]; [| |apply F].
      * destruct (primary_key_without n cs) as [E|[E Hn]]; [by left|right]. exists cs. cbn [fst snd].
        split_and!; [by apply od_get_elem|done|]. apply Hs. tauto.
      * right. exists cs'. split_and!; [done|done|by left].
    + intros k [Hkn Hin]%list_elem_of_filter. split; [done|]. split; apply Hs; rewrite list_elem_of_singleton.
      * intros [??]. by apply Hkn.
      * intros [??]. by apply (Hk k).
Qed.

(** ** Type safety of the statements

    Whatever a statement succeeds in doing, rows stay typed and constraints stay
    satisfied. *)
Section Safety.
Context (s : Schema) (d : contents) (c' : Catalog).
Context (F : schema_facts s) (Hw : well_typed s d) (Hh : holds s d = true).
#[local] Abbreviation safe_statement o := (effect o (mkCatalog s d) = inr c' -> ok c').

Lemma create_enum_ok n ls : safe_statement (create_enum n ls).
Proof.
  unfold effect. cbn [schema data schema_effect data_effect].
  destruct (od_get n (s_enums s)) eqn:E; cbn; intros [= <-]; [by split|]. split.
  - apply (well_typed_mono s); [done| |done]. intros m ms Hm. exists ms. cbn. rewrite od_get_set.
    case_decide; [congruence|done].
  - by apply (holds_mono s); [| |left|left].
Qed.

Lemma drop_enum_ok n : safe_statement (drop_enum n).
Proof.
  unfold effect. cbn [schema data schema_effect data_effect].
  destruct (in_use n s) eqn:E; [done|]. cbn. intros [= <-]. split; [|by apply (holds_mono s); [| |left|left]].
  intros t cols Hc. cbn in *. eapply Forall_impl; [exact (Hw t cols Hc)|]. intros r [Hd Hf]. split; [done|].
  rewrite Forall_forall in Hf |- *. intros c Hin. specialize (Hf c Hin). unfold fits in *.
  destruct (cell r (c_name c)); try done. destruct (c_type c) as [| | | | | |m] eqn:Et; try done.
  rewrite od_get_del, decide_False; [done|]. intros ->. unfold in_use in E.
  apply not_true_iff_false in E. apply E. apply existsb_exists. exists (t, cols).
  split; [by apply list_elem_of_In, od_get_elem|]. apply existsb_exists. exists c.
  split; [by apply list_elem_of_In|by apply bool_decide_eq_true].
Qed.

Lemma add_enum_value_ok n l : safe_statement (add_enum_value n l).
Proof.
  unfold effect. cbn [schema data schema_effect data_effect].
  destruct (od_get n (s_enums s)) as [ls|] eqn:E; [|done]. cbn. intros [= <-].
  destruct (decide (l ∈ ls)); [by split|]. split; [|by apply (holds_mono s); [| |left|left]].
  apply (well_typed_mono s); [done| |done]. intros m ms Hm. cbn. rewrite od_get_set. case_decide; [|by exists ms].
  exists (ls ++ [l]). split; [done|]. set_solver.
Qed.

Lemma create_table_ok n cs : safe_statement (create_table n cs).
Proof.
  unfold effect. cbn [schema data schema_effect data_effect].
  destruct (od_get n (s_tables s)) eqn:E; [done|]. destruct (forallb _ cs); [|done].
  cbn. intros [= <-]. split; cbn.
  - apply (rows_of_well_typed_set s _ n cs); [done|by apply grows_same|apply F|done|constructor].
  - assert (forall t' ns, has_columns s t' ns = true -> t' <> n) as Hne.
    { intros t' ns (cs' & Hc & _)%has_columns_spec ->. congruence. }
    apply (holds_rows s _ d _ n); [done|intros; by rewrite rows_of_set, decide_False| | |].
    + intros i Hi. split; [done|]. by eapply Hne, (sf_index s F).
    + intros tc [-> | [Hin Hn]]%elem_od_set; [right|by left|apply F]. by rewrite rows_of_set, decide_True.
    + intros k Hk. destruct (sf_fkey s F k Hk). split_and!; [done|by eapply Hne|by eapply Hne].
Qed.

Lemma drop_table_ok n : safe_statement (drop_table n).
Proof.
  unfold effect. cbn [schema data schema_effect data_effect].
  destruct (od_get n (s_tables s)) as [cs|] eqn:E; [|done].
  destruct (existsb _ _) eqn:Ex; [done|]. cbn. intros [= <-]. split; cbn.
  - intros t' cs' Hc. cbn in Hc. rewrite od_get_del in Hc. case_decide; [done|]. rewrite rows_of_del, decide_False by done.
    by apply Hw.
  - apply (holds_rows s _ d _ n); [done|intros; by rewrite rows_of_del, decide_False| | |].
    + intros i [??]%list_elem_of_filter. done.
    + intros tc [??]%elem_od_del. by left.
    + intros k [Hkn Hk]%list_elem_of_filter. split_and!; [done|done|]. intros Hr.
      apply not_true_iff_false in Ex. apply Ex, existsb_exists. exists k.
      split; [by apply list_elem_of_In|by apply bool_decide_eq_true].
Qed.

Lemma add_column_safe t c : safe_statement (add_column t c).
Proof.
  unfold effect. cbn [schema data schema_effect data_effect].
  destruct (od_get t (s_tables s)) as [cs|] eqn:E; [|done]. case_decide as Hn; [done|].
  destruct (c_primary c) eqn:Hp; [done|]. destruct (has_type s c); [|done]. rewrite sum_bind_inr.
  destruct (fits _ _ _ || _) eqn:Hf; [|done]. cbn. intros [= <-]. apply orb_true_iff in Hf.
  rewrite bool_decide_eq_true in Hf. by apply add_column_ok.
Qed.

Lemma drop_column_safe t n : safe_statement (drop_column t n).
Proof.
  unfold effect. cbn [schema data schema_effect data_effect].
  destruct (od_get t (s_tables s)) as [cs|] eqn:E; [|done]. destruct (has_columns _ _ _); [|done].
  cbn [negb]. destruct (existsb _ _) eqn:Ex; [done|]. cbn. intros [= <-]. apply drop_column_ok; [done|done|done|].
  intros k Hk Hr. apply not_true_iff_false in Ex. apply Ex, existsb_exists. exists k.
  split; [by apply list_elem_of_In|by apply bool_decide_eq_true].
Qed.

Lemma create_index_ok i : safe_statement (create_index i).
Proof.
  unfold effect. cbn [schema data schema_effect data_effect].
  case_decide; [done|]. destruct (has_columns _ _ _); [|done]. rewrite sum_bind_inr.
  destruct (index_holds d i) eqn:Hi; [|done]. cbn. intros [= <-]. split; [done|].
  apply (holds_mono s); [done|done| |by left]. intros i' Hi'. apply elem_of_app in Hi' as [?|Ei%list_elem_of_singleton]; [by left|right; by subst].
Qed.

Lemma drop_index_ok n : safe_statement (drop_index n).
Proof.
  unfold effect. cbn [schema data schema_effect data_effect].
  case_decide; [|done]. cbn. intros [= <-]. split; [done|].
  apply (holds_mono s); [done|done| |by left]. intros i' [??]%list_elem_of_filter. by left.
Qed.

Lemma create_foreign_key_ok k : safe_statement (create_foreign_key k).
Proof.
  unfold effect. cbn [schema data schema_effect data_effect].
  case_decide; [done|]. destruct (_ && _); [|done]. destruct (has_key _ _ _); [|done].
  rewrite sum_bind_inr. destruct (fkey_holds d k) eqn:Hi; [|done]. cbn. intros [= <-]. split; [done|].
  apply (holds_mono s); [done|done|by left|]. intros i' Hi'. apply elem_of_app in Hi' as [?|Ei%list_elem_of_singleton]; [by left|right; by subst].
Qed.

Lemma drop_constraint_ok n : safe_statement (drop_constraint n).
Proof.
  unfold effect. cbn [schema data schema_effect data_effect].
  case_decide; [|done]. cbn. intros [= <-]. split; [done|].
  apply (holds_mono s); [done|done|by left|]. intros i' [??]%list_elem_of_filter. by left.
Qed.

Lemma update_all_ok t n v : safe_statement (update_all t n v).
Proof.
  unfold effect. cbn [schema data schema_effect data_effect].
  unfold has_columns. destruct (od_get t (s_tables s)) as [cs|] eqn:E; [|done].
  case_bool_decide; [|done]. rewrite sum_bind_inr. change (default [] (Some cs)) with cs.
  destruct (find (fun c => bool_decide (c_name c = n)) cs) as [c|] eqn:Ef; [|done].
  change (default false (_ <$> Some c)) with (fits (s_enums s) c v).
  destruct (fits (s_enums s) c v) eqn:Hf; [|done].
  destruct (holds s (od_set t (set_cell n v (rows_of d t)) d)) eqn:Hh'; [|done]. intros [= <-].
  split; [|done]. apply find_some in Ef as [Hc Hn]. apply bool_decide_eq_true in Hn. subst.
  intros t' cs' Hc'. cbn [schema data] in *. rewrite rows_of_set. case_decide; [subst|by apply Hw]. simplify_eq/=.
  apply Forall_fmap. eapply Forall_impl; [exact (Hw t cs E)|]. intros r.
  apply typed_row_update; [by apply (sf_columns s F t)|by apply list_elem_of_In|done].
Qed.

End Safety.

Lemma effect_ok o c c' : schema_ok (schema c) = true -> ok c -> effect o c = inr c' -> ok c'.
Proof.
  destruct c as [s d]. intros F%schema_ok_facts [Hw Hh]. cbn in F, Hw, Hh.
  destruct o; eauto using create_enum_ok, drop_enum_ok, add_enum_value_ok, create_table_ok, drop_table_ok,
    add_column_safe, drop_column_safe, create_index_ok, drop_index_ok, create_foreign_key_ok,
    drop_constraint_ok, update_all_ok.
Qed.

(** ** Scripts *)

Fixpoint schema_effects (os : list statement) (s : Schema) : exn + Schema :=
  match os with
  | [] => inr s
  | o :: os' => s' ← schema_effect o s; schema_effects os' s'
  end.

(** What a script does to the rows, when its schemas work out. *)
Fixpoint data_effects (os : list statement) (s : Schema) (d : contents) : exn + contents :=
  match os with
  | [] => inr d
  | o :: os' =>
      s' ← schema_effect o s;
      d' ← data_effect o s d;
      data_effects os' s' d'
  end.

Lemma data_step o os s s' d d' r :
  schema_effect o s = inr s' -> data_effect o s d = inr d' -> data_effects os s' d' = r ->
  data_effects (o :: os) s d = r.
Proof. intros E1 E2 <-. cbn [data_effects]. by rewrite E1, sum_bind_inr, E2, sum_bind_inr. Qed.

Lemma data_fail o os s s' d e :
  schema_effect o s = inr s' -> data_effect o s d = inl e -> data_effects (o :: os) s d = inl e.
Proof. intros E1 E2. cbn [data_effects]. by rewrite E1, sum_bind_inr, E2. Qed.

Lemma effects_split os s s' d :
  schema_effects os s = inr s' ->
  effects os (mkCatalog s d) = (d' ← data_effects os s d; inr (mkCatalog s' d')).
Proof.
  revert s d. induction os as [|o os IH]; intros s d; cbn [schema_effects effects data_effects]; [by intros [= ->]|].
  unfold effect. cbn [schema data]. destruct (schema_effect o s) as [|s1]; [done|]. rewrite !sum_bind_inr.
  intros Hs. destruct (data_effect o s d) as [|d1]; [done|]. rewrite !sum_bind_inr. by apply IH.
Qed.

(** Every schema a script goes through is one [effect_ok] speaks of. *)
Fixpoint schemas_ok (os : list statement) (s : Schema) : bool :=
  schema_ok s &&
  match os with
  | [] => true
  | o :: os' => match schema_effect o s with inr s' => schemas_ok os' s' | inl _ => true end
  end.

Lemma effect_schema o c c' : effect o c = inr c' -> schema_effect o (schema c) = inr (schema c').
Proof.
  unfold effect. destruct (schema_effect o (schema c)) as [|s']; [done|]. rewrite sum_bind_inr.
  by destruct (data_effect o (schema c) (data c)); [|intros [= <-]].
Qed.

Lemma effects_schema os c c' : effects os c = inr c' -> schema_effects os (schema c) = inr (schema c').
Proof.
  revert c. induction os as [|o os IH]; intros c; cbn [effects schema_effects]; [by intros [= <-]|].
  destruct (effect o c) as [|c1] eqn:E; [done|]. rewrite sum_bind_inr. intros H.
  apply effect_schema in E. rewrite E, sum_bind_inr. by apply IH.
Qed.

Lemma effects_ok os c c' : schemas_ok os (schema c) = true -> ok c -> effects os c = inr c' -> ok c'.
Proof.
  revert c. induction os as [|o os IH]; intros c; cbn [effects schemas_ok].
  - intros _ Hc. by intros [= <-].
  - intros [Hs Hos]%andb_true_iff Hc. destruct (effect o c) as [|c1] eqn:E; [done|]. rewrite sum_bind_inr.
    pose proof (effect_schema _ _ _ E) as Es. rewrite Es in Hos. apply IH; [done|]. by apply (effect_ok o c).
Qed.

(** ** Row operations of the scripts *)

Lemma unique_in_set cols w n v l :
  n ∉ cols ++ default [] (predicate_columns <$> w) -> unique_in cols w (set_cell n v l) = unique_in cols w l.
Proof. intros Hn. unfold unique_in, set_cell. rewrite keys_of_map; [done|]. intros r. by apply agree_set. Qed.

Lemma unique_in_del cols w n l :
  n ∉ cols ++ default [] (predicate_columns <$> w) -> unique_in cols w (del_cell n l) = unique_in cols w l.
Proof. intros Hn. unfold unique_in, del_cell. rewrite keys_of_map; [done|]. intros r. by apply agree_del. Qed.

Lemma keys_of_null cols w n l : n ∈ cols -> keys_of cols w (set_cell n VNull l) = [].
Proof.
  intros Hn. unfold keys_of, set_cell. induction l as [|r l IH]; [done|]. cbn.
  assert (row_key cols (<[n := VNull]> r) = None) as ->.
  { unfold row_key. rewrite decide_True; [done|]. apply list_elem_of_fmap. exists n.
    by rewrite cell_set, decide_True. }
  destruct (default true _); apply IH.
Qed.

Lemma unique_in_null cols w n l : n ∈ cols -> unique_in cols w (set_cell n VNull l) = true.
Proof. intros Hn. unfold unique_in. rewrite keys_of_null by done. apply bool_decide_eq_true. constructor. Qed.

Lemma unique_in_nil cols w : unique_in cols w [] = true.
Proof. apply bool_decide_eq_true. constructor. Qed.

Lemma refs_in_null n l m refs : refs_in n (set_cell n VNull l) m refs = true.
Proof.
  apply bool_decide_eq_true, Forall_fmap, Forall_true. intros r. left. cbn. by rewrite cell_set, decide_True.
Qed.

(** No row has the column. *)
Definition fresh (n : string) (l : list row) : Prop := Forall (fun r : row => r !! n = None) l.

Lemma fresh_set n m v l : n <> m -> fresh n l -> fresh n (set_cell m v l).
Proof.
  intros Hn Hl. apply Forall_fmap. eapply Forall_impl; [exact Hl|]. intros r E. cbn. by rewrite lookup_insert_ne.
Qed.

Lemma del_set n v l : del_cell n (set_cell n v l) = del_cell n l.
Proof. unfold del_cell, set_cell. rewrite <-list_fmap_compose. apply list_fmap_ext. intros i r _. apply delete_insert_eq. Qed.

Lemma del_set_other n m v l : n <> m -> del_cell n (set_cell m v l) = set_cell m v (del_cell n l).
Proof.
  intros Hn. unfold del_cell, set_cell. rewrite <-!list_fmap_compose. apply list_fmap_ext. intros i r _. by apply delete_insert_ne.
Qed.

Lemma del_fresh n l : fresh n l -> del_cell n l = l.
Proof.
  unfold del_cell. induction 1 as [|r l Hr Hl IH]; [done|]. cbn. rewrite IH. f_equal. by apply delete_id.
Qed.

(** What the rows had they still have. *)
Definition kept : list row -> list row -> Prop := Forall2 (fun r r' : row => r ⊆ r').

Lemma kept_refl l : kept l l.
Proof. induction l; by constructor. Qed.

Lemma kept_set n v l l' : fresh n l -> kept l l' -> kept l (set_cell n v l').
Proof.
  intros Hf Hk. revert Hf. induction Hk as [|r r' l l' Hr Hk IH]; intros Hf; [constructor|].
  apply Forall_cons in Hf as [Hn Hf]. constructor; [by apply insert_subseteq_r|by apply IH].
Qed.

Lemma typed_fresh s d t cols n :
  well_typed s d -> od_get t (s_tables s) = Some cols -> n ∉ c_name <$> cols -> fresh n (rows_of d t).
Proof.
  intros Hw Hc Hn. eapply Forall_impl; [exact (Hw t cols Hc)|]. intros r [Hd _].
  apply eq_None_not_Some. by rewrite Hd.
Qed.
