(* ===== verification/Migrations.v ===== *)
(** The migrations of alembic/versions, each as the script of its statements, and
    the transaction alembic/env.py runs them in.

    [schema_at k] is the schema after the first [k] revisions; [populated k] is a
    database at that revision, with any rows that its constraints allow.  What each
    script does to such rows is computed here, once; MigrationFacts.v has the
    theorems. *)
From stdpp Require Import base tactics option list gmap strings numbers.
From S2P Require Import Prelude Uuid Model Schema.
Set Default Goal Selector "!".
Open Scope nat_scope.

(** * The scripts *)

(** [nullable=True], no default *)
Definition optional (n : string) (ty : coltype) : column := Column n ty true false None.
(** [nullable=False] *)
Definition required (n : string) (ty : coltype) (server_default : option default_expr) : column :=
  Column n ty false false server_default.

(** ** 0001 *)

Definition JOB_TYPE : list string := ["email"; "webhook"; "report"]%string.
Definition JOB_STATUS : list string :=
  ["scheduled"; "pending"; "processing"; "completed"; "failed"; "cancelled"]%string.

Definition upgrade_0001 : list statement :=
  [create_enum "job_type" JOB_TYPE;
   create_enum "job_status" JOB_STATUS;
   create_table "jobs"
     [Column "id" TUuid false true (Some (Call "gen_random_uuid()"));
      required "type" (TEnum "job_type") None;
      required "payload" TJsonb None;
      required "status" (TEnum "job_status") None;
      optional "result" TJsonb;
      optional "error" TJsonb;
      required "created_at" TTimestamptz (Some (Call "now()"));
      optional "started_at" TTimestamptz;
      optional "completed_at" TTimestamptz];
   create_index (Index "ix_jobs_status" "jobs" ["status"] false None);
   create_index (Index "ix_jobs_type" "jobs" ["type"] false None);
   create_index (Index "ix_jobs_created_at_id" "jobs" ["created_at"; "id"] false None)]%string.

Definition downgrade_0001 : list statement :=
  [drop_index "ix_jobs_created_at_id"; drop_index "ix_jobs_type"; drop_index "ix_jobs_status";
   drop_table "jobs"; drop_enum "job_status"; drop_enum "job_type"]%string.

(** ** 0002 *)

Definition upgrade_0002 : list statement :=
  [add_column "jobs" (optional "scheduled_at" TTimestamptz);
   add_column "jobs" (required "is_synced_to_redis" TBoolean (Some (Const (VBool false))));
   update_all "jobs" "is_synced_to_redis" (VBool true);
   create_index (Index "ix_jobs_unsynced" "jobs" ["created_at"; "id"] false
     (Some (Both (IsFalse "is_synced_to_redis") (OneOf "status" ["pending"; "scheduled"]))))]%string.

Definition downgrade_0002 : list statement :=
  [drop_index "ix_jobs_unsynced"; drop_column "jobs" "is_synced_to_redis";
   drop_column "jobs" "scheduled_at"]%string.

(** ** 0003 *)

Definition JOB_PRIORITY : list string := ["high"; "normal"; "low"]%string.

Definition upgrade_0003 : list statement :=
  [create_enum "job_priority" JOB_PRIORITY;
   add_column "jobs" (required "priority" (TEnum "job_priority") (Some (Const (VEnum "normal"))));
   create_index (Index "ix_jobs_priority" "jobs" ["priority"] false None)]%string.

Definition downgrade_0003 : list statement :=
  [drop_index "ix_jobs_priority"; drop_column "jobs" "priority"; drop_enum "job_priority"]%string.

(** ** 0004 *)

Definition upgrade_0004 : list statement :=
  [add_column "jobs" (required "attempts" TInteger (Some (Const (VInt 0))));
   add_column "jobs" (required "max_attempts" TInteger (Some (Const (VInt 4))))]%string.

Definition downgrade_0004 : list statement :=
  [drop_column "jobs" "max_attempts"; drop_column "jobs" "attempts"]%string.

(** ** 0005 *)

Definition uq_jobs_idempotency_key : index :=
  Index "uq_jobs_idempotency_key" "jobs" ["idempotency_key"] true (Some (NotNull "idempotency_key")).

Definition upgrade_0005 : list statement :=
  [add_column "jobs" (optional "progress" TInteger);
   add_column "jobs" (optional "cancel_requested_at" TTimestamptz);
   add_column "jobs" (optional "idempotency_key" TText);
   add_column "jobs" (optional "idempotency_hash" TText);
   add_enum_value "job_type" "batch";
   create_index uq_jobs_idempotency_key]%string.

Definition downgrade_0005 : list statement :=
  [drop_index "uq_jobs_idempotency_key"; drop_column "jobs" "idempotency_hash";
   drop_column "jobs" "idempotency_key"; drop_column "jobs" "cancel_requested_at";
   drop_column "jobs" "progress"]%string.

(** ** 0006 *)

Definition upgrade_0006 : list statement :=
  [create_index (Index "ix_jobs_status_created_at" "jobs" ["status"; "created_at"] false None)]%string.
Definition downgrade_0006 : list statement := [drop_index "ix_jobs_status_created_at"].

(** ** 0007 *)

Definition upgrade_0007 : list statement := [add_column "jobs" (optional "trace_context" TJsonb)].
Definition downgrade_0007 : list statement := [drop_column "jobs" "trace_context"].

(** ** 0008 *)

Definition users_table : list column :=
  [Column "id" TUuid false true None; required "name" TText None; required "key_hash" TText None;
   required "created_at" TTimestamptz (Some (Call "now()"))]%string.

Definition uq_jobs_user_idempotency_key : index :=
  Index "uq_jobs_user_idempotency_key" "jobs" ["user_id"; "idempotency_key"] true (Some (NotNull "idempotency_key")).

Definition create_users : list statement :=
  [create_table "users" users_table;
   create_index (Index "uq_users_name" "users" ["name"] true None);
   create_index (Index "uq_users_key_hash" "users" ["key_hash"] true None)]%string.

Definition fk_jobs_user_id_users : fkey := ForeignKey "fk_jobs_user_id_users" "jobs" "users" "user_id" "id".

Definition upgrade_0008 : list statement :=
  create_users ++
  [add_column "jobs" (optional "user_id" TUuid);
   create_foreign_key fk_jobs_user_id_users;
   create_index (Index "ix_jobs_user_id_created_at_id" "jobs" ["user_id"; "created_at"; "id"] false None);
   drop_index "uq_jobs_idempotency_key";
   create_index uq_jobs_user_idempotency_key]%string.

Definition downgrade_0008 : list statement :=
  [drop_index "uq_jobs_user_idempotency_key";
   create_index uq_jobs_idempotency_key;
   drop_index "ix_jobs_user_id_created_at_id";
   drop_constraint "fk_jobs_user_id_users";
   drop_column "jobs" "user_id";
   drop_index "uq_users_key_hash"; drop_index "uq_users_name"; drop_table "users"]%string.

(** ** 0009 *)

Definition upgrade_0009 : list statement :=
  [add_column "jobs" (optional "user_name" TText);
   drop_constraint "fk_jobs_user_id_users";
   drop_index "uq_users_key_hash"; drop_index "uq_users_name"; drop_table "users"]%string.

Definition downgrade_0009 : list statement :=
  create_users ++
  [update_all "jobs" "user_id" VNull;
   create_foreign_key fk_jobs_user_id_users;
   drop_column "jobs" "user_name"]%string.

(** ** The chain of revisions *)

Record Revision := mkRevision {
  revision : string;
  down_revision : option string;
  upgrade : list statement;
  downgrade : list statement;
}.

Definition revisions : list Revision :=
  [mkRevision "0001" None upgrade_0001 downgrade_0001;
   mkRevision "0002" (Some "0001") upgrade_0002 downgrade_0002;
   mkRevision "0003" (Some "0002") upgrade_0003 downgrade_0003;
   mkRevision "0004" (Some "0003") upgrade_0004 downgrade_0004;
   mkRevision "0005" (Some "0004") upgrade_0005 downgrade_0005;
   mkRevision "0006" (Some "0005") upgrade_0006 downgrade_0006;
   mkRevision "0007" (Some "0006") upgrade_0007 downgrade_0007;
   mkRevision "0008" (Some "0007") upgrade_0008 downgrade_0008;
   mkRevision "0009" (Some "0008") upgrade_0009 downgrade_0009]%string.

Definition rev (k : nat) : Revision := default (mkRevision "" None [] []) (revisions !! k).
Definition head : nat := length revisions.

(** ** alembic/env.py *)

(** One transaction around the scripts: an error rolls all of them back. *)
Definition run_migrations `{Ddl} (scripts : list (list statement)) (d : ddl_db) : ddl_db * (exn + unit) :=
  match run_script (concat scripts) d with
  | inr d' => (d', inr tt)
  | inl e => (d, inl e)
  end.

(** [alembic upgrade head] of a database at revision [k] *)
Definition upgrade_head `{Ddl} (k : nat) (d : ddl_db) : ddl_db * (exn + unit) :=
  run_migrations (upgrade <$> drop k revisions) d.

(** * Databases at a revision *)

Definition schema_at (k : nat) : Schema :=
  match schema_effects (concat (upgrade <$> take k revisions)) (mkSchema [] [] [] []) with
  | inr s => s
  | inl _ => mkSchema [] [] [] []
  end.

(** Any rows, as long as they are typed and satisfy the constraints. *)
Record populated (k : nat) (c : Catalog) : Prop := {
  pop_schema : schema c = schema_at k;
  pop_tables : (data c).*1 = (s_tables (schema_at k)).*1;
  pop_ok : ok c;
}.

Definition jobs (c : Catalog) : list row := rows_of (data c) "jobs".

(** The side conditions that a list of columns decides. *)
Ltac by_columns := apply (bool_decide_unpack _); vm_compute; exact I.

(** Runs a script on a schema that is known, statement by statement; the tests on
    rows are decided by the constraints that held before, which [split_tests] reads
    off [holds]. *)
Ltac split_tests H :=
  cbv -[set_cell unique_in refs_in] in H;
  repeat lazymatch type of H with
  | context [if unique_in ?cols ?w ?l then _ else _] =>
      destruct (unique_in cols w l) eqn:?; cbv beta iota in H; [|discriminate H]
  end; clear H.
Ltac on_rows := cbv -[set_cell del_cell unique_in refs_in].
Ltac settle_tests :=
  repeat match goal with
  | |- context [unique_in ?c ?w (set_cell ?n ?v ?l)] =>
      first [rewrite (unique_in_null c w n l) by by_columns|rewrite (unique_in_set c w n v l) by by_columns]
  | |- context [unique_in ?c ?w (del_cell ?n ?l)] => rewrite (unique_in_del c w n l) by by_columns
  end;
  rewrite ?unique_in_nil, ?refs_in_null;
  repeat match goal with H : unique_in _ _ _ = _ |- _ => rewrite H; clear H end; reflexivity.
Ltac run_statement := eapply data_step; [vm_compute; reflexivity|on_rows; settle_tests|].
Ltac ready_script :=
  lazymatch goal with |- data_effects ?os ?s _ = _ =>
    let os' := eval vm_compute in os in change os with os'; let s' := eval vm_compute in s in change s with s'
  end.
Ltac run_statements := ready_script; repeat run_statement; reflexivity.

(** The rows of the job table after revision [k + 1], from those at [k]. *)
Definition upgraded (k : nat) (l : list row) : list row :=
  match k with
  | 0 => []
  | 1 => set_cell "is_synced_to_redis" (VBool true)
           (set_cell "is_synced_to_redis" (VBool false) (set_cell "scheduled_at" VNull l))
  | 2 => set_cell "priority" (VEnum "normal") l
  | 3 => set_cell "max_attempts" (VInt 4) (set_cell "attempts" (VInt 0) l)
  | 4 => set_cell "idempotency_hash" VNull (set_cell "idempotency_key" VNull
           (set_cell "cancel_requested_at" VNull (set_cell "progress" VNull l)))
  | 6 => set_cell "trace_context" VNull l
  | 7 => set_cell "user_id" VNull l
  | 8 => set_cell "user_name" VNull l
  | _ => l
  end%string.

(** The tables at revision [k]. *)
Definition tables_at (k : nat) (l users : list row) : contents :=
  match k with
  | 0 => []
  | 8 => [("jobs", l); ("users", users)]
  | _ => [("jobs", l)]
  end%string.

Lemma schema_tables k : k <= head -> (s_tables (schema_at k)).*1 = (tables_at k [] []).*1.
Proof.
  unfold head. cbn [length revisions]. intros Hk.
  destruct k as [|[|[|[|[|[|[|[|[|[|k]]]]]]]]]]; [..|lia]; vm_compute; reflexivity.
Qed.

Lemma populated_shape k c :
  k <= head -> populated k c -> exists l us, c = mkCatalog (schema_at k) (tables_at k l us).
Proof.
  intros Hk [Hs Ht _]. destruct c as [s d]. cbn in Hs, Ht. subst s.
  assert (exists l us, d = tables_at k l us) as (l & us & ->); [|by exists l, us].
  rewrite schema_tables in Ht by done. unfold head in Hk. cbn [length revisions] in Hk.
  destruct k as [|[|[|[|[|[|[|[|[|[|k]]]]]]]]]]; [..|lia]; cbn in Ht.
  all: destruct d as [|[t1 l1] [|[t2 l2] [|[t3 l3] d]]]; simplify_eq/=.
  all: first [by exists l1, l2|by exists l1, []|by exists [], []].
Qed.

Lemma upgrade_runs k l us :
  k < head -> holds (schema_at k) (tables_at k l us) = true ->
  effects (upgrade (rev k)) (mkCatalog (schema_at k) (tables_at k l us)) =
  inr (mkCatalog (schema_at (S k)) (tables_at (S k) (upgraded k l) [])).
Proof.
  unfold head. cbn [length revisions]. intros Hk Hh. rewrite (effects_split _ _ (schema_at (S k))).
  - assert (data_effects (upgrade (rev k)) (schema_at k) (tables_at k l us) =
            inr (tables_at (S k) (upgraded k l) [])) as ->; [|done].
    destruct k as [|[|[|[|[|[|[|[|[|k]]]]]]]]]; [..|lia]; split_tests Hh; run_statements.
  - clear Hh. destruct k as [|[|[|[|[|[|[|[|[|k]]]]]]]]]; [..|lia]; vm_compute; reflexivity.
Qed.

(** The rows of the job table after the downgrade of revision [k + 1]. *)
Definition downgraded (k : nat) (l : list row) : list row :=
  match k with
  | 0 => []
  | 1 => del_cell "scheduled_at" (del_cell "is_synced_to_redis" l)
  | 2 => del_cell "priority" l
  | 3 => del_cell "attempts" (del_cell "max_attempts" l)
  | 4 => del_cell "progress" (del_cell "cancel_requested_at"
           (del_cell "idempotency_key" (del_cell "idempotency_hash" l)))
  | 6 => del_cell "trace_context" l
  | 7 => del_cell "user_id" l
  | 8 => del_cell "user_name" (set_cell "user_id" VNull l)
  | _ => l
  end%string.

(** The schema a downgrade leaves. *)
Definition schema_down (k : nat) : Schema :=
  match schema_effects (downgrade (rev k)) (schema_at (S k)) with inr s => s | inl _ => schema_at k end.

(** The job ids' keys, whoever owns the jobs. *)
Definition job_keys_unique (l : list row) : bool :=
  unique_in ["idempotency_key"%string] (Some (NotNull "idempotency_key")) l.

Lemma downgrade_schema k : k < head -> schema_effects (downgrade (rev k)) (schema_at (S k)) = inr (schema_down k).
Proof.
  unfold head. cbn [length revisions]. intros Hk.
  destruct k as [|[|[|[|[|[|[|[|[|k]]]]]]]]]; [..|lia]; vm_compute; reflexivity.
Qed.

Lemma downgrade_runs k l us :
  k < head -> holds (schema_at (S k)) (tables_at (S k) l us) = true -> (k = 7 -> job_keys_unique l = true) ->
  effects (downgrade (rev k)) (mkCatalog (schema_at (S k)) (tables_at (S k) l us)) =
  inr (mkCatalog (schema_down k) (tables_at k (downgraded k l) [])).
Proof.
  intros Hk Hh Hu. rewrite (effects_split _ _ (schema_down k)) by by apply downgrade_schema.
  assert (data_effects (downgrade (rev k)) (schema_at (S k)) (tables_at (S k) l us) =
          inr (tables_at k (downgraded k l) [])) as ->; [|done].
  unfold head in Hk. cbn [length revisions] in Hk. unfold job_keys_unique in Hu.
  destruct k as [|[|[|[|[|[|[|[|[|k]]]]]]]]]; [..|lia].
  8: specialize (Hu eq_refl).
  all: split_tests Hh; run_statements.
Qed.

(** From head to below 0008, which forgets who owns a job: the keys of all owners
    together must be unique. *)
Definition below_ownership : list statement := downgrade (rev 8) ++ downgrade (rev 7).

Lemma below_ownership_runs l :
  holds (schema_at head) (tables_at head l []) = true ->
  data_effects below_ownership (schema_at head) (tables_at head l []) =
  if job_keys_unique l then inr (tables_at 7 (downgraded 7 (downgraded 8 l)) []) else inl IntegrityError.
Proof.
  intros Hh. unfold job_keys_unique. split_tests Hh.
  destruct (unique_in ["idempotency_key"%string] _ l) eqn:Hu; [run_statements|].
  ready_script. do 7 run_statement.
  eapply data_fail; [vm_compute; reflexivity|]. on_rows. settle_tests.
Qed.
