(* ===== verification/MigrationFacts.v ===== *)
(** What the migrations guarantee: a populated database of any revision upgrades to
    head without an error, keeps its data, and ends with the schema the ORM model
    expects; a downgrade undoes its upgrade; and when the downgrade below 0008 is
    refused. *)
From stdpp Require Import base tactics option list gmap strings numbers.
From S2P Require Import Prelude Uuid Model Schema Migrations.
Set Default Goal Selector "!".
Open Scope nat_scope.

(** * The ORM's view (app/models/job.py) *)

(** The mapped columns; a [Mapped] type that is not optional is NOT NULL. *)
Definition job_columns : list column :=
  [Column "id" TUuid false true None;
   optional "user_id" TUuid;
   optional "user_name" TText;
   required "type" (TEnum "job_type") None;
   required "payload" TJsonb None;
   required "status" (TEnum "job_status") None;
   required "priority" (TEnum "job_priority") (Some (Const (VEnum "normal")));
   optional "result" TJsonb;
   optional "error" TJsonb;
   required "attempts" TInteger (Some (Const (VInt 0)));
   required "max_attempts" TInteger (Some (Const (VInt 4)));
   required "created_at" TTimestamptz (Some (Call "now()"));
   optional "started_at" TTimestamptz;
   optional "completed_at" TTimestamptz;
   optional "scheduled_at" TTimestamptz;
   required "is_synced_to_redis" TBoolean (Some (Const (VBool false)));
   optional "progress" TInteger;
   optional "cancel_requested_at" TTimestamptz;
   optional "idempotency_key" TText;
   optional "idempotency_hash" TText;
   optional "trace_context" TJsonb]%string.

(** [__table_args__], and the columns with [index=True]. *)
Definition job_indexes : list index :=
  [uq_jobs_user_idempotency_key;
   Index "ix_jobs_status_created_at" "jobs" ["status"; "created_at"] false None;
   Index "ix_jobs_user_id_created_at_id" "jobs" ["user_id"; "created_at"; "id"] false None;
   Index "ix_jobs_status" "jobs" ["status"] false None;
   Index "ix_jobs_priority" "jobs" ["priority"] false None]%string.

(** The enum types of the mapped columns, by the members of the code's enums. *)
Definition model_enums : list (string * list string) :=
  [("job_type", JobType_value <$> [email; webhook; report; batch]);
   ("job_status", JobStatus_value <$> JobStatus_members);
   ("job_priority", JobPriority_value <$> [high; normal; low])]%string.

Definition nullable {A} (f : A -> value) (x : option A) : value := default VNull (f <$> x).

(** The row of a job.  [json_none] is what a [None] of a JSONB column becomes: SQL's
    NULL when it was never set, JSON's null when it was set to [None]. *)
Definition row_of_job (json_none : value) (j : Job) : row :=
  let jsonb (x : option json) := default json_none (VJson <$> x) in
  list_to_map
    [("id", VUuid (j_id j)); ("user_id", nullable VUuid (j_user_id j));
     ("user_name", nullable VText (j_user_name j)); ("type", VEnum (JobType_value (j_type j)));
     ("payload", VJson (j_payload j)); ("status", VEnum (JobStatus_value (j_status j)));
     ("priority", VEnum (JobPriority_value (j_priority j))); ("result", jsonb (j_result j));
     ("error", jsonb (j_error j)); ("attempts", VInt (j_attempts j));
     ("max_attempts", VInt (j_max_attempts j)); ("created_at", VTime (j_created_at j));
     ("started_at", nullable VTime (j_started_at j)); ("completed_at", nullable VTime (j_completed_at j));
     ("scheduled_at", nullable VTime (j_scheduled_at j)); ("is_synced_to_redis", VBool (j_is_synced_to_redis j));
     ("progress", nullable VInt (j_progress j));
     ("cancel_requested_at", nullable VTime (j_cancel_requested_at j));
     ("idempotency_key", nullable VText (j_idempotency_key j));
     ("idempotency_hash", nullable VText (j_idempotency_hash j));
     ("trace_context", jsonb ((fun f => JObj (prod_map id JStr <$> map_to_list f)) <$> j_trace_context j))]%string.

(** A column but for its server default, which the ORM need not know. *)
Definition shape (c : column) : string * coltype * bool * bool :=
  (c_name c, c_type c, c_nullable c, c_primary c).

(** What the ORM needs of the schema. *)
Record serves_model (s : Schema) : Prop := {
  sm_tables : (s_tables s).*1 = ["jobs"%string];
  sm_columns : forall sh, sh ∈ shape <$> default [] (od_get "jobs"%string (s_tables s)) <-> sh ∈ shape <$> job_columns;
  sm_defaults c : c ∈ job_columns -> is_Some (c_default c) -> c ∈ default [] (od_get "jobs"%string (s_tables s));
  sm_enums : s_enums s = model_enums;
  sm_indexes i : i ∈ job_indexes -> i ∈ s_indexes s;
  sm_fkeys : s_fkeys s = [];
  sm_rows none j : none = VNull \/ none = VJson JNull ->
    typed_row (s_enums s) (default [] (od_get "jobs"%string (s_tables s))) (row_of_job none j);
}.

Definition head_columns : list column := Eval vm_compute in default [] (od_get "jobs"%string (s_tables (schema_at 9))).

Lemma is_Some_list_to_map (l : list (string * value)) n : is_Some ((list_to_map l : row) !! n) <-> n ∈ l.*1.
Proof.
  rewrite <-not_eq_None_Some. split.
  - intros H. destruct (decide (n ∈ l.*1)); [done|]. destruct H. by apply not_elem_of_list_to_map_1.
  - intros Hn H. by apply not_elem_of_list_to_map_2 in H.
Qed.

Lemma cell_list_to_map (l : list (string * value)) n : cell (list_to_map l) n = default VNull (od_get n l).
Proof.
  induction l as [|[k v] l IH]; cbn [list_to_map foldr od_get fst snd]; [done|].
  rewrite cell_set, IH. by destruct (decide (n = k)), (decide (k = n)); subst.
Qed.

Lemma job_row_typed none j :
  none = VNull \/ none = VJson JNull -> typed_row model_enums head_columns (row_of_job none j).
Proof.
  intros Hnone. split.
  - intros n. unfold row_of_job. rewrite is_Some_list_to_map. apply elem_of_Permutation_proper.
    cbn [fmap list_fmap fst]. unfold head_columns. cbn [fmap list_fmap c_name]. solve_Permutation.
  - unfold row_of_job, head_columns. destruct (j_trace_context j); repeat apply Forall_cons_2; try apply Forall_nil_2.
    all: rewrite cell_list_to_map; destruct Hnone as [-> | ->]; destruct j; vm_compute; crush_match; done.
Qed.

(** * Lemmas *)

Lemma upgrade_schemas_ok k : k < head -> schemas_ok (upgrade (rev k)) (schema_at k) = true.
Proof.
  unfold head. cbn [length revisions]. intros Hk.
  destruct k as [|[|[|[|[|[|[|[|[|k]]]]]]]]]; [..|lia]; vm_compute; reflexivity.
Qed.

Lemma downgrade_schemas_ok k : k < head -> schemas_ok (downgrade (rev k)) (schema_at (S k)) = true.
Proof.
  unfold head. cbn [length revisions]. intros Hk.
  destruct k as [|[|[|[|[|[|[|[|[|k]]]]]]]]]; [..|lia]; vm_compute; reflexivity.
Qed.

(** At revision [k] there is a job table without the column [n]. *)
Definition no_column (k : nat) (n : string) : bool :=
  match od_get "jobs"%string (s_tables (schema_at k)) with
  | Some cols => negb (bool_decide (n ∈ c_name <$> cols))
  | None => false
  end.

Lemma no_column_fresh k l us n :
  ok (mkCatalog (schema_at k) (tables_at k l us)) -> no_column k n = true ->
  fresh n (jobs (mkCatalog (schema_at k) (tables_at k l us))).
Proof.
  intros [Hw _] Hn. unfold jobs, no_column in *. cbn [schema data] in *. destruct (od_get _ _) as [cols|] eqn:E; [|done].
  simp_bool. by eapply typed_fresh.
Qed.

Ltac new_column := vm_compute; reflexivity.

(** The columns a revision adds are new. *)
Lemma upgraded_kept k l us :
  k < head -> ok (mkCatalog (schema_at k) (tables_at k l us)) -> kept (jobs (mkCatalog (schema_at k) (tables_at k l us))) (upgraded k l).
Proof.
  intros Hk Hok. pose proof (fun n => no_column_fresh k l us n Hok) as Hf. clear Hok.
  unfold head in Hk. cbn [length revisions] in Hk.
  destruct k as [|[|[|[|[|[|[|[|[|k]]]]]]]]]; [..|lia]; cbn [upgraded].
  1: constructor.
  all: change (jobs _) with l in *; repeat apply kept_set; try apply kept_refl; apply Hf; new_column.
Qed.

Lemma upgrade_populated k c :
  k < head -> populated k c ->
  exists c', effects (upgrade (rev k)) c = inr c' /\ populated (S k) c' /\ kept (jobs c) (jobs c').
Proof.
  intros Hk Hp. destruct (populated_shape k c) as (l & us & ->); [lia|done|].
  pose proof (pop_ok _ _ Hp) as Hok. pose proof (upgrade_runs k l us Hk (proj2 Hok)) as Hr.
  eexists. split; [exact Hr|]. split.
  - split; [done| |].
    + rewrite schema_tables by lia. cbn [data]. unfold head in Hk. cbn [length revisions] in Hk.
      by destruct k as [|[|[|[|[|[|[|[|[|k]]]]]]]]]; [..|lia].
    + eapply effects_ok; [|exact Hok|exact Hr]. by apply upgrade_schemas_ok.
  - pose proof (upgraded_kept k l us Hk Hok) as Hkept.
    assert (jobs (mkCatalog (schema_at (S k)) (tables_at (S k) (upgraded k l) [])) = upgraded k l) as ->; [|done].
    unfold head in Hk. cbn [length revisions] in Hk. unfold jobs.
    by destruct k as [|[|[|[|[|[|[|[|[|k]]]]]]]]]; [..|lia].
Qed.

Lemma effects_app os1 os2 c : effects (os1 ++ os2) c = c' ← effects os1 c; effects os2 c'.
Proof.
  revert c. induction os1 as [|o os1 IH]; intros c; [done|]. cbn [app effects].
  destruct (effect o c) as [|c1]; [done|]. rewrite !sum_bind_inr. apply IH.
Qed.

Lemma kept_trans l1 l2 l3 : kept l1 l2 -> kept l2 l3 -> kept l1 l3.
Proof.
  intros H. revert l3. induction H as [|r1 r2 l1 l2 Hr _ IH]; intros l3 H3; inversion H3; subst; [constructor|].
  constructor; [by etrans|by apply IH].
Qed.

Lemma upgrade_chain n k c :
  k + n = head -> populated k c ->
  exists c', effects (concat (upgrade <$> drop k revisions)) c = inr c' /\ populated head c' /\ kept (jobs c) (jobs c').
Proof.
  revert k c. induction n as [|n IH]; intros k c Hk Hp.
  - rewrite drop_ge by (unfold head in Hk; lia). assert (k = head) as -> by lia. exists c.
    split_and!; [done|done|apply kept_refl].
  - destruct (upgrade_populated k c) as (c1 & E1 & Hp1 & Hk1); [lia|done|].
    destruct (IH (S k) c1) as (c2 & E2 & Hp2 & Hk2); [lia|done|]. exists c2.
    assert (revisions !! k = Some (rev k)) as Hr.
    { unfold rev. destruct (revisions !! k) eqn:E; [done|]. apply lookup_ge_None in E. unfold head in Hk. lia. }
    rewrite (drop_S _ _ _ Hr). cbn [fmap list_fmap concat]. rewrite effects_app, E1, sum_bind_inr.
    split_and!; [done|done|by eapply kept_trans].
Qed.

Lemma head_serves_model : serves_model (schema_at head).
Proof.
  assert (default [] (od_get "jobs"%string (s_tables (schema_at head))) = head_columns) as E by (vm_compute; reflexivity).
  split; rewrite ?E.
  - vm_compute. reflexivity.
  - intros sh. split; intros Hs.
    + assert (Forall (fun sh => sh ∈ shape <$> job_columns) (shape <$> head_columns)) as H by by_columns.
      rewrite Forall_forall in H. by apply H.
    + assert (Forall (fun sh => sh ∈ shape <$> head_columns) (shape <$> job_columns)) as H by by_columns.
      rewrite Forall_forall in H. by apply H.
  - intros c Hc Hd. assert (Forall (fun c => is_Some (c_default c) -> c ∈ head_columns) job_columns) as H by by_columns.
    rewrite Forall_forall in H. by apply H.
  - vm_compute. reflexivity.
  - intros i Hi. assert (Forall (fun i => i ∈ s_indexes (schema_at head)) job_indexes) as H by by_columns.
    rewrite Forall_forall in H. by apply H.
  - vm_compute. reflexivity.
  - intros none j. replace (s_enums (schema_at head)) with model_enums by (vm_compute; reflexivity). apply job_row_typed.
Qed.

Ltac undo_cells Hf :=
  repeat first
    [rewrite del_set
    |rewrite del_set_other by (intros [=])
    |match goal with |- context [del_cell ?n ?l] => rewrite (del_fresh n l) by (apply Hf; new_column) end]; reflexivity.

(** A downgrade takes away the cells its upgrade added. *)
Lemma downgraded_upgraded k l us :
  k < 8 -> ok (mkCatalog (schema_at k) (tables_at k l us)) -> tables_at k (downgraded k (upgraded k l)) [] = tables_at k l us.
Proof.
  intros Hk Hok. pose proof (fun n => no_column_fresh k l us n Hok) as Hf. clear Hok.
  destruct k as [|[|[|[|[|[|[|[|k]]]]]]]]; [..|lia]; cbn [tables_at downgraded upgraded]; try reflexivity.
  all: do 2 f_equal; change (jobs _) with l in Hf; undo_cells Hf.
Qed.

(** What a downgrade leaves of the schema, compared with the one before the upgrade. *)
Record restored (k : nat) (s s' : Schema) : Prop := {
  rs_tables : s_tables s' = s_tables s;
  rs_indexes : s_indexes s' ≡ₚ s_indexes s;
  rs_fkeys : s_fkeys s' = s_fkeys s;
  rs_enums : s_enums s' =
    if decide (k = 4) then od_set "job_type" (JOB_TYPE ++ ["batch"]) (s_enums s) else s_enums s;
}.

Lemma schema_restored k : k < 8 -> restored k (schema_at k) (schema_down k).
Proof.
  intros Hk. destruct k as [|[|[|[|[|[|[|[|k]]]]]]]]; [..|lia]; split; try (vm_compute; reflexivity).
  all: vm_compute; solve_Permutation.
Qed.

Section Theorems.
Context {DL : Ddl}.

Lemma run_script_ok os d c' :
  forallb literal os = true -> effects os (catalog d) = inr c' ->
  exists d', run_script os d = inr d' /\ catalog d' = c'.
Proof.
  intros Hl He. rewrite <-run_script_effects in He by done. destruct (run_script os d) as [|d']; [done|].
  exists d'. split; [done|]. rewrite sum_bind_inr in He. congruence.
Qed.

Lemma run_script_error os d e :
  forallb literal os = true -> effects os (catalog d) = inl e -> run_script os d = inl e.
Proof.
  intros Hl He. rewrite <-run_script_effects in He by done. destruct (run_script os d) as [|d']; [|done].
  rewrite sum_bind_inl in He. congruence.
Qed.

Lemma upgrades_literal k : forallb literal (concat (upgrade <$> drop k revisions)) = true.
Proof.
  destruct (decide (9 <= k)); [by rewrite drop_ge by (cbn; lia)|].
  destruct k as [|[|[|[|[|[|[|[|[|k]]]]]]]]]; [..|lia]; vm_compute; reflexivity.
Qed.

(** C33: [alembic upgrade head] succeeds on a database of any revision with any rows
    its constraints allow.  Every row of the table of jobs keeps every cell it had (0009
    drops the table of users that 0008 made), the database is one of the head revision, and its schema is the one the ORM model was written for:
    the same columns, types, enum members and indexes, every server default, and
    room for every job the code can build. *)
Theorem upgrade_head_serves_model k d :
  k <= head -> populated k (catalog d) ->
  exists d', upgrade_head k d = (d', inr tt) /\ populated head (catalog d') /\
    serves_model (schema (catalog d')) /\ kept (jobs (catalog d)) (jobs (catalog d')).
Proof.
  intros Hk Hp. destruct (upgrade_chain (head - k) k (catalog d)) as (c' & He & Hp' & Hkept); [lia|done|].
  destruct (run_script_ok _ d c' (upgrades_literal k) He) as (d' & Hr & <-). exists d'.
  unfold upgrade_head, run_migrations. rewrite Hr. split_and!; [done|done| |done].
  rewrite (pop_schema _ _ Hp'). apply head_serves_model.
Qed.

Lemma run_one os d c' :
  forallb literal os = true -> effects os (catalog d) = inr c' ->
  exists d', run_migrations [os] d = (d', inr tt) /\ catalog d' = c'.
Proof.
  intros Hl He. destruct (run_script_ok os d c' Hl He) as (d' & Hr & Hc). exists d'.
  unfold run_migrations. cbn [concat]. by rewrite app_nil_r, Hr.
Qed.

Lemma scripts_literal k : forallb literal (upgrade (rev k)) = true /\ forallb literal (downgrade (rev k)) = true.
Proof.
  destruct (decide (9 <= k)); [unfold rev; by rewrite lookup_ge_None_2 by (cbn; lia)|].
  destruct k as [|[|[|[|[|[|[|[|[|k]]]]]]]]]; [..|lia]; vm_compute; split; reflexivity.
Qed.

(** C35: Up to revision 0008, upgrading a populated database and downgrading it again
    gives back every row as it was and the schema as it was, but for the order of
    the indexes and for the enum label 'batch', which 0005 leaves in place. *)
Theorem downgrade_undoes_upgrade k d :
  k < 8 -> populated k (catalog d) ->
  exists d1 d2, run_migrations [upgrade (rev k)] d = (d1, inr tt) /\
    run_migrations [downgrade (rev k)] d1 = (d2, inr tt) /\
    data (catalog d2) = data (catalog d) /\ restored k (schema (catalog d)) (schema (catalog d2)).
Proof.
  intros Hk8 Hp. assert (k < head) as Hk by (unfold head; cbn; lia).
  destruct (populated_shape k (catalog d)) as (l & us & E); [lia|done|].
  destruct (upgrade_populated k _ Hk Hp) as (c1 & He & Hp1 & _).
  pose proof (pop_ok _ _ Hp) as Hok. rewrite E in Hok. pose proof (upgrade_runs k l us Hk (proj2 Hok)) as Hr.
  rewrite E, Hr in He. injection He as <-.
  destruct (run_one (upgrade (rev k)) d _ (proj1 (scripts_literal k)) (eq_trans (f_equal _ E) Hr)) as (d1 & R1 & C1).
  assert (k = 7 -> job_keys_unique (upgraded k l) = true) as Hu.
  { intros ->. destruct Hok as [_ Hh]. unfold job_keys_unique. cbn [upgraded]. rewrite unique_in_set by by_columns.
    split_tests Hh. done. }
  pose proof (downgrade_runs k (upgraded k l) [] Hk (proj2 (pop_ok _ _ Hp1)) Hu) as Hd.
  destruct (run_one (downgrade (rev k)) d1 _ (proj2 (scripts_literal k)) (eq_trans (f_equal _ C1) Hd)) as (d2 & R2 & C2).
  exists d1, d2. rewrite E, C2. cbn [schema data]. split_and!; [done|done|by apply downgraded_upgraded|by apply schema_restored].
Qed.

(** C36: A downgrade from head to below 0008 gives up the owners of the jobs, and with
    them the scope of the idempotency keys: it succeeds exactly when no key was used
    by two jobs, and then the jobs lose their owner and nothing else; otherwise, as
    when two users chose the same key, it is refused and rolled back whole. *)
Theorem downgrade_below_ownership d :
  populated head (catalog d) ->
  let r := run_migrations [downgrade (rev 8); downgrade (rev 7)] d in
  (job_keys_unique (jobs (catalog d)) = true -> r.2 = inr tt /\
     jobs (catalog r.1) = del_cell "user_id" (del_cell "user_name" (jobs (catalog d)))) /\
  (job_keys_unique (jobs (catalog d)) = false -> r = (d, inl IntegrityError)).
Proof.
  intros Hp r. destruct (populated_shape head (catalog d)) as (l & us & E); [done|done|].
  pose proof (below_ownership_runs l) as Hr. pose proof (proj2 (pop_ok _ _ Hp)) as Hh. rewrite E in Hh. specialize (Hr Hh).
  assert (exists s, schema_effects below_ownership (schema_at head) = inr s) as [s Hs] by (eexists; vm_compute; reflexivity).
  pose proof (effects_split _ _ _ (tables_at head l []) Hs) as He. rewrite Hr in He.
  assert (jobs (catalog d) = l) as -> by (rewrite E; reflexivity).
  assert (run_migrations [downgrade (rev 8); downgrade (rev 7)] d =
          match run_script below_ownership d with inr d' => (d', inr tt) | inl e => (d, inl e) end) as Er by reflexivity.
  unfold r. rewrite Er. change (tables_at head l []) with (tables_at head l us) in He. rewrite <-E in He.
  split; intros Hu; rewrite Hu in He.
  - destruct (run_script_ok below_ownership d _ eq_refl He) as (d' & -> & Hc). split; [done|]. cbn [fst]. rewrite Hc.
    change (del_cell "user_id" (del_cell "user_name" (set_cell "user_id" VNull l)) =
            del_cell "user_id" (del_cell "user_name" l)).
    by rewrite del_set_other, del_set by done.
  - by rewrite (run_script_error below_ownership d _ eq_refl He).
Qed.
End Theorems.

(** * Concrete databases *)

Definition typed_rowb (enums : list (string * list string)) (cols : list column) (r : row) : bool :=
  bool_decide (dom r = (list_to_set (c_name <$> cols) : gset string)) &&
  forallb (fun c => fits enums c (cell r (c_name c))) cols.

Lemma typed_rowb_typed e cols r : typed_rowb e cols r = true -> typed_row e cols r.
Proof.
  unfold typed_rowb. rewrite andb_true_iff, bool_decide_eq_true, forallb_elem. intros [Hd Hf]. split.
  - intros n. by rewrite <-elem_of_dom, Hd, elem_of_list_to_set.
  - by apply Forall_forall.
Qed.

Lemma populated_by_jobs k l :
  (s_tables (schema_at k)).*1 = ["jobs"%string] ->
  forallb (typed_rowb (s_enums (schema_at k)) (default [] (od_get "jobs"%string (s_tables (schema_at k))))) l = true ->
  holds (schema_at k) [("jobs"%string, l)] = true ->
  populated k (mkCatalog (schema_at k) [("jobs"%string, l)]).
Proof.
  intros Ht Hl Hh. split; [done|by rewrite Ht|]. split; [|done]. intros t cols Hc. cbn [schema data] in *.
  assert (t = "jobs"%string) as ->.
  { apply od_get_elem, (list_elem_of_fmap_2 fst) in Hc. rewrite Ht in Hc. by apply list_elem_of_singleton in Hc. }
  rewrite Hc in Hl. cbn [default] in Hl. apply Forall_forall. intros r Hr. rewrite forallb_elem in Hl.
  by apply typed_rowb_typed, Hl.
Qed.

(** A job of the first release, not yet claimed. *)
Definition first_row : row :=
  list_to_map [("id", VUuid (Uuid 1 eq_refl)); ("type", VEnum "email"); ("payload", VJson (JObj []));
    ("status", VEnum "pending"); ("result", VNull); ("error", VNull); ("created_at", VTime 0);
    ("started_at", VNull); ("completed_at", VNull)]%string.
Definition first_release : Catalog := mkCatalog (schema_at 1) [("jobs"%string, [first_row])].

Lemma upgrade_head_serves_model_witness :
  exists d', upgrade_head (H := Catalogs.catalogs) 1 first_release = (d', inr tt) /\ populated head d' /\
    serves_model (schema d') /\ kept [first_row] (jobs d').
Proof.
  apply (upgrade_head_serves_model (DL := Catalogs.catalogs) 1 first_release); [unfold head; cbn; lia|].
  apply populated_by_jobs; vm_compute; reflexivity.
Defined.

Lemma downgrade_undoes_upgrade_witness :
  exists d1 d2, run_migrations (H := Catalogs.catalogs) [upgrade_0002] first_release = (d1, inr tt) /\
    run_migrations (H := Catalogs.catalogs) [downgrade_0002] d1 = (d2, inr tt) /\
    data d2 = data first_release /\ restored 1 (schema first_release) (schema d2).
Proof.
  apply (downgrade_undoes_upgrade (DL := Catalogs.catalogs) 1 first_release); [lia|].
  apply populated_by_jobs; vm_compute; reflexivity.
Defined.

(** Two users, one key. *)
Definition keyed_job (id owner : uuid) : Job :=
  mkJob id (Some owner) None report (JObj []) pending normal None None 0 4 0 None None None true None None
    (Some "nightly"%string) None None.
Definition shared_key : Catalog :=
  mkCatalog (schema_at head) [("jobs"%string,
    [row_of_job VNull (keyed_job (Uuid 1 eq_refl) (Uuid 1000 eq_refl));
     row_of_job VNull (keyed_job (Uuid 2 eq_refl) (Uuid 2000 eq_refl))])].

Lemma downgrade_below_ownership_witness :
  run_migrations (H := Catalogs.catalogs) [downgrade_0009; downgrade_0008] shared_key = (shared_key, inl IntegrityError).
Proof.
  apply (downgrade_below_ownership (DL := Catalogs.catalogs) shared_key); [|vm_compute; reflexivity].
  apply populated_by_jobs; vm_compute; reflexivity.
Defined.
