(* ===== verification/IsoTime.v ===== *)
(** [datetime.isoformat] and [datetime.fromisoformat] of the Python standard
    library (3.11), on the proleptic Gregorian calendar.

    A [raw_datetime] holds a clock reading in µs since 1970-01-01T00:00 on that
    clock and the clock's offset from UTC, if the text gives one. *)
From stdpp Require Import base tactics option list numbers.
From S2P Require Import Prelude Uuid Model Codecs.
Set Default Goal Selector "!".
Open Scope Z_scope.

(** * Calendar *)

Definition is_leap (year : Z) : bool :=
  (year mod 4 =? 0) && (negb (year mod 100 =? 0) || (year mod 400 =? 0)).

Definition days_before_year (year : Z) : Z :=
  let y := year - 1 in y * 365 + y / 4 - y / 100 + y / 400.

Definition month_lengths : list Z := [31; 28; 31; 30; 31; 30; 31; 31; 30; 31; 30; 31].

Definition month_days (leap : bool) (month : Z) : Z :=
  if (month =? 2) && leap then 29 else nth (Z.to_nat (month - 1)) month_lengths 0.

Definition month_start (leap : bool) (month : Z) : Z :=
  foldr Z.add 0 (take (Z.to_nat (month - 1)) month_lengths) +
  (if (2 <? month) && leap then 1 else 0).

Definition days_in_month (year month : Z) : Z := month_days (is_leap year) month.

(** The ordinal of a date; January 1st of year 1 has ordinal 1. *)
Definition ymd2ord (year month day : Z) : Z :=
  days_before_year year + month_start (is_leap year) month + day.

(** The year in which day [n] of a 400-year cycle falls, counted from 0, and the
    day of that year; days are counted from 0. *)
Definition year_in_cycle (n : Z) : Z * Z :=
  let n100 := n / 36524 in let n := n mod 36524 in
  let n4 := n / 1461 in let n := n mod 1461 in
  let n1 := n / 365 in let n := n mod 365 in
  let y := n100 * 100 + n4 * 4 + n1 in
  if (n1 =? 4) || (n100 =? 4) then (y - 1, 365) else (y, n).

(** The month: the last one that does not start after day [n] of the year. *)
Fixpoint find_month (leap : bool) (fuel : nat) (month n : Z) : Z :=
  match fuel with
  | O => month
  | S fuel' => if month_start leap month <=? n then month else find_month leap fuel' (month - 1) n
  end.

Definition ord2ymd (ord : Z) : Z * Z * Z :=
  let n := ord - 1 in
  let yd := year_in_cycle (n mod 146097) in
  let year := n / 146097 * 400 + 1 + yd.1 in
  let month := find_month (is_leap year) 12 12 yd.2 in
  (year, month, yd.2 - month_start (is_leap year) month + 1).

Definition date_ok (year month day : Z) : bool :=
  (1 <=? year) && (year <=? 9999) && (1 <=? month) && (month <=? 12) &&
  (1 <=? day) && (day <=? days_in_month year month).

(** ** The calendar is a bijection *)

Lemma leap_in_cycle h f o :
  0 <= h <= 3 -> 0 <= f <= 24 -> 0 <= o <= 3 ->
  is_leap (1 + (h * 100 + f * 4 + o)) = ((o =? 3) && (negb (f =? 24) || (h =? 3)))%bool.
Proof.
  intros Hh Hf Ho. unfold is_leap. apply eq_true_iff_eq.
  rewrite !andb_true_iff, !orb_true_iff, !negb_true_iff, !Z.eqb_eq, !Z.eqb_neq.
  Z.to_euclidean_division_equations. lia.
Qed.

Lemma before_year_in_cycle h f o :
  0 <= h <= 3 -> 0 <= f <= 24 -> 0 <= o <= 3 ->
  days_before_year (1 + (h * 100 + f * 4 + o)) = h * 36524 + f * 1461 + o * 365.
Proof. intros. unfold days_before_year. Z.to_euclidean_division_equations. lia. Qed.

Definition cycle_year_ok (n : Z) (yr : Z * Z) : Prop :=
  0 <= yr.1 <= 399 /\ (n < 145731 -> yr.1 <= 398) /\
  n = days_before_year (1 + yr.1) + yr.2 /\
  0 <= yr.2 < (if is_leap (1 + yr.1) then 366 else 365).

Lemma cycle_year_intro n h f o r :
  0 <= h <= 3 -> 0 <= f <= 24 -> 0 <= o <= 3 ->
  0 <= r < 365 \/ r = 365 /\ o = 3 /\ (f <> 24 \/ h = 3) ->
  n = h * 36524 + f * 1461 + o * 365 + r ->
  cycle_year_ok n (h * 100 + f * 4 + o, r).
Proof.
  intros Hh Hf Ho Hr Hn. unfold cycle_year_ok. cbn [fst snd].
  rewrite leap_in_cycle, before_year_in_cycle by done.
  assert (0 <= r < (if ((o =? 3) && (negb (f =? 24) || (h =? 3)))%bool then 366 else 365)); [|lia].
  destruct Hr as [Hr|(-> & -> & Hl)]; [by case_match; lia|].
  destruct (Z.eqb_spec f 24), (Z.eqb_spec h 3); simpl; lia.
Qed.

Lemma year_in_cycle_ok n : 0 <= n < 146097 -> cycle_year_ok n (year_in_cycle n).
Proof.
  intros Hn. unfold year_in_cycle.
  set (h := n / 36524). set (n' := n mod 36524).
  assert (n = 36524 * h + n' /\ 0 <= n' < 36524 /\ 0 <= h <= 4 /\ (h = 4 -> n' = 0)) as H1.
  { unfold h, n'. Z.to_euclidean_division_equations; lia. }
  clearbody h n'.
  set (f := n' / 1461). set (n'' := n' mod 1461).
  assert (n' = 1461 * f + n'' /\ 0 <= n'' < 1461 /\ 0 <= f <= 24 /\ (f = 24 -> n'' < 1460)) as H2.
  { unfold f, n''. Z.to_euclidean_division_equations; lia. }
  clearbody f n''.
  set (o := n'' / 365). set (r := n'' mod 365).
  assert (n'' = 365 * o + r /\ 0 <= r < 365 /\ 0 <= o <= 4 /\ (o = 4 -> r = 0)) as H3.
  { unfold o, r. Z.to_euclidean_division_equations; lia. }
  clearbody o r.
  destruct (Z.eqb_spec o 4) as [->|], (Z.eqb_spec h 4) as [->|]; cbn [orb]; [lia|..].
  - replace (h * 100 + f * 4 + 4 - 1) with (h * 100 + f * 4 + 3) by lia. apply cycle_year_intro; lia.
  - replace (4 * 100 + f * 4 + o - 1) with (3 * 100 + 24 * 4 + 3) by lia. apply cycle_year_intro; lia.
  - apply cycle_year_intro; lia.
Qed.

Definition month_ok (leap : bool) (r : Z) : bool :=
  let m := find_month leap 12 12 r in
  let d := r - month_start leap m + 1 in
  (1 <=? m) && (m <=? 12) && (1 <=? d) && (d <=? month_days leap m).

Lemma month_checked (leap : bool) r : 0 <= r < (if leap then 366 else 365) -> month_ok leap r = true.
Proof.
  intros Hr.
  assert (forallb (month_ok leap) (map Z.of_nat (seq 0 (if leap then 366 else 365))) = true) as H.
  { destruct leap; vm_compute; reflexivity. }
  rewrite forallb_forall in H. apply H, in_map_iff. exists (Z.to_nat r).
  split; [lia|]. apply in_seq. destruct leap; lia.
Qed.

Lemma is_leap_cycle q y : is_leap (q * 400 + y) = is_leap y.
Proof.
  unfold is_leap. replace (q * 400 + y) with (y + q * 100 * 4) by lia.
  rewrite Z_mod_plus_full. replace (y + q * 100 * 4) with (y + q * 4 * 100) by lia.
  rewrite Z_mod_plus_full. replace (y + q * 4 * 100) with (y + q * 400) by lia.
  by rewrite Z_mod_plus_full.
Qed.

Lemma days_before_year_cycle q y :
  days_before_year (q * 400 + y) = q * 146097 + days_before_year y.
Proof. unfold days_before_year. Z.to_euclidean_division_equations. lia. Qed.

(** Every ordinal of the calendar names a valid date, and that date's ordinal is it. *)
Lemma ord2ymd_ok ord :
  1 <= ord <= 3652059 ->
  let '(y, m, d) := ord2ymd ord in date_ok y m d = true /\ ymd2ord y m d = ord.
Proof.
  intros Ho. unfold ord2ymd, ymd2ord, date_ok, days_in_month.
  set (n := (ord - 1) mod 146097) in *. set (q := (ord - 1) / 146097) in *.
  assert (0 <= n < 146097) as Hn by (apply Z.mod_pos_bound; lia).
  assert (ord - 1 = 146097 * q + n) as Hq by apply Z_div_mod_eq_full.
  pose proof (year_in_cycle_ok n Hn) as Hc. destruct (year_in_cycle n) as [y r].
  destruct Hc as (Hy & Hlast & Hr & Hb). cbn [fst snd] in *.
  replace (q * 400 + 1 + y) with (q * 400 + (1 + y)) by lia.
  rewrite is_leap_cycle, days_before_year_cycle.
  pose proof (month_checked (is_leap (1 + y)) r Hb) as Hm. unfold month_ok in Hm. simp_bool.
  split; [|lia]. rewrite !andb_true_iff, !Z.leb_le. lia.
Qed.

(** * isoformat *)

Definition digit (d : Z) : N := Z.to_N (48 + d).

(** ['%0kd' % n] *)
Fixpoint dec_fixed (k : nat) (n : Z) : pystr :=
  match k with
  | O => []
  | S k' => dec_fixed k' (n / 10) ++ [digit (n mod 10)]
  end.

Definition us_per_day : Z := seconds 86400.

(** The ordinal of 1970-01-01. *)
Definition epoch_ord : Z := 719163.

(** [t.isoformat()] of an aware datetime in UTC. *)
Definition iso_points (t : datetime) : pystr :=
  let '(year, month, day) := ord2ymd (t / us_per_day + epoch_ord) in
  let us := t mod us_per_day in
  let s := us / 1000000 in
  dec_fixed 4 year ++ 45%N :: dec_fixed 2 month ++ 45%N :: dec_fixed 2 day ++
  84%N :: dec_fixed 2 (s / 3600) ++ 58%N :: dec_fixed 2 (s / 60 mod 60) ++
  58%N :: dec_fixed 2 (s mod 60) ++
  (if us mod 1000000 =? 0 then [] else 46%N :: dec_fixed 6 (us mod 1000000)) ++
  [43; 48; 48; 58; 48; 48]%N.

(** What a Python datetime in UTC can be: years 1 to 9999. *)
Definition datetime_ok (t : datetime) : bool :=
  ((1 - epoch_ord) * us_per_day <=? t) && (t <? (3652060 - epoch_ord) * us_per_day).

(** * fromisoformat *)

(** [s[i]] of a NUL-terminated buffer. *)
Definition at_ (s : bytes) (i : nat) : N := nth i s 0%N.

Definition is_digit (c : N) : bool := ((48 <=? c) && (c <=? 57))%N.

(** [k] digits at [i]. *)
Fixpoint digits_at (s : bytes) (i k : nat) (acc : Z) : option Z :=
  match k with
  | O => Some acc
  | S k' => if is_digit (at_ s i) then digits_at s (S i) k' (acc * 10 + (Z.of_N (at_ s i) - 48)) else None
  end.

(** The first non-digit at or after [i]. *)
Fixpoint skip_digits (s : bytes) (fuel i : nat) : nat :=
  match fuel with
  | O => i
  | S fuel' => if is_digit (at_ s i) then skip_digits s fuel' (S i) else i
  end.

Definition find_separator (s : bytes) : option nat :=
  let n := length s in
  if (n =? 7)%nat then Some 7%nat
  else if (at_ s 4 =? 45)%N then
    if (at_ s 5 =? 87)%N then
      if (8 <? n)%nat && (at_ s 8 =? 45)%N then
        if (n =? 9)%nat then None
        else if (10 <? n)%nat && is_digit (at_ s 10) then Some 8%nat else Some 10%nat
      else Some 8%nat
    else Some 10%nat
  else if (at_ s 4 =? 87)%N then
    let i := skip_digits s n 7 in
    if (i <? 9)%nat then Some i else if Nat.even i then Some 7%nat else Some 8%nat
  else Some 8%nat.

(** The Monday on which week 1 of an ISO year starts. *)
Definition week1_monday (year : Z) : Z :=
  let first := ymd2ord year 1 1 in
  let weekday := (first + 6) mod 7 in
  first - weekday + (if 3 <? weekday then 7 else 0).

Definition has_week_53 (year : Z) : bool :=
  let weekday := (ymd2ord year 1 1 + 6) mod 7 in
  (weekday =? 3) || ((weekday =? 2) && is_leap year).

Definition iso_to_ymd (year week day : Z) : option (Z * Z * Z) :=
  if (1 <=? year) && (year <=? 9999) &&
     (((0 <? week) && (week <? 53)) || ((week =? 53) && has_week_53 year)) &&
     (1 <=? day) && (day <=? 7)
  then Some (ord2ymd (week1_monday year + (week - 1) * 7 + (day - 1)))
  else None.

(** The date before the separator at [n]: a calendar or a week date, with or
    without dashes. *)
Definition parse_date (s : bytes) (n : nat) : option (Z * Z * Z) :=
  year ← digits_at s 0 4 0;
  let dash := (at_ s 4 =? 45)%N in
  let i := if dash then 5%nat else 4%nat in
  if (at_ s i =? 87)%N then
    week ← digits_at s (i + 1) 2 0;
    let j := (i + 3)%nat in
    if (j <? n)%nat then
      if dash then
        if (at_ s j =? 45)%N then day ← digits_at s (j + 1) 1 0; iso_to_ymd year week day else None
      else day ← digits_at s j 1 0; iso_to_ymd year week day
    else iso_to_ymd year week 1
  else
    month ← digits_at s i 2 0;
    let j := (i + 2)%nat in
    if dash then
      if (at_ s j =? 45)%N then day ← digits_at s (j + 1) 2 0; Some (year, month, day) else None
    else day ← digits_at s j 2 0; Some (year, month, day).

(** What follows the seconds: up to six digits, the rest ignored.  The flag tells
    that something is left. *)
Definition parse_fraction (s : bytes) (i n : nat) : option (Z * bool) :=
  let k := Nat.min 6 (n - i) in
  us ← digits_at s i k 0;
  Some (us * 10 ^ Z.of_nat (6 - k), negb (at_ s (skip_digits s (length s) (i + k)) =? 0)%N).

(** HH[:?MM[:?SS[{.,}f+]]] up to [n]; [k] fields are left, [sep] tells whether the
    first two are separated. *)
Fixpoint parse_fields (s : bytes) (n : nat) (k : nat) (first sep : bool) (i : nat)
    (acc : list Z) : option (list Z * Z * bool) :=
  match k with
  | O => fr ← parse_fraction s i n; Some (rev acc, fr.1, fr.2)
  | S k' =>
      v ← digits_at s i 2 0;
      let c := at_ s (i + 2) in
      let sep := if first then (c =? 58)%N else sep in
      if (n <=? i + 3)%nat then Some (rev (v :: acc), 0, negb (c =? 0)%N)
      else if sep && (c =? 58)%N then parse_fields s n k' false sep (i + 3) (v :: acc)
      else if (c =? 46)%N || (c =? 44)%N then
        fr ← parse_fraction s (i + 3) n; Some (rev (v :: acc), fr.1, fr.2)
      else if sep then None
      else parse_fields s n k' false sep (i + 2) (v :: acc)
  end.

(** The fields as hour, minute, second, µs. *)
Definition parse_hms (s : bytes) (i n : nat) : option (Z * Z * Z * Z * bool) :=
  r ← parse_fields s n 3 true true i [];
  let '(fs, us, more) := r in
  Some (nth 0 fs 0, nth 1 fs 0, nth 2 fs 0, us, more).

Fixpoint find_zone (s : bytes) (fuel i : nat) : nat :=
  match fuel with
  | O => i
  | S fuel' =>
      let c := at_ s i in
      if (c =? 43)%N || (c =? 45)%N || (c =? 90)%N then i else find_zone s fuel' (S i)
  end.

(** The time from [i] on: clock reading in the day, and offset, in µs. *)
Definition parse_time (s : bytes) (i : nat) : option (Z * option Z) :=
  let n := length s in
  let z := find_zone s (n - i) i in
  r ← parse_hms s i z;
  let '(h, m, sec, us, more) := r in
  if negb ((h <=? 23) && (m <=? 59) && (sec <=? 59)) then None else
  let reading := ((h * 60 + m) * 60 + sec) * 1000000 + us in
  if (z =? n)%nat then if more : bool then None else Some (reading, None)
  else if (at_ s z =? 90)%N then
    if (at_ s (z + 1) =? 0)%N then Some (reading, Some 0) else None
  else
    r ← parse_hms s (z + 1) n;
    let '(h, m, sec, us, more) := r in
    if more : bool then None else
    let secs := (h * 60 + m) * 60 + sec in
    let offset := if secs =? 0 then 0 else secs * 1000000 + us in
    if offset <? us_per_day
    then Some (reading, Some (if (at_ s z =? 45)%N then - offset else offset))
    else None.

(** A lone surrogate may stand only for the separator. *)
Definition sanitize (s : pystr) : pystr :=
  let at_sep i := (i <? length s)%nat && is_surrogate (nth i s 0%N) in
  let i := if at_sep 7%nat then 7%nat else if at_sep 8%nat then 8%nat else 10%nat in
  if at_sep i then <[i := 84%N]> s else s.

(** The length in bytes of the character that starts with [b]. *)
Definition char_size (b : N) : nat :=
  if (b <? 128)%N then 1 else if (240 <=? b)%N then 4 else if (224 <=? b)%N then 3 else 2.

(** [datetime.fromisoformat(text)]; [None] is the [ValueError]. *)
Definition fromisoformat (text : pystr) : option raw_datetime :=
  s ← utf8_encode (sanitize text);
  if (length text <? 7)%nat then None else
  n ← find_separator s;
  date ← parse_date s n;
  let '(year, month, day) := date in
  time ← (if (0 <? length s - n)%nat then parse_time s (n + char_size (at_ s n)) else Some (0, None));
  if date_ok year month day then
    Some (mkRaw ((ymd2ord year month day - epoch_ord) * us_per_day + time.1) time.2)
  else None.

(** * Round trip *)

Lemma digit_mod n : exists d, 0 <= d < 10 /\ n mod 10 = d /\ digit (n mod 10) = Z.to_N (48 + d).
Proof. exists (n mod 10). split; [apply Z.mod_pos_bound; lia|done]. Qed.

Lemma digit_is_digit n : is_digit (digit (n mod 10)) = true.
Proof.
  destruct (digit_mod n) as (d & Hd & _ & ->). unfold is_digit.
  rewrite andb_true_iff, !N.leb_le. lia.
Qed.

Lemma digit_ne n c : is_digit c = false -> (digit (n mod 10) =? c)%N = false.
Proof. intros Hc. apply N.eqb_neq. intros <-. by rewrite digit_is_digit in Hc. Qed.

Lemma digit_value n : Z.of_N (digit (n mod 10)) - 48 = n mod 10.
Proof. destruct (digit_mod n) as (d & Hd & E & ->). lia. Qed.

Lemma dec_fixed_length k n : length (dec_fixed k n) = k.
Proof. revert n. induction k as [|k IH]; intros n; [done|]. cbn [dec_fixed]. rewrite length_app, IH. simpl. lia. Qed.

Lemma digits_at_app s i k l acc :
  digits_at s i (k + l) acc = digits_at s i k acc ≫= digits_at s (i + k) l.
Proof.
  revert i acc. induction k as [|k IH]; intros i acc; cbn [digits_at Nat.add mbind option_bind].
  - by rewrite Nat.add_0_r.
  - case_match; [|done]. rewrite IH. by rewrite Nat.add_succ_comm.
Qed.

Lemma at_drop s i : at_ s i = at_ (drop i s) 0.
Proof. unfold at_. revert i. induction s as [|c s IH]; intros [|i]; try done. apply IH. Qed.

(** [k] digits written at [i] are read back. *)
Lemma digits_at_fixed s i k n acc :
  take k (drop i s) = dec_fixed k n -> 0 <= n < 10 ^ Z.of_nat k ->
  digits_at s i k acc = Some (acc * 10 ^ Z.of_nat k + n).
Proof.
  revert n. induction k as [|k IH]; intros n Hs Hn.
  - cbn [digits_at]. f_equal. change (10 ^ Z.of_nat 0) with 1 in *. lia.
  - cbn [dec_fixed] in Hs.
    assert (length (dec_fixed k (n / 10)) = k) as Hk by apply dec_fixed_length.
    rewrite Nat2Z.inj_succ, Z.pow_succ_r in Hn by lia.
    rewrite Nat2Z.inj_succ, Z.pow_succ_r by lia.
    assert (take k (drop i s) = dec_fixed k (n / 10)) as H1.
    { apply (f_equal (take k)) in Hs. rewrite take_take, Nat.min_l in Hs by lia.
      by rewrite Hs, take_app_le, take_ge by lia. }
    assert (at_ s (i + k) = digit (n mod 10)) as H2.
    { rewrite at_drop, <-drop_drop.
      apply (f_equal (drop k)) in Hs. rewrite drop_app_length' in Hs by lia.
      replace (S k) with (k + 1)%nat in Hs by lia. rewrite <-take_drop_commute in Hs.
      unfold at_. by destruct (drop k (drop i s)); simplify_eq/=. }
    replace (S k) with (k + 1)%nat by lia. rewrite digits_at_app, (IH (n / 10)); [|done|].
    + cbn [mbind option_bind digits_at]. rewrite H2, digit_is_digit, digit_value. f_equal.
      pose proof (Z_div_mod_eq_full n 10). lia.
    + pose proof (Z_div_mod_eq_full n 10). pose proof (Z.mod_pos_bound n 10). lia.
Qed.

Lemma sanitize_plain s : Forall is_plain s -> sanitize s = s.
Proof.
  intros Hs. unfold sanitize.
  assert (forall i, (i <? length s)%nat && is_surrogate (nth i s 0%N) = false) as Hn.
  { intros i. destruct (i <? length s)%nat eqn:Hi; [|done]. simp_bool.
    apply Nat.ltb_lt in Hi. pose proof (proj1 (List.Forall_forall _ _) Hs _ (nth_In s 0%N Hi)) as Hc.
    unfold is_plain in Hc. unfold is_surrogate. cbn [andb]. rewrite (proj2 (N.leb_gt _ _)) by lia. done. }
  by rewrite !Hn.
Qed.

(** The text of a datetime in UTC, from its fields. *)
Definition iso_text (year month day h m sec : Z) (fraction : option Z) : pystr :=
  dec_fixed 4 year ++ 45%N :: dec_fixed 2 month ++ 45%N :: dec_fixed 2 day ++
  84%N :: dec_fixed 2 h ++ 58%N :: dec_fixed 2 m ++ 58%N :: dec_fixed 2 sec ++
  match fraction with None => [] | Some us => 46%N :: dec_fixed 6 us end ++
  [43; 48; 48; 58; 48; 48]%N.

Lemma iso_points_text t :
  iso_points t =
  let ymd := ord2ymd (t / us_per_day + epoch_ord) in
  let us := t mod us_per_day in let s := us / 1000000 in
  iso_text ymd.1.1 ymd.1.2 ymd.2 (s / 3600) (s / 60 mod 60) (s mod 60)
    (if us mod 1000000 =? 0 then None else Some (us mod 1000000)).
Proof. unfold iso_points, iso_text. destruct (ord2ymd _) as [[y m] d]. by case_match. Qed.

(** Digits and [+ - . : T] *)
Definition is_iso_char (c : N) : Prop := is_digit c = true \/ c ∈ [43; 45; 46; 58; 84]%N.

Lemma dec_fixed_iso k n : Forall is_iso_char (dec_fixed k n).
Proof.
  revert n. induction k as [|k IH]; intros n; cbn [dec_fixed]; [constructor|].
  apply Forall_app. split; [done|]. constructor; [left; apply digit_is_digit|constructor].
Qed.

Lemma iso_text_chars y mo d h m s f : Forall is_iso_char (iso_text y mo d h m s f).
Proof.
  assert (forall c, c ∈ [43; 45; 46; 58; 84]%N \/ is_digit c = true -> is_iso_char c) as Hc
    by (unfold is_iso_char; tauto).
  unfold iso_text. destruct f as [us|];
    repeat first [ apply dec_fixed_iso | apply Forall_app; split | apply Forall_cons; split
                 | by apply Forall_nil | apply Hc; left; set_solver | by apply Hc; right ].
Qed.

Lemma iso_points_chars t : Forall is_iso_char (iso_points t).
Proof. rewrite iso_points_text. apply iso_text_chars. Qed.

Lemma is_iso_char_plain c : is_iso_char c -> is_plain c /\ c <> 34%N /\ c <> 92%N.
Proof.
  unfold is_plain. intros [Hd|Hc].
  - unfold is_digit in Hd. simp_bool. lia.
  - repeat (apply elem_of_cons in Hc as [->|Hc]; [lia|]). by apply not_elem_of_nil in Hc.
Qed.

Lemma iso_text_plain y mo d h m s f : Forall is_plain (iso_text y mo d h m s f).
Proof. eapply Forall_impl; [apply iso_text_chars|]. apply is_iso_char_plain. Qed.

Lemma month_days_le leap k : month_days leap k <= 31.
Proof.
  unfold month_days. case_match; [lia|].
  destruct (Z.to_nat (k - 1)) as [|[|[|[|[|[|[|[|[|[|[|[|n]]]]]]]]]]]]; try (simpl; lia).
  by destruct n.
Qed.

(** Read the [k] digits of [n] at index [i] of a text whose shape is known. *)
Ltac read_digits i k n :=
  rewrite (digits_at_fixed _ i k n) by first [reflexivity | simpl; lia];
  cbn [mbind option_bind]; rewrite ?Z.mul_0_l, ?Z.add_0_l.

(** The character at index [i] of such a text. *)
Ltac read_char i c :=
  match goal with |- context [at_ ?s i] => change (at_ s i) with c end.

Lemma parse_fields_colon s n k first sep i v acc :
  digits_at s i 2 0 = Some v -> at_ s (i + 2) = 58%N -> (n <=? i + 3)%nat = false ->
  first || sep = true ->
  parse_fields s n (S k) first sep i acc = parse_fields s n k false true (i + 3) (v :: acc).
Proof.
  intros Hv Hc Hn Hs. cbn [parse_fields]. rewrite Hv, Hn, Hc. cbn [mbind option_bind].
  by destruct first, sep.
Qed.

Lemma parse_fields_end s n k first sep i v acc :
  digits_at s i 2 0 = Some v -> (n <=? i + 3)%nat = true ->
  parse_fields s n (S k) first sep i acc = Some (rev (v :: acc), 0, negb (at_ s (i + 2) =? 0)%N).
Proof. intros Hv Hn. cbn [parse_fields]. by rewrite Hv, Hn. Qed.

Lemma parse_fields_point s n k first sep i v us more acc :
  digits_at s i 2 0 = Some v -> at_ s (i + 2) = 46%N -> (n <=? i + 3)%nat = false ->
  parse_fraction s (i + 3) n = Some (us, more) ->
  parse_fields s n (S k) first sep i acc = Some (rev (v :: acc), us, more).
Proof.
  intros Hv Hc Hn Hf. cbn [parse_fields]. rewrite Hv, Hn, Hc. cbn [mbind option_bind N.eqb Pos.eqb orb].
  rewrite andb_false_r, Hf. done.
Qed.

Section Fields.
Context (y mo d h m sec : Z) (fraction : option Z).
Context (Hdate : date_ok y mo d = true).
Context (Hh : 0 <= h <= 23) (Hm : 0 <= m <= 59) (Hs : 0 <= sec <= 59).
Context (Hf : forall us, fraction = Some us -> 0 <= us < 1000000).
#[local] Abbreviation text := (iso_text y mo d h m sec fraction).

Lemma date_bounds : 1 <= y <= 9999 /\ 1 <= mo <= 12 /\ 1 <= d <= 31.
Proof.
  revert Hdate. unfold date_ok, days_in_month. rewrite !andb_true_iff, !Z.leb_le.
  pose proof (month_days_le (is_leap y) mo). lia.
Qed.

Lemma find_separator_text : find_separator text = Some 10%nat.
Proof.
  unfold find_separator. destruct fraction as [us|]; cbn [iso_text]; cbn.
  all: by rewrite digit_ne by done.
Qed.

Lemma parse_date_text : parse_date text 10 = Some (y, mo, d).
Proof.
  destruct date_bounds as (Hy & Hmo & Hd). unfold parse_date.
  read_digits 0%nat 4%nat y. cbv zeta.
  change (at_ text 4 =? 45)%N with true. cbv iota.
  change (at_ text 5) with (digit (mo / 10 mod 10)).
  rewrite digit_ne by done. read_digits 5%nat 2%nat mo.
  change (at_ text (5 + 2) =? 45)%N with true. cbv iota.
  by read_digits (5 + 2 + 1)%nat 2%nat d.
Qed.

Definition text_end : nat := match fraction with None => 19 | Some _ => 26 end.

Lemma find_zone_text : find_zone text (length text - 11) 11 = text_end.
Proof.
  unfold text_end. destruct fraction as [us|]; cbn -[digit Z.div Z.modulo N.eqb].
  all: repeat (rewrite digit_ne by done; cbn [orb]).
  all: repeat (cbn [orb N.eqb Pos.eqb]; rewrite ?digit_ne by done).
  all: done.
Qed.

Lemma read_2 i n : take 2 (drop i text) = dec_fixed 2 n -> 0 <= n < 100 -> digits_at text i 2 0 = Some n.
Proof. intros Hn Hb. by rewrite (digits_at_fixed _ i 2 n). Qed.

Lemma parse_fraction_text us :
  fraction = Some us -> parse_fraction text 20 26 = Some (us, true).
Proof.
  intros ->. specialize (Hf us eq_refl). unfold parse_fraction. change (Nat.min 6 (26 - 20)) with 6%nat.
  read_digits 20%nat 6%nat us. by rewrite Z.mul_1_r.
Qed.

Lemma parse_hms_text : parse_hms text 11 text_end = Some (h, m, sec, default 0 fraction, true).
Proof.
  unfold parse_hms.
  assert ((text_end <=? 11 + 3)%nat = false /\ (text_end <=? 11 + 3 + 3)%nat = false) as [H1 H2]
    by (unfold text_end; by destruct fraction).
  rewrite (parse_fields_colon _ _ _ _ _ _ h) by first [done | apply read_2; [reflexivity|lia]].
  rewrite (parse_fields_colon _ _ _ _ _ _ m) by first [done | apply read_2; [reflexivity|lia]].
  assert (digits_at text (11 + 3 + 3) 2 0 = Some sec) as Hsec by (apply read_2; [reflexivity|lia]).
  assert (fraction = None \/ exists us, fraction = Some us) as [E|[us E]] by (destruct fraction; eauto).
  - rewrite (parse_fields_end _ _ _ _ _ _ sec); [|done|unfold text_end; by rewrite E].
    by rewrite E.
  - rewrite (parse_fields_point _ _ _ _ _ _ sec us true); [|done|by rewrite E|unfold text_end; by rewrite E|].
    + by rewrite E.
    + unfold text_end. rewrite E. rewrite <-E. by apply parse_fraction_text.
Qed.

Lemma parse_zone_text : parse_hms text (text_end + 1) (length text) = Some (0, 0, 0, 0, false).
Proof. unfold text_end. by destruct fraction. Qed.

Lemma parse_time_text :
  parse_time text 11 = Some (((h * 60 + m) * 60 + sec) * 1000000 + default 0 fraction, Some 0).
Proof.
  unfold parse_time. rewrite find_zone_text, parse_hms_text. cbn [mbind option_bind].
  rewrite (proj2 (Z.leb_le h 23)), (proj2 (Z.leb_le m 59)), (proj2 (Z.leb_le sec 59)) by lia.
  cbn [andb negb].
  assert ((text_end =? length text)%nat = false) as -> by (unfold text_end; by destruct fraction).
  assert (at_ text text_end = 43%N) as -> by (unfold text_end; by destruct fraction).
  cbn [N.eqb Pos.eqb]. by rewrite parse_zone_text.
Qed.

Lemma fromisoformat_text :
  fromisoformat text =
  Some (mkRaw ((ymd2ord y mo d - epoch_ord) * us_per_day +
    (((h * 60 + m) * 60 + sec) * 1000000 + default 0 fraction)) (Some 0)).
Proof.
  unfold fromisoformat. pose proof (iso_text_plain y mo d h m sec fraction) as Hp.
  rewrite sanitize_plain, utf8_plain by done. cbn [mbind option_bind].
  assert ((length text <? 7)%nat = false) as -> by by destruct fraction.
  rewrite find_separator_text. cbn [mbind option_bind]. rewrite parse_date_text. cbn [mbind option_bind].
  assert ((0 <? length text - 10)%nat = true) as -> by by destruct fraction.
  change (10 + char_size (at_ text 10))%nat with 11%nat.
  rewrite parse_time_text. cbn [mbind option_bind fst snd]. by rewrite Hdate.
Qed.
End Fields.

Lemma seconds_fields s : 0 <= s -> (s / 3600 * 60 + s / 60 mod 60) * 60 + s mod 60 = s.
Proof.
  intros Hs. replace (s / 3600) with (s / 60 / 60) by (by rewrite Z.div_div).
  pose proof (Z_div_mod_eq_full (s / 60) 60). pose proof (Z_div_mod_eq_full s 60). lia.
Qed.

(** [datetime.fromisoformat(t.isoformat()) == t] *)
Lemma fromisoformat_iso t :
  datetime_ok t = true -> fromisoformat (iso_points t) = Some (mkRaw t (Some 0)).
Proof.
  unfold datetime_ok. rewrite andb_true_iff, Z.leb_le, Z.ltb_lt. intros Ht.
  assert (t = us_per_day * (t / us_per_day) + t mod us_per_day) as Hd by by apply Z_div_mod_eq_full.
  assert (0 <= t mod us_per_day < us_per_day) as Hr by by apply Z.mod_pos_bound.
  rewrite iso_points_text. cbv zeta.
  set (day := t / us_per_day) in *. set (us := t mod us_per_day) in *. clearbody day us. subst t.
  unfold us_per_day, epoch_ord in *.
  pose proof (ord2ymd_ok (day + 719163) ltac:(lia)) as Ho.
  destruct (ord2ymd (day + 719163)) as [[y mo] d]. destruct Ho as [Hdate Hord]. cbn [fst snd].
  rewrite fromisoformat_text, Hord; [|done|Z.to_euclidean_division_equations; lia..|].
  - f_equal. f_equal. pose proof (Z_div_mod_eq_full us 1000000) as Hus.
    rewrite seconds_fields by (apply Z.div_pos; lia).
    unfold epoch_ord, us_per_day. destruct (Z.eqb_spec (us mod 1000000) 0); cbn [default from_option id]; lia.
  - intros u. case_match; [done|]. intros [= <-]. by apply Z.mod_pos_bound.
Qed.
