(* ===== verification/Json.v ===== *)
(** JSON as Python's [json] module writes and reads it.

    [json_dumps] writes the [json] values of Model.v, whose strings are code points
    below 256 and whose floats carry the [repr] they are printed by.  [json_loads]
    reads any text into [pyjson], whose strings are lists of code points. *)
From Stdlib Require Import Ascii.
From stdpp Require Import base tactics option list gmap strings numbers sorting pretty.
From S2P Require Import Prelude Uuid Model Codecs.
Set Default Goal Selector "!".

(** * json.dumps *)

Definition text (s : string) : list ascii := String.list_ascii_of_string s.

(** One character of a JSON string, escaped as [ensure_ascii] does. *)
Definition quote : ascii := ascii_of_N 34.
Definition backslash : ascii := ascii_of_N 92.

Definition escape_char (c : ascii) : list ascii :=
  let n := N_of_ascii c in
  if (n =? 34)%N then [backslash; quote] else
  if (n =? 92)%N then [backslash; backslash] else
  if (n =? 10)%N then [backslash; "n"%char] else
  if (n =? 13)%N then [backslash; "r"%char] else
  if (n =? 9)%N then [backslash; "t"%char] else
  if (n =? 12)%N then [backslash; "f"%char] else
  if (n =? 8)%N then [backslash; "b"%char] else
  if ((n <? 32) || (126 <? n))%N then backslash :: "u"%char :: hex_fixed 4 n
  else [c].

Definition dump_string (s : string) : list ascii :=
  [quote] ++ (text s ≫= escape_char) ++ [quote].

(** [sep.join(ts)] *)
Fixpoint join (sep : list ascii) (ts : list (list ascii)) : list ascii :=
  match ts with
  | [] => []
  | [t] => t
  | t :: ts' => t ++ sep ++ join sep ts'
  end.

(** [sorted(d.items())], stable; keys compare by code point. *)
Fixpoint insert_item {V} (k : string) (v : V) (l : list (string * V)) : list (string * V) :=
  match l with
  | [] => [(k, v)]
  | (k', v') :: l' =>
      if String.leb k k' then (k, v) :: l else (k', v') :: insert_item k v l'
  end.

Fixpoint sort_items {V} (l : list (string * V)) : list (string * V) :=
  match l with
  | [] => []
  | (k, v) :: l' => insert_item k v (sort_items l')
  end.

(** [json.dumps(v, sort_keys=sort, separators=(item, key))] *)
Fixpoint json_dumps (item key : list ascii) (sort : bool) (v : json) : list ascii :=
  match v with
  | JNull => text "null"
  | JBool true => text "true"
  | JBool false => text "false"
  | JInt z => text (pretty z)
  | JFloat r => text r
  | JStr s => dump_string s
  | JArr l => "["%char :: join item (map (json_dumps item key sort) l) ++ ["]"%char]
  | JObj l =>
      let kts := map (fun kv => (kv.1, json_dumps item key sort kv.2)) l in
      "{"%char :: join item
        (map (fun kt => dump_string kt.1 ++ key ++ kt.2) (if sort then sort_items kts else kts)) ++
      ["}"%char]
  end.

(** * json.loads *)

Open Scope N_scope.

Inductive pyjson :=
| PNull
| PBool (b : bool)
| PInt (z : Z)
| PFloat (literal : pystr)
| PStr (s : pystr)
| PList (l : list pyjson)
| PDict (l : list (pystr * pyjson)).

Fixpoint skip_ws (l : pystr) : pystr :=
  match l with
  | c :: l' => if (c =? 32) || (c =? 9) || (c =? 10) || (c =? 13) then skip_ws l' else l
  | [] => []
  end.

Definition hex_code (c : N) : option N :=
  if (48 <=? c) && (c <=? 57) then Some (c - 48)
  else if (97 <=? c) && (c <=? 102) then Some (c - 87)
  else if (65 <=? c) && (c <=? 70) then Some (c - 55)
  else None.

Definition hex4 (a b c d : N) : option N :=
  a ← hex_code a; b ← hex_code b; c ← hex_code c; d ← hex_code d;
  Some (((a * 16 + b) * 16 + c) * 16 + d).

(** The character an escape letter stands for. *)
Definition unescape (c : N) : option N :=
  if (c =? 34) || (c =? 92) || (c =? 47) then Some c
  else if c =? 98 then Some 8 else if c =? 102 then Some 12 else if c =? 110 then Some 10
  else if c =? 114 then Some 13 else if c =? 116 then Some 9 else None.

Definition push (c : N) (r : option (pystr * pystr)) : option (pystr * pystr) :=
  r ← r; Some (c :: r.1, r.2).

(** The rest of a string after its opening quote, and what follows the closing
    one; control characters are refused, an escaped surrogate pair is joined. *)
Fixpoint scan_string (l : pystr) : option (pystr * pystr) :=
  match l with
  | [] => None
  | c :: l1 =>
      if c =? 34 then Some ([], l1)
      else if c =? 92 then
        match l1 with
        | e :: l2 =>
            if e =? 117 then
              match l2 with
              | h1 :: h2 :: h3 :: h4 :: l3 =>
                  u ← hex4 h1 h2 h3 h4;
                  match l3 with
                  | b :: e' :: k1 :: k2 :: k3 :: k4 :: l4 =>
                      if is_high u && (b =? 92) && (e' =? 117) then
                        v ← hex4 k1 k2 k3 k4;
                        if is_low v then push (join_pair u v) (scan_string l4)
                        else push u (scan_string l3)
                      else push u (scan_string l3)
                  | _ => push u (scan_string l3)
                  end
              | _ => None
              end
            else c' ← unescape e; push c' (scan_string l2)
        | [] => None
        end
      else if c <? 32 then None
      else push c (scan_string l1)
  end.

Definition is_num (c : N) : bool := (48 <=? c) && (c <=? 57).

Fixpoint take_digits (l : pystr) : pystr * pystr :=
  match l with
  | c :: l' => if is_num c then let r := take_digits l' in (c :: r.1, r.2) else ([], l)
  | [] => ([], [])
  end.

Definition digits_value (l : pystr) : Z := foldl (fun acc c => acc * 10 + (Z.of_N c - 48))%Z 0%Z l.

Definition next_is (f : N -> bool) (l : pystr) : bool :=
  match l with c :: _ => f c | [] => false end.

(** A number: an integer without leading zeros, then a fraction and an exponent,
    each only if it has a digit. *)
Definition scan_number (l : pystr) : option (pyjson * pystr) :=
  let neg := next_is (N.eqb 45) l in
  let l1 := if neg then drop 1 l else l in
  let int := if next_is (N.eqb 48) l1 then ([48], drop 1 l1) else take_digits l1 in
  match int.1 with
  | [] => None
  | _ =>
      let frac := if next_is (N.eqb 46) int.2 && next_is is_num (drop 1 int.2)
                  then let r := take_digits (drop 1 int.2) in (46 :: r.1, r.2) else ([], int.2) in
      let exp := if next_is (fun c => (c =? 101) || (c =? 69)) frac.2 then
                   let sgn := take 1 (drop 1 frac.2) in
                   let k := if next_is (fun c => (c =? 43) || (c =? 45)) sgn then 2%nat else 1%nat in
                   if next_is is_num (drop k frac.2)
                   then let r := take_digits (drop k frac.2) in (take k frac.2 ++ r.1, r.2)
                   else ([], frac.2)
                 else ([], frac.2) in
      let sign := if neg then [45] else [] in
      Some (if bool_decide (frac.1 ++ exp.1 = [])
            then PInt (if neg then - digits_value int.1 else digits_value int.1)%Z
            else PFloat (sign ++ int.1 ++ frac.1 ++ exp.1), exp.2)
  end.

(** The constants, NaN and the infinities included. *)
Definition constants : list (pystr * pyjson) :=
  [(points "null", PNull); (points "true", PBool true); (points "false", PBool false);
   (points "NaN", PFloat (points "NaN")); (points "Infinity", PFloat (points "Infinity"));
   (points "-Infinity", PFloat (points "-Infinity"))].

Fixpoint scan_constant (cs : list (pystr * pyjson)) (l : pystr) : option (pyjson * pystr) :=
  match cs with
  | [] => None
  | (name, v) :: cs' =>
      if bool_decide (take (length name) l = name) then Some (v, drop (length name) l)
      else scan_constant cs' l
  end.

(** A value, the rest of a list and the rest of an object; two calls
    in a row read a character, so twice the length of the text is fuel enough. *)
Fixpoint scan_once (fuel : nat) (l : pystr) : option (pyjson * pystr) :=
  match fuel with
  | O => None
  | S n =>
      match l with
      | [] => None
      | c :: l1 =>
          if c =? 34 then r ← scan_string l1; Some (PStr r.1, r.2)
          else if c =? 91 then
            let l2 := skip_ws l1 in
            if next_is (N.eqb 93) l2 then Some (PList [], drop 1 l2)
            else r ← scan_items n l2; Some (PList r.1, r.2)
          else if c =? 123 then
            let l2 := skip_ws l1 in
            if next_is (N.eqb 125) l2 then Some (PDict [], drop 1 l2)
            else r ← scan_members n l2; Some (PDict r.1, r.2)
          else match scan_constant constants l with
          | Some r => Some r
          | None => scan_number l
          end
      end
  end
with scan_items (fuel : nat) (l : pystr) : option (list pyjson * pystr) :=
  match fuel with
  | O => None
  | S n =>
      v ← scan_once n l;
      let l2 := skip_ws v.2 in
      if next_is (N.eqb 93) l2 then Some ([v.1], drop 1 l2)
      else if next_is (N.eqb 44) l2 then r ← scan_items n (skip_ws (drop 1 l2)); Some (v.1 :: r.1, r.2)
      else None
  end
with scan_members (fuel : nat) (l : pystr) : option (list (pystr * pyjson) * pystr) :=
  match fuel with
  | O => None
  | S n =>
      if next_is (N.eqb 34) l then
        k ← scan_string (drop 1 l);
        let l2 := skip_ws k.2 in
        if next_is (N.eqb 58) l2 then
          v ← scan_once n (skip_ws (drop 1 l2));
          let l3 := skip_ws v.2 in
          if next_is (N.eqb 125) l3 then Some ([(k.1, v.1)], drop 1 l3)
          else if next_is (N.eqb 44) l3 then
            r ← scan_members n (skip_ws (drop 1 l3)); Some ((k.1, v.1) :: r.1, r.2)
          else None
        else None
      else None
  end.

(** [json.loads(s)] of a text; [None] is the [JSONDecodeError]. *)
Definition json_loads_text (s : pystr) : option pyjson :=
  r ← scan_once (2 * length s + 2) (skip_ws s);
  match skip_ws r.2 with [] => Some r.1 | _ => None end.

(** [json.loads(b)] of bytes *)
Definition json_loads (b : bytes) : option pyjson := json_text b ≫= json_loads_text.

(** ** Text that needs no escape *)

Definition is_safe (c : N) : Prop := is_plain c /\ c <> 34 /\ c <> 92.

Lemma scan_string_safe s r : Forall is_safe s -> scan_string (s ++ 34 :: r) = Some (s, r).
Proof.
  induction 1 as [|c s (Hp & H34 & H92) _ IH]; [done|]. unfold is_plain in Hp.
  cbn [app scan_string].
  rewrite (proj2 (N.eqb_neq c 34)), (proj2 (N.eqb_neq c 92)), (proj2 (N.ltb_ge c 32)) by done || lia.
  by rewrite IH.
Qed.

(** A string of such characters is dumped as it is. *)
Lemma dump_string_safe s :
  Forall is_safe (N_of_ascii <$> text s) -> dump_string s = [quote] ++ text s ++ [quote].
Proof.
  intros Hs. unfold dump_string. f_equal. f_equal. induction (text s) as [|c l IH]; [done|].
  apply Forall_cons in Hs as [(Hp & H34 & H92) Hs]. cbn [mbind list_bind]. rewrite IH by done.
  unfold escape_char, is_plain in *.
  repeat match goal with |- context [(?a =? ?b)%N] => rewrite (proj2 (N.eqb_neq a b)) by lia end.
  rewrite (proj2 (N.ltb_ge _ 32)), (proj2 (N.ltb_ge 126 _)) by lia. done.
Qed.
