(* ===== verification/JsonFacts.v ===== *)
(** What [json.dumps] writes, [json.loads] reads back, and nothing else can have been
    written: the text of a value determines it.  The idempotency hash (app/idempotency.py)
    and the log lines (app/core/logging.py) rest on this. *)
From Stdlib Require Import Ascii.
From stdpp Require Import base tactics option list gmap strings numbers sorting pretty.
From S2P Require Import Prelude Uuid Model Codecs Json.
Set Default Goal Selector "!".
Open Scope N_scope.

Definition codes (l : list ascii) : pystr := N_of_ascii <$> l.

Lemma codes_app l1 l2 : codes (l1 ++ l2) = codes l1 ++ codes l2.
Proof. apply fmap_app. Qed.

(** * Numbers *)

(** The next character does not continue a number. *)
Definition stops (rest : pystr) : bool :=
  negb (next_is (fun c => is_num c || (c =? 46) || (c =? 101) || (c =? 69)) rest).

Definition digit_codes (l : pystr) : Prop := Forall (fun c => is_num c = true) l.

Lemma take_digits_app l rest :
  digit_codes l -> next_is is_num rest = false -> take_digits (l ++ rest) = (l, rest).
Proof.
  intros Hl Hr. induction Hl as [|c l Hc _ IH]; simpl.
  - destruct rest as [|c rest]; [done|]. simpl in *. by rewrite Hr.
  - by rewrite Hc, IH.
Qed.

Lemma digits_value_app l1 l2 :
  digits_value (l1 ++ l2) = (digits_value l1 * 10 ^ Z.of_nat (length l2) + digits_value l2)%Z.
Proof.
  unfold digits_value. rewrite foldl_app. generalize (foldl (fun acc c => acc * 10 + (Z.of_N c - 48))%Z 0%Z l1).
  induction l2 as [|c l2 IH] using rev_ind; intros z; [simpl; lia|].
  rewrite !foldl_app, length_app, IH. simpl. rewrite Nat2Z.inj_add, Z.pow_add_r by lia. simpl. lia.
Qed.

Lemma pretty_N_char_code d : d < 10 -> N_of_ascii (pretty_N_char d) = 48 + d.
Proof.
  intros Hd. assert (d = 0 \/ d = 1 \/ d = 2 \/ d = 3 \/ d = 4 \/ d = 5 \/ d = 6 \/ d = 7 \/ d = 8 \/ d = 9)
    as Hcases by lia. by repeat destruct Hcases as [->|Hcases]; [..|subst d].
Qed.

(** The digits of a positive number, before [s]: their value, and no leading zero. *)
Lemma pretty_N_go_codes n s :
  exists ds, codes (text (pretty_N_go n s)) = ds ++ codes (text s) /\ digit_codes ds /\
    digits_value ds = Z.of_N n /\ (0 < n -> exists c ds', ds = c :: ds' /\ c <> 48).
Proof.
  revert s. induction (N.lt_wf_0 n) as [n _ IH]; intros s.
  destruct (decide (n = 0)) as [->|Hn].
  { exists []. rewrite pretty_N_go_0. split_and!; [done|constructor|done|lia]. }
  rewrite pretty_N_go_step by lia.
  assert (n mod 10 < 10) as Hd by (apply N.mod_lt; lia).
  destruct (IH (n / 10)) with (s := String (pretty_N_char (n mod 10)) s) as (ds & E & Hds & Hv & Hh).
  { apply N.div_lt; lia. }
  exists (ds ++ [48 + n mod 10]). split; [|split; [|split]].
  - rewrite E. unfold text. simpl. rewrite pretty_N_char_code by done. by rewrite <-app_assoc.
  - apply Forall_app. split; [done|]. apply Forall_singleton. unfold is_num.
    clear -Hd. generalize dependent (n `mod` 10). intros r Hr.
    apply andb_true_iff. split; apply N.leb_le; lia.
  - rewrite digits_value_app, Hv. pose proof (N.div_mod' n 10) as Hdm.
    change (Z.of_nat (length [48 + n mod 10])) with 1%Z. rewrite Z.pow_1_r.
    change (digits_value [48 + n mod 10]) with (Z.of_N (48 + n mod 10) - 48)%Z. lia.
  - intros _. destruct (decide (n / 10 = 0)) as [Hz|Hz].
    + rewrite Hz, pretty_N_go_0 in E. apply (f_equal length) in E. rewrite length_app in E.
      destruct ds; [|cbn [length] in E; lia]. exists (48 + n mod 10), []. split; [done|].
      pose proof (N.div_mod' n 10) as Hdm. rewrite Hz in Hdm. clear -Hdm Hn. revert Hdm.
      generalize (n `mod` 10). intros r. lia.
    + destruct Hh as (c & ds' & -> & Hc); [by apply N.neq_0_lt_0|]. by exists c, (ds' ++ [48 + n mod 10]).
Qed.

Lemma pretty_pos_codes p :
  exists c ds, codes (text (pretty (N.pos p))) = c :: ds /\ digit_codes (c :: ds) /\ c <> 48 /\
    digits_value (c :: ds) = Z.pos p.
Proof.
  unfold pretty, pretty_N. rewrite decide_False by done.
  destruct (pretty_N_go_codes (N.pos p) "") as (ds & E & Hds & Hv & Hh).
  destruct Hh as (c & ds' & -> & Hc); [done|]. exists c, ds'. rewrite E. simpl. by rewrite app_nil_r.
Qed.

Lemma stops_no_digit rest : stops rest = true -> next_is is_num rest = false.
Proof.
  unfold stops. destruct rest as [|c rest]; [done|]. simpl. destruct (is_num c); [done|by intros].
Qed.

Lemma stops_plain rest :
  stops rest = true -> next_is (N.eqb 46) rest = false /\ next_is (fun c => (c =? 101) || (c =? 69)) rest = false.
Proof.
  unfold stops. destruct rest as [|c rest]; [done|]. cbn [next_is]. rewrite negb_true_iff, !orb_false_iff.
  intros [[[_ H46] H101] H69]. rewrite H101, H69. split; [|done]. by rewrite N.eqb_sym.
Qed.

(** An integer's text is scanned back, whatever follows that ends a number. *)
Lemma scan_number_pretty z rest :
  stops rest = true -> scan_number (codes (text (pretty z)) ++ rest) = Some (PInt z, rest).
Proof.
  intros Hr. destruct (stops_plain _ Hr) as [H46 He]. pose proof (stops_no_digit _ Hr) as Hd.
  assert (forall p, exists c ds, codes (text (pretty (N.pos p))) = c :: ds /\ next_is (N.eqb 48) (c :: ds ++ rest) = false /\
    next_is (N.eqb 45) (c :: ds ++ rest) = false /\
    take_digits (c :: ds ++ rest) = (c :: ds, rest) /\ digits_value (c :: ds) = Z.pos p) as Hpos.
  { intros p. destruct (pretty_pos_codes p) as (c & ds & E & Hds & Hc & Hv). exists c, ds.
    split_and!; [done| | |by apply (take_digits_app (c :: ds))|done].
    - by apply N.eqb_neq.
    - apply Forall_cons in Hds as [Hc' _]. apply N.eqb_neq. intros <-. done. }
  unfold scan_number. destruct z as [|p|p].
  - change (codes (text (pretty 0%Z)) ++ rest) with (48 :: rest).
    cbn [next_is N.eqb Pos.eqb drop fst snd]. rewrite drop_0, H46. cbn [andb fst snd]. by rewrite He.
  - change (pretty (Z.pos p)) with (pretty (N.pos p)). destruct (Hpos p) as (c & ds & -> & H0 & H1 & Ht & Hv).
    cbn [app]. rewrite H1, H0, Ht. cbn [fst snd]. rewrite H46. cbn [andb fst snd app]. rewrite He.
    cbn [fst snd app]. rewrite bool_decide_eq_true_2 by done. by rewrite Hv.
  - change (pretty (Z.neg p)) with ("-" +:+ pretty (N.pos p))%string.
    destruct (Hpos p) as (c & ds & E & H0 & H1 & Ht & Hv).
    change (codes (text ("-" +:+ pretty (N.pos p)))) with (45 :: codes (text (pretty (N.pos p)))). rewrite E.
    cbn [app]. cbv zeta. change (next_is (N.eqb 45) (45 :: c :: ds ++ rest)) with true. cbv iota.
    change (drop 1 (45 :: c :: ds ++ rest)) with (c :: ds ++ rest). rewrite H0, Ht. cbn [fst snd]. rewrite H46. cbn [andb fst snd app]. rewrite He.
    cbn [fst snd app]. rewrite bool_decide_eq_true_2 by done. by rewrite Hv.
Qed.

(** * Strings *)

Lemma hex4_char c : exists a b d e,
  codes (hex_fixed 4 (N_of_ascii c)) = [a; b; d; e] /\ hex4 a b d e = Some (N_of_ascii c) /\
  is_high (N_of_ascii c) = false.
Proof. destruct c as [[] [] [] [] [] [] [] []]; do 4 eexists; split_and!; reflexivity. Qed.

Lemma scan_string_char c rest :
  scan_string (codes (escape_char c) ++ rest) = push (N_of_ascii c) (scan_string rest).
Proof.
  unfold escape_char.
  destruct (hex4_char c) as (a & b & d & e & Ehex & Hhex & Hhigh).
  set (n := N_of_ascii c) in *. assert (n < 256) as Hn by (apply N_ascii_bounded).
  assert (codes [c] = [n]) as Hc by done. clearbody n. clear Hn.
  repeat match goal with
  | |- context [(n =? ?k)] => destruct (N.eqb_spec n k) as [->|?]; [reflexivity|]
  end.
  destruct (_ || _) eqn:Hesc.
  - change (codes (backslash :: "u"%char :: hex_fixed 4 n) ++ rest) with (92 :: 117 :: codes (hex_fixed 4 n) ++ rest).
    rewrite Ehex. cbn [app scan_string]. cbn [N.eqb Pos.eqb]. rewrite Hhex. cbn [mbind option_bind].
    rewrite Hhigh. cbn [andb]. by destruct rest as [|? [|? [|? [|? [|? [|? ?]]]]]].
  - apply orb_false_iff in Hesc as [H32 _]. rewrite Hc. cbn [app scan_string].
    rewrite (proj2 (N.eqb_neq n 34)), (proj2 (N.eqb_neq n 92)) by done. by rewrite H32.
Qed.

Lemma scan_dump_string s rest :
  scan_string (codes ((text s ≫= escape_char) ++ [quote]) ++ rest) = Some (codes (text s), rest).
Proof.
  induction (text s) as [|c l IH]; [done|]. cbn [mbind list_bind]. rewrite <-!app_assoc, codes_app, <-app_assoc.
  rewrite scan_string_char, IH. done.
Qed.

(** No constant starts with a digit, nor with a minus and a digit. *)
Lemma scan_constant_digit c s :
  is_num c = true \/ (c = 45 /\ next_is is_num s = true) -> scan_constant constants (c :: s) = None.
Proof.
  intros Hc.
  assert (forall name v cs, (forall l, name <> take (length name) (c :: s ++ l)) ->
    scan_constant ((name, v) :: cs) (c :: s) = scan_constant cs (c :: s)) as Hskip.
  { intros name v cs Hn. cbn [scan_constant]. rewrite bool_decide_eq_false_2; [done|].
    intros Heq. apply (Hn []). by rewrite app_nil_r. }
  unfold constants, is_num in *.
  repeat (rewrite Hskip; [|intros l Heq; vm_compute points in Heq; cbn [length take] in Heq;
    injection Heq as <- Heq; destruct Hc as [Hc|[Hc Hs]]; try (by vm_compute in Hc)]); [done|].
  destruct s as [|d s]; [done|]. cbn [app take] in Heq. injection Heq as <- _. by vm_compute in Hs.
Qed.

(** * Values *)

(** Induction through lists and objects. *)
Section JsonInd.
Context (P : json -> Prop).
Context (Hnull : P JNull) (Hbool : forall b, P (JBool b)) (Hint : forall z, P (JInt z))
  (Hfloat : forall r, P (JFloat r)) (Hstr : forall s, P (JStr s))
  (Harr : forall l, Forall P l -> P (JArr l))
  (Hobj : forall l, Forall (fun kv => P kv.2) l -> P (JObj l)).

Fixpoint json_ind' (v : json) : P v :=
  match v with
  | JNull => Hnull
  | JBool b => Hbool b
  | JInt z => Hint z
  | JFloat r => Hfloat r
  | JStr s => Hstr s
  | JArr l => Harr l ((fix go (l : list json) : Forall P l :=
      match l with [] => Forall_nil_2 P | v :: l' => Forall_cons_2 P v l' (json_ind' v) (go l') end) l)
  | JObj l => Hobj l ((fix go (l : list (string * json)) : Forall (fun kv => P kv.2) l :=
      match l with [] => Forall_nil_2 _ | kv :: l' => Forall_cons_2 _ kv l' (json_ind' kv.2) (go l') end) l)
  end.
End JsonInd.

(** The value as [json.loads] answers it. *)
Fixpoint to_py (v : json) : pyjson :=
  match v with
  | JNull => PNull
  | JBool b => PBool b
  | JInt z => PInt z
  | JFloat r => PFloat (codes (text r))
  | JStr s => PStr (codes (text s))
  | JArr l => PList (map to_py l)
  | JObj l => PDict (map (fun kv => (codes (text kv.1), to_py kv.2)) l)
  end.

(** A text that the scanner of numbers and constants reads as one float: what [repr]
    gives for a float, [NaN] and the infinities included. *)
Definition float_repr (r : string) : Prop :=
  exists c s, codes (text r) = c :: s /\ (c =? 34) = false /\ (c =? 91) = false /\ (c =? 123) = false /\
    (skip_ws (c :: s) = c :: s /\ Forall is_plain (c :: s)) /\
    forall rest, stops rest = true ->
      match scan_constant constants (c :: s ++ rest) with
      | Some x => Some x
      | None => scan_number (c :: s ++ rest)
      end = Some (PFloat (c :: s), rest).

(** Every float of the value is written so. *)
Fixpoint json_ok (v : json) : Prop :=
  match v with
  | JFloat r => float_repr r
  | JArr l => (fix go (l : list json) : Prop := match l with [] => True | v :: l' => json_ok v /\ go l' end) l
  | JObj l => (fix go (l : list (string * json)) : Prop :=
      match l with [] => True | kv :: l' => json_ok kv.2 /\ go l' end) l
  | _ => True
  end.

Lemma json_ok_arr l : json_ok (JArr l) <-> Forall json_ok l.
Proof. simpl. induction l as [|v l IH]; [by split|]. by rewrite IH, Forall_cons. Qed.
Lemma json_ok_obj l : json_ok (JObj l) <-> Forall (fun kv => json_ok kv.2) l.
Proof. simpl. induction l as [|v l IH]; [by split|]. by rewrite IH, Forall_cons. Qed.

(** The calls of the scanner a value takes. *)
Fixpoint cost (v : json) : nat :=
  match v with
  | JArr l => S (sum_list (map (fun v => S (cost v)) l))
  | JObj l => S (sum_list (map (fun kv => S (cost kv.2)) l))
  | _ => 1
  end.

Section Dumps.
Context (item key : list ascii) (ws1 ws2 : pystr).
Context (Hitem : codes item = 44 :: ws1) (Hkey : codes key = 58 :: ws2).
Context (Hws1 : forall s, skip_ws (ws1 ++ s) = skip_ws s) (Hws2 : forall s, skip_ws (ws2 ++ s) = skip_ws s).
Notation dumped v := (codes (json_dumps item key false v)).

Definition dump_member (kv : string * json) : list ascii :=
  dump_string kv.1 ++ key ++ json_dumps item key false kv.2.

Lemma dumped_arr l : dumped (JArr l) = 91 :: codes (join item (map (json_dumps item key false) l)) ++ [93].
Proof. cbn [json_dumps]. unfold codes. by rewrite fmap_cons, fmap_app. Qed.

Lemma dumped_obj l : dumped (JObj l) = 123 :: codes (join item (map dump_member l)) ++ [125].
Proof. cbn [json_dumps]. rewrite map_map. unfold codes. by rewrite fmap_cons, fmap_app. Qed.

Lemma codes_dump_string s : codes (dump_string s) = 34 :: codes ((text s ≫= escape_char) ++ [quote]).
Proof. reflexivity. Qed.

(** The text of a value is not empty and starts with no white space, bracket end or quote
    but that of a string. *)
Lemma dumped_head v : json_ok v -> exists c s, dumped v = c :: s /\ skip_ws (c :: s) = c :: s /\
  (c =? 93) = false /\ (c =? 125) = false.
Proof.
  destruct v as [|[]|z|r|s|l|l]; intros Hok; try (do 2 eexists; split_and!; reflexivity).
  - assert (forall c s, is_num c = true -> skip_ws (c :: s) = c :: s /\ (c =? 93) = false /\ (c =? 125) = false) as Hdig.
    { intros c s Hc. unfold is_num in Hc. simp_bool. simpl.
      rewrite !(proj2 (N.eqb_neq c _)) by lia. done. }
    destruct z as [|p|p]; [by do 2 eexists; split_and!| |by do 2 eexists; split_and!].
    destruct (pretty_pos_codes p) as (c & ds & E & Hds & _). exists c, ds.
    split; [exact E|]. apply Forall_cons in Hds as [Hc _]. by apply Hdig.
  - destruct Hok as (c & s & E & _ & _ & _ & [Hs _] & Hscan). exists c, s. split; [exact E|]. split; [done|].
    specialize (Hscan [] eq_refl). rewrite app_nil_r in Hscan.
    split; apply N.eqb_neq; intros ->; by vm_compute in Hscan.
Qed.

Lemma skip_ws_dumped v rest : json_ok v -> skip_ws (dumped v ++ rest) = dumped v ++ rest.
Proof.
  intros Hv. destruct (dumped_head v Hv) as (c & s & -> & Hs & _). cbn [app skip_ws] in *.
  destruct (_ || _ || _ || _); [|done]. exfalso.
  assert (forall l, (length (skip_ws l) <= length l)%nat) as Hle.
  { intros l. induction l as [|x l IH]; [done|]. simpl. destruct (_ || _ || _ || _); simpl; lia. }
  specialize (Hle s). rewrite Hs in Hle. simpl in Hle. lia.
Qed.

(** The scanner reads the text of [v] back and stops where it ends. *)
Definition scans (v : json) : Prop :=
  forall fuel rest, (cost v <= fuel)%nat -> stops rest = true ->
    scan_once fuel (dumped v ++ rest) = Some (to_py v, rest).

Lemma scan_items_dumped l : l <> [] -> Forall json_ok l -> Forall scans l ->
  forall fuel rest, (sum_list (map (fun v => S (cost v)) l) <= fuel)%nat ->
    scan_items fuel (codes (join item (map (json_dumps item key false) l)) ++ 93 :: rest) =
    Some (map to_py l, rest).
Proof.
  induction l as [|v l IH]; [done|]. intros _ [Hv Hl]%Forall_cons [Sv Sl]%Forall_cons [|fuel] rest Hf;
    [simpl in Hf; lia|]. cbn [scan_items]. cbn [map sum_list sum_list_with foldr] in Hf.
  destruct l as [|v' l].
  - cbn [map join]. rewrite (Sv fuel (93 :: rest)) by (simpl in Hf; done || lia). done.
  - set (tail := v' :: l) in *.
    assert (codes (join item (map (json_dumps item key false) (v :: tail))) ++ 93 :: rest =
      dumped v ++ 44 :: ws1 ++ codes (join item (map (json_dumps item key false) tail)) ++ 93 :: rest) as ->.
    { change (join item (map (json_dumps item key false) (v :: tail))) with
        (json_dumps item key false v ++ item ++ join item (map (json_dumps item key false) tail)).
      rewrite !codes_app, Hitem. by rewrite <-!app_assoc. }
    rewrite (Sv fuel) by (simpl in Hf; done || lia). cbn [mbind option_bind fst snd].
    change (skip_ws (44 :: ?x)) with (44 :: x). cbn [next_is N.eqb Pos.eqb drop]. rewrite drop_0, Hws1.
    assert (skip_ws (codes (join item (map (json_dumps item key false) tail)) ++ 93 :: rest) =
      codes (join item (map (json_dumps item key false) tail)) ++ 93 :: rest) as ->.
    { apply Forall_cons in Hl as [Hv' _]. subst tail. destruct l as [|v'' l].
      - cbn [map join]. by apply skip_ws_dumped.
      - cbn [map join]. rewrite codes_app, <-app_assoc. by apply skip_ws_dumped. }
    rewrite IH; [done|done|done|done|]. simpl in Hf. subst tail. simpl. lia.
Qed.

Definition py_member (kv : string * json) : pystr * pyjson := (codes (text kv.1), to_py kv.2).

Lemma scan_members_dumped l : l <> [] -> Forall (fun kv => json_ok kv.2) l -> Forall (fun kv => scans kv.2) l ->
  forall fuel rest, (sum_list (map (fun kv => S (cost kv.2)) l) <= fuel)%nat ->
    scan_members fuel (codes (join item (map dump_member l)) ++ 125 :: rest) = Some (map py_member l, rest).
Proof.
  induction l as [|kv l IH]; [done|]. intros _ [Hv Hl]%Forall_cons [Sv Sl]%Forall_cons [|fuel] rest Hf;
    [simpl in Hf; lia|].
  assert (forall tail, codes (dump_member kv) ++ tail =
    34 :: codes ((text kv.1 ≫= escape_char) ++ [quote]) ++ 58 :: ws2 ++ dumped kv.2 ++ tail) as Hkv.
  { intros tail. unfold dump_member. rewrite (codes_app (dump_string _)), (codes_app key), Hkey.
    rewrite codes_dump_string. cbn [app]. rewrite <-app_assoc. cbn [app]. by rewrite <-app_assoc. }
  assert (forall tail, stops tail = true -> skip_ws (ws2 ++ dumped kv.2 ++ tail) = dumped kv.2 ++ tail) as Hws.
  { intros tail _. rewrite Hws2. by apply skip_ws_dumped. }
  assert ((cost kv.2 <= fuel)%nat) as Hfuel by (simpl in Hf; lia).
  assert (forall tail, scan_string (drop 1 (34 :: codes ((text kv.1 ≫= escape_char) ++ [quote]) ++ tail)) =
    Some (codes (text kv.1), tail)) as Hstring.
  { intros tail. cbn [drop]. rewrite drop_0. apply scan_dump_string. }
  cbn [scan_members]. destruct l as [|kv' l].
  - cbn [map join]. rewrite Hkv. change (next_is (N.eqb 34) (34 :: ?x)) with true. cbv iota.
    rewrite Hstring. cbn [mbind option_bind fst snd]. change (skip_ws (58 :: ?x)) with (58 :: x).
    change (next_is (N.eqb 58) (58 :: ?x)) with true. cbv iota. cbn [drop]. rewrite drop_0, Hws by done.
    rewrite (Sv fuel (125 :: rest)) by done. done.
  - set (tail := kv' :: l) in *.
    assert (codes (join item (map dump_member (kv :: tail))) ++ 125 :: rest =
      codes (dump_member kv) ++ 44 :: ws1 ++ codes (join item (map dump_member tail)) ++ 125 :: rest) as ->.
    { change (join item (map dump_member (kv :: tail))) with (dump_member kv ++ item ++ join item (map dump_member tail)).
      rewrite !codes_app, Hitem. by rewrite <-!app_assoc. }
    rewrite Hkv. change (next_is (N.eqb 34) (34 :: ?x)) with true. cbv iota.
    rewrite Hstring. cbn [mbind option_bind fst snd]. change (skip_ws (58 :: ?x)) with (58 :: x).
    change (next_is (N.eqb 58) (58 :: ?x)) with true. cbv iota. cbn [drop]. rewrite drop_0, Hws by done.
    rewrite (Sv fuel) by done. cbn [mbind option_bind fst snd].
    change (skip_ws (44 :: ?x)) with (44 :: x). cbn [next_is N.eqb Pos.eqb drop]. rewrite drop_0, Hws1.
    assert (skip_ws (codes (join item (map dump_member tail)) ++ 125 :: rest) =
      codes (join item (map dump_member tail)) ++ 125 :: rest) as ->.
    { subst tail. destruct l as [|kv'' l]; cbn [map join]; unfold dump_member;
        rewrite !codes_app, codes_dump_string; reflexivity. }
    rewrite IH; [done|done|done|done|]. simpl in Hf. subst tail. simpl. lia.
Qed.

Lemma scans_all v : json_ok v -> scans v.
Proof.
  induction v as [|b|z|r|s|l IH|l IH] using json_ind'; intros Hok [|fuel] rest Hf Hr; try (simpl in Hf; lia).
  - reflexivity.
  - by destruct b.
  - change (dumped (JInt z)) with (codes (text (pretty z))). cbn [scan_once].
    pose proof (scan_number_pretty z rest Hr) as Hscan.
    assert (exists c s, codes (text (pretty z)) = c :: s /\ is_num c || (c =? 45) = true /\
      (c = 45 -> exists d s', s = d :: s' /\ is_num d = true)) as (c & s & E & Hc & Hneg).
    { destruct z as [|p|p]; [by do 2 eexists| |]; destruct (pretty_pos_codes p) as (c & ds & E & Hds & _);
        apply Forall_cons in Hds as [Hc _].
      - exists c, ds. change (pretty (Z.pos p)) with (pretty (N.pos p)). split_and!; [done|by rewrite Hc|].
        intros ->. done.
      - exists 45, (c :: ds). split_and!; [|done|by intros _; exists c, ds]. rewrite <-E. done. }
    rewrite E in *. cbn [app] in *.
    assert ((c =? 34) = false /\ (c =? 91) = false /\ (c =? 123) = false) as (-> & -> & ->).
    { unfold is_num in Hc. apply orb_true_iff in Hc as [Hc|Hc]; simp_bool; split_and!; apply N.eqb_neq; lia. }
    rewrite scan_constant_digit; [done|]. apply orb_true_iff in Hc as [Hc|Hc%N.eqb_eq]; [by left|right].
    split; [done|]. destruct (Hneg Hc) as (d & s' & -> & Hd). done.
  - destruct Hok as (c & s & E & H34 & H91 & H123 & _ & Hscan).
    change (dumped (JFloat r)) with (codes (text r)). rewrite E. cbn [app scan_once to_py].
    rewrite H34, H91, H123, E. by apply Hscan.
  - change (dumped (JStr s)) with (codes (dump_string s)). rewrite codes_dump_string. cbn [app scan_once to_py].
    cbn [N.eqb Pos.eqb]. by rewrite scan_dump_string.
  - rewrite dumped_arr. apply json_ok_arr in Hok. cbn [app scan_once to_py]. cbn [N.eqb Pos.eqb].
    destruct l as [|v l]; [done|]. rewrite <-app_assoc. cbn [app].
    assert (skip_ws (codes (join item (map (json_dumps item key false) (v :: l))) ++ 93 :: rest) =
      codes (join item (map (json_dumps item key false) (v :: l))) ++ 93 :: rest /\
      next_is (N.eqb 93) (codes (join item (map (json_dumps item key false) (v :: l))) ++ 93 :: rest) = false)
      as [-> ->].
    { apply Forall_cons in Hok as [Hv _].
      assert (exists x, codes (join item (map (json_dumps item key false) (v :: l))) ++ 93 :: rest = dumped v ++ x)
        as [x ->].
      { destruct l; [by eexists|]. cbn [map join]. rewrite codes_app, <-app_assoc. by eexists. }
      split; [by apply skip_ws_dumped|]. destruct (dumped_head v Hv) as (c & s & -> & _ & Hc & _).
      cbn [app next_is]. by rewrite N.eqb_sym. }
    rewrite scan_items_dumped; [done|done|done| |simpl in *; lia].
    rewrite Forall_forall in IH, Hok |- *. auto.
  - rewrite dumped_obj. apply json_ok_obj in Hok. cbn [app scan_once to_py]. cbn [N.eqb Pos.eqb].
    destruct l as [|v l]; [done|]. rewrite <-app_assoc. cbn [app].
    assert (exists x, codes (join item (map dump_member (v :: l))) ++ 125 :: rest = 34 :: x) as [x Hx].
    { destruct l; cbn [map join]; unfold dump_member; rewrite !codes_app, codes_dump_string; by eexists. }
    assert (skip_ws (codes (join item (map dump_member (v :: l))) ++ 125 :: rest) =
      codes (join item (map dump_member (v :: l))) ++ 125 :: rest /\
      next_is (N.eqb 125) (codes (join item (map dump_member (v :: l))) ++ 125 :: rest) = false) as [-> ->]
      by by rewrite Hx.
    rewrite scan_members_dumped; [done|done|done| |simpl in *; lia].
    rewrite Forall_forall in IH, Hok |- *. auto.
Qed.

Lemma cost_dumped v : (cost v <= 2 * length (dumped v) + 1)%nat.
Proof.
  assert (forall ts, (1 + sum_list (map length ts) + length ts <= length (join item ts) + 2)%nat) as Hjoin.
  { assert (1 <= length item)%nat as Hi.
    { apply (f_equal length) in Hitem. unfold codes in Hitem. rewrite length_fmap in Hitem. simpl in Hitem. lia. }
    induction ts as [|t ts IH]; [simpl; lia|]. destruct ts as [|t' ts]; [simpl; lia|].
    change (join item (t :: t' :: ts)) with (t ++ item ++ join item (t' :: ts)).
    rewrite !length_app. cbn [map length sum_list] in *. unfold sum_list in *. cbn [sum_list_with] in *.
    unfold id in *. lia. }
  induction v as [|b|z|r|s|l IH|l IH] using json_ind'; try (simpl; lia).
  - rewrite dumped_arr. cbn [cost length]. rewrite length_app. cbn [length]. unfold codes. rewrite length_fmap.
    specialize (Hjoin (map (json_dumps item key false) l)).
    assert (sum_list (map (fun v => S (cost v)) l) <=
      2 * sum_list (map length (map (json_dumps item key false) l)) + 2 * length (map (json_dumps item key false) l))%nat;
      [|lia]. clear Hjoin.
    induction IH as [|v l Hv _ IH]; [simpl; lia|]. unfold codes in Hv. rewrite length_fmap in Hv. simpl in *. lia.
  - rewrite dumped_obj. cbn [cost length]. rewrite length_app. cbn [length]. unfold codes. rewrite length_fmap.
    specialize (Hjoin (map dump_member l)).
    assert (sum_list (map (fun kv => S (cost kv.2)) l) <=
      2 * sum_list (map length (map dump_member l)) + 2 * length (map dump_member l))%nat; [|lia]. clear Hjoin.
    induction IH as [|kv l Hv _ IH]; [simpl; lia|]. unfold codes in Hv. rewrite length_fmap in Hv.
    simpl in *. rewrite !length_app. lia.
Qed.

(** [json.loads(json.dumps(v))] is [v]. *)
Lemma json_loads_dumps v : json_ok v -> json_loads_text (dumped v) = Some (to_py v).
Proof.
  intros Hv. unfold json_loads_text. pose proof (skip_ws_dumped v [] Hv) as Hs. rewrite app_nil_r in Hs. rewrite Hs.
  pose proof (scans_all v Hv (2 * length (dumped v) + 2)%nat []) as Hscan. rewrite app_nil_r in Hscan.
  rewrite Hscan; [done| |done]. pose proof (cost_dumped v). lia.
Qed.
End Dumps.

(** * The text is printable ASCII *)

#[local] Instance is_plain_dec c : Decision (is_plain c).
Proof. unfold is_plain. apply _. Defined.

(** Plainness of a given text, by computation. *)
Ltac plain := apply (bool_decide_unpack _); vm_compute; exact I.

Lemma escape_char_plain c : Forall is_plain (codes (escape_char c)).
Proof. apply (bool_decide_unpack _). by destruct c as [[] [] [] [] [] [] [] []]. Qed.

Lemma dump_string_plain s : Forall is_plain (codes (dump_string s)).
Proof.
  rewrite codes_dump_string, codes_app. constructor; [plain|]. apply Forall_app. split; [|plain].
  induction (text s) as [|c l IH]; [constructor|]. cbn [mbind list_bind]. rewrite codes_app. apply Forall_app.
  split; [apply escape_char_plain|done].
Qed.

Lemma digit_codes_plain l : digit_codes l -> Forall is_plain l.
Proof.
  intros Hl. eapply Forall_impl; [exact Hl|]. unfold is_num, is_plain. intros c Hc. simpl in Hc. simp_bool. lia.
Qed.

Lemma join_plain sep ts :
  Forall is_plain (codes sep) -> Forall (fun t => Forall is_plain (codes t)) ts -> Forall is_plain (codes (join sep ts)).
Proof.
  intros Hs. induction 1 as [|t ts Ht _ IH]; [constructor|]. destruct ts as [|t' ts]; [done|].
  change (join sep (t :: t' :: ts)) with (t ++ sep ++ join sep (t' :: ts)). rewrite !codes_app, !Forall_app. done.
Qed.

Lemma dumps_plain item key v :
  Forall is_plain (codes item) -> Forall is_plain (codes key) -> json_ok v ->
  Forall is_plain (codes (json_dumps item key false v)).
Proof.
  intros Hi Hk. induction v as [|b|z|r|s|l IH|l IH] using json_ind'; intros Hok.
  - plain.
  - destruct b; plain.
  - change (Forall is_plain (codes (text (pretty z)))). destruct z as [|p|p]; [plain| |].
    + change (pretty (Z.pos p)) with (pretty (N.pos p)). destruct (pretty_pos_codes p) as (c & ds & -> & Hds & _).
      by apply digit_codes_plain.
    + change (codes (text (pretty (Z.neg p)))) with (45 :: codes (text (pretty (N.pos p)))).
      destruct (pretty_pos_codes p) as (c & ds & -> & Hds & _). constructor; [plain|]. by apply digit_codes_plain.
  - destruct Hok as (c & s & E & _ & _ & _ & [_ Hp] & _). cbn [json_dumps]. by rewrite E.
  - apply dump_string_plain.
  - apply json_ok_arr in Hok. cbn [json_dumps]. change (codes (?a :: ?x)) with (N_of_ascii a :: codes x).
    rewrite codes_app. constructor; [plain|]. apply Forall_app. split; [|plain].
    apply join_plain; [done|]. rewrite Forall_forall in IH. rewrite Forall_forall in Hok. apply Forall_forall.
    intros t (v & <- & Hv%list_elem_of_In)%list_elem_of_In%in_map_iff. auto.
  - apply json_ok_obj in Hok. cbn [json_dumps]. change (codes (?a :: ?x)) with (N_of_ascii a :: codes x).
    rewrite codes_app. constructor; [plain|]. apply Forall_app. split; [|plain].
    apply join_plain; [done|]. rewrite map_map. rewrite Forall_forall in IH. rewrite Forall_forall in Hok. apply Forall_forall.
    intros t (kv & <- & Hv%list_elem_of_In)%list_elem_of_In%in_map_iff. cbn [fst snd].
    rewrite !codes_app, !Forall_app. split; [apply dump_string_plain|]. auto.
Qed.

(** * Sorted keys *)

(** The value with the keys of every object sorted. *)
Fixpoint sort_json (v : json) : json :=
  match v with
  | JArr l => JArr (map sort_json l)
  | JObj l => JObj (sort_items (map (fun kv => (kv.1, sort_json kv.2)) l))
  | _ => v
  end.

Lemma sort_items_map {V U} (f : V -> U) (l : list (string * V)) :
  sort_items (map (fun kv => (kv.1, f kv.2)) l) = map (fun kv => (kv.1, f kv.2)) (sort_items l).
Proof.
  assert (forall k v (m : list (string * V)),
    insert_item k (f v) (map (fun kv => (kv.1, f kv.2)) m) = map (fun kv => (kv.1, f kv.2)) (insert_item k v m)) as Hins.
  { intros k v m. induction m as [|[k' v'] m IH]; [done|]. simpl. destruct (String.leb k k'); [done|].
    simpl. by rewrite IH. }
  induction l as [|[k v] l IH]; [done|]. simpl. by rewrite IH, Hins.
Qed.

Lemma dumps_sorted item key v : json_dumps item key true v = json_dumps item key false (sort_json v).
Proof.
  induction v as [|b|z|r|s|l IH|l IH] using json_ind'; try done.
  - cbn [json_dumps sort_json]. rewrite map_map. do 3 f_equal. induction IH as [|v l Hv _ IH]; [done|].
    simpl. by rewrite Hv, IH.
  - cbn [json_dumps sort_json]. rewrite <-(sort_items_map (json_dumps item key false)), (map_map _ _ l).
    assert (map (fun kv => (kv.1, json_dumps item key true kv.2)) l =
      map (fun kv => (kv.1, json_dumps item key false (sort_json kv.2))) l) as E.
    { induction IH as [|kv l Hv _ IH]; [done|]. simpl. by rewrite Hv, IH. }
    by rewrite E.
Qed.

Lemma sort_items_perm {V} (l : list (string * V)) : sort_items l ≡ₚ l.
Proof.
  assert (forall k v (m : list (string * V)), insert_item k v m ≡ₚ (k, v) :: m) as Hins.
  { intros k v m. induction m as [|[k' v'] m IH]; [done|]. simpl. destruct (String.leb k k'); [done|].
    rewrite IH. constructor. }
  induction l as [|[k v] l IH]; [done|]. simpl. by rewrite Hins, IH.
Qed.

Lemma sort_json_ok v : json_ok v -> json_ok (sort_json v).
Proof.
  induction v as [|b|z|r|s|l IH|l IH] using json_ind'; try done.
  - cbn [sort_json]. rewrite !json_ok_arr. intros Hl. rewrite Forall_forall in IH, Hl |- *.
    intros x (y & <- & Hy%list_elem_of_In)%list_elem_of_In%in_map_iff. auto.
  - cbn [sort_json]. rewrite !json_ok_obj, sort_items_perm. intros Hl. rewrite Forall_forall in IH, Hl |- *.
    intros x (y & <- & Hy%list_elem_of_In)%list_elem_of_In%in_map_iff. simpl. auto.
Qed.

(** * The text determines the value *)

Lemma codes_text_inj s s' : codes (text s) = codes (text s') -> s = s'.
Proof.
  intros E. assert (Inj (=) (=) N_of_ascii) as Hinj.
  { intros a b Hab. by rewrite <-(ascii_N_embedding a), Hab, ascii_N_embedding. }
  apply (inj (fmap N_of_ascii)) in E.
  rewrite <-(String.string_of_list_ascii_of_string s), <-(String.string_of_list_ascii_of_string s').
  unfold text in E. by rewrite E.
Qed.

Lemma to_py_inj v v' : to_py v = to_py v' -> v = v'.
Proof.
  revert v'. induction v as [|b|z|r|s|l IH|l IH] using json_ind'; intros [|b'|z'|r'|s'|l'|l'] E; try done;
    cbn [to_py] in E; injection E as E; try by subst.
  - by rewrite (codes_text_inj _ _ E).
  - by rewrite (codes_text_inj _ _ E).
  - f_equal. revert l' E. induction IH as [|v l Hv _ IH]; intros [|v' l'] E; try done.
    simpl in E. injection E as E1 E2. by rewrite (Hv _ E1), (IH _ E2).
  - f_equal. revert l' E. induction IH as [|[k v] l Hv _ IH]; intros [|[k' v'] l'] E; try done.
    simpl in *. injection E as Ek E1 E2. by rewrite (codes_text_inj _ _ Ek), (Hv _ E1), (IH _ E2).
Qed.
