(* ===== verification/Cursor.v ===== *)
(** The pagination cursor (app/cursor.py): the JSON object of the last row's
    creation time and id, in URL-safe base64, and its inverse. *)
From stdpp Require Import base tactics option list strings numbers.
From Stdlib Require Import Ascii.
From S2P Require Import Prelude Uuid Model Codecs Json IsoTime.
Set Default Goal Selector "!".
Open Scope N_scope.

(** A text of code points below 256 as a [string]. *)
Definition of_points (s : pystr) : string := String.string_of_list_ascii (ascii_of_N <$> s).

Definition isoformat (t : datetime) : string := of_points (iso_points t).

(** [UUID(s)] of any text: no character beyond Latin-1 is taken for a digit. *)
Definition UUID (s : pystr) : option uuid :=
  if forallb (fun c => c <? 256) s then parse_uuid (of_points s) else None.

(** ** cursor.py *)

Definition cursor_object (created_at : datetime) (job_id : uuid) : json :=
  JObj [("c", JStr (isoformat created_at)); ("i", JStr (str_uuid job_id))]%string.

(** [json.dumps(...)] is ASCII, so [.encode()] leaves its characters alone. *)
Definition encode_cursor (created_at : datetime) (job_id : uuid) : pystr :=
  let raw := N_of_ascii <$> json_dumps (text ", ") (text ": ") false (cursor_object created_at job_id) in
  urlsafe_b64encode raw.

(** [data[key]] of what [json.loads] answered *)
Definition subscript (data : pyjson) (key : pystr) : exn + pyjson :=
  match data with
  | PDict l => match dict_get key l with Some v => inr v | None => inl (KeyError (of_points key)) end
  | PList _ => inl (OtherError "TypeError" "list indices must be integers or slices, not str")
  | PStr _ => inl (OtherError "TypeError" "string indices must be integers, not 'str'")
  | _ => inl (OtherError "TypeError" "object is not subscriptable")
  end.

(** [datetime.fromisoformat(v)] *)
Definition as_datetime (v : pyjson) : exn + raw_datetime :=
  match v with
  | PStr s => match fromisoformat s with Some t => inr t | None => inl (ValueError "Invalid isoformat string") end
  | _ => inl (OtherError "TypeError" "fromisoformat: argument must be str")
  end.

(** [UUID(v)]: the constructor calls [hex.replace] on whatever is not [None]. *)
Definition as_uuid (v : pyjson) : exn + uuid :=
  match v with
  | PStr s => match UUID s with Some u => inr u | None => inl (ValueError "badly formed hexadecimal UUID string") end
  | PNull => inl (OtherError "TypeError" "one of the hex, bytes, bytes_le, fields, or int arguments must be given")
  | _ => inl (OtherError "AttributeError" "object has no attribute 'replace'")
  end.

(** The body of the [try]. *)
Definition read_cursor (cursor : pystr) : exn + (raw_datetime * uuid) :=
  data ← match (utf8_encode cursor ≫= urlsafe_b64decode) ≫= json_loads with
         | Some data => inr data
         | None => inl (ValueError "")
         end;
  c ← subscript data (points "c");
  t ← as_datetime c;
  i ← subscript data (points "i");
  u ← as_uuid i;
  inr (t, u).

Definition decode_cursor (cursor : pystr) : exn + (raw_datetime * uuid) :=
  match read_cursor cursor with
  | inl (ValueError _ | KeyError _) => inl (ValueError "invalid cursor")
  | r => r
  end.

(** ** Lemmas *)

Lemma of_points_points s : of_points (points s) = s.
Proof.
  unfold of_points, points. rewrite <-list_fmap_compose.
  rewrite (list_fmap_ext _ id).
  - by rewrite list_fmap_id, String.string_of_list_ascii_of_string.
  - intros _ c _. apply ascii_N_embedding.
Qed.

Lemma points_of_points s : Forall (fun c => c < 256) s -> points (of_points s) = s.
Proof.
  intros Hs. unfold of_points, points. rewrite String.list_ascii_of_string_of_list_ascii, <-list_fmap_compose.
  induction Hs as [|c s Hc _ IH]; [done|]. cbn. unfold compose in *. by rewrite IH, N_ascii_embedding.
Qed.

Lemma safe_byte s : Forall is_safe s -> Forall (fun c => c < 256) s.
Proof. intros H. eapply Forall_impl; [done|]. unfold is_safe, is_plain. intros. lia. Qed.

Lemma safe_plain s : Forall is_safe s -> Forall is_plain s.
Proof. intros H. eapply Forall_impl; [done|]. by intros c []. Qed.

Lemma iso_safe t : Forall is_safe (iso_points t).
Proof. eapply Forall_impl; [apply iso_points_chars|]. apply is_iso_char_plain. Qed.

Lemma points_isoformat t : points (isoformat t) = iso_points t.
Proof. apply points_of_points, safe_byte, iso_safe. Qed.

Lemma uuid_safe u : Forall is_safe (points (str_uuid u)).
Proof.
  unfold points, str_uuid. rewrite String.list_ascii_of_string_of_list_ascii.
  apply Forall_fmap. eapply Forall_impl; [apply uuid_text_chars|].
  assert (forall c, is_hex c -> is_safe (N_of_ascii c)) as Hh.
  { apply hex_digit_cases. repeat (constructor; [by (unfold is_safe, is_plain; simpl; lia)|]). constructor. }
  intros c [?| ->]; [by apply Hh|]. unfold is_safe, is_plain. simpl. lia.
Qed.

Lemma UUID_str u : UUID (points (str_uuid u)) = Some u.
Proof.
  unfold UUID. rewrite (proj2 (forallb_forall _ _)).
  - by rewrite of_points_points, parse_str_uuid.
  - intros c Hc. apply N.ltb_lt. pose proof (safe_byte _ (uuid_safe u)) as H.
    by apply (proj1 (List.Forall_forall _ _) H).
Qed.

(** The text of a cursor between its quotes. *)
Definition cursor_text (c i : pystr) : pystr :=
  points "{" ++ [34] ++ points "c" ++ [34] ++ points ": " ++ [34] ++ c ++ 34 :: points ", " ++
  [34] ++ points "i" ++ [34] ++ points ": " ++ [34] ++ i ++ 34 :: points "}".

Lemma dump_cursor t u :
  N_of_ascii <$> json_dumps (text ", ") (text ": ") false (cursor_object t u) =
  cursor_text (iso_points t) (points (str_uuid u)).
Proof.
  assert (Forall is_safe (N_of_ascii <$> text (isoformat t))) as H1.
  { change (N_of_ascii <$> text (isoformat t)) with (points (isoformat t)).
    rewrite points_isoformat. apply iso_safe. }
  pose proof (uuid_safe u) as H2. change (points (str_uuid u)) with (N_of_ascii <$> text (str_uuid u)) in H2.
  unfold cursor_object. cbn [json_dumps map fst snd join].
  rewrite (dump_string_safe (isoformat t)), (dump_string_safe (str_uuid u)) by done.
  rewrite <-points_isoformat. unfold cursor_text, points.
  fold (text (isoformat t)). fold (text (str_uuid u)).
  rewrite fmap_cons, !fmap_app. by rewrite <-!(assoc_L (++)).
Qed.

Lemma skip_ws_char c l :
  (c =? 32) || (c =? 9) || (c =? 10) || (c =? 13) = false -> skip_ws (c :: l) = c :: l.
Proof. intros H. cbn [skip_ws]. by rewrite H. Qed.

Lemma scan_string_value fuel s r :
  Forall is_safe s -> scan_once (S fuel) (34 :: s ++ 34 :: r) = Some (PStr s, r).
Proof. intros Hs. cbn [scan_once N.eqb Pos.eqb]. by rewrite scan_string_safe. Qed.

Lemma scan_members_S n l :
  scan_members (S n) (34 :: l) =
  (k ← scan_string l;
   if next_is (N.eqb 58) (skip_ws k.2) then
     v ← scan_once n (skip_ws (drop 1 (skip_ws k.2)));
     if next_is (N.eqb 125) (skip_ws v.2) then Some ([(k.1, v.1)], drop 1 (skip_ws v.2))
     else if next_is (N.eqb 44) (skip_ws v.2) then
       r ← scan_members n (skip_ws (drop 1 (skip_ws v.2))); Some ((k.1, v.1) :: r.1, r.2)
     else None
   else None).
Proof. reflexivity. Qed.

Lemma scan_member fuel k s r :
  Forall is_safe k -> Forall is_safe s ->
  scan_members (S (S fuel)) (34 :: k ++ 34 :: points ": " ++ 34 :: s ++ 34 :: r) =
  (if next_is (N.eqb 125) (skip_ws r) then Some ([(k, PStr s)], drop 1 (skip_ws r))
   else if next_is (N.eqb 44) (skip_ws r) then
     r' ← scan_members (S fuel) (skip_ws (drop 1 (skip_ws r))); Some ((k, PStr s) :: r'.1, r'.2)
   else None).
Proof.
  intros Hk Hs. rewrite scan_members_S, scan_string_safe by done.
  cbn [mbind option_bind snd fst].
  change (skip_ws (points ": " ++ ?l)) with (58 :: 32 :: l).
  cbn [next_is N.eqb Pos.eqb drop]. rewrite ?drop_0.
  change (skip_ws (32 :: 34 :: ?l)) with (34 :: l).
  by rewrite scan_string_value.
Qed.

Lemma key_safe c : (97 <=? c) && (c <=? 122) = true -> Forall is_safe [c].
Proof. intros H. simp_bool. constructor; [|constructor]. unfold is_safe, is_plain. lia. Qed.

Lemma loads_cursor c i :
  Forall is_safe c -> Forall is_safe i ->
  json_loads (cursor_text c i) = Some (PDict [(points "c", PStr c); (points "i", PStr i)]).
Proof.
  intros Hc Hi. unfold json_loads.
  assert (Forall is_plain (cursor_text c i)) as Hp.
  { unfold cursor_text. rewrite !Forall_app.
    repeat split; repeat first
      [ by apply (safe_plain _ Hc) | by apply (safe_plain _ Hi) | apply Forall_app; split
      | apply Forall_cons; split | by apply Forall_nil | by (unfold is_plain; simpl; lia) ]. }
  assert (json_text (cursor_text c i) = Some (cursor_text c i)) as ->.
  { rewrite <-(utf8_decode_plain _ Hp). reflexivity. }
  cbn [mbind option_bind]. unfold json_loads_text.
  assert (exists n, 2 * length (cursor_text c i) + 2 = S (S (S (S (S n)))))%nat as [n ->].
  { exists (2 * length (cursor_text c i) - 3)%nat. unfold cursor_text. simpl. lia. }
  assert (skip_ws (cursor_text c i) = cursor_text c i) as -> by reflexivity.
  assert (scan_once (S (S (S (S (S n))))) (cursor_text c i) =
    (r ← scan_members (S (S (S (S n))))
      (34 :: points "c" ++ 34 :: points ": " ++ 34 :: c ++ 34 ::
         44 :: 32 :: 34 :: points "i" ++ 34 :: points ": " ++ 34 :: i ++ 34 :: points "}");
     Some (PDict r.1, r.2))) as -> by reflexivity.
  rewrite scan_member; [|by apply key_safe|done].
  rewrite skip_ws_char by done. cbn [next_is N.eqb Pos.eqb drop]. rewrite ?drop_0.
  change (skip_ws (32 :: 34 :: ?l)) with (34 :: l).
  rewrite scan_member; [|by apply key_safe|done].
  reflexivity.
Qed.

Lemma subscript_fields c i :
  let data := PDict [(points "c", c); (points "i", i)] in
  subscript data (points "c") = inr c /\ subscript data (points "i") = inr i.
Proof. by vm_compute. Qed.

(** A cursor decodes to the row it was made from. *)
Lemma decode_encode t u :
  datetime_ok t = true -> decode_cursor (encode_cursor t u) = inr (mkRaw t (Some 0%Z), u).
Proof.
  intros Ht. unfold decode_cursor, read_cursor, encode_cursor. cbv zeta. rewrite dump_cursor.
  pose proof (b64_plain (cursor_text (iso_points t) (points (str_uuid u)))) as Hp.
  rewrite (utf8_plain _ Hp). cbn [mbind option_bind].
  rewrite b64_roundtrip.
  2:{ rewrite <-dump_cursor. apply Forall_fmap, Forall_true. intros b. unfold is_byte. cbn. apply N_ascii_bounded. }
  cbn [mbind option_bind]. rewrite loads_cursor by (apply iso_safe || apply uuid_safe).
  rewrite !sum_bind_inr. destruct (subscript_fields (PStr (iso_points t)) (PStr (points (str_uuid u)))) as [-> ->].
  rewrite !sum_bind_inr. cbn [as_datetime]. rewrite fromisoformat_iso by done.
  rewrite !sum_bind_inr. cbn [as_uuid]. by rewrite UUID_str.
Qed.

(** A decoded document that is an object whose ["c"] and ["i"], if there, are text. *)
Definition well_shaped (data : pyjson) : bool :=
  match data with
  | PDict l =>
      let is_text k := match dict_get k l with Some (PStr _) | None => true | _ => false end in
      is_text (points "c") && is_text (points "i")
  | _ => false
  end.

(** The document a cursor holds, if it is one. *)
Definition cursor_document (cursor : pystr) : option pyjson :=
  (utf8_encode cursor ≫= urlsafe_b64decode) ≫= json_loads.

(** An error that is not the documented one. *)
Definition is_type_error (e : exn) : bool :=
  bool_decide (exn_name e = "TypeError"%string \/ exn_name e = "AttributeError"%string).

Lemma subscript_error data k e :
  subscript data k = inl e -> (exists m, e = KeyError m) \/ (is_type_error e = true /\ well_shaped data = false).
Proof.
  destruct data; cbn [subscript well_shaped]; try (intros [= <-]; by right).
  case_match; intros [= <-]. left. eauto.
Qed.

(** What the [except] clause makes of the errors of the body. *)
Lemma read_cursor_error cursor e :
  read_cursor cursor = inl e ->
  (exists m, e = ValueError m \/ e = KeyError m) \/
  (is_type_error e = true /\ exists data, cursor_document cursor = Some data /\ well_shaped data = false).
Proof.
  unfold read_cursor, cursor_document. destruct (_ ≫= json_loads) as [data|]; rewrite ?sum_bind_inl, ?sum_bind_inr.
  2:{ intros [= <-]. left. eauto. }
  assert (forall k v, subscript data k = inr v ->
    exists l, data = PDict l /\ dict_get k l = Some v) as Hsub.
  { intros k v. destruct data; cbn [subscript]; try done. case_match; [|done]. intros [= <-]. eauto. }
  destruct (subscript data (points "c")) as [e1|c] eqn:Hc.
  { rewrite sum_bind_inl. intros [= <-]. apply subscript_error in Hc as [[m ->]|[? ?]]; [left|right]; eauto. }
  rewrite sum_bind_inr. destruct (as_datetime c) as [e1|t] eqn:Ht.
  { rewrite sum_bind_inl. intros [= <-]. apply Hsub in Hc as (l & -> & Hc). destruct c; simplify_eq/=.
    5:{ case_match; simplify_eq. left. eauto. }
    all: right; split; [done|]; eexists; split; [done|]; cbn [well_shaped]; by rewrite Hc. }
  rewrite sum_bind_inr. destruct (subscript data (points "i")) as [e1|i] eqn:Hi.
  { rewrite sum_bind_inl. intros [= <-]. apply subscript_error in Hi as [[m ->]|[? ?]]; [left|right]; eauto. }
  rewrite sum_bind_inr. destruct (as_uuid i) as [e1|u] eqn:Hu; [rewrite sum_bind_inl|done]. intros [= <-].
  apply Hsub in Hi as (l & -> & Hi). destruct i; simplify_eq/=.
  5:{ case_match; simplify_eq. left. eauto. }
  all: right; split; [done|]; eexists; split; [done|]; cbn [well_shaped]; rewrite Hi; apply andb_false_r.
Qed.

(** * Theorems *)

(** C13: [decode_cursor(encode_cursor(t, id)) == (t, id)] for every creation time a
    Python datetime can hold and every id, through JSON, ISO 8601 and base64. *)
Theorem cursor_roundtrip t u :
  datetime_ok t = true -> decode_cursor (encode_cursor t u) = inr (mkRaw t (Some 0%Z), u).
Proof. apply decode_encode. Qed.

Lemma cursor_roundtrip_witness :
  decode_cursor (encode_cursor 1782820800000001 (Uuid 7 eq_refl)) =
  inr (mkRaw 1782820800000001 (Some 0%Z), Uuid 7 eq_refl).
Proof. apply (cursor_roundtrip 1782820800000001 (Uuid 7 eq_refl)). reflexivity. Defined.

(** A cursor that is not one answers the documented [ValueError], but for the
    cursors that hold a JSON document of the wrong shape: those raise a [TypeError]
    or an [AttributeError], and such cursors exist. *)
Theorem decode_cursor_error :
  (forall cursor e, decode_cursor cursor = inl e ->
     e = ValueError "invalid cursor" \/
     (is_type_error e = true /\
      exists data, cursor_document cursor = Some data /\ well_shaped data = false)) /\
  (exists cursor e, decode_cursor cursor = inl e /\ is_type_error e = true).
Proof.
  split.
  - intros cursor e. unfold decode_cursor. destruct (read_cursor cursor) as [e'|r] eqn:Hr; [|done].
    apply read_cursor_error in Hr as [[m [->| ->]]|[Ht Hd]].
    + intros [= <-]. by left.
    + intros [= <-]. by left.
    + intros He. right. destruct e'; simplify_eq; eauto.
  - exists (points "W10="), (OtherError "TypeError" "list indices must be integers or slices, not str").
    split; vm_compute; reflexivity.
Qed.
