(* ===== verification/Services.v ===== *)
(** The services the code talks to, as interfaces.

    Postgres, Redis, OpenTelemetry and the operating system's entropy are not
    part of the repository: each is a type class with the operations the code
    calls and, as named laws, the documented behaviour it relies on.  The state
    types are abstract; the laws speak through observations ([pg_rows],
    [rd_group], [rd_zset]).  Reference.v gives a concrete instance of each class.

    The file ends with the shared [world] of all the processes and the lifting of
    a service call to one atomic effect of a program. *)
From stdpp Require Import base tactics option list gmap strings numbers sorting.
From Stdlib Require Import Ascii.
From S2P Require Import Prelude Prog Uuid Model.
Set Default Goal Selector "!".
Open Scope Z_scope.

(** * Postgres: the [jobs] table *)

(** Two rows that the partial unique index on (user_id, idempotency_key) keeps
    apart; NULLs never conflict. *)
Definition idempotency_conflict (a b : Job) : bool :=
  match j_user_id a, j_user_id b, j_idempotency_key a, j_idempotency_key b with
  | Some u, Some v, Some k, Some l => bool_decide (u = v /\ k = l)
  | _, _, _, _ => false
  end.

(** ** What PostgreSQL can store

    A TEXT value and a string of a JSONB value hold no NUL, and a number of a JSONB value
    is finite. *)
Definition text_storable (s : string) : bool :=
  forallb (fun c => negb (bool_decide (c = "000"%char))) (String.list_ascii_of_string s).

Fixpoint json_storable (v : json) : bool :=
  match v with
  | JNull | JBool _ | JInt _ => true
  | JFloat r => negb (bool_decide (r = "NaN" \/ r = "Infinity" \/ r = "-Infinity")%string)
  | JStr s => text_storable s
  | JArr l => (fix all (l : list json) : bool :=
      match l with [] => true | v :: l' => json_storable v && all l' end) l
  | JObj l => (fix all (l : list (string * json)) : bool :=
      match l with [] => true | (k, v) :: l' => text_storable k && json_storable v && all l' end) l
  end.

Definition opt_storable {A} (test : A -> bool) (o : option A) : bool :=
  match o with Some a => test a | None => true end.

(** Every text and JSON column of the row. *)
Definition storable (j : Job) : bool :=
  json_storable (j_payload j) && opt_storable json_storable (j_result j) &&
  opt_storable json_storable (j_error j) && opt_storable text_storable (j_user_name j) &&
  opt_storable text_storable (j_idempotency_key j) && opt_storable text_storable (j_idempotency_hash j) &&
  opt_storable (fun c : fields => forallb (fun kv : string * string => text_storable kv.1 && text_storable kv.2)
    (map_to_list c)) (j_trace_context j).

(** [ORDER BY before]: no row of the result precedes an earlier one. *)
Definition in_order (before : Job -> Job -> bool) (a b : Job) : Prop := before b a = false.
#[export] Instance in_order_dec before : RelDecision (in_order before).
Proof. intros a b. unfold in_order. apply _. Defined.

Class Postgres := {
  pg_db : Type;
  pg_rows : pg_db -> gmap uuid Job;
  (** [INSERT INTO jobs], and the error it raises *)
  pg_insert : Job -> pg_db -> pg_db * (exn + unit);
  (** [UPDATE jobs SET f WHERE p], answering the rowcount *)
  pg_update : (Job -> bool) -> (Job -> Job) -> pg_db -> pg_db * nat;
  (** [SELECT * FROM jobs WHERE p], in no particular order *)
  pg_select : (Job -> bool) -> pg_db -> list Job;
  (** [SELECT * FROM jobs WHERE p ORDER BY before LIMIT n] *)
  pg_select_by : (Job -> bool) -> (Job -> Job -> bool) -> nat -> pg_db -> list Job;

  pg_primary_key d k j : pg_rows d !! k = Some j -> j_id j = k;
  pg_unique_key d k l a b :
    pg_rows d !! k = Some a -> pg_rows d !! l = Some b ->
    idempotency_conflict a b = true -> k = l;
  pg_insert_ok d j :
    storable j = true -> pg_rows d !! j_id j = None ->
    (forall k a, pg_rows d !! k = Some a -> idempotency_conflict j a = false) ->
    (pg_insert j d).2 = inr tt /\ pg_rows (pg_insert j d).1 = <[j_id j := j]> (pg_rows d);
  pg_insert_conflict d j :
    storable j = true -> is_Some (pg_rows d !! j_id j) \/
    (exists k a, pg_rows d !! k = Some a /\ idempotency_conflict j a = true) ->
    (pg_insert j d).2 = inl IntegrityError /\ pg_rows (pg_insert j d).1 = pg_rows d;
  (** A value out of a column's range is refused before any index is looked at. *)
  pg_insert_refused d j :
    storable j = false ->
    (exists m, (pg_insert j d).2 = inl (OtherError "DBAPIError" m)) /\ pg_rows (pg_insert j d).1 = pg_rows d;
  pg_update_rows p f d :
    keeps_key f ->
    pg_rows (pg_update p f d).1 = (fun j => if p j then f j else j) <$> pg_rows d;
  pg_update_count p f d :
    keeps_key f ->
    (pg_update p f d).2 = size (filter (fun kv : uuid * Job => p kv.2 = true) (pg_rows d));
  pg_select_rows p d :
    pg_select p d ≡ₚ filter (fun j => p j = true) (map_to_list (pg_rows d)).*2;
  pg_select_by_rows p before n d :
    (forall a b, before a b = true -> before b a = false) ->
    exists l, l ≡ₚ filter (fun j => p j = true) (map_to_list (pg_rows d)).*2 /\
      Sorted (in_order before) l /\
      pg_select_by p before n d = take n l;
}.

(** * Redis: streams with consumer groups, sorted sets *)

(** A stream entry id "ms-seq". *)
Abbreviation stream_id := (N * N)%type.

Definition stream_id_lt (a b : stream_id) : Prop :=
  (a.1 < b.1)%N \/ (a.1 = b.1 /\ (a.2 < b.2)%N).
#[export] Instance stream_id_lt_dec a b : Decision (stream_id_lt a b).
Proof. unfold stream_id_lt. apply _. Defined.
Definition stream_id_le (a b : stream_id) : Prop := a = b \/ stream_id_lt a b.
#[export] Instance stream_id_le_dec a b : Decision (stream_id_le a b).
Proof. unfold stream_id_le. apply _. Defined.

(** An entry of the pending entries list (PEL): delivered, not acknowledged. *)
Record pel_entry := mkPel {
  pe_id : stream_id;
  pe_fields : fields;
  pe_consumer : string;
  pe_since : datetime;
}.
Definition pe_message (e : pel_entry) : stream_id * fields := (pe_id e, pe_fields e).
Definition pe_idle_ms (now : datetime) (e : pel_entry) : Z := (now - pe_since e) / 1000.

(** A consumer group of a stream: entries after its last-delivered id, and its PEL. *)
Record group_view := mkGroup {
  g_fresh : list (stream_id * fields);
  g_pel : list pel_entry;
}.

Definition group_ids (g : group_view) : list stream_id :=
  (pe_id <$> g_pel g) ++ (fst <$> g_fresh g).

Definition deliver (count : nat) (consumer : string) (now : datetime) (g : group_view) : group_view :=
  mkGroup (drop count (g_fresh g))
    (g_pel g ++ ((fun m => mkPel m.1 m.2 consumer now) <$> take count (g_fresh g))).

Definition touch (ids : list stream_id) (consumer : string) (now : datetime) (e : pel_entry) : pel_entry :=
  if decide (pe_id e ∈ ids) then mkPel (pe_id e) (pe_fields e) consumer now else e.

Definition unack (id : stream_id) (g : group_view) : group_view :=
  mkGroup (g_fresh g) (filter (fun e => pe_id e <> id) (g_pel g)).

(** The reply of a read over several streams: those with messages, in order. *)
Definition read_reply (count : nat) (views : list (string * group_view)) :
    list (string * list (stream_id * fields)) :=
  filter (fun r => r.2 <> []) ((fun sv => (sv.1, take count (g_fresh sv.2))) <$> views).

Class Redis := {
  rd : Type;
  rd_group : rd -> string -> string -> option group_view;
  rd_zset : rd -> string -> gmap string Z;

  xgroup_create : string -> string -> rd -> rd * (exn + unit);
  xadd : string -> fields -> datetime -> rd -> rd * stream_id;
  xreadgroup : list string -> string -> string -> nat -> datetime -> rd ->
    rd * (exn + list (string * list (stream_id * fields)));
  xack : string -> string -> stream_id -> rd -> rd * unit;
  xautoclaim : string -> string -> string -> Z -> stream_id -> nat -> datetime -> rd ->
    rd * (exn + (stream_id * list (stream_id * fields)));
  zadd : string -> string -> Z -> rd -> rd * unit;
  zrem : string -> list string -> rd -> rd * unit;
  zrangebyscore : string -> Z -> Z -> nat -> rd -> list string;

  (** Ids grow along a group: PEL entries are older than undelivered ones. *)
  rd_ids_sorted r s g v : rd_group r s g = Some v -> StronglySorted stream_id_lt ((0%N, 0%N) :: group_ids v);

  (** XGROUP CREATE s g $ MKSTREAM: the group starts after the last entry. *)
  xgroup_create_new s g r :
    rd_group r s g = None ->
    (xgroup_create s g r).2 = inr tt /\
    rd_group (xgroup_create s g r).1 s g = Some (mkGroup [] []);
  xgroup_create_busy s g r :
    is_Some (rd_group r s g) ->
    (xgroup_create s g r).2 =
      inl (ResponseError "BUSYGROUP Consumer Group name already exists") /\
    rd_group (xgroup_create s g r).1 s g = rd_group r s g;
  xgroup_create_frame s g r s' g' :
    (s', g') <> (s, g) -> rd_group (xgroup_create s g r).1 s' g' = rd_group r s' g';
  xgroup_create_zset s g r z : rd_zset (xgroup_create s g r).1 z = rd_zset r z;

  (** XADD appends to every group of the stream. *)
  xadd_group s f now r s' g :
    rd_group (xadd s f now r).1 s' g =
    (if decide (s' = s)
     then (fun v => mkGroup (g_fresh v ++ [((xadd s f now r).2, f)]) (g_pel v)) <$> rd_group r s' g
     else rd_group r s' g);
  xadd_zset s f now r z : rd_zset (xadd s f now r).1 z = rd_zset r z;

  (** XREADGROUP ... > over streams whose group exists. *)
  xreadgroup_ok ss g c count now r views :
    NoDup ss ->
    Forall2 (fun s v => v.1 = s /\ rd_group r s g = Some v.2) ss views ->
    (xreadgroup ss g c count now r).2 = inr (read_reply count views) /\
    forall s' g', rd_group (xreadgroup ss g c count now r).1 s' g' =
      (if decide (s' ∈ ss /\ g' = g) then deliver count c now <$> rd_group r s' g' else rd_group r s' g');
  xreadgroup_nogroup ss g c count now r s :
    s ∈ ss -> rd_group r s g = None ->
    exists m, (xreadgroup ss g c count now r).2 = inl (ResponseError m) /\
    forall s' g', rd_group (xreadgroup ss g c count now r).1 s' g' = rd_group r s' g';
  xreadgroup_zset ss g c count now r z : rd_zset (xreadgroup ss g c count now r).1 z = rd_zset r z;

  xack_group s g id r s' g' :
    rd_group (xack s g id r).1 s' g' =
    (if decide (s' = s /\ g' = g) then unack id <$> rd_group r s' g' else rd_group r s' g');
  xack_zset s g id r z : rd_zset (xack s g id r).1 z = rd_zset r z;

  (** XAUTOCLAIM scans the PEL from [start]; the entries of the scanned part idle
      for [min_idle] ms change owner, and the reply's cursor is where the scan
      stopped, or 0-0 at the end. *)
  xautoclaim_ok s g c min_idle start count now r v :
    rd_group r s g = Some v -> (0 < count)%nat ->
    exists scanned rest,
      let stale := filter (fun e => min_idle <= pe_idle_ms now e) scanned in
      filter (fun e => stream_id_le start (pe_id e)) (g_pel v) = scanned ++ rest /\
      (rest <> [] -> scanned <> []) /\
      (xautoclaim s g c min_idle start count now r).2 =
        inr (match rest with [] => (0%N, 0%N) | e :: _ => pe_id e end, pe_message <$> stale) /\
      rd_group (xautoclaim s g c min_idle start count now r).1 s g =
        Some (mkGroup (g_fresh v) (touch (pe_id <$> stale) c now <$> g_pel v));
  xautoclaim_nogroup s g c min_idle start count now r :
    rd_group r s g = None ->
    exists m, (xautoclaim s g c min_idle start count now r).2 = inl (ResponseError m) /\
    rd_group (xautoclaim s g c min_idle start count now r).1 s g = None;
  xautoclaim_frame s g c min_idle start count now r s' g' :
    (s', g') <> (s, g) ->
    rd_group (xautoclaim s g c min_idle start count now r).1 s' g' = rd_group r s' g';
  xautoclaim_zset s g c min_idle start count now r z :
    rd_zset (xautoclaim s g c min_idle start count now r).1 z = rd_zset r z;

  zadd_zset z m x r z' :
    rd_zset (zadd z m x r).1 z' = (if decide (z' = z) then <[m := x]> (rd_zset r z') else rd_zset r z');
  zadd_group z m x r s g : rd_group (zadd z m x r).1 s g = rd_group r s g;
  zrem_zset z ms r z' :
    rd_zset (zrem z ms r).1 z' =
    (if decide (z' = z) then filter (fun kv : string * Z => kv.1 ∉ ms) (rd_zset r z') else rd_zset r z');
  zrem_group z ms r s g : rd_group (zrem z ms r).1 s g = rd_group r s g;
  (** ZRANGEBYSCORE z min max LIMIT 0 n: the lowest scores first. *)
  zrangebyscore_spec z lo hi n r :
    exists l : list (string * Z),
      l ≡ₚ filter (fun kv : string * Z => lo <= kv.2 /\ kv.2 <= hi) (map_to_list (rd_zset r z)) /\
      Sorted (fun a b : string * Z => a.2 <= b.2) l /\
      zrangebyscore z lo hi n r = (take n l).*1;
}.

(** * OpenTelemetry propagation *)

Class Otel := {
  (** [inject(fields)] under the span continuing [carrier], or the current one *)
  inject : option fields -> fields -> fields;
  (** the W3C propagator writes its own headers only *)
  inject_job_id c f : inject c f !! "job_id" = f !! "job_id";
}.

Definition current_trace_carrier {OT : Otel} : option fields :=
  let carrier := inject None ∅ in
  if decide (carrier = ∅) then None else Some carrier.

(** * Entropy *)

Class Entropy := {
  rng : Type;
  (** [random.random()] is [draw53 / 2^53] *)
  draw53 : rng -> rng * Z;
  draw53_range g : 0 <= (draw53 g).2 < 2 ^ 53;
  (** [uuid.uuid4()] *)
  uuid4 : rng -> rng * uuid;
}.

(** * The world *)

Section World.
Context {PG : Postgres} {RD : Redis} {EN : Entropy}.

Record world := World {
  w_db : pg_db;
  w_redis : rd;
  w_now : datetime;
  w_rng : rng;
}.

Definition with_db (d : pg_db) (w : world) : world := World d (w_redis w) (w_now w) (w_rng w).
Definition with_redis (r : rd) (w : world) : world := World (w_db w) r (w_now w) (w_rng w).
Definition with_now (t : datetime) (w : world) : world := World (w_db w) (w_redis w) t (w_rng w).
Definition with_rng (g : rng) (w : world) : world := World (w_db w) (w_redis w) (w_now w) g.

(** The coroutines of the service. *)
#[local] Abbreviation coroutine := (prog world exn).

(** One committed transaction; [now] is the clock read with it. *)
Definition pg {X} (t : datetime -> pg_db -> pg_db * X) : coroutine X :=
  act (fun w => let r := t (w_now w) (w_db w) in (with_db r.1 w, r.2)).

Definition pg_read {X} (q : pg_db -> X) : coroutine X :=
  act (fun w => (w, q (w_db w))).

(** One Redis command. *)
Definition redis_do {X} (c : datetime -> rd -> rd * X) : coroutine X :=
  act (fun w => let r := c (w_now w) (w_redis w) in (with_redis r.1 w, r.2)).

(** Raise an error answered as a value. *)
Definition or_raise {X} (r : exn + X) : coroutine X :=
  match r with inl e => Raise e | inr x => Ret x end.

Definition redis_try {X} (c : datetime -> rd -> rd * (exn + X)) : coroutine X :=
  r ← redis_do c; or_raise r.

Definition clock : coroutine datetime := act (fun w => (w, w_now w)).

Definition random53 : coroutine Z :=
  act (fun w => let r := draw53 (w_rng w) in (with_rng r.1 w, r.2)).

Definition fresh_uuid : coroutine uuid :=
  act (fun w => let r := uuid4 (w_rng w) in (with_rng r.1 w, r.2)).

Definition sleep (d : duration) : coroutine unit :=
  act (fun w => (with_now (w_now w + d) w, tt)).
End World.
Arguments world {PG RD EN}.
Abbreviation coroutine := (prog world exn).
