(* ===== verification/Reference.v ===== *)
(** Reference instances of the service interfaces: a table in a [gmap], streams and
    sorted sets in records of lists and maps.  They discharge the laws of
    Services.v, so the laws are satisfiable together, and they compute, so the
    witnesses of the other files run the code on them.

    Every operation starts from [norm] of the state, which is the state itself
    whenever it is well formed; all the states the operations produce are. *)
From stdpp Require Import base tactics option list gmap strings numbers sorting.
From S2P Require Import Prelude Prog Uuid Model Services.
Set Default Goal Selector "!".
Open Scope Z_scope.

(** * Postgres *)

Module RefPg.
Implicit Types (m : gmap uuid Job).

Definition ok m : Prop :=
  map_Forall (fun k j => j_id j = k) m /\
  map_Forall (fun k a => map_Forall (fun l b => idempotency_conflict a b = true -> k = l) m) m.
#[export] Instance ok_dec m : Decision (ok m).
Proof. unfold ok. apply _. Defined.

Definition norm m : gmap uuid Job := if decide (ok m) then m else ∅.

Lemma ok_empty : ok ∅.
Proof. split; intros ??; by rewrite lookup_empty. Qed.
Lemma norm_ok m : ok (norm m).
Proof. unfold norm. case_decide; [done|apply ok_empty]. Qed.
Lemma norm_id m : ok m -> norm m = m.
Proof. intros. unfold norm. by case_decide. Qed.

Definition clash m (j : Job) : bool :=
  bool_decide (is_Some (m !! j_id j)) ||
  existsb (idempotency_conflict j) (map_to_list m).*2.

Lemma clash_true m j :
  clash m j = true <->
  is_Some (m !! j_id j) \/ (exists k a, m !! k = Some a /\ idempotency_conflict j a = true).
Proof.
  unfold clash. rewrite orb_true_iff, bool_decide_eq_true, existsb_exists.
  split; (intros [?|H]; [by left|right]).
  - destruct H as (a & Ha & Hc). apply list_elem_of_In, list_elem_of_fmap in Ha as ([k a'] & -> & Ha).
    exists k, a'. split; [by apply elem_of_map_to_list|done].
  - destruct H as (k & a & Hk & Hc). exists a. split; [|done].
    apply list_elem_of_In, list_elem_of_fmap. exists (k, a). split; [done|].
    by apply elem_of_map_to_list.
Qed.

Lemma conflict_sym a b : idempotency_conflict a b = idempotency_conflict b a.
Proof.
  unfold idempotency_conflict.
  destruct (j_user_id a), (j_user_id b), (j_idempotency_key a), (j_idempotency_key b); try done.
  apply bool_decide_ext. split; intros [-> ->]; done.
Qed.

Lemma conflict_key a b a' b' :
  j_key a = j_key a' -> j_key b = j_key b' ->
  idempotency_conflict a b = idempotency_conflict a' b'.
Proof. unfold j_key, idempotency_conflict. intros [= _ -> ->] [= _ -> ->]. done. Qed.

Lemma ok_insert m j : ok m -> clash m j = false -> ok (<[j_id j := j]> m).
Proof.
  intros [Hk Hu] Hc. assert (~ clash m j = true) as Hc' by congruence. rewrite clash_true in Hc'.
  assert (m !! j_id j = None) as Hn by (apply eq_None_not_Some; tauto).
  split; [by apply map_Forall_insert_2|].
  intros k a Ha l b Hb Hconf.
  destruct (decide (k = j_id j)) as [->|Hkj], (decide (l = j_id j)) as [->|Hlj];
    simplify_map_eq; try done.
  - destruct Hc'. eauto.
  - destruct Hc'. rewrite conflict_sym in Hconf. eauto.
  - by apply (Hu _ _ Ha _ _ Hb).
Qed.

Lemma ok_update m (p : Job -> bool) f :
  keeps_key f -> ok m -> ok ((fun j => if p j then f j else j) <$> m).
Proof.
  intros Hf [Hk Hu].
  assert (forall j, j_key (if p j then f j else j) = j_key j) as Hkey by (intros j; by destruct (p j)).
  split.
  - intros k j. rewrite lookup_fmap, fmap_Some. intros (j' & Hj & ->).
    specialize (Hkey j'). unfold j_key in Hkey. specialize (Hk _ _ Hj). simpl in Hk. congruence.
  - intros k a. rewrite lookup_fmap, fmap_Some. intros (a' & Ha & ->) l b.
    rewrite lookup_fmap, fmap_Some. intros (b' & Hb & ->) Hc.
    erewrite conflict_key in Hc by apply Hkey. by apply (Hu _ _ Ha _ _ Hb).
Qed.

Definition rows_where (p : Job -> bool) m : list Job :=
  filter (fun j => p j = true) (map_to_list (norm m)).*2.

#[export] Program Instance postgres : Postgres := {|
  pg_db := gmap uuid Job;
  pg_rows := norm;
  pg_insert j m :=
    if storable j then
      if clash (norm m) j then (norm m, inl IntegrityError) else (<[j_id j := j]> (norm m), inr tt)
    else (norm m, inl (OtherError "DBAPIError" "unsupported Unicode escape sequence"));
  pg_update p f m := ((fun j => if p j then f j else j) <$> norm m,
    size (filter (fun kv : uuid * Job => p kv.2 = true) (norm m)));
  pg_select p m := rows_where p m;
  pg_select_by p before n m :=
    take n (merge_sort (in_order before) (rows_where p m));
|}.
Next Obligation. intros m k j Hj. by apply (proj1 (norm_ok m)) in Hj. Qed.
Next Obligation. intros m k l a b Ha Hb Hc. by apply (proj2 (norm_ok m) _ _ Ha _ _ Hb). Qed.
Next Obligation.
  intros m j Hst Hn Hc. cbn beta. rewrite Hst. assert (clash (norm m) j = false) as E.
  { apply not_true_iff_false. intros E%clash_true. destruct E as [[? E]|(k & a & E & E')]; [congruence|]. by rewrite (Hc _ _ E) in E'. }
  rewrite E. split; [done|]. apply norm_id, ok_insert; [apply norm_ok|done].
Qed.
Next Obligation.
  intros m j Hst Hc. apply clash_true in Hc. cbn beta. rewrite Hst, Hc. split; [done|]. apply norm_id, norm_ok.
Qed.
Next Obligation.
  intros m j Hst. cbn beta. rewrite Hst. split; [by eexists|]. apply norm_id, norm_ok.
Qed.
Next Obligation. intros p f m Hf. apply norm_id, ok_update; [done|apply norm_ok]. Qed.
Next Obligation. done. Qed.
Next Obligation. done. Qed.
Next Obligation.
  intros p before n m Hasym. eexists. split; [|split; [|done]].
  - apply merge_sort_Permutation.
  - apply Sorted_merge_sort. intros a b. unfold in_order.
    destruct (before b a) eqn:E; [right; by apply Hasym|by left].
Qed.
End RefPg.

(** * Redis *)

Module RefRedis.
Record store := Store {
  st_groups : gmap (string * string) group_view;
  st_last : gmap string stream_id;
  st_zsets : gmap string (gmap string Z);
}.

Definition zero_id : stream_id := (0%N, 0%N).
Definition last_id (r : store) (s : string) : stream_id := default zero_id (st_last r !! s).

#[export] Instance stream_id_lt_trans : Transitive stream_id_lt.
Proof. unfold stream_id_lt. intros [] [] []; simpl; lia. Qed.

Fixpoint ids_sorted (x : stream_id) (l : list stream_id) : bool :=
  match l with
  | [] => true
  | y :: l' => bool_decide (stream_id_lt x y) && ids_sorted y l'
  end.

Lemma ids_sorted_iff x l : ids_sorted x l = true <-> StronglySorted stream_id_lt (x :: l).
Proof.
  revert x. induction l as [|y l IH]; intros x; simpl.
  - split; [|done]. intros _. repeat constructor.
  - rewrite andb_true_iff, bool_decide_eq_true, IH. split.
    + intros [Hxy Hs]. constructor; [done|]. constructor; [done|].
      apply StronglySorted_inv in Hs as [_ Hf]. eapply Forall_impl; [done|]. intros z ?. by etrans.
    + intros [Hs Hf]%StronglySorted_inv. by apply Forall_cons in Hf as [? _].
Qed.

Definition view_ok (last : stream_id) (v : group_view) : Prop :=
  ids_sorted zero_id (group_ids v) = true /\ Forall (fun i => stream_id_le i last) (group_ids v).

Definition ok (r : store) : Prop :=
  map_Forall (fun sg v => view_ok (last_id r sg.1) v) (st_groups r).
#[export] Instance ok_dec r : Decision (ok r).
Proof. unfold ok, view_ok. apply _. Defined.

Definition empty_store : store := Store ∅ ∅ ∅.
Definition norm (r : store) : store := if decide (ok r) then r else empty_store.

Lemma redis_norm_ok r : ok (norm r).
Proof. unfold norm. case_decide; [done|]. intros ??. simpl. by rewrite lookup_empty. Qed.
Lemma redis_norm_id r : ok r -> norm r = r.
Proof. intros. unfold norm. by case_decide. Qed.

(** Apply [f] to the view of group [g] of stream [s]. *)
Definition on_group (s g : string) (f : group_view -> group_view) (r : store) : store :=
  Store (alter f (s, g) (st_groups r)) (st_last r) (st_zsets r).

Definition next_id (now : datetime) (last : stream_id) : stream_id :=
  let ms := Z.to_N (now / 1000) in
  if (last.1 <? ms)%N then (ms, 0%N) else (last.1, N.succ last.2).

Lemma next_id_lt now last : stream_id_lt last (next_id now last).
Proof.
  unfold next_id, stream_id_lt. destruct last as [a b]; simpl.
  destruct (a <? _)%N eqn:E; simpl; [apply N.ltb_lt in E; by left|right; lia].
Qed.

Definition append_entry (s : string) (m : stream_id * fields) (r : store) : store :=
  Store (map_imap (fun sg v => Some (if decide (sg.1 = s) then mkGroup (g_fresh v ++ [m]) (g_pel v) else v))
           (st_groups r))
    (<[s := m.1]> (st_last r)) (st_zsets r).

Definition views (ss : list string) (g : string) (r : store) : option (list (string * group_view)) :=
  mapM (fun s => (fun v => (s, v)) <$> st_groups r !! (s, g)) ss.

Definition scan (start : stream_id) (count : nat) (v : group_view) : list pel_entry * list pel_entry :=
  let l := filter (fun e => stream_id_le start (pe_id e)) (g_pel v) in (take count l, drop count l).

Definition score_le (a b : string * Z) : Prop := a.2 <= b.2.
#[export] Instance score_le_dec : RelDecision score_le.
Proof. intros a b. unfold score_le. apply _. Defined.
#[export] Instance score_le_total : Total score_le.
Proof. intros a b. unfold score_le. lia. Qed.

Definition zset (r : store) (z : string) : gmap string Z := default ∅ (st_zsets r !! z).

(** ** Every operation keeps the ids sorted *)

Lemma ok_on_group s g f r :
  ok r -> (forall v last, view_ok last v -> view_ok last (f v)) -> ok (on_group s g f r).
Proof.
  intros Hr Hf sg v. unfold on_group, last_id. simpl. rewrite lookup_alter.
  case_decide; [|by apply Hr]. subst. intros (v' & Hv & ->)%fmap_Some. apply Hf, (Hr _ _ Hv).
Qed.

Lemma view_ok_deliver n c now v last : view_ok last v -> view_ok last (deliver n c now v).
Proof.
  unfold view_ok. replace (group_ids (deliver n c now v)) with (group_ids v); [done|].
  unfold group_ids, deliver. simpl. rewrite fmap_app, <-list_fmap_compose, <-app_assoc. f_equal.
  rewrite <-(take_drop n (g_fresh v)) at 1. by rewrite fmap_app.
Qed.

Lemma Forall_of_sublist {A} (P : A -> Prop) (l k : list A) :
  sublist k l -> Forall P l -> Forall P k.
Proof. induction 1; rewrite ?Forall_cons; naive_solver. Qed.

Lemma StronglySorted_sub {A} (R : relation A) (l k : list A) :
  sublist k l -> StronglySorted R l -> StronglySorted R k.
Proof.
  induction 1 as [|x l1 l2 Hsub IH|x l1 l2 Hsub IH]; [done| |].
  - intros [Hs Hf]%StronglySorted_inv. constructor; [by apply IH|].
    by eapply Forall_of_sublist.
  - intros [Hs _]%StronglySorted_inv. by apply IH.
Qed.

Lemma sublist_filter {A} (P : A -> Prop) `{!forall x, Decision (P x)} (l : list A) :
  sublist (filter P l) l.
Proof. induction l as [|x l IH]; [done|]. rewrite filter_cons. case_decide; by constructor. Qed.

Lemma StronglySorted_snoc {A} (R : relation A) l x :
  StronglySorted R l -> Forall (fun y => R y x) l -> StronglySorted R (l ++ [x]).
Proof.
  induction 1 as [|y l Hl IH Hf]; simpl; [repeat constructor|].
  intros [Hy Hx]%Forall_cons. constructor; [by apply IH|]. apply Forall_app. by repeat constructor.
Qed.

Lemma view_ok_unack id v last : view_ok last v -> view_ok last (unack id v).
Proof.
  intros [Hs Hf]. rewrite ids_sorted_iff in Hs.
  assert (sublist (group_ids (unack id v)) (group_ids v)) as Hsub.
  { unfold group_ids, unack. simpl. apply sublist_app; [|done].
    apply fmap_sublist, sublist_filter. }
  split; [|by eapply Forall_of_sublist].
  apply ids_sorted_iff. eapply StronglySorted_sub; [|done]. by constructor.
Qed.

Lemma view_ok_touch ids c now v last :
  view_ok last v -> view_ok last (mkGroup (g_fresh v) (touch ids c now <$> g_pel v)).
Proof.
  unfold view_ok. replace (group_ids (mkGroup _ _)) with (group_ids v); [done|].
  unfold group_ids. simpl. rewrite <-list_fmap_compose. f_equal.
  apply list_fmap_ext. intros i e _. unfold touch; simpl. by case_decide.
Qed.

Lemma ok_append s m r :
  ok r -> stream_id_lt (last_id r s) m.1 -> ok (append_entry s m r).
Proof.
  intros Hr Hm [s' g] v. unfold append_entry, last_id. simpl.
  rewrite map_lookup_imap. intros (v' & Hv & Hv')%bind_Some.
  specialize (Hr _ _ Hv). simpl in *. case_decide as E; simplify_eq/=.
  - destruct Hr as [Hs Hf]. rewrite lookup_insert_eq. simpl.
    unfold view_ok, group_ids in *. simpl. rewrite fmap_app, app_assoc. simpl.
    rewrite ids_sorted_iff in Hs |- *. split.
    + apply (StronglySorted_snoc _ (_ :: _)); [done|].
      assert (stream_id_le zero_id (last_id r s)) as H0.
      { unfold stream_id_le, zero_id, stream_id_lt. destruct (last_id r s) as [a b]. simpl.
        destruct (decide (a = 0)%N), (decide (b = 0)%N); subst; auto; right; lia. }
      apply (Forall_impl (fun i => stream_id_le i (last_id r s))); [by constructor|].
      intros i [->|Hlt]; [done|by etrans].
    + apply Forall_app. split; [|repeat constructor].
      eapply Forall_impl; [done|]. intros i [->|Hlt]; right; [done|by etrans].
  - rewrite lookup_insert_ne by done. apply Hr.
Qed.

(** ** The commands *)

Definition group_at (r : store) (s g : string) : option group_view := st_groups (norm r) !! (s, g).

Definition cmd_group_create (s g : string) (r : store) : store * (exn + unit) :=
  match group_at r s g with
  | Some _ => (norm r, inl (ResponseError "BUSYGROUP Consumer Group name already exists"))
  | None => let r := norm r in
      (Store (<[(s, g) := mkGroup [] []]> (st_groups r)) (st_last r) (st_zsets r), inr tt)
  end.

Definition cmd_add (s : string) (f : fields) (now : datetime) (r : store) : store * stream_id :=
  let id := next_id now (last_id (norm r) s) in (append_entry s (id, f) (norm r), id).

Definition cmd_read (ss : list string) (g c : string) (count : nat) (now : datetime) (r : store) :
    store * (exn + list (string * list (stream_id * fields))) :=
  match views ss g (norm r) with
  | None => (norm r, inl (ResponseError "NOGROUP"))
  | Some vs => (foldr (fun s => on_group s g (deliver count c now)) (norm r) ss, inr (read_reply count vs))
  end.

Definition cmd_ack (s g : string) (id : stream_id) (r : store) : store * unit :=
  (on_group s g (unack id) (norm r), tt).

Definition cmd_autoclaim (s g c : string) (min_idle : Z) (start : stream_id) (count : nat)
    (now : datetime) (r : store) : store * (exn + (stream_id * list (stream_id * fields))) :=
  match group_at r s g with
  | None => (norm r, inl (ResponseError "NOGROUP"))
  | Some v =>
      let '(scanned, rest) := scan start count v in
      let stale := filter (fun e => min_idle <= pe_idle_ms now e) scanned in
      (on_group s g (fun v => mkGroup (g_fresh v) (touch (pe_id <$> stale) c now <$> g_pel v)) (norm r),
       inr (match rest with [] => zero_id | e :: _ => pe_id e end, pe_message <$> stale))
  end.

Definition on_zset (z : string) (f : gmap string Z -> gmap string Z) (r : store) : store * unit :=
  let r := norm r in (Store (st_groups r) (st_last r) (<[z := f (zset r z)]> (st_zsets r)), tt).

Definition cmd_range (z : string) (lo hi : Z) (n : nat) (r : store) : list string :=
  (take n (merge_sort score_le
    (filter (fun kv : string * Z => lo <= kv.2 /\ kv.2 <= hi) (map_to_list (zset (norm r) z))))).*1.

Lemma norm_create s g r : norm (cmd_group_create s g r).1 = (cmd_group_create s g r).1.
Proof.
  apply redis_norm_id. unfold cmd_group_create. pose proof (redis_norm_ok r) as Hr.
  case_match; [done|]. intros sg v. simpl. rewrite lookup_insert.
  case_decide; [intros [= <-]; by split|apply Hr].
Qed.

Lemma norm_add s f now r : norm (cmd_add s f now r).1 = (cmd_add s f now r).1.
Proof. apply redis_norm_id, ok_append; [apply redis_norm_ok|apply next_id_lt]. Qed.

Lemma norm_on_group s g f r :
  (forall v last, view_ok last v -> view_ok last (f v)) ->
  norm (on_group s g f (norm r)) = on_group s g f (norm r).
Proof. intros. apply redis_norm_id, ok_on_group; [apply redis_norm_ok|done]. Qed.

Lemma norm_read ss g c count now r : norm (cmd_read ss g c count now r).1 = (cmd_read ss g c count now r).1.
Proof.
  apply redis_norm_id. unfold cmd_read. case_match; simpl; [|apply redis_norm_ok].
  clear. induction ss as [|s ss IH]; simpl; [apply redis_norm_ok|].
  apply ok_on_group; [done|apply view_ok_deliver].
Qed.

Lemma norm_autoclaim s g c mi st n now r :
  norm (cmd_autoclaim s g c mi st n now r).1 = (cmd_autoclaim s g c mi st n now r).1.
Proof.
  unfold cmd_autoclaim. case_match; simpl; [|by apply redis_norm_id, redis_norm_ok].
  apply norm_on_group. intros. by apply view_ok_touch.
Qed.

Lemma norm_on_zset z f r : norm (on_zset z f r).1 = (on_zset z f r).1.
Proof. apply redis_norm_id. unfold on_zset, ok, last_id. simpl. apply redis_norm_ok. Qed.

Lemma group_on_group s g f r s' g' :
  st_groups (on_group s g f r) !! (s', g') =
  if decide (s' = s /\ g' = g) then f <$> st_groups r !! (s', g') else st_groups r !! (s', g').
Proof.
  unfold on_group. simpl. rewrite lookup_alter.
  destruct (decide ((s, g) = (s', g'))), (decide (s' = s /\ g' = g)); naive_solver.
Qed.

Lemma group_read_fold ss g f r s' g' :
  NoDup ss ->
  st_groups (foldr (fun s => on_group s g f) r ss) !! (s', g') =
  if decide (s' ∈ ss /\ g' = g) then f <$> st_groups r !! (s', g') else st_groups r !! (s', g').
Proof.
  induction 1 as [|s ss Hs Hnd IH]; cbn [foldr].
  - case_decide; [set_solver|done].
  - rewrite group_on_group. destruct (decide (s' = s /\ g' = g)) as [[-> ->]|Hne].
    + rewrite IH. repeat case_decide; set_solver.
    + rewrite IH. do 2 case_decide; set_solver.
Qed.

Lemma views_Forall2 ss g r vs :
  Forall2 (fun s v => v.1 = s /\ st_groups r !! (s, g) = Some v.2) ss vs ->
  views ss g r = Some vs.
Proof.
  intros H. apply mapM_Some. eapply Forall2_impl; [exact H|].
  intros s [s' v] [Hs Hv]. simpl in *. subst. by rewrite Hv.
Qed.

Lemma views_None ss g r s :
  s ∈ ss -> st_groups r !! (s, g) = None -> views ss g r = None.
Proof.
  intros Hs Hn. apply mapM_None. apply Exists_exists. exists s. split; [done|]. by rewrite Hn.
Qed.

#[export] Program Instance redis : Redis := {|
  rd := store;
  rd_group := group_at;
  rd_zset r z := zset (norm r) z;
  xgroup_create := cmd_group_create;
  xadd := cmd_add;
  xreadgroup := cmd_read;
  xack := cmd_ack;
  xautoclaim := cmd_autoclaim;
  zadd z m x := on_zset z (<[m := x]>);
  zrem z ms := on_zset z (filter (fun kv : string * Z => kv.1 ∉ ms));
  zrangebyscore z lo hi n r := cmd_range z lo hi n r;
|}.
Next Obligation.
  intros r s g v Hv. unfold group_at in Hv. apply (redis_norm_ok r) in Hv as [Hs _].
  by apply ids_sorted_iff.
Qed.
Next Obligation.
  intros s g r Hn. unfold group_at at 1. rewrite norm_create. unfold cmd_group_create.
  rewrite Hn. simpl. by rewrite lookup_insert_eq.
Qed.
Next Obligation.
  intros s g r [v Hv]. unfold group_at at 1. rewrite norm_create. unfold cmd_group_create.
  by rewrite Hv.
Qed.
Next Obligation.
  intros s g r s' g' Hne. unfold group_at at 1. rewrite norm_create. unfold cmd_group_create.
  case_match; [done|]. simpl. by rewrite lookup_insert_ne.
Qed.
Next Obligation.
  intros s g r z. cbn beta. rewrite norm_create. unfold cmd_group_create. by case_match.
Qed.
Next Obligation.
  intros s f now r s' g. unfold group_at at 1. rewrite norm_add.
  unfold cmd_add, append_entry. simpl. rewrite map_lookup_imap. unfold group_at.
  destruct (st_groups (norm r) !! (s', g)); simpl; by repeat case_decide.
Qed.
Next Obligation. intros s f now r z. cbn beta. by rewrite norm_add. Qed.
Next Obligation.
  intros ss g c count now r vs Hnd Hvs. unfold group_at in *. apply views_Forall2 in Hvs.
  rewrite norm_read. unfold cmd_read. rewrite Hvs. split; [done|]. intros s' g'.
  by apply group_read_fold.
Qed.
Next Obligation.
  intros ss g c count now r s Hs Hn. unfold group_at in *.
  rewrite norm_read. unfold cmd_read. rewrite (views_None _ _ _ _ Hs Hn). eauto.
Qed.
Next Obligation.
  intros ss g c count now r z. cbn beta. rewrite norm_read. unfold cmd_read. case_match; [|done]. simpl.
  unfold zset. clear. by induction ss.
Qed.
Next Obligation.
  intros s g id r s' g'. unfold group_at, cmd_ack. simpl. rewrite norm_on_group.
  - apply group_on_group.
  - intros. by apply view_ok_unack.
Qed.
Next Obligation.
  intros s g id r z. cbn beta. unfold cmd_ack. simpl. rewrite norm_on_group; [done|].
  intros. by apply view_ok_unack.
Qed.
Next Obligation.
  intros s g c mi start count now r v Hv Hc.
  exists (scan start count v).1, (scan start count v).2.
  split; [by unfold scan; simpl; rewrite take_drop|]. split.
  { unfold scan. simpl. destruct (filter _ _); [by rewrite drop_nil|].
    destruct count; [lia|done]. }
  unfold group_at at 1. rewrite norm_autoclaim. unfold cmd_autoclaim. rewrite Hv. unfold scan.
  split; [done|]. cbn [fst snd]. rewrite group_on_group, decide_True by done.
  unfold group_at in Hv. by rewrite Hv.
Qed.
Next Obligation.
  intros s g c mi start count now r Hn. unfold group_at in *. rewrite norm_autoclaim.
  unfold cmd_autoclaim, group_at. rewrite Hn. eauto.
Qed.
Next Obligation.
  intros s g c mi start count now r s' g' Hne. unfold group_at at 1. rewrite norm_autoclaim.
  unfold cmd_autoclaim. destruct (group_at r s g); [|done]. unfold scan. cbv beta iota zeta.
  cbn [fst]. rewrite group_on_group, decide_False; [done|]. intros [-> ->]. done.
Qed.
Next Obligation.
  intros s g c mi start count now r z. cbn beta. rewrite norm_autoclaim. unfold cmd_autoclaim. by case_match.
Qed.
Next Obligation.
  intros z m x r z'. cbn beta. rewrite norm_on_zset. unfold on_zset, zset. simpl. rewrite lookup_insert.
  repeat case_decide; naive_solver.
Qed.
Next Obligation. intros z m x r s g. cbn beta. unfold group_at at 1. by rewrite norm_on_zset. Qed.
Next Obligation.
  intros z ms r z'. cbn beta. rewrite norm_on_zset. unfold on_zset, zset. simpl. rewrite lookup_insert.
  repeat case_decide; naive_solver.
Qed.
Next Obligation. intros z ms r s g. cbn beta. unfold group_at at 1. by rewrite norm_on_zset. Qed.
Next Obligation.
  intros z lo hi n r. eexists. split; [|split; [|done]].
  - apply merge_sort_Permutation.
  - apply (Sorted_merge_sort score_le).
Qed.
End RefRedis.

(** * Tracing disabled, and a counter for entropy *)

Module RefMisc.
#[export] Program Instance otel : Otel := {| inject _ f := f |}.
Next Obligation. done. Qed.

#[export] Program Instance entropy : Entropy := {|
  rng := N;
  draw53 n := (N.succ n, Z.of_N n mod 2 ^ 53);
  uuid4 n := (N.succ n, default (Uuid 0 eq_refl) (uuid_of_N n));
|}.
Next Obligation. intros n. by apply Z.mod_pos_bound. Qed.
End RefMisc.

(** A fresh deployment: no rows, no streams, at time [now]. *)
Module RefWorld.
Export RefPg RefRedis RefMisc.
Definition empty_world (now : datetime) : world := World (∅ : gmap uuid Job) empty_store now 1%N.
End RefWorld.
