(* ===== verification/Repository.v ===== *)
(** The repository (app/repository.py and the raw statements of
    app/worker/context.py): every read and write of the [jobs] table as a
    transaction on the database, and what each one does to the rows.

    [row_step] is the state machine of a row: one constructor per UPDATE.  Every
    transaction of the repository is a [db_step], that is, it inserts fresh rows
    and moves existing rows along [row_step]; the invariants of rows are proved by
    cases on [row_step] and hold of any sequence of transactions. *)
From stdpp Require Import base tactics option list gmap strings numbers relations.
From S2P Require Import Prelude Prog Uuid Model Services.
Set Default Goal Selector "!".
Open Scope Z_scope.

(** * Transactions *)

Section Transactions.
Context {PG : Postgres}.
Implicit Types (d : pg_db).

(** [WHERE id = :id AND guard] *)
Definition where_id (id : uuid) (guard : Job -> bool) (j : Job) : bool :=
  bool_decide (j_id j = id) && guard j.

(** [UPDATE jobs SET upd WHERE id = :id AND guard]; answers [rowcount == 1]. *)
Definition guarded (id : uuid) (guard : Job -> bool) (upd : Job -> Job) d : pg_db * bool :=
  let r := pg_update (where_id id guard) upd d in (r.1, (r.2 =? 1)%nat).

Definition any_row (j : Job) : bool := true.

(** [Job(...)]: [__init__] and the column defaults fill in the rest. *)
Definition new_job (new_id : uuid) (now : datetime) (job_type : JobType) (payload : json)
    (status : JobStatus) (scheduled_at : option datetime) (priority : JobPriority)
    (max_attempts : Z) (idempotency_key idempotency_hash : option string)
    (trace_context : option fields) (user_id : option uuid) (user_name : option string) : Job :=
  mkJob new_id user_id user_name job_type payload status priority None None 0 max_attempts now
    None None scheduled_at false None None idempotency_key idempotency_hash trace_context.

Definition create_job (job : Job) d : pg_db * (exn + Job) :=
  let r := pg_insert job d in
  (r.1, match r.2 with inr _ => inr job | inl e => inl e end).

(** SQLAlchemy's [scalar_one_or_none]. *)
Definition scalar_one_or_none (l : list Job) : exn + option Job :=
  match l with
  | [] => inr None
  | [j] => inr (Some j)
  | _ => inl MultipleResultsFound
  end.

Definition get_job (job_id : uuid) (user_id : option uuid) d : exn + option Job :=
  match user_id with
  | None => scalar_one_or_none (pg_select (where_id job_id any_row) d)
  | Some u => scalar_one_or_none
      (pg_select (where_id job_id (fun j => bool_decide (j_user_id j = Some u))) d)
  end.

Definition mark_synced (job_id : uuid) d : pg_db * unit :=
  ((pg_update (where_id job_id any_row) (set_is_synced_to_redis true) d).1, tt).

Definition claim_job (now : datetime) (job_id : uuid) d : pg_db * bool :=
  guarded job_id (status_in [pending; scheduled])
    (fun j => set_started_at (Some now) (set_status processing j)) d.

Definition complete_job (now : datetime) (job_id : uuid) (result : json)
    (progress : option Z) d : pg_db * bool :=
  guarded job_id (status_in [processing])
    (fun j => set_status completed (set_result (Some result) (set_completed_at (Some now)
      (set_attempts (j_attempts j + 1)
        (set_progress (match progress with Some p => Some p | None => j_progress j end) j))))) d.

Definition fail_job (now : datetime) (job_id : uuid) (error : json) d : pg_db * bool :=
  guarded job_id (status_in [processing])
    (fun j => set_status failed (set_error (Some error) (set_completed_at (Some now)
      (set_attempts (j_attempts j + 1) j)))) d.

Definition retry_to_pending (job_id : uuid) d : pg_db * bool :=
  guarded job_id (status_in [processing])
    (fun j => set_status pending (set_attempts (j_attempts j + 1)
      (set_is_synced_to_redis false (set_started_at None j)))) d.

Definition retry_to_scheduled (job_id : uuid) (scheduled_at : datetime) d : pg_db * bool :=
  guarded job_id (status_in [processing])
    (fun j => set_status scheduled (set_scheduled_at (Some scheduled_at)
      (set_attempts (j_attempts j + 1) (set_is_synced_to_redis false (set_started_at None j))))) d.

Definition reset_failed_to_pending (job_id : uuid) d : pg_db * bool :=
  guarded job_id
    (fun j => status_in [failed] j && bool_decide (j_cancel_requested_at j = None))
    (fun j => set_status pending (set_attempts 0 (set_error None (set_started_at None
      (set_completed_at None (set_is_synced_to_redis false j)))))) d.

Definition promote_scheduled_to_pending (job_ids : list uuid) d : pg_db * Z :=
  match job_ids with
  | [] => (d, 0)
  | _ =>
      let r := pg_update (fun j => bool_decide (j_id j ∈ job_ids) && status_in [scheduled] j)
                 (set_status pending) d in
      (r.1, Z.of_nat r.2)
  end.

(** [ORDER BY created_at, id] *)
Definition older (a b : Job) : bool :=
  (j_created_at a <? j_created_at b) ||
  ((j_created_at a =? j_created_at b) && uuid_lt (j_id a) (j_id b)).

Definition unsynced (older_than : datetime) (j : Job) : bool :=
  negb (j_is_synced_to_redis j) && status_in [pending; scheduled] j &&
  (j_created_at j <? older_than).

Definition list_unsynced (older_than : datetime) (limit : nat) d : list Job :=
  pg_select_by (unsynced older_than) older limit d.

Definition get_promotion_info (job_ids : list uuid) d :
    gmap uuid (JobPriority * option fields) :=
  match job_ids with
  | [] => ∅
  | _ => list_to_map ((fun j => (j_id j, (j_priority j, j_trace_context j))) <$>
           pg_select (fun j => bool_decide (j_id j ∈ job_ids)) d)
  end.

Definition init_progress (job_id : uuid) d : pg_db * bool :=
  guarded job_id (status_in [processing]) (set_progress (Some 0)) d.

Definition cancel_pending_or_scheduled (now : datetime) (job_id : uuid) d : pg_db * bool :=
  guarded job_id (status_in [pending; scheduled])
    (fun j => set_status cancelled (set_completed_at (Some now) j)) d.

Definition request_cancel (now : datetime) (job_id : uuid) d : pg_db * bool :=
  guarded job_id (status_in [processing]) (set_cancel_requested_at (Some now)) d.

Definition cancel_job (now : datetime) (job_id : uuid) (summary : json) d : pg_db * bool :=
  guarded job_id (status_in [processing])
    (fun j => set_status cancelled (set_result (Some summary) (set_completed_at (Some now) j))) d.

Definition get_by_idempotency_key (key : string) (user_id : uuid) d : exn + option Job :=
  scalar_one_or_none (pg_select
    (fun j => bool_decide (j_idempotency_key j = Some key) &&
              bool_decide (j_user_id j = Some user_id)) d).

(** [GROUP BY status]: the statuses that occur, with their number of rows. *)
Definition count_by_status d : list (JobStatus * nat) :=
  filter (fun sc => sc.2 <> 0%nat)
    ((fun s => (s, length (pg_select (status_in [s]) d))) <$> JobStatus_members).

(** PgJobContext._write: UPDATE ... RETURNING cancel_requested_at.  The answer
    is (alive, requested). *)
Definition write_progress (job_id : uuid) (pct : Z) d : pg_db * (bool * bool) :=
  let r := guarded job_id (status_in [processing]) (set_progress (Some pct)) d in
  (r.1, match pg_select (where_id job_id (status_in [processing])) r.1 with
        | [] => (false, false)
        | j :: _ => (true, bool_decide (is_Some (j_cancel_requested_at j)))
        end).

(** PgJobContext._read *)
Definition read_cancel (job_id : uuid) d : bool * bool :=
  match pg_select (where_id job_id any_row) d with
  | [] => (false, false)
  | j :: _ => if bool_decide (j_status j = processing)
              then (true, bool_decide (is_Some (j_cancel_requested_at j)))
              else (false, false)
  end.
End Transactions.

(** * The state machine of a row *)

Inductive label := Claim | Attempt | Abandon | Reset | Other.

(** One UPDATE on one row, with what it means for the lease: [Claim] takes it,
    [Attempt] gives it up counting an attempt, [Abandon] gives it up without,
    [Reset] starts the job over. *)
Inductive row_step : label -> Job -> Job -> Prop :=
| step_claim now j :
    status_in [pending; scheduled] j = true ->
    row_step Claim j (set_started_at (Some now) (set_status processing j))
| step_complete now result progress j :
    status_in [processing] j = true ->
    row_step Attempt j (set_status completed (set_result (Some result) (set_completed_at (Some now)
      (set_attempts (j_attempts j + 1)
        (set_progress (match progress with Some p => Some p | None => j_progress j end) j)))))
| step_fail now error j :
    status_in [processing] j = true ->
    row_step Attempt j (set_status failed (set_error (Some error) (set_completed_at (Some now)
      (set_attempts (j_attempts j + 1) j))))
| step_retry_pending j :
    status_in [processing] j = true ->
    row_step Attempt j (set_status pending (set_attempts (j_attempts j + 1)
      (set_is_synced_to_redis false (set_started_at None j))))
| step_retry_scheduled at_ j :
    status_in [processing] j = true ->
    row_step Attempt j (set_status scheduled (set_scheduled_at (Some at_)
      (set_attempts (j_attempts j + 1) (set_is_synced_to_redis false (set_started_at None j)))))
| step_reset j :
    status_in [failed] j && bool_decide (j_cancel_requested_at j = None) = true ->
    row_step Reset j (set_status pending (set_attempts 0 (set_error None (set_started_at None
      (set_completed_at None (set_is_synced_to_redis false j))))))
| step_promote j :
    status_in [scheduled] j = true ->
    row_step Other j (set_status pending j)
| step_progress p j :
    status_in [processing] j = true ->
    row_step Other j (set_progress (Some p) j)
| step_cancel_pending now j :
    status_in [pending; scheduled] j = true ->
    row_step Other j (set_status cancelled (set_completed_at (Some now) j))
| step_request_cancel now j :
    status_in [processing] j = true ->
    row_step Other j (set_cancel_requested_at (Some now) j)
| step_cancel_job now summary j :
    status_in [processing] j = true ->
    row_step Abandon j (set_status cancelled (set_result (Some summary) (set_completed_at (Some now) j)))
| step_mark_synced j :
    row_step Other j (set_is_synced_to_redis true j).

(** What [create_job] inserts. *)
Definition fresh_row (j : Job) : Prop :=
  exists new_id now job_type payload status scheduled_at priority max_attempts key hash trace user_id user_name,
    (status = pending \/ status = scheduled /\ is_Some scheduled_at) /\
    j = new_job new_id now job_type payload status scheduled_at priority max_attempts
          key hash trace user_id user_name.

(** One transaction on the table. *)
Definition db_step (m m' : gmap uuid Job) : Prop :=
  forall k, match m !! k, m' !! k with
  | None, None => True
  | None, Some j' => fresh_row j'
  | Some j, Some j' => j' = j \/ exists l, row_step l j j'
  | Some _, None => False
  end.
