(* ===== verification/RepositoryFacts.v ===== *)
(** What the transactions of the repository do: a specification of each on the
    rows, [db_step] for all of them, and the invariants of rows. *)
From stdpp Require Import base tactics option list gmap strings numbers relations.
From S2P Require Import Prelude Prog Uuid Model Services Repository.
Set Default Goal Selector "!".
Open Scope Z_scope.

Create HintDb repo.
Create Rewrite HintDb repo_rw.

(** * Reads *)

Section Reads.
Context {PG : Postgres}.
Implicit Types (d : pg_db).

(** The row of [id], when it also satisfies [g]. *)
Definition row_at (m : gmap uuid Job) (id : uuid) (g : Job -> bool) : option Job :=
  match m !! id with
  | Some j => if g j then Some j else None
  | None => None
  end.

Lemma all_rows_NoDup d : NoDup (map_to_list (pg_rows d)).*2.
Proof.
  apply (NoDup_fmap_1 j_id). rewrite <-list_fmap_compose.
  replace ((j_id ∘ snd) <$> map_to_list (pg_rows d)) with (map_to_list (pg_rows d)).*1.
  - apply NoDup_fst_map_to_list.
  - apply list_fmap_ext. intros i [k j] Hi. simpl. symmetry.
    apply list_elem_of_lookup_2, elem_of_map_to_list in Hi. by apply pg_primary_key in Hi.
Qed.

Lemma elem_of_all_rows d j : j ∈ (map_to_list (pg_rows d)).*2 <-> pg_rows d !! j_id j = Some j.
Proof.
  rewrite list_elem_of_fmap. split.
  - intros ([k j'] & -> & Hk). apply elem_of_map_to_list in Hk. simpl.
    by rewrite (pg_primary_key _ _ _ Hk).
  - intros Hj. exists (j_id j, j). by rewrite elem_of_map_to_list.
Qed.

Lemma elem_of_pg_select p d j :
  j ∈ pg_select p d <-> pg_rows d !! j_id j = Some j /\ p j = true.
Proof. rewrite pg_select_rows, list_elem_of_filter, elem_of_all_rows. tauto. Qed.

Lemma pg_select_NoDup p d : NoDup (pg_select p d).
Proof. rewrite pg_select_rows. apply NoDup_filter, all_rows_NoDup. Qed.

Lemma at_most_one (l : list Job) :
  NoDup l -> (forall a b, a ∈ l -> b ∈ l -> a = b) -> l = [] \/ exists j, l = [j].
Proof.
  intros Hnd Heq. destruct l as [|a [|b l]]; eauto. exfalso.
  apply NoDup_cons in Hnd as [Hnd _]. apply Hnd. rewrite (Heq a b); set_solver.
Qed.

Lemma select_where_id id g d :
  pg_select (where_id id g) d = option_list (row_at (pg_rows d) id g).
Proof.
  assert (forall j, j ∈ pg_select (where_id id g) d <-> pg_rows d !! id = Some j /\ g j = true) as Hin.
  { intros j. rewrite elem_of_pg_select. unfold where_id.
    rewrite andb_true_iff, bool_decide_eq_true. split; [by intros (Hj & <- & ?)|].
    intros [Hj ?]. pose proof (pg_primary_key _ _ _ Hj) as Hid. by rewrite Hid. }
  destruct (at_most_one (pg_select (where_id id g) d)) as [E|[j E]].
  - apply pg_select_NoDup.
  - intros a b [Ha _]%Hin [Hb _]%Hin. congruence.
  - rewrite E in *. unfold row_at. destruct (pg_rows d !! id) as [j|] eqn:Hj; [|done].
    destruct (g j) eqn:Hg; [|done]. exfalso. specialize (proj2 (Hin j) (conj eq_refl Hg)). set_solver.
  - rewrite E in *. destruct (proj1 (Hin j)) as [Hj Hg]; [set_solver|].
    unfold row_at. by rewrite Hj, Hg.
Qed.

Lemma row_at_any m id : row_at m id any_row = m !! id.
Proof. unfold row_at. by destruct (m !! id). Qed.

Lemma get_job_rows id d : get_job id None d = inr (pg_rows d !! id).
Proof.
  unfold get_job. rewrite select_where_id, row_at_any. by destruct (pg_rows d !! id).
Qed.

Lemma get_job_owned_rows id u d :
  get_job id (Some u) d = inr (row_at (pg_rows d) id (fun j => bool_decide (j_user_id j = Some u))).
Proof. unfold get_job. rewrite select_where_id. by destruct (row_at _ _ _). Qed.

(** A user's idempotency key names at most one row, so the read never raises. *)
Lemma get_by_idempotency_key_spec key u d :
  exists r, get_by_idempotency_key key u d = inr r /\
    forall j, r = Some j <->
      pg_rows d !! j_id j = Some j /\ j_idempotency_key j = Some key /\ j_user_id j = Some u.
Proof.
  unfold get_by_idempotency_key.
  set (p := fun j => bool_decide (j_idempotency_key j = Some key) && bool_decide (j_user_id j = Some u)).
  assert (forall j, j ∈ pg_select p d <->
    pg_rows d !! j_id j = Some j /\ j_idempotency_key j = Some key /\ j_user_id j = Some u) as Hin.
  { intros j. rewrite elem_of_pg_select. unfold p. by rewrite andb_true_iff, !bool_decide_eq_true. }
  destruct (at_most_one (pg_select p d)) as [E|[j E]].
  - apply pg_select_NoDup.
  - intros a b (Ha & Ka & Ua)%Hin (Hb & Kb & Ub)%Hin.
    assert (j_id a = j_id b) as Hid; [|rewrite Hid in Ha; congruence].
    apply (pg_unique_key _ _ _ _ _ Ha Hb). unfold idempotency_conflict.
    rewrite Ka, Ua, Kb, Ub. by apply bool_decide_eq_true.
  - exists None. rewrite E in *. split; [done|]. intros j. rewrite <-Hin. set_solver.
  - exists (Some j). rewrite E in *. split; [done|]. intros j'. rewrite <-Hin. set_solver.
Qed.
End Reads.

(** * Writes *)

Section Writes.
Context {PG : Postgres}.
Implicit Types (d : pg_db).

(** The rows after [UPDATE ... WHERE id = :id AND g]. *)
Definition upd_rows (id : uuid) (g : Job -> bool) (f : Job -> Job) (m : gmap uuid Job) : gmap uuid Job :=
  match row_at m id g with
  | Some j => <[id := f j]> m
  | None => m
  end.

Lemma update_where_id_rows id g f d :
  keeps_key f ->
  pg_rows (pg_update (where_id id g) f d).1 = upd_rows id g f (pg_rows d).
Proof.
  intros Hf. rewrite pg_update_rows by done. apply map_eq. intros k.
  rewrite lookup_fmap. unfold upd_rows, row_at, where_id.
  destruct (decide (k = id)) as [->|Hne].
  - destruct (pg_rows d !! id) as [j|] eqn:Hj; simpl; [|by rewrite Hj].
    rewrite bool_decide_eq_true_2 by (by eapply pg_primary_key). simpl.
    destruct (g j); [by rewrite lookup_insert_eq|done].
  - transitivity (pg_rows d !! k).
    + destruct (pg_rows d !! k) as [j|] eqn:Hj; simpl; [|done].
      rewrite bool_decide_eq_false_2; [done|]. by rewrite (pg_primary_key _ _ _ Hj).
    + destruct (pg_rows d !! id) as [j|]; [|done]. destruct (g j); [|done].
      by rewrite lookup_insert_ne.
Qed.

Lemma update_where_id_count id g f d :
  keeps_key f ->
  (pg_update (where_id id g) f d).2 = match row_at (pg_rows d) id g with Some _ => 1%nat | None => 0%nat end.
Proof.
  intros Hf. rewrite pg_update_count by done. unfold row_at, where_id.
  assert (forall k j, pg_rows d !! k = Some j -> (bool_decide (j_id j = id) && g j = true <-> k = id /\ g j = true)) as Hk.
  { intros k j Hj. rewrite andb_true_iff, bool_decide_eq_true. by rewrite (pg_primary_key _ _ _ Hj). }
  destruct (pg_rows d !! id) as [j|] eqn:Hj; [destruct (g j) eqn:Hg|].
  - replace (filter _ (pg_rows d)) with ({[id := j]} : gmap uuid Job); [apply map_size_singleton|].
    apply map_eq. intros k. apply option_eq. intros j'.
    rewrite map_lookup_filter_Some, lookup_singleton_Some. simpl. split.
    + intros [<- <-]. split; [done|]. by apply (Hk _ _ Hj).
    + intros [Hk' H]. apply (Hk _ _ Hk') in H as [-> _]. by simplify_eq.
  - apply map_size_empty_iff, map_empty_filter. intros k j' Hj' H.
    apply (Hk _ _ Hj') in H as [-> H]. congruence.
  - apply map_size_empty_iff, map_empty_filter. intros k j' Hj' H.
    apply (Hk _ _ Hj') in H as [-> H]. congruence.
Qed.

(** A guarded transition wins exactly when the row exists and the guard holds. *)
Lemma guarded_rows id g f d :
  keeps_key f -> pg_rows (guarded id g f d).1 = upd_rows id g f (pg_rows d).
Proof. apply update_where_id_rows. Qed.

Lemma guarded_won id g f d :
  keeps_key f -> (guarded id g f d).2 = bool_decide (is_Some (row_at (pg_rows d) id g)).
Proof.
  intros Hf. unfold guarded. simpl. rewrite update_where_id_count by done.
  by destruct (row_at _ _ _).
Qed.

Lemma create_job_rows j d :
  match (create_job j d).2 with
  | inr j' => j' = j /\ pg_rows d !! j_id j = None /\
      pg_rows (create_job j d).1 = <[j_id j := j]> (pg_rows d)
  | inl e => (e = IntegrityError \/ storable j = false) /\ pg_rows (create_job j d).1 = pg_rows d
  end.
Proof.
  unfold create_job. cbn [fst snd]. destruct (storable j) eqn:Hst.
  2: { destruct (pg_insert_refused d j Hst) as [[m ->] ->]. auto. }
  destruct (pg_rows d !! j_id j) as [a|] eqn:E.
  { destruct (pg_insert_conflict d j Hst) as [-> ->]; eauto. }
  destruct (existsb (idempotency_conflict j) (map_to_list (pg_rows d)).*2) eqn:Hc.
  - apply existsb_exists in Hc as (a & Ha & Hc). apply list_elem_of_In, elem_of_all_rows in Ha.
    destruct (pg_insert_conflict d j Hst) as [-> ->]; eauto.
  - destruct (pg_insert_ok d j Hst) as [-> ->]; [done| |done].
    intros k a Ha. apply not_true_iff_false. intros Hj. apply not_true_iff_false in Hc.
    apply Hc, existsb_exists. exists a. split; [|done]. apply list_elem_of_In, elem_of_all_rows.
    by rewrite (pg_primary_key _ _ _ Ha).
Qed.
End Writes.

(** * Every transaction is a step of the table *)

Section Steps.
Context {PG : Postgres}.
Implicit Types (d : pg_db) (m : gmap uuid Job).

#[export] Instance db_step_refl : Reflexive db_step.
Proof. intros m k. destruct (m !! k); [by left|done]. Qed.

Lemma upd_rows_step id g f l m :
  (forall j, g j = true -> row_step l j (f j)) -> db_step m (upd_rows id g f m).
Proof.
  intros Hstep k. unfold upd_rows, row_at.
  destruct (m !! id) as [j|] eqn:Hj; [destruct (g j) eqn:Hg|]; try apply db_step_refl.
  destruct (decide (k = id)) as [->|Hne].
  - rewrite Hj, lookup_insert_eq. eauto.
  - rewrite lookup_insert_ne by done. destruct (m !! k); auto.
Qed.

Lemma guarded_step id g f l d :
  keeps_key f -> (forall j, g j = true -> row_step l j (f j)) ->
  db_step (pg_rows d) (pg_rows (guarded id g f d).1).
Proof. intros. rewrite guarded_rows by done. by eapply upd_rows_step. Qed.

Ltac solve_guarded := eapply guarded_step; [done|intros; by constructor].

Lemma create_job_step j d : fresh_row j -> db_step (pg_rows d) (pg_rows (create_job j d).1).
Proof.
  intros Hj. pose proof (create_job_rows j d) as H.
  destruct (create_job j d).2 as [e|j']; [by destruct H as [_ ->]|].
  destruct H as (-> & Hn & ->). intros k. destruct (decide (k = j_id j)) as [->|Hne].
  - by rewrite Hn, lookup_insert_eq.
  - rewrite lookup_insert_ne by done. destruct (pg_rows d !! k); auto.
Qed.

Lemma mark_synced_step id d : db_step (pg_rows d) (pg_rows (mark_synced id d).1).
Proof.
  unfold mark_synced. simpl. rewrite update_where_id_rows by done.
  eapply upd_rows_step. intros; by constructor.
Qed.
Lemma claim_job_step now id d : db_step (pg_rows d) (pg_rows (claim_job now id d).1).
Proof. solve_guarded. Qed.
Lemma complete_job_step now id r p d : db_step (pg_rows d) (pg_rows (complete_job now id r p d).1).
Proof. solve_guarded. Qed.
Lemma fail_job_step now id e d : db_step (pg_rows d) (pg_rows (fail_job now id e d).1).
Proof. solve_guarded. Qed.
Lemma retry_to_pending_step id d : db_step (pg_rows d) (pg_rows (retry_to_pending id d).1).
Proof. solve_guarded. Qed.
Lemma retry_to_scheduled_step id t d : db_step (pg_rows d) (pg_rows (retry_to_scheduled id t d).1).
Proof. solve_guarded. Qed.
Lemma reset_failed_to_pending_step id d :
  db_step (pg_rows d) (pg_rows (reset_failed_to_pending id d).1).
Proof. solve_guarded. Qed.
Lemma init_progress_step id d : db_step (pg_rows d) (pg_rows (init_progress id d).1).
Proof. solve_guarded. Qed.
Lemma cancel_pending_or_scheduled_step now id d :
  db_step (pg_rows d) (pg_rows (cancel_pending_or_scheduled now id d).1).
Proof. solve_guarded. Qed.
Lemma request_cancel_step now id d : db_step (pg_rows d) (pg_rows (request_cancel now id d).1).
Proof. solve_guarded. Qed.
Lemma cancel_job_step now id s d : db_step (pg_rows d) (pg_rows (cancel_job now id s d).1).
Proof. solve_guarded. Qed.
Lemma write_progress_step id p d : db_step (pg_rows d) (pg_rows (write_progress id p d).1).
Proof. unfold write_progress. simpl. solve_guarded. Qed.

Lemma promote_rows ids d k :
  pg_rows (promote_scheduled_to_pending ids d).1 !! k =
  (fun j => if bool_decide (k ∈ ids) && status_in [scheduled] j then set_status pending j else j)
    <$> pg_rows d !! k.
Proof.
  unfold promote_scheduled_to_pending. destruct ids as [|i ids].
  - simpl. by destruct (pg_rows d !! k).
  - cbn [fst]. rewrite pg_update_rows, lookup_fmap by done.
    destruct (pg_rows d !! k) as [j|] eqn:Hj; [|done]. simpl.
    by rewrite (pg_primary_key _ _ _ Hj).
Qed.

Lemma promote_scheduled_to_pending_step ids d :
  db_step (pg_rows d) (pg_rows (promote_scheduled_to_pending ids d).1).
Proof.
  intros k. rewrite promote_rows. destruct (pg_rows d !! k) as [j|]; simpl; [|done].
  destruct (_ && _) eqn:E; [right|by left].
  apply andb_true_iff in E as [_ E]. exists Other. by constructor.
Qed.
End Steps.
#[export] Hint Resolve create_job_step mark_synced_step claim_job_step complete_job_step fail_job_step
  retry_to_pending_step retry_to_scheduled_step reset_failed_to_pending_step init_progress_step
  cancel_pending_or_scheduled_step request_cancel_step cancel_job_step write_progress_step
  promote_scheduled_to_pending_step db_step_refl : repo.

(** * Invariants of a row *)

(** The columns agree with the status. *)
Definition job_wf (j : Job) : bool :=
  match j_status j with
  | pending =>
      bool_decide (j_started_at j = None) && bool_decide (j_completed_at j = None) &&
      negb (bool_decide (is_Some (j_error j))) && negb (bool_decide (is_Some (j_result j)))
  | scheduled =>
      bool_decide (is_Some (j_scheduled_at j)) &&
      bool_decide (j_started_at j = None) && bool_decide (j_completed_at j = None) &&
      negb (bool_decide (is_Some (j_error j))) && negb (bool_decide (is_Some (j_result j)))
  | processing =>
      bool_decide (is_Some (j_started_at j)) && bool_decide (j_completed_at j = None) &&
      negb (bool_decide (is_Some (j_error j))) && negb (bool_decide (is_Some (j_result j)))
  | completed =>
      bool_decide (is_Some (j_started_at j)) && bool_decide (is_Some (j_completed_at j)) &&
      negb (bool_decide (is_Some (j_error j))) && bool_decide (is_Some (j_result j)) &&
      (1 <=? j_attempts j)
  | failed =>
      bool_decide (is_Some (j_started_at j)) && bool_decide (is_Some (j_completed_at j)) &&
      bool_decide (is_Some (j_error j)) && negb (bool_decide (is_Some (j_result j))) &&
      (1 <=? j_attempts j)
  | cancelled =>
      bool_decide (is_Some (j_completed_at j)) && negb (bool_decide (is_Some (j_error j)))
  end && (0 <=? j_attempts j).

(** The status changes of the design: claim, finish, retry, promote, cancel, reset. *)
Inductive status_edge : JobStatus -> JobStatus -> Prop :=
| edge_claim s : s = pending \/ s = scheduled -> status_edge s processing
| edge_finish s : s = completed \/ s = failed \/ s = cancelled -> status_edge processing s
| edge_retry s : s = pending \/ s = scheduled -> status_edge processing s
| edge_promote : status_edge scheduled pending
| edge_cancel s : s = pending \/ s = scheduled -> status_edge s cancelled
| edge_reset : status_edge failed pending.

Definition terminal (s : JobStatus) : bool :=
  match s with completed | failed | cancelled => true | _ => false end.

Lemma status_in_true ss j : status_in ss j = true <-> j_status j ∈ ss.
Proof. apply bool_decide_eq_true. Qed.

Section Rows.
(** Inversion of a row step, with the status of the row before it known. *)
Ltac row_cases H :=
  destruct H; simpl in *;
  repeat match goal with
  | Hs : _ && _ = true |- _ => apply andb_true_iff in Hs as [??]
  | Hs : bool_decide _ = true |- _ => apply bool_decide_eq_true in Hs
  | Hs : status_in _ _ = true |- _ => apply status_in_true in Hs;
      repeat (apply elem_of_cons in Hs as [Hs|Hs]); [..|by apply elem_of_nil in Hs]
  | Hs : ?s ∈ [_] |- _ => apply list_elem_of_singleton in Hs
  end.

Lemma row_step_edge l j j' :
  row_step l j j' -> j_status j' = j_status j \/ status_edge (j_status j) (j_status j').
Proof. intros H. row_cases H; rewrite ?H; eauto using status_edge. Qed.

Lemma row_step_key l j j' :
  row_step l j j' ->
  j_key j' = j_key j /\ j_type j' = j_type j /\ j_payload j' = j_payload j /\
  j_priority j' = j_priority j /\ j_max_attempts j' = j_max_attempts j /\
  j_created_at j' = j_created_at j /\ j_idempotency_hash j' = j_idempotency_hash j.
Proof. by destruct 1. Qed.

Lemma row_step_wf l j j' : row_step l j j' -> job_wf j = true -> job_wf j' = true.
Proof.
  intros H. row_cases H; intros Hwf; [..|exact Hwf]; unfold job_wf in *; simpl;
    match goal with Hs : j_status _ = _ |- _ => rewrite Hs in *; simpl in * end; simp_bool;
    rewrite ?andb_true_iff, ?bool_decide_eq_true, ?negb_true_iff, ?bool_decide_eq_false,
      ?Z.leb_le; repeat split; eauto; lia.
Qed.

Lemma fresh_row_wf j : fresh_row j -> job_wf j = true.
Proof.
  intros (id & now & ty & pl & st & sa & pr & mx & k & h & t & u & n & Hst & ->).
  destruct Hst as [-> | [-> [x ->]]]; done.
Qed.

(** A finished row changes no more, except that a failed one may be reset and
    the handoff flag may still be raised. *)
Lemma row_step_terminal l j j' :
  row_step l j j' -> terminal (j_status j) = true ->
  l = Reset /\ j_status j = failed /\ j_cancel_requested_at j = None \/
  l = Other /\ j' = set_is_synced_to_redis true j.
Proof.
  intros H. row_cases H; intros Ht; eauto;
    match goal with Hs : j_status _ = _ |- _ => rewrite Hs in Ht; done end.
Qed.

(** ** Leases *)

Definition is_processing (j : Job) : nat := if decide (j_status j = processing) then 1 else 0.
Definition takes (l : label) : nat := match l with Claim => 1 | _ => 0 end.
Definition gives_up (l : label) : nat := match l with Attempt | Abandon => 1 | _ => 0 end.
Definition attempts_after (l : label) (n : Z) : Z :=
  match l with Attempt => n + 1 | Reset => 0 | _ => n end.

Lemma row_step_lease l j j' :
  row_step l j j' -> (takes l + is_processing j = gives_up l + is_processing j')%nat.
Proof.
  intros H. unfold is_processing. row_cases H; simpl; rewrite ?H; try done.
Qed.

Lemma row_step_attempts l j j' :
  row_step l j j' -> j_attempts j' = attempts_after l (j_attempts j).
Proof. by destruct 1. Qed.

(** The history of a row: the steps it took, oldest first. *)
Inductive row_trace : list label -> Job -> Job -> Prop :=
| trace_nil j : row_trace [] j j
| trace_cons l ls j j1 j2 : row_step l j j1 -> row_trace ls j1 j2 -> row_trace (l :: ls) j j2.

Lemma row_trace_snoc ls l j j1 j2 :
  row_trace ls j j1 -> row_step l j1 j2 -> row_trace (ls ++ [l]) j j2.
Proof. induction 1; intros; simpl; econstructor; eauto using row_trace. Qed.

Lemma row_trace_inv (P : Job -> Prop) ls j j' :
  (forall l a b, row_step l a b -> P a -> P b) -> row_trace ls j j' -> P j -> P j'.
Proof. intros HP. induction 1; eauto. Qed.

Fixpoint total (f : label -> nat) (ls : list label) : nat :=
  match ls with [] => 0 | l :: ls' => f l + total f ls' end.

Lemma row_trace_lease ls j j' :
  row_trace ls j j' ->
  (total takes ls + is_processing j = total gives_up ls + is_processing j')%nat.
Proof.
  induction 1 as [|l ls j j1 j2 Hs _ IH]; [done|]. apply row_step_lease in Hs. simpl. lia.
Qed.

Lemma row_trace_attempts ls j j' :
  row_trace ls j j' -> j_attempts j' = foldl (fun n l => attempts_after l n) (j_attempts j) ls.
Proof. induction 1 as [|l ls j j1 j2 Hs _ IH]; [done|]. simpl. by rewrite <-(row_step_attempts _ _ _ Hs). Qed.
End Rows.

(** * Lifting to the table *)

Section Tables.
Implicit Types (m : gmap uuid Job).

Lemma db_step_inv (P : Job -> Prop) m m' :
  (forall j, fresh_row j -> P j) -> (forall l a b, row_step l a b -> P a -> P b) ->
  db_step m m' -> map_Forall (fun _ j => P j) m -> map_Forall (fun _ j => P j) m'.
Proof.
  intros Hf Hr Hs HP k j' Hj'. specialize (Hs k). rewrite Hj' in Hs.
  destruct (m !! k) as [j|] eqn:Hj; [|by apply Hf].
  destruct Hs as [->|[l Hl]]; [|eapply Hr; [done|]]; by apply (HP k).
Qed.

Lemma db_steps_inv (P : Job -> Prop) m m' :
  (forall j, fresh_row j -> P j) -> (forall l a b, row_step l a b -> P a -> P b) ->
  rtc db_step m m' -> map_Forall (fun _ j => P j) m -> map_Forall (fun _ j => P j) m'.
Proof. intros Hf Hr. induction 1; eauto using db_step_inv. Qed.

(** Rows are never deleted, and each one has a history. *)
Lemma db_steps_trace m m' k j :
  rtc db_step m m' -> m !! k = Some j -> exists ls j', m' !! k = Some j' /\ row_trace ls j j'.
Proof.
  intros Hs. revert j. induction Hs as [m|m m1 m2 Hs _ IH]; intros j Hj.
  { exists [], j. eauto using row_trace. }
  specialize (Hs k). rewrite Hj in Hs. destruct (m1 !! k) as [j1|] eqn:Hj1; [|done].
  destruct (IH j1 eq_refl) as (ls & j' & Hj' & Ht).
  destruct Hs as [->|[l Hl]]; eauto 10 using row_trace.
Qed.

Definition rows_wf m : Prop := map_Forall (fun _ j => job_wf j = true) m.

#[export] Instance rows_wf_dec m : Decision (rows_wf m).
Proof. unfold rows_wf. apply _. Defined.

Lemma db_steps_wf m m' : rtc db_step m m' -> rows_wf m -> rows_wf m'.
Proof. apply db_steps_inv; eauto using fresh_row_wf, row_step_wf. Qed.
End Tables.
