(* ===== verification/Storage.v ===== *)
(** The table of the program and the schema of its migrations: what the [Postgres]
    interface says of the [jobs] table (Services.v) is what the constraints of the
    head revision (Migrations.v) enforce. *)
From stdpp Require Import base tactics option list gmap strings numbers.
From S2P Require Import Prelude Uuid Model Services Reference Repository Schema Migrations MigrationFacts.
Set Default Goal Selector "!".

(** The rows of some jobs, as the ORM writes them. *)
Definition table (json_none : value) (js : list Job) : contents := [("jobs"%string, row_of_job json_none <$> js)].

(** The jobs of a database state. *)
Definition all_jobs {PG : Postgres} (d : pg_db) : list Job := (map_to_list (pg_rows d)).*2.

(** The key of a job in the unique index: none without an owner or a key. *)
Definition user_key (j : Job) : option (uuid * string) :=
  u ← j_user_id j; k ← j_idempotency_key j; Some (u, k).

Lemma conflict_user_key a b :
  idempotency_conflict a b = true <-> exists uk, user_key a = Some uk /\ user_key b = Some uk.
Proof.
  unfold idempotency_conflict, user_key.
  destruct (j_user_id a), (j_user_id b), (j_idempotency_key a), (j_idempotency_key b); simpl;
    rewrite ?bool_decide_eq_true; naive_solver.
Qed.

(** * The constraints of the head revision *)

Lemma holds_head l :
  holds (schema_at head) [("jobs"%string, l)] =
  unique_in ["user_id"; "idempotency_key"]%string (Some (NotNull "idempotency_key")) l && unique_in ["id"]%string None l.
Proof.
  cbv -[unique_in].
  repeat match goal with |- context [unique_in ?c ?w l] => destruct (unique_in c w l) end; reflexivity.
Qed.

Section Keys.
Context (none : value).

Lemma cell_id j : cell (row_of_job none j) "id" = VUuid (j_id j).
Proof. unfold row_of_job. by rewrite cell_list_to_map. Qed.
Lemma cell_user_id j : cell (row_of_job none j) "user_id" = nullable VUuid (j_user_id j).
Proof. unfold row_of_job. by rewrite cell_list_to_map. Qed.
Lemma cell_idempotency_key j : cell (row_of_job none j) "idempotency_key" = nullable VText (j_idempotency_key j).
Proof. unfold row_of_job. by rewrite cell_list_to_map. Qed.

Lemma keys_of_ids js :
  keys_of ["id"]%string None (row_of_job none <$> js) = (fun i => [VUuid i]) <$> (j_id <$> js).
Proof.
  unfold keys_of. induction js as [|j js IH]; [done|]. cbn [fmap list_fmap omap list_omap].
  unfold row_key at 1. cbn [fmap list_fmap option_fmap option_map default]. rewrite cell_id.
  rewrite decide_False by (by intros [=]%list_elem_of_singleton). f_equal. exact IH.
Qed.

Lemma keys_of_users js :
  keys_of ["user_id"; "idempotency_key"]%string (Some (NotNull "idempotency_key")) (row_of_job none <$> js) =
  (fun uk => [VUuid uk.1; VText uk.2]) <$> omap user_key js.
Proof.
  unfold keys_of. induction js as [|j js IH]; [done|]. cbn [fmap list_fmap omap list_omap option_fmap option_map default].
  unfold row_key at 1, selects at 1. cbn [fmap list_fmap]. rewrite cell_user_id, cell_idempotency_key.
  unfold user_key at 1. destruct (j_user_id j) as [u|], (j_idempotency_key j) as [k|]; cbn; try exact IH.
  f_equal. exact IH.
Qed.

Lemma holds_table js :
  holds (schema_at head) (table none js) = true <-> NoDup (omap user_key js) /\ NoDup (j_id <$> js).
Proof.
  unfold table. rewrite holds_head, andb_true_iff. unfold unique_in. rewrite !bool_decide_eq_true, keys_of_ids, keys_of_users.
  assert (Inj eq eq (fun uk : uuid * string => [VUuid uk.1; VText uk.2])) by (by intros [u k] [u' k'] [= -> ->]).
  assert (Inj eq eq (fun i : uuid => [VUuid i])) by (by intros i j [= ->]).
  by rewrite (NoDup_fmap (fun uk : uuid * string => _)), (NoDup_fmap (fun i : uuid => [VUuid i])).
Qed.
End Keys.

(** * The program's table *)

Section Storage.
Context {PG : Postgres}.

Lemma elem_of_all_jobs d j : j ∈ all_jobs d <-> pg_rows d !! j_id j = Some j.
Proof.
  unfold all_jobs. rewrite list_elem_of_fmap. split.
  - intros ([k a] & -> & Hk). apply elem_of_map_to_list in Hk. cbn. by rewrite (pg_primary_key _ _ _ Hk).
  - intros Hj. exists (j_id j, j). split; [done|]. by apply elem_of_map_to_list.
Qed.

Lemma all_jobs_ids d : NoDup (j_id <$> all_jobs d).
Proof.
  unfold all_jobs. rewrite <-list_fmap_compose.
  assert ((j_id ∘ snd) <$> map_to_list (pg_rows d) = fst <$> map_to_list (pg_rows d)) as ->.
  { apply list_fmap_ext. intros i [k a] Hi. apply list_elem_of_lookup_2, elem_of_map_to_list in Hi. cbn.
    by apply (pg_primary_key d). }
  apply NoDup_fst_map_to_list.
Qed.

(** A list of distinct elements has distinct keys when equal keys mean equal elements. *)
Lemma NoDup_omap_keys {A B} (f : A -> option B) (l : list A) :
  NoDup l -> (forall x y k, x ∈ l -> y ∈ l -> f x = Some k -> f y = Some k -> x = y) -> NoDup (omap f l).
Proof.
  induction 1 as [|x l Hx _ IH]; intros Hf; [constructor|]. cbn [omap list_omap].
  assert (NoDup (omap f l)) as Hl by (apply IH; intros; eapply Hf; eauto using list_elem_of_further).
  destruct (f x) as [k|] eqn:E; [|done]. constructor; [|done].
  intros (y & Hy & Hk)%list_elem_of_omap. apply Hx. rewrite (Hf x y k); eauto using list_elem_of_further, list_elem_of_here.
Qed.

Lemma all_jobs_keys d : NoDup (omap user_key (all_jobs d)).
Proof.
  apply NoDup_omap_keys.
  - eapply NoDup_fmap_1, all_jobs_ids.
  - intros a b uk Ha%elem_of_all_jobs Hb%elem_of_all_jobs Ka Kb.
    assert (j_id a = j_id b) as E; [|congruence].
    apply (pg_unique_key d _ _ a b Ha Hb). apply conflict_user_key. eauto.
Qed.

(** C34: The program's table is a table of the migrations: in every state of the database
    its rows are a populated database of the head revision, typed and with every
    constraint satisfied; and creating a job whose row the columns can hold raises the
    IntegrityError of the code exactly when the primary key and the partial unique index
    on (user_id, idempotency_key) that the migrations built would refuse its row; a row
    they cannot hold is refused with the driver's error, and leaves the table as it is. *)
Theorem create_job_checks_schema d j none :
  none = VNull \/ none = VJson JNull ->
  populated head (mkCatalog (schema_at head) (table none (all_jobs d))) /\
  if storable j then
    (create_job j d).2 =
      if holds (schema_at head) (table none (j :: all_jobs d)) then inr j else inl IntegrityError
  else (exists m, (create_job j d).2 = inl (OtherError "DBAPIError" m)) /\ all_jobs (create_job j d).1 = all_jobs d.
Proof.
  intros Hnone. split.
  - split; [done|vm_compute; reflexivity|]. split.
    + intros t cols Hc. cbn [schema data] in *.
      assert (t = "jobs"%string) as ->.
      { apply od_get_elem, (list_elem_of_fmap_2 fst) in Hc. by apply list_elem_of_singleton in Hc. }
      assert (cols = head_columns) as -> by (vm_compute in Hc; by injection Hc).
      apply Forall_fmap, Forall_true. intros a. exact (job_row_typed none a Hnone).
    + apply holds_table. split; [apply all_jobs_keys|apply all_jobs_ids].
  - unfold create_job. cbn [fst snd]. destruct (storable j) eqn:Hst.
    2: { destruct (pg_insert_refused d j Hst) as [[m ->] Hr]. split; [by exists m|].
         unfold all_jobs. by rewrite Hr. }
    destruct (holds (schema_at head) (table none (j :: all_jobs d))) eqn:Hh.
    + apply holds_table in Hh as [Hkeys Hids]. cbn [fmap list_fmap omap list_omap] in *.
      destruct (pg_insert_ok d j Hst) as [-> _]; [| |done].
      * apply NoDup_cons in Hids as [Hid _]. destruct (pg_rows d !! j_id j) as [a|] eqn:Ha; [|done].
        destruct Hid. apply list_elem_of_fmap. exists a. pose proof (pg_primary_key _ _ _ Ha) as E.
        split; [done|]. apply elem_of_all_jobs. by rewrite E.
      * intros k a Ha. destruct (idempotency_conflict j a) eqn:Hc; [|done].
        apply conflict_user_key in Hc as (uk & Hj & Hk). rewrite Hj in Hkeys. apply NoDup_cons in Hkeys as [Hin _].
        destruct Hin. apply list_elem_of_omap. exists a. split; [|done]. apply elem_of_all_jobs.
        by rewrite (pg_primary_key _ _ _ Ha).
    + destruct (pg_insert_conflict d j Hst) as [-> _]; [|done].
      destruct (pg_rows d !! j_id j) as [a|] eqn:Ha; [left; eauto|right].
      destruct (decide (user_key j = None \/ Forall (fun a => user_key a <> user_key j) (all_jobs d))) as [Hno|Hyes].
      * exfalso. apply not_true_iff_false in Hh. apply Hh, holds_table. cbn [fmap list_fmap omap list_omap]. split.
        -- destruct (user_key j) as [uk|] eqn:Hj; [|apply all_jobs_keys]. constructor; [|apply all_jobs_keys].
           destruct Hno as [?|Hno]; [done|]. intros (b & Hb & Hk)%list_elem_of_omap.
           rewrite Forall_forall in Hno. by apply (Hno b Hb).
        -- constructor; [|apply all_jobs_ids]. intros (b & E & Hb)%list_elem_of_fmap.
           apply elem_of_all_jobs in Hb. congruence.
      * clear Hh. apply Decidable.not_or in Hyes as [Hsome Hex]. apply not_Forall_Exists in Hex; [|apply _].
        apply Exists_exists in Hex as (b & Hb & Hk). apply dec_stable in Hk. apply elem_of_all_jobs in Hb.
        exists (j_id b), b. split; [done|]. apply conflict_user_key. destruct (user_key j) as [uk|]; [by exists uk|by destruct Hsome].
Qed.
End Storage.

Import RefPg.

Lemma create_job_checks_schema_witness :
  populated head (mkCatalog (schema_at head) (table VNull [])) /\
  (create_job (keyed_job (Uuid 1 eq_refl) (Uuid 1000 eq_refl)) (∅ : gmap uuid Job)).2 =
    inr (keyed_job (Uuid 1 eq_refl) (Uuid 1000 eq_refl)).
Proof.
  destruct (create_job_checks_schema (PG := postgres) (∅ : gmap uuid Job) (keyed_job (Uuid 1 eq_refl) (Uuid 1000 eq_refl)) VNull) as [Hp Hc].
  - by left.
  - split; [exact Hp|]. exact Hc.
Defined.
