(* ===== verification/Queue.v ===== *)
(** The queue: app/queue/producer.py, consumer.py and delayed.py, one definition
    per function, over the Redis interface. *)
From stdpp Require Import base tactics option list gmap strings numbers.
From S2P Require Import Prelude Prog Uuid Model Services.
Set Default Goal Selector "!".
Open Scope Z_scope.

(** [sub in s] *)
Definition contains (sub s : string) : bool :=
  bool_decide (is_Some (String.index 0 sub s)).

Section Queue.
Context {PG : Postgres} {RD : Redis} {EN : Entropy} {OT : Otel}.

(** ** producer.py *)

Definition message_fields (stream job_id : string) (carrier : option fields) : fields :=
  let context := match carrier with
                 | Some c => if bool_decide (c = ∅) then None else Some c
                 | None => None
                 end in
  inject context {["job_id" := job_id]}.

Definition enqueue (stream job_id : string) (carrier : option fields) : coroutine stream_id :=
  redis_do (xadd stream (message_fields stream job_id carrier)).

(** ** consumer.py *)

Definition REAPER_NAME : string := "reaper".

Definition ensure_group (stream group : string) : coroutine unit :=
  r ← attempt (redis_try (fun _ => xgroup_create stream group));
  match r with
  | inr _ => Ret tt
  | inl (ResponseError msg) =>
      if contains "BUSYGROUP" msg then Ret tt else Raise (ResponseError msg)
  | inl e => Raise e
  end.

(** As with every command, a connection that fails is a stop at this await, which
    [exec_upto], [safe] and [during] cover at each effect; the call itself answers. *)
Definition ack (stream group : string) (message_id : stream_id) : coroutine unit :=
  redis_do (fun _ => xack stream group message_id).

(** A message with the stream it came from. *)
Definition delivery : Type := string * stream_id * fields.

Fixpoint _flatten (resp : list (string * list (stream_id * fields))) : list delivery :=
  match resp with
  | [] => []
  | (stream, messages) :: resp' =>
      ((fun m : stream_id * fields => (stream, m.1, m.2)) <$> messages) ++ _flatten resp'
  end.

(** The probes, highest priority first: the first non-empty stream's messages. *)
Fixpoint probe (group consumer : string) (count : nat) (streams : list string) :
    coroutine (option (list delivery)) :=
  match streams with
  | [] => Ret None
  | stream :: streams' =>
      resp ← redis_try (xreadgroup [stream] group consumer count);
      match _flatten resp with
      | [] => probe group consumer count streams'
      | msgs => Ret (Some msgs)
      end
  end.

(** The last read blocks across every stream for at most [block_ms].  The client refuses a
    negative [block]; [BLOCK 0] waits without end, which [OutOfFuel] stands for. *)
Definition read_priority (streams : list string) (group consumer : string)
    (block_ms : Z) (count : nat) : coroutine (list delivery) :=
  found ← probe group consumer count streams;
  match found with
  | Some msgs => Ret msgs
  | None =>
      if block_ms <? 0 then Raise (OtherError "DataError" "XREADGROUP block must be a non-negative integer")
      else
        resp ← redis_try (xreadgroup streams group consumer count);
        match _flatten resp with
        | [] => if block_ms =? 0 then Raise OutOfFuel else _ ← sleep (block_ms * 1000); Ret []
        | msgs => Ret msgs
        end
  end.

(** ** delayed.py *)

Definition schedule (zset job_id : string) (score : Z) : coroutine unit :=
  redis_do (fun _ => zadd zset job_id score).

Definition due_job_ids (zset : string) (now_epoch : Z) (limit : nat) : coroutine (list string) :=
  redis_do (fun _ r => (r, zrangebyscore zset 0 now_epoch limit r)).

(** Every XADD of the pipeline is applied before the ZREM. *)
Definition promote (zset : string) (routed : list (string * fields)) (all_ids : list string) :
    coroutine unit :=
  match all_ids with
  | [] => Ret tt
  | _ =>
      _ ← for_each (fun sf : string * fields => _ ← redis_do (xadd sf.1 sf.2); Ret tt) routed;
      redis_do (fun _ => zrem zset all_ids)
  end.
End Queue.
