(* ===== verification/Retry.v ===== *)
(** Retry orchestration (app/retry.py): the backoff table and the helper that the
    worker and the reaper share. *)
From stdpp Require Import base tactics option list gmap strings numbers.
From S2P Require Import Prelude Prog Uuid Model Services Repository Queue.
Set Default Goal Selector "!".
Open Scope Z_scope.

(** Delay in seconds before the retry that follows [attempts] finished attempts. *)
Definition backoff_delay (attempts : Z) (schedule : list Z) : exn + Z :=
  let idx := Z.min (attempts - 1) (Z.of_nat (length schedule) - 1) in
  match py_index schedule idx with
  | Some delay => inr delay
  | None => inl IndexError
  end.

Section Retry.
Context {PG : Postgres} {RD : Redis} {EN : Entropy} {OT : Otel}.

(** [true] iff this actor won the guarded transition.  Does not XACK. *)
Definition schedule_retry_or_fail (settings : Settings) (job : Job) (error : json)
    (carrier : option fields) : coroutine bool :=
  let n := j_attempts job + 1 in
  if j_max_attempts job <=? n then
    pg (fun now => fail_job now (j_id job) error)
  else
    delay ← or_raise (backoff_delay n (retry_backoff_schedule settings));
    if delay <=? 0 then
      won ← pg (fun _ => retry_to_pending (j_id job));
      _ ← (if won : bool then
             _ ← enqueue (stream_for_priority settings (j_priority job))
                   (str_uuid (j_id job)) carrier;
             pg (fun _ => mark_synced (j_id job))
           else Ret tt);
      Ret won
    else
      now ← clock;
      let scheduled_at := now + seconds delay in
      won ← pg (fun _ => retry_to_scheduled (j_id job) scheduled_at);
      _ ← (if won : bool then
             _ ← schedule (delayed_zset settings) (str_uuid (j_id job)) scheduled_at;
             pg (fun _ => mark_synced (j_id job))
           else Ret tt);
      Ret won.
End Retry.
