(* ===== verification/Progress.v ===== *)
(** The percentage a batch reports after item [i] of [n] (app/jobs/handlers.py),
    [int((i + 1) / n * 100)], computed as Python does on binary64 floats. *)
From Stdlib Require Import ZArith Uint63 PrimFloat FloatOps SpecFloat.
From stdpp Require Import base tactics option list numbers.
Set Default Goal Selector "!".
Open Scope Z_scope.

(** [float(z)] of a small non-negative int. *)
Definition float_of_Z (z : Z) : float := PrimFloat.of_uint63 (Uint63.of_Z z).

(** [int(f)]: truncation toward zero. *)
Definition int_of_float (f : float) : Z :=
  match Prim2SF f with
  | S754_finite s m e => let v := Z.shiftl (Zpos m) e in if s then - v else v
  | _ => 0
  end.

Definition progress_pct (i n : nat) : Z :=
  if decide (n = 0%nat) then 100
  else int_of_float
         (PrimFloat.mul (PrimFloat.div (float_of_Z (Z.of_nat i + 1)) (float_of_Z (Z.of_nat n)))
            (float_of_Z 100)).

(** Every batch the schema admits, by computation. *)
Fixpoint pct_ok_from (n i : nat) (todo : nat) (prev : Z) : bool :=
  match todo with
  | O => true
  | S todo' =>
      let p := progress_pct i n in
      (prev <=? p) && (if decide (S i = n) then p =? 100 else p <? 100) && pct_ok_from n (S i) todo' p
  end.

Lemma pct_ok_all : forallb (fun n => pct_ok_from n 0 n 0) (seq 1 500) = true.
Proof. vm_compute. reflexivity. Qed.

Lemma pct_ok_from_spec n todo : forall i prev, pct_ok_from n i todo prev = true ->
  forall k, (i <= k < i + todo)%nat ->
    prev <= progress_pct k n /\ (progress_pct k n = 100 <-> S k = n) /\ progress_pct k n <= 100 /\
    forall l, (k <= l < i + todo)%nat -> progress_pct k n <= progress_pct l n.
Proof.
  induction todo as [|todo IH]; intros i prev Hok k Hk; [lia|].
  simpl in Hok. apply andb_true_iff in Hok as [Hok Hrest]. apply andb_true_iff in Hok as [Hprev Hat].
  apply Z.leb_le in Hprev. specialize (IH _ _ Hrest).
  assert ((progress_pct i n = 100 <-> S i = n) /\ progress_pct i n <= 100) as [Hi1 Hi2].
  { case_decide; [apply Z.eqb_eq in Hat|apply Z.ltb_lt in Hat]; lia. }
  destruct (decide (k = i)) as [->|Hne].
  - split; [done|]. split; [done|]. split; [done|]. intros l Hl. destruct (decide (l = i)) as [->|]; [done|].
    destruct (IH l) as (H1 & _); [lia|done].
  - destruct (IH k) as (H1 & H2 & H3 & H4); [lia|]. split; [lia|]. split; [done|]. split; [done|].
    intros l Hl. apply H4. lia.
Qed.

(** C24: For every batch the schema admits (at most 500 items), the reported percentage
    stays within 0 and 100, never decreases from item to item, and is 100 exactly
    after the last item, in spite of the rounding of binary64. *)
Theorem progress_pct_bounds n i j :
  (i <= j < n)%nat -> (n <= 500)%nat ->
  0 <= progress_pct i n <= progress_pct j n /\ progress_pct j n <= 100 /\
  (progress_pct j n = 100 <-> j = (n - 1)%nat).
Proof.
  intros Hij Hn. pose proof pct_ok_all as Hall. rewrite forallb_forall in Hall.
  specialize (Hall n). rewrite in_seq in Hall. specialize (Hall ltac:(lia)).
  pose proof (pct_ok_from_spec n n 0 0 Hall) as H.
  destruct (H i) as (H1 & _ & _ & H2); [lia|]. destruct (H j) as (_ & H3 & H4 & _); [lia|].
  split; [split; [done|apply H2; lia]|]. split; [done|]. rewrite H3. lia.
Qed.

Lemma progress_pct_bounds_witness :
  0 <= progress_pct 28 100 <= progress_pct 99 100 /\ progress_pct 99 100 <= 100 /\
  (progress_pct 99 100 = 100 <-> 99%nat = (100 - 1)%nat).
Proof. apply (progress_pct_bounds 100 28 99); lia. Defined.
