(* ===== verification/Handlers.v ===== *)
(** Job handlers (app/jobs/handlers.py, app/jobs/registry.py), the cancel and
    progress channel of a running handler (app/worker/context.py), and its time
    limit (app/worker/timeout.py). *)
From stdpp Require Import base tactics option list gmap strings numbers.
From S2P Require Import Prelude Prog Uuid Model Services Repository Progress.
Set Default Goal Selector "!".
Open Scope Z_scope.

(** * Payloads (app/schemas/payloads.py) *)

Inductive item_payload :=
| EmailPayload (to subject : string) (body : option string)
| WebhookPayload (url : string) (url_host : option string) (method : string)
| ReportPayload (report_type : ReportType) (params : option json).

Inductive job_payload :=
| ItemPayload (p : item_payload)
| BatchPayload (items : list item_payload).

(** [item.type], the discriminator. *)
Definition item_type (p : item_payload) : JobType :=
  match p with
  | EmailPayload _ _ _ => email
  | WebhookPayload _ _ _ => webhook
  | ReportPayload _ _ => report
  end.

(** * PgJobContext *)

Record PgJobContext := mkContext {
  ctx_job_id : uuid;
  ctx_interval : duration;
  ctx_pending_pct : Z;
  ctx_last_written_pct : option Z;
  ctx_last_poll : option datetime;
  ctx_cached : bool;
}.

Definition new_context (job_id : uuid) (poll_interval_s : duration) : PgJobContext :=
  mkContext job_id poll_interval_s 0 None None false.

Definition ctx_set_progress (pct : Z) (c : PgJobContext) : PgJobContext :=
  mkContext (ctx_job_id c) (ctx_interval c) pct (ctx_last_written_pct c) (ctx_last_poll c)
    (ctx_cached c).

(** Whether a poll is due. *)
Definition ctx_due (now : datetime) (c : PgJobContext) : bool :=
  match ctx_last_poll c with
  | None => true
  | Some last => ctx_interval c <=? now - last
  end.

(** * The batch summary *)

Record batch_summary := mkSummary {
  bs_total : Z;
  bs_succeeded : Z;
  bs_failed : Z;
  bs_results : list (Z * json);
  bs_errors : list (Z * string);
}.

(** The dict the handler returns. *)
Definition summary_json (s : batch_summary) : json :=
  JObj [("total", JInt (bs_total s)); ("succeeded", JInt (bs_succeeded s));
        ("failed", JInt (bs_failed s));
        ("results", JArr ((fun ir => JObj [("index", JInt ir.1); ("result", ir.2)]) <$> bs_results s));
        ("errors", JArr ((fun ie => JObj [("index", JInt ie.1); ("error", JStr ie.2)]) <$> bs_errors s))]%string.

Definition add_result (i : Z) (r : json) (s : batch_summary) : batch_summary :=
  mkSummary (bs_total s) (bs_succeeded s + 1) (bs_failed s) (bs_results s ++ [(i, r)]) (bs_errors s).
Definition add_error (i : Z) (e : string) (s : batch_summary) : batch_summary :=
  mkSummary (bs_total s) (bs_succeeded s) (bs_failed s + 1) (bs_results s) (bs_errors s ++ [(i, e)]).

(** The exceptions [except Exception] does not catch ([BaseException]s). *)
Definition is_exception (e : exn) : bool :=
  match e with CancelledError => false | _ => true end.

Section Handlers.
Context {PG : Postgres} {RD : Redis} {EN : Entropy}.

(** [PgJobContext.cancelled], answering the flag and the updated context. *)
Definition ctx_cancelled (c : PgJobContext) : coroutine (bool * PgJobContext) :=
  now ← clock;
  if ctx_due now c then
    if bool_decide (Some (ctx_pending_pct c) <> ctx_last_written_pct c) then
      ar ← pg (fun _ => write_progress (ctx_job_id c) (ctx_pending_pct c));
      let cached := (ar.2 || negb ar.1) : bool in
      Ret (cached, mkContext (ctx_job_id c) (ctx_interval c) (ctx_pending_pct c)
                     (Some (ctx_pending_pct c)) (Some now) cached)
    else
      ar ← pg_read (read_cancel (ctx_job_id c));
      let cached := (ar.2 || negb ar.1) : bool in
      Ret (cached, mkContext (ctx_job_id c) (ctx_interval c) (ctx_pending_pct c)
                     (ctx_last_written_pct c) (Some now) cached)
  else Ret (ctx_cached c, c).

(** [await asyncio.sleep(random.uniform(a, b))], [a] and [b] in seconds. *)
Definition sleep_uniform (a b : Z) : coroutine unit :=
  r ← random53;
  sleep (seconds a + (seconds (b - a) * r) / 2 ^ 53).

(** [uuid.uuid4().hex[:12]] *)
Definition hex12 (u : uuid) : string := String.string_of_list_ascii (take 12 (hex_fixed 32 (uuid_int u))).

Definition handle_email (payload : job_payload) : coroutine json :=
  _ ← sleep_uniform 1 3;
  u ← fresh_uuid;
  Ret (JObj [("message_id", JStr ("msg_" +:+ hex12 u))])%string.

(** [0.2] is the double 3602879701896397 / 2^54. *)
Definition below_one_fifth (r : Z) : bool := 2 * r <? 3602879701896397.

Definition handle_webhook (payload : job_payload) : coroutine json :=
  _ ← sleep_uniform 1 2;
  r ← random53;
  if below_one_fifth r then
    match payload with
    | ItemPayload (WebhookPayload url _ _) =>
        Raise (WebhookFailedError ("webhook call to " +:+ url +:+ " failed"))
    | _ => Raise (OtherError "AttributeError" "url")
    end
  else Ret (JObj [("status", JInt 200)])%string.

Definition handle_report (payload : job_payload) : coroutine json :=
  _ ← sleep_uniform 3 5;
  u ← fresh_uuid;
  Ret (JObj [("file_url", JStr ("https://reports.local/" +:+ hex12 u +:+ ".pdf"))])%string.

(** [run_handler(item.type, item, ctx)]: an item is never a batch. *)
Definition run_item (item : item_payload) : coroutine json :=
  match item_type item with
  | email => handle_email (ItemPayload item)
  | webhook => handle_webhook (ItemPayload item)
  | report => handle_report (ItemPayload item)
  | batch => Raise (KeyError "batch")
  end.

(** The loop of [handle_batch], [n] items in all, the rest [items] from index [i]. *)
Fixpoint batch_loop (n : nat) (i : nat) (items : list item_payload) (c : PgJobContext)
    (summary : batch_summary) : coroutine batch_summary :=
  match items with
  | [] => Ret summary
  | item :: items' =>
      stop ← ctx_cancelled c;
      if stop.1 : bool then Raise (JobCancelled (summary_json summary)) else
      r ← attempt (run_item item);
      match r with
      | inr result =>
          batch_loop n (S i) items' (ctx_set_progress (progress_pct i n) stop.2)
            (add_result (Z.of_nat i) result summary)
      | inl e =>
          if is_exception e then
            batch_loop n (S i) items' (ctx_set_progress (progress_pct i n) stop.2)
              (add_error (Z.of_nat i) (exn_str e) summary)
          else Raise e
      end
  end.

Definition handle_batch (payload : job_payload) (c : PgJobContext) : coroutine json :=
  match payload with
  | BatchPayload items =>
      let n := length items in
      summary ← batch_loop n 0 items c (mkSummary (Z.of_nat n) 0 0 [] []);
      Ret (summary_json summary)
  | ItemPayload _ => Raise (OtherError "AttributeError" "items")
  end.

(** [HANDLERS[job_type](payload, ctx)] *)
Definition run_handler (job_type : JobType) (payload : job_payload) (c : PgJobContext) : coroutine json :=
  match job_type with
  | email => handle_email payload
  | webhook => handle_webhook payload
  | report => handle_report payload
  | batch => handle_batch payload c
  end.

(** [asyncio.wait_for(coro, timeout)]: once the deadline has passed at an await
    of the handler, the handler is cancelled there and [HandlerTimeout] raised. *)
Fixpoint with_deadline {A} (deadline : datetime) (p : coroutine A) : coroutine A :=
  match p with
  | Ret a => Ret a
  | Raise e => Raise e
  | Step f k =>
      Step (fun w => let r := f w in (r.1, (bool_decide (deadline < w_now r.1), r.2)))
        (fun lx => if lx.1 : bool then Raise HandlerTimeout else with_deadline deadline (k lx.2))
  end.

Definition run_with_timeout {A} (coro : coroutine A) (timeout_s : duration) : coroutine A :=
  now ← clock; with_deadline (now + timeout_s) coro.
End Handlers.
