(* ===== verification/Payloads.v ===== *)
(** Payload validation and the host and domain allowlists (app/schemas/payloads.py).

    Schema validation is pydantic's: [Pydantic] is its interface.  The allowlist
    policy is the code's own and is modelled on text as lists of characters;
    [lower] and [strip] are Python's on ASCII text. *)
From stdpp Require Import base tactics option list gmap strings numbers.
From Stdlib Require Import Ascii.
From S2P Require Import Prelude Prog Uuid Model Json Handlers.
Set Default Goal Selector "!".
Open Scope Z_scope.

(** * Text *)

Definition lower_char (c : ascii) : ascii :=
  let n := N_of_ascii c in
  if ((65 <=? n) && (n <=? 90))%N then ascii_of_N (n + 32) else c.

Definition lower (l : list ascii) : list ascii := lower_char <$> l.

Definition is_dot (c : ascii) : bool := bool_decide (c = "."%char).

(** [s.rstrip('.')] and [s.strip('.')] *)
Definition rstrip_dots (l : list ascii) : list ascii := rev (drop_while is_dot (rev l)).
Definition strip_dots (l : list ascii) : list ascii := strip_chars is_dot l.

(** [s.endswith(suffix)] *)
Definition ends_with (suffix l : list ascii) : bool :=
  bool_decide (drop (length l - length suffix) l = suffix /\ (length suffix <= length l)%nat).

(** [s.rsplit('@', 1)[1]]: what follows the last ['@'], [None] when there is none. *)
Fixpoint after_last_at (l : list ascii) : option (list ascii) :=
  match l with
  | [] => None
  | c :: l' =>
      match after_last_at l' with
      | Some r => Some r
      | None => if bool_decide (c = "@"%char) then Some l' else None
      end
  end.

(** * The allowlists *)

Definition canonical_host (host : string) : list ascii := rstrip_dots (lower (text host)).
Definition canonical_entry (entry : string) : list ascii := strip_dots (lower (text entry)).

Definition entry_allows (host entry : list ascii) : bool :=
  bool_decide (host = entry) || ends_with ("."%char :: entry) host.

Definition _host_allowed (host : string) (allowed : list string) : bool :=
  existsb (fun entry => entry_allows (canonical_host host) (canonical_entry entry)) allowed.

Definition domain_allowed (domain : list ascii) (allowed : list string) : bool :=
  existsb (fun d => bool_decide (lower (text d) = domain)) allowed.

(** [f"...{x!r}..."] for text without quotes *)
Definition quoted (l : list ascii) : string := "'" +:+ String.string_of_list_ascii l +:+ "'".

Definition check_item (settings : Settings) (p : item_payload) : exn + unit :=
  match p with
  | WebhookPayload _ url_host _ =>
      let host := default ""%string url_host in
      if _host_allowed host (webhook_allowed_hosts settings) then inr tt
      else inl (PayloadPolicyError ("webhook host " +:+ quoted (text host) +:+ " is not allowlisted"))
  | EmailPayload to _ _ =>
      match after_last_at (text to) with
      | None => inl IndexError
      | Some d =>
          let domain := lower d in
          if domain_allowed domain (email_allowed_domains settings) then inr tt
          else inl (PayloadPolicyError ("email domain " +:+ quoted domain +:+ " is not allowlisted"))
      end
  | ReportPayload _ _ => inr tt
  end.

(** [_check_policy]; the items of a batch are checked in order. *)
Fixpoint check_items (settings : Settings) (items : list item_payload) : exn + unit :=
  match items with
  | [] => inr tt
  | p :: items' =>
      match check_item settings p with
      | inl e => inl e
      | inr _ => check_items settings items'
      end
  end.

Definition _check_policy (settings : Settings) (p : job_payload) : exn + unit :=
  match p with
  | ItemPayload i => check_item settings i
  | BatchPayload items => check_items settings items
  end.

(** * Validation *)

Definition payload_type (p : job_payload) : JobType :=
  match p with ItemPayload i => item_type i | BatchPayload _ => batch end.

(** [{**raw, 'type': v}] of a dict in insertion order *)
Fixpoint dict_set (k : string) (v : json) (l : list (string * json)) : list (string * json) :=
  match l with
  | [] => [(k, v)]
  | (k', v') :: l' => if bool_decide (k' = k) then (k, v) :: l' else (k', v') :: dict_set k v l'
  end.

Class Pydantic := {
  (** [TypeAdapter(JobPayload).validate_python] *)
  validate_python : json -> exn + job_payload;
  (** it raises nothing but its own error, and the discriminator picks the model *)
  validate_error v e : validate_python v = inl e -> exists m, e = ValidationError m;
  validate_discriminator l p :
    validate_python (JObj l) = inr p -> dict_get "type" l = Some (JStr (JobType_value (payload_type p)));
}.

Section Validate.
Context {PY : Pydantic}.

Definition validate_payload (job_type : JobType) (raw : json) (settings : option Settings) :
    exn + job_payload :=
  match raw with
  | JObj l =>
      match validate_python (JObj (dict_set "type" (JStr (JobType_value job_type)) l)) with
      | inl e => inl e
      | inr payload =>
          match settings with
          | Some s => match _check_policy s payload with inl e => inl e | inr _ => inr payload end
          | None => inr payload
          end
      end
  | _ => inl (OtherError "TypeError" "not a mapping")
  end.
End Validate.
