(* ===== verification/Schemas.v ===== *)
(** The payload models (app/schemas/payloads.py), field by field: which dicts are
    payloads, and the bounds an accepted one keeps.

    The types of pydantic that are not declared in the repository, e-mail addresses and
    URLs, are an interface ([FieldTypes]); the models, their bounds, the validator of
    report parameters and the discriminated unions are definitions, and together they
    are an instance of the interface [Pydantic] that the routes and the worker use. *)
From Stdlib Require Import Ascii.
From stdpp Require Import base tactics option list gmap strings numbers sorting pretty.
From S2P Require Import Prelude Prog Uuid Model Json Handlers Payloads.
Set Default Goal Selector "!".
Open Scope Z_scope.

Definition MAX_BATCH_ITEMS : Z := 500.
Definition MAX_REPORT_PARAMS_KEYS : Z := 50.
Definition MAX_REPORT_PARAMS_BYTES : Z := 8192.

Definition len {A} (l : list A) : Z := Z.of_nat (length l).
Definition str_len (s : string) : Z := Z.of_nat (String.length s).

Class FieldTypes := {
  (** [EmailStr] with a bound on its length: the normalized address *)
  email_str : Z -> string -> option string;
  (** [AnyUrl] with [UrlConstraints]: the normalized URL and its host *)
  any_url : list string -> Z -> string -> option (string * option string);
  (** an address has a domain *)
  email_domain n s e : email_str n s = Some e -> exists d, after_last_at (text e) = Some d;
}.

Section Models.
Context {FT : FieldTypes}.

(** [extra="forbid"] *)
Definition no_extra (declared : list string) (l : list (string * json)) : bool :=
  forallb (fun kv => bool_decide (kv.1 ∈ declared)) l.

(** [str = Field(min_length=lo, max_length=hi)] *)
Definition str_between (lo hi : Z) (v : json) : option string :=
  match v with
  | JStr s => if (lo <=? str_len s) && (str_len s <=? hi) then Some s else None
  | _ => None
  end.

(** A field of type [T | None] that defaults to [None]. *)
Definition optional {T} (check : json -> option T) (v : option json) : option (option T) :=
  match v with
  | None | Some JNull => Some None
  | Some v => Some <$> check v
  end.

Definition EmailPayload_fields (l : list (string * json)) : option item_payload :=
  if no_extra ["type"; "to"; "subject"; "body"]%string l then
    to ← dict_get "to"%string l;
    to ← (match to with JStr s => email_str 320 s | _ => None end);
    subject ← dict_get "subject"%string l ≫= str_between 1 500;
    body ← optional (str_between 0 20000) (dict_get "body"%string l);
    Some (EmailPayload to subject body)
  else None.

(** [HttpsUrl] *)
Definition https_url (v : json) : option (string * option string) :=
  match v with JStr s => any_url ["https"]%string 2048 s | _ => None end.

Definition method_literal (v : json) : option string :=
  match v with
  | JStr s => if bool_decide (s ∈ ["GET"; "POST"]%string) then Some s else None
  | _ => None
  end.

Definition WebhookPayload_fields (l : list (string * json)) : option item_payload :=
  if no_extra ["type"; "url"; "method"]%string l then
    url ← dict_get "url"%string l ≫= https_url;
    method ← (match dict_get "method"%string l with None => Some "POST"%string | Some v => method_literal v end);
    Some (WebhookPayload url.1 url.2 method)
  else None.

Definition ReportType_value (r : ReportType) : string :=
  match r with sales => "sales" | ops => "ops" | weekly_summary => "weekly_summary" end.

Definition report_type_of (v : json) : option ReportType :=
  match v with
  | JStr s => snd <$> list_find (fun r => ReportType_value r = s) [sales; ops; weekly_summary]
  | _ => None
  end.

(** [len(json.dumps(v, separators=(",", ":")))] *)
Definition dumped_size (v : json) : Z := len (json_dumps (text ",") (text ":") false v).

(** [ReportPayload._bound_params], after the check that the value is a dict. *)
Definition _bound_params (v : json) : option json :=
  match v with
  | JObj l =>
      if MAX_REPORT_PARAMS_KEYS <? len l then None
      else if MAX_REPORT_PARAMS_BYTES <? dumped_size v then None
      else Some v
  | _ => None
  end.

Definition ReportPayload_fields (l : list (string * json)) : option item_payload :=
  if no_extra ["type"; "report_type"; "params"]%string l then
    r ← dict_get "report_type"%string l ≫= report_type_of;
    params ← optional _bound_params (dict_get "params"%string l);
    Some (ReportPayload r params)
  else None.

(** The union of the item models, by its discriminator. *)
Definition item_model (tag : string) : option (list (string * json) -> option item_payload) :=
  if decide (tag = "email"%string) then Some EmailPayload_fields
  else if decide (tag = "webhook"%string) then Some WebhookPayload_fields
  else if decide (tag = "report"%string) then Some ReportPayload_fields
  else None.

Definition discriminator (l : list (string * json)) : option string :=
  match dict_get "type"%string l with Some (JStr s) => Some s | _ => None end.

Definition BatchItemPayload (v : json) : option item_payload :=
  match v with
  | JObj l => tag ← discriminator l; model ← item_model tag; model l
  | _ => None
  end.

Definition BatchPayload_fields (l : list (string * json)) : option job_payload :=
  if no_extra ["type"; "items"]%string l then
    match dict_get "items"%string l with
    | Some (JArr vs) =>
        if len vs <=? MAX_BATCH_ITEMS then BatchPayload <$> mapM BatchItemPayload vs else None
    | _ => None
    end
  else None.

(** [_ADAPTER.validate_python] *)
Definition validate_JobPayload (v : json) : exn + job_payload :=
  let payload :=
    match v with
    | JObj l =>
        tag ← discriminator l;
        if decide (tag = "batch"%string) then BatchPayload_fields l
        else model ← item_model tag; ItemPayload <$> model l
    | _ => None
    end in
  match payload with Some p => inr p | None => inl (ValidationError "payload") end.
End Models.

(** * The models keep the interface *)

Section Instance_.
Context {FT : FieldTypes}.

Lemma item_model_type tag model l p :
  item_model tag = Some model -> model l = Some p -> JobType_value (item_type p) = tag.
Proof.
  unfold item_model. intros Hm Hp. repeat (case_decide; simplify_eq); 
    unfold EmailPayload_fields, WebhookPayload_fields, ReportPayload_fields in Hp;
    (destruct (no_extra _ _); [|done]); by simplify_option_eq.
Qed.

Lemma discriminator_Some l tag : discriminator l = Some tag -> dict_get "type"%string l = Some (JStr tag).
Proof. unfold discriminator. destruct (dict_get _ _) as [[]|]; naive_solver. Qed.

Lemma validate_JobPayload_type l p :
  validate_JobPayload (JObj l) = inr p -> dict_get "type"%string l = Some (JStr (JobType_value (payload_type p))).
Proof.
  unfold validate_JobPayload. destruct (discriminator l) as [tag|] eqn:Htag; [|done]. cbn [mbind option_bind].
  apply discriminator_Some in Htag. rewrite Htag. case_decide as Hb.
  - unfold BatchPayload_fields. destruct (no_extra _ _); [|done].
    destruct (dict_get "items"%string l) as [[]|]; try done. destruct (_ <=? _); [|done].
    destruct (mapM _ _); [|done]. simpl. intros [= <-]. by subst.
  - destruct (item_model tag) as [model|] eqn:Hm; [|done]. cbn [mbind option_bind].
    destruct (model l) as [i|] eqn:Hi; [|done]. simpl. intros [= <-]. simpl.
    by rewrite (item_model_type _ _ _ _ Hm Hi).
Qed.

#[export] Program Instance payload_models : Pydantic := {| validate_python := validate_JobPayload |}.
Next Obligation.
  intros v e. unfold validate_JobPayload. destruct (match v with JObj _ => _ | _ => _ end); naive_solver.
Qed.
Next Obligation. exact validate_JobPayload_type. Qed.

(** * Bounds *)

Definition item_bounded (p : item_payload) : Prop :=
  match p with
  | EmailPayload to subject body =>
      (exists s, email_str 320 s = Some to) /\ 1 <= str_len subject <= 500 /\
      (forall b, body = Some b -> str_len b <= 20000)
  | WebhookPayload url host method =>
      (exists s, any_url ["https"]%string 2048 s = Some (url, host)) /\ method ∈ ["GET"; "POST"]%string
  | ReportPayload _ params =>
      forall v, params = Some v -> exists l, v = JObj l /\ len l <= 50 /\ dumped_size v <= 8192
  end.

Definition payload_bounded (p : job_payload) : Prop :=
  match p with
  | ItemPayload i => item_bounded i
  | BatchPayload items => len items <= 500 /\ Forall item_bounded items
  end.

Lemma str_between_Some lo hi v s : str_between lo hi v = Some s -> lo <= str_len s <= hi.
Proof. destruct v as [| | | |s'| |]; try done. simpl. destruct (_ && _) eqn:E; [|done]. intros [= <-]. simp_bool. lia. Qed.

Lemma optional_Some {T} (check : json -> option T) v r x :
  optional check v = Some r -> r = Some x -> exists v', v = Some v' /\ check v' = Some x.
Proof. destruct v as [[]|]; simpl; intros; simplify_option_eq; eauto. Qed.

Lemma item_model_bounded tag model l p : item_model tag = Some model -> model l = Some p -> item_bounded p.
Proof.
  unfold item_model. intros Hm Hp. repeat (case_decide; simplify_eq).
  - unfold EmailPayload_fields in Hp. destruct (no_extra _ _); [|done].
    destruct (dict_get "to"%string l) as [[]|]; simplify_option_eq. split; [eauto|].
    split; [by eapply str_between_Some|]. intros b ->. 
    match goal with H : optional _ _ = Some _ |- _ => destruct (optional_Some _ _ _ b H eq_refl) as (v & _ & Hb) end.
    by eapply str_between_Some.
  - unfold WebhookPayload_fields in Hp. destruct (no_extra _ _); [|done]. simplify_option_eq.
    match goal with H : https_url ?v = Some ?u |- _ => destruct v; try done; destruct u as [url host] end.
    split; [eauto|]. destruct (dict_get "method"%string l) as [[]|]; simplify_option_eq; set_solver.
  - unfold ReportPayload_fields in Hp. destruct (no_extra _ _); [|done]. simplify_option_eq. intros v ->.
    match goal with H : optional _ _ = Some _ |- _ => destruct (optional_Some _ _ _ v H eq_refl) as (v' & _ & Hb) end.
    destruct v'; try done. simpl in Hb. destruct (_ <? _) eqn:Hk; [done|]. destruct (_ <? _) eqn:Hs in Hb; [done|].
    injection Hb as <-. simp_bool. eauto.
Qed.

Lemma validate_JobPayload_bounded v p : validate_JobPayload v = inr p -> payload_bounded p.
Proof.
  unfold validate_JobPayload. destruct v; try done. destruct (discriminator l) as [tag|]; [|done].
  cbn [mbind option_bind]. case_decide.
  - unfold BatchPayload_fields. destruct (no_extra _ _); [|done].
    destruct (dict_get "items"%string l) as [[]|]; try done. destruct (_ <=? _) eqn:Hn; [|done].
    destruct (mapM _ _) as [items|] eqn:Hm; [|done]. simpl. intros [= <-].
    apply mapM_Some_1 in Hm. simp_bool. split.
    + unfold len in *. by rewrite <-(Forall2_length _ _ _ Hm).
    + eapply Forall2_Forall_r; [exact Hm|]. apply Forall_true. intros v i Hi.
      destruct v; try done. simpl in Hi. simplify_option_eq. by eapply item_model_bounded.
  - destruct (item_model tag) as [model|] eqn:Hm; [|done]. cbn [mbind option_bind].
    destruct (model l) as [i|] eqn:Hi; [|done]. simpl. intros [= <-]. by eapply item_model_bounded.
Qed.

Lemma bounded_item_policy settings i e :
  item_bounded i -> check_item settings i = inl e -> exists m, e = PayloadPolicyError m.
Proof.
  destruct i as [to subject body|url host method|r params]; cbn [check_item item_bounded]; [| |done].
  - intros ([s Hs] & _). destruct (email_domain _ _ _ Hs) as [d ->]. destruct (domain_allowed _ _); [done|].
    intros [= <-]. eauto.
  - intros _. destruct (_host_allowed _ _); [done|]. intros [= <-]. eauto.
Qed.

(** C38: Validation is total and bounded: whatever dict a client submits, the answer is a
    payload or one of the two errors the route answers 422 for (never another
    exception), and an accepted payload keeps every bound the models declare, batch
    items included: at most 500 items, an address and a URL of the declared form,
    subject and body within their lengths, GET or POST, report parameters of at most
    50 keys and 8192 characters. *)
Theorem validate_payload_bounded t l settings :
  match validate_payload t (JObj l) (Some settings) with
  | inr p => payload_bounded p
  | inl e => exists m, e = ValidationError m \/ e = PayloadPolicyError m
  end.
Proof.
  unfold validate_payload. set (v := JObj (dict_set _ _ l)).
  change (validate_python v) with (validate_JobPayload v).
  destruct (validate_JobPayload v) as [e|p] eqn:Hv.
  { destruct (@validate_error payload_models v e Hv) as [m ->]. eauto. }
  apply validate_JobPayload_bounded in Hv. destruct (_check_policy settings p) as [e|[]] eqn:Hp; [|done].
  destruct p as [i|items]; cbn [_check_policy payload_bounded] in *.
  - destruct (bounded_item_policy _ _ _ Hv Hp) as [m ->]. eauto.
  - destruct Hv as [_ Hv]. clear v. induction Hv as [|i items Hi _ IH]; [done|]. cbn [check_items] in Hp.
    destruct (check_item settings i) as [e'|] eqn:Hc; [|by apply IH]. simplify_eq.
    destruct (bounded_item_policy _ _ _ Hi Hc) as [m ->]. eauto.
Qed.
End Instance_.
