(* ===== verification/Logging.v ===== *)
(** Logging (app/core/logging.py): the fields bound to a task's context, the filter
    that puts them on a record, the JSON line, and the configuration of the loggers.

    A context variable belongs to one task, so a task's logging is a program on its
    own context and the lines it has written.  Of the language's logging library the
    file models the attributes of a record, the effective level of a logger and the
    handlers a record reaches.  The values of a record are JSON values or objects
    that [default=str] turns into text. *)
From Stdlib Require Import Ascii.
From stdpp Require Import base tactics option list gmap strings numbers sorting pretty.
From S2P Require Import Prelude Prog Uuid Model Codecs IsoTime Json JsonFacts Cursor Payloads.
Set Default Goal Selector "!".
Open Scope Z_scope.

(** * The bound context *)

Inductive log_value := Plain (v : json) | Object (shown : string).

(** A dict of fields, in insertion order. *)
Abbreviation log_fields := (list (string * log_value)).

(** [{**ctx, **fields}] *)
Definition merged (ctx fields : log_fields) : log_fields := foldl (fun d kv => od_set kv.1 kv.2 d) ctx fields.

(** A task: its context and the lines it has written. *)
Record log_state := mkLog { ls_context : log_fields; ls_lines : list (list ascii) }.
Definition set_context (ctx : log_fields) (s : log_state) : log_state := mkLog ctx (ls_lines s).

Abbreviation logging A := (prog log_state exn A).

Definition bind_log_context {A} (fields : log_fields) (body : logging A) : logging A :=
  token ← act (fun s => (set_context (merged (ls_context s) fields) s, ls_context s));
  r ← attempt body;
  _ ← act (fun s => (set_context token s, tt));
  match r with inl e => Raise e | inr a => Ret a end.

Definition bind_static_log_context (fields : log_fields) : logging unit :=
  act (fun s => (set_context (merged (ls_context s) fields) s, tt)).

(** * Records *)

Record LogRecord := mkRecord {
  r_created : datetime;
  r_levelname : string;
  r_name : string;
  r_message : string;                  (** [getMessage()] *)
  r_dict : log_fields;                 (** [__dict__] *)
  r_exception : option string;         (** [formatException(exc_info)], if there is one *)
}.

(** The names in the [__dict__] of every record. *)
Definition record_attributes : list string :=
  ["name"; "msg"; "args"; "levelname"; "levelno"; "pathname"; "filename"; "module"; "exc_info"; "exc_text";
   "stack_info"; "lineno"; "funcName"; "created"; "msecs"; "relativeCreated"; "thread"; "threadName";
   "processName"; "process"; "taskName"]%string.

Definition _RESERVED : list string := record_attributes ++ ["message"; "asctime"; "taskName"]%string.

(** What the class gives every record besides. *)
Definition class_attributes : list string :=
  ["getMessage"; "__class__"; "__delattr__"; "__dict__"; "__dir__"; "__doc__"; "__eq__"; "__format__"; "__ge__";
   "__getattribute__"; "__getstate__"; "__gt__"; "__hash__"; "__init__"; "__init_subclass__"; "__le__"; "__lt__";
   "__module__"; "__ne__"; "__new__"; "__reduce__"; "__reduce_ex__"; "__repr__"; "__setattr__"; "__sizeof__";
   "__str__"; "__subclasshook__"; "__weakref__"]%string.

Definition hasattr (r : LogRecord) (k : string) : bool :=
  bool_decide (k ∈ (r_dict r).*1 \/ k ∈ class_attributes).

Definition setattr (k : string) (v : log_value) (r : LogRecord) : LogRecord :=
  mkRecord (r_created r) (r_levelname r) (r_name r) (r_message r) (od_set k v (r_dict r)) (r_exception r).

(** [ContextFilter.filter] *)
Definition filter_record (ctx : log_fields) (r : LogRecord) : LogRecord :=
  foldl (fun r kv => if hasattr r kv.1 then r else setattr kv.1 kv.2 r) r ctx.

(** * The line *)

Definition hidden (k : string) : bool :=
  bool_decide (k ∈ _RESERVED) || starts_with (text "otel") (text k).

Definition str_value (s : string) : log_value := Plain (JStr s).

Definition is_zero (v : log_value) : bool :=
  match v with Plain (JStr "0"%string) => true | _ => false end.

(** The dict [out] of [JsonFormatter.format]. *)
Definition format_fields (r : LogRecord) : log_fields :=
  let out := [("timestamp", str_value (isoformat (r_created r)));
              ("level", str_value (String.string_of_list_ascii (lower (text (r_levelname r)))));
              ("logger", str_value (r_name r)); ("event", str_value (r_message r))]%string in
  let out := foldl (fun out kv => if hidden kv.1 then out else od_set kv.1 kv.2 out) out (r_dict r) in
  let trace_id := default (str_value "0") (od_get "otelTraceID"%string (r_dict r)) in
  let out := if is_zero trace_id then out
             else od_set "span_id"%string (default (str_value "0") (od_get "otelSpanID"%string (r_dict r)))
                    (od_set "trace_id"%string trace_id out) in
  match r_exception r with
  | Some e => od_set "exception"%string (str_value e) out
  | None => out
  end.

(** [default=str] *)
Definition as_json (v : log_value) : json := match v with Plain v => v | Object s => JStr s end.
Definition line_json (r : LogRecord) : json := JObj ((fun kv => (kv.1, as_json kv.2)) <$> format_fields r).

(** [json.dumps(out, default=str)] *)
Definition format (r : LogRecord) : list ascii := json_dumps (text ", ") (text ": ") false (line_json r).

(** What the handler does with a record. *)
Definition emit (r : LogRecord) : logging unit :=
  act (fun s => (mkLog (ls_context s) (ls_lines s ++ [format (filter_record (ls_context s) r)]), tt)).

(** * Lookups *)

(** Setting the visible entries of a dict one by one. *)
Lemma od_get_foldl {V} (skip : string -> bool) (d out : list (string * V)) k :
  NoDup d.*1 ->
  od_get k (foldl (fun out kv => if skip kv.1 then out else od_set kv.1 kv.2 out) out d) =
  match (if skip k then None else od_get k d) with Some v => Some v | None => od_get k out end.
Proof.
  revert out. induction d as [|[k' v'] d IH]; intros out Hd; [by destruct (skip k)|].
  apply NoDup_cons in Hd as [Hk' Hd]. cbn [foldl fst snd]. rewrite IH by done. cbn [od_get].
  destruct (decide (k' = k)) as [->|Hne].
  - rewrite (proj2 (od_get_None k d)) by done. destruct (skip k); [done|]. by rewrite od_get_set, decide_True.
  - destruct (skip k); destruct (skip k'); try done; rewrite od_get_set, decide_False by done; done.
Qed.

Lemma foldl_set_NoDup {V} (skip : string -> bool) (d out : list (string * V)) :
  NoDup out.*1 -> NoDup (foldl (fun out kv => if skip kv.1 then out else od_set kv.1 kv.2 out) out d).*1.
Proof.
  revert out. induction d as [|[k v] d IH]; intros out Ho; [done|]. cbn [foldl]. apply IH.
  destruct (skip _); [done|by apply od_set_NoDup].
Qed.

Lemma od_get_merged ctx fields k :
  NoDup fields.*1 ->
  od_get k (merged ctx fields) = match od_get k fields with Some v => Some v | None => od_get k ctx end.
Proof. apply (od_get_foldl (fun _ => false)). Qed.

Lemma merged_NoDup ctx fields : NoDup ctx.*1 -> NoDup (merged ctx fields).*1.
Proof. apply (foldl_set_NoDup (fun _ => false)). Qed.

(** The filter adds what the record does not have, and changes nothing else. *)
Lemma filter_record_spec ctx r :
  NoDup ctx.*1 -> NoDup (r_dict r).*1 ->
  NoDup (r_dict (filter_record ctx r)).*1 /\
  (r_created (filter_record ctx r), r_levelname (filter_record ctx r), r_name (filter_record ctx r),
    r_message (filter_record ctx r), r_exception (filter_record ctx r)) =
    (r_created r, r_levelname r, r_name r, r_message r, r_exception r) /\
  forall k, od_get k (r_dict (filter_record ctx r)) =
    match od_get k (r_dict r) with
    | Some v => Some v
    | None => if bool_decide (k ∈ class_attributes) then None else od_get k ctx
    end.
Proof.
  revert r. induction ctx as [|[k' v'] ctx IH]; intros r Hc Hr.
  { split; [done|]. split; [done|]. intros k. cbn [filter_record foldl].
    destruct (od_get k (r_dict r)); [done|]. by case_bool_decide. }
  apply NoDup_cons in Hc as [Hk' Hc]. cbn [filter_record foldl fst snd] in *. fold (filter_record ctx) in *.
  unfold hasattr. destruct (bool_decide (k' ∈ _ \/ _)) eqn:Hhas; simp_bool.
  - destruct (IH r Hc Hr) as (H1 & H2 & H3). split; [done|]. split; [done|]. intros k.
    unfold filter_record in H3. rewrite H3.
    destruct (od_get k (r_dict r)) as [v|] eqn:Hk; [done|]. case_bool_decide as Hclass; [done|]. cbn [od_get].
    rewrite decide_False; [done|]. intros ->. apply od_get_None in Hk. tauto.
  - destruct (IH (setattr k' v' r) Hc) as (H1 & H2 & H3); [by apply od_set_NoDup|].
    split; [done|]. split; [done|]. intros k. unfold filter_record in H3. rewrite H3. cbn [r_dict setattr od_get].
    rewrite od_get_set. destruct (decide (k = k')) as [->|Hne].
    + rewrite (proj2 (od_get_None k' (r_dict r))) by tauto. rewrite bool_decide_eq_false_2 by tauto. by rewrite decide_True.
    + rewrite (decide_False (P := k' = k)) by congruence. done.
Qed.

(** What a line says under a key, from the strongest: the exception, the span, an
    attribute that is not the record's own, the four fields of every line. *)
Definition line_field (r : LogRecord) (k : string) : option log_value :=
  let traced := negb (is_zero (default (str_value "0") (od_get "otelTraceID"%string (r_dict r)))) in
  match r_exception r, bool_decide (k = "exception"%string) with
  | Some e, true => Some (str_value e)
  | _, _ =>
      if traced && bool_decide (k = "trace_id"%string) then od_get "otelTraceID"%string (r_dict r)
      else if traced && bool_decide (k = "span_id"%string)
      then Some (default (str_value "0") (od_get "otelSpanID"%string (r_dict r)))
      else match (if hidden k then None else od_get k (r_dict r)) with
      | Some v => Some v
      | None =>
          od_get k [("timestamp", str_value (isoformat (r_created r)));
                    ("level", str_value (String.string_of_list_ascii (lower (text (r_levelname r)))));
                    ("logger", str_value (r_name r)); ("event", str_value (r_message r))]%string
      end
  end.

Lemma format_fields_get r k : NoDup (r_dict r).*1 -> od_get k (format_fields r) = line_field r k.
Proof.
  intros Hr. unfold format_fields, line_field. cbv zeta.
  set (base := [_; _; _; _]). set (trace := default _ (od_get "otelTraceID"%string _)).
  assert (is_zero trace = false -> od_get "otelTraceID"%string (r_dict r) = Some trace) as Htrace.
  { subst trace. destruct (od_get "otelTraceID"%string (r_dict r)); [done|]. by vm_compute. }
  destruct (is_zero trace) eqn:Hz; cbn [negb andb].
  - destruct (r_exception r) as [e|]; [|by apply (od_get_foldl hidden)].
    rewrite od_get_set. destruct (decide (k = "exception"%string)) as [->|Hne]; [done|].
    rewrite (bool_decide_eq_false_2 (k = "exception"%string)) by done. by apply (od_get_foldl hidden).
  - rewrite Htrace by done.
    assert (forall x, od_get k (od_set "span_id"%string x (od_set "trace_id"%string trace
      (foldl (fun out kv => if hidden kv.1 then out else od_set kv.1 kv.2 out) base (r_dict r)))) =
      if bool_decide (k = "trace_id"%string) then Some trace
      else if bool_decide (k = "span_id"%string) then Some x
      else match (if hidden k then None else od_get k (r_dict r)) with Some v => Some v | None => od_get k base end) as H.
    { intros x. rewrite !od_get_set, (od_get_foldl hidden) by done. repeat case_bool_decide; repeat case_decide; congruence. }
    destruct (r_exception r) as [e|]; [|apply H].
    rewrite od_get_set. destruct (decide (k = "exception"%string)) as [->|Hne]; [done|].
    rewrite (bool_decide_eq_false_2 (k = "exception"%string)) by done. apply H.
Qed.

Lemma format_fields_NoDup r : NoDup (format_fields r).*1.
Proof.
  unfold format_fields. cbv zeta.
  match goal with |- context [foldl ?f ?b ?d] => assert (NoDup (foldl f b d).*1) as Hout end.
  { apply (foldl_set_NoDup hidden). apply (bool_decide_unpack _). by vm_compute. }
  destruct (is_zero _), (r_exception r); repeat apply od_set_NoDup; done.
Qed.

(** A log record is one line of printable ASCII, whatever text it holds: no message
    or field can end the line or start another.  The line parses to an object with
    distinct keys, and under each key it says what the exception, the span, the
    attributes that are not the record's own, and the four fixed fields say, in that
    order. *)
Theorem format_spec r :
  NoDup (r_dict r).*1 -> json_ok (line_json r) ->
  Forall is_plain (codes (format r)) /\
  json_loads_text (codes (format r)) = Some (to_py (line_json r)) /\
  NoDup (format_fields r).*1 /\ forall k, od_get k (format_fields r) = line_field r k.
Proof.
  intros Hr Hok. split; [|split; [|split]].
  - apply dumps_plain; [..|done]; apply (bool_decide_unpack _); vm_compute; exact I.
  - by apply (json_loads_dumps _ _ [32%N] [32%N]).
  - apply format_fields_NoDup.
  - intros k. by apply format_fields_get.
Qed.

(** * Blocks *)

Lemma exec_emit r s :
  exec (emit r) s = (mkLog (ls_context s) (ls_lines s ++ [format (filter_record (ls_context s) r)]), inr tt).
Proof. done. Qed.

Lemma exec_bind_log_context {A} fields (body : logging A) s :
  exec (bind_log_context fields body) s =
  (let r := exec body (set_context (merged (ls_context s) fields) s) in (set_context (ls_context s) r.1, r.2)).
Proof.
  unfold bind_log_context. rewrite exec_bind, exec_act. cbn [fst snd]. rewrite exec_bind, exec_attempt.
  rewrite exec_bind, exec_act. cbn [fst snd]. by destruct (exec body _) as [s' [e|a]].
Qed.

(** Inside a [bind_log_context] block every record carries the bound fields: a line
    written there says, under a bound key that is neither hidden nor one the record
    has itself (nor one the formatter writes last), the bound value.  Outside nothing
    is left of them: however the block ends, and whatever it or its callees bind, the
    context afterwards is the one before. *)
Theorem bind_log_context_scoped {A} fields r (body : logging A) s :
  NoDup fields.*1 -> NoDup (ls_context s).*1 -> NoDup (r_dict r).*1 ->
  let run := exec (bind_log_context fields (_ ← emit r; body)) s in
  ls_context run.1 = ls_context s /\
  run.2 = (exec body (exec (emit r) (set_context (merged (ls_context s) fields) s)).1).2 /\
  exists r', exec (emit r) (set_context (merged (ls_context s) fields) s) =
      (mkLog (merged (ls_context s) fields) (ls_lines s ++ [format r']), inr tt) /\
    forall k v, od_get k fields = Some v -> hidden k = false -> k ∉ (r_dict r).*1 -> k ∉ class_attributes ->
      k ∉ ["exception"; "trace_id"; "span_id"]%string -> od_get k (format_fields r') = Some v.
Proof.
  intros Hf Hs Hr run. subst run. rewrite exec_bind_log_context. cbv zeta.
  split; [done|]. split; [rewrite exec_bind; done|].
  set (ctx := merged (ls_context s) fields). exists (filter_record ctx r). split; [done|].
  intros k v Hk Hhid Hown Hclass Hlast.
  destruct (filter_record_spec ctx r) as (Hr' & _ & Hget); [by apply merged_NoDup|done|].
  rewrite format_fields_get by done. unfold line_field.
  assert (forall k', k' ∈ ["exception"; "trace_id"; "span_id"]%string -> bool_decide (k = k') = false) as Hne.
  { intros k' Hk'. apply bool_decide_eq_false_2. by intros ->. }
  rewrite !Hne, !andb_false_r by set_solver. rewrite Hhid, Hget.
  rewrite (proj2 (od_get_None k (r_dict r))) by done. rewrite bool_decide_eq_false_2 by done.
  subst ctx. rewrite od_get_merged by done. rewrite Hk. by destruct (r_exception _).
Qed.

(** * The loggers *)

Inductive log_handler := JsonStdout | Foreign (id : nat).
#[export] Instance log_handler_eq_dec : EqDecision log_handler. Proof. solve_decision. Defined.

Record Logger := mkLogger { lg_level : Z; lg_handlers : list log_handler; lg_propagate : bool }.

(** A logger no one has configured. *)
Definition fresh_logger : Logger := mkLogger 0 [] true.

Record loggers := mkLoggers { lg_root : Logger; lg_named : gmap string Logger }.

Definition get_logger (name : string) (st : loggers) : Logger := default fresh_logger (lg_named st !! name).

(** A logger's name and its ancestors' below the root, nearest first: each is the
    name before the last dot of the one before. *)
Fixpoint before_dots (rev_name : list ascii) : list (list ascii) :=
  match rev_name with
  | [] => []
  | c :: rest => if bool_decide (c = "."%char) then rest :: before_dots rest else before_dots rest
  end.
Definition ancestors (name : string) : list string :=
  (fun l => String.string_of_list_ascii (rev l)) <$> (rev (text name) :: before_dots (rev (text name))).

Definition chain (name : string) (st : loggers) : list Logger :=
  ((fun n => get_logger n st) <$> ancestors name) ++ [lg_root st].

(** [Logger.getEffectiveLevel] *)
Fixpoint effective_level (ls : list Logger) : Z :=
  match ls with
  | [] => 0
  | l :: ls' => if lg_level l =? 0 then effective_level ls' else lg_level l
  end.

(** The handlers [callHandlers] gives a record to. *)
Fixpoint reached (ls : list Logger) : list log_handler :=
  match ls with
  | [] => []
  | l :: ls' => lg_handlers l ++ (if lg_propagate l then reached ls' else [])
  end.

(** The handlers that get a record of [name] at [lvl]. *)
Definition handled (name : string) (lvl : Z) (st : loggers) : list log_handler :=
  if effective_level (chain name st) <=? lvl then reached (chain name st) else [].

(** ** configure_logging *)

(** [getattr(logging, name, logging.INFO)], then what [setLevel] makes of it. *)
Definition upper_char (c : ascii) : ascii :=
  let n := N_of_ascii c in if ((97 <=? n) && (n <=? 122))%N then ascii_of_N (n - 32) else c.
Definition upper (s : string) : string := String.string_of_list_ascii (upper_char <$> text s).

Definition level_numbers : list (string * Z) :=
  [("CRITICAL", 50); ("FATAL", 50); ("ERROR", 40); ("WARNING", 30); ("WARN", 30); ("INFO", 20);
   ("DEBUG", 10); ("NOTSET", 0)]%string.

Definition checked_level (log_level : string) : exn + Z :=
  match od_get (upper log_level) level_numbers with
  | Some n => inr n
  | None =>
      if bool_decide (upper log_level = "BASIC_FORMAT"%string) then inl (ValueError "Unknown level")
      else if bool_decide (upper log_level = "_STYLES"%string) then inl (OtherError "TypeError" "Level not an integer or a valid string")
      else inr 20
  end.

Definition WARNING : Z := 30.

Definition uvicorn_names : list string := ["uvicorn"; "uvicorn.error"; "uvicorn.access"]%string.

Definition set_level (n : Z) (l : Logger) : Logger := mkLogger n (lg_handlers l) (lg_propagate l).

(** What the configuration leaves, and its exception. *)
Definition configure_logging (log_level : string) (st : loggers) : loggers * (exn + unit) :=
  let st := mkLoggers (mkLogger WARNING [JsonStdout] (lg_propagate (lg_root st))) (lg_named st) in
  match checked_level log_level with
  | inl e => (st, inl e)
  | inr level =>
      let named := <["app"%string := set_level level (get_logger "app" st)]> (lg_named st) in
      (mkLoggers (lg_root st) (foldr (fun name => <[name := mkLogger WARNING [] true]>) named uvicorn_names), inr tt)
  end.

(** ** Where records go *)

Lemma before_dots_app l m :
  before_dots (l ++ "."%char :: m) = ((fun x => x ++ "."%char :: m) <$> before_dots l) ++ m :: before_dots m.
Proof.
  induction l as [|c l IH]; cbn [app before_dots]; [done|]. rewrite IH. by case_bool_decide.
Qed.

(** The ancestors of a name under [app]: names under [app], then [app]. *)
Lemma ancestors_app suffix :
  exists l, ancestors ("app." +:+ suffix) = l ++ ["app"%string] /\
    Forall (fun n => exists x, n = ("app." +:+ x)%string) l.
Proof.
  assert (forall x, String.string_of_list_ascii (rev (x ++ rev (text "app."))) =
    ("app." +:+ String.string_of_list_ascii (rev x))%string) as Hrev.
  { intros x. rewrite rev_app_distr, rev_involutive. reflexivity. }
  assert (rev (text ("app." +:+ suffix)) = rev (text suffix) ++ rev (text "app.")) as Hname.
  { change (text ("app." +:+ suffix)) with (text "app." ++ text suffix). by rewrite rev_app_distr. }
  unfold ancestors. rewrite Hname. change (rev (text "app.")) with ("."%char :: rev (text "app")) at 2.
  rewrite before_dots_app, fmap_cons, fmap_app.
  exists (("app." +:+ suffix)%string ::
    ((fun x => ("app." +:+ String.string_of_list_ascii (rev x))%string) <$> before_dots (rev (text suffix)))).
  split.
  - cbn [app]. f_equal.
    + rewrite Hrev, rev_involutive. unfold text. by rewrite String.string_of_list_ascii_of_string.
    + f_equal. rewrite <-list_fmap_compose. apply list_fmap_ext. intros i x _. apply Hrev.
  - constructor; [by eexists|]. apply Forall_fmap, Forall_true. intros x. by eexists.
Qed.

Section Routes.
Context (log_level : string) (st : loggers) (level : Z) (Hlevel : checked_level log_level = inr level).
Notation configured := (configure_logging log_level st).1.

(** No one has touched the loggers under [app], nor given [app] handlers. *)
Definition app_untouched : Prop :=
  (forall x, get_logger ("app." +:+ x) st = fresh_logger) /\
  lg_handlers (get_logger "app" st) = [] /\ lg_propagate (get_logger "app" st) = true.

Lemma configured_root : lg_root configured = mkLogger WARNING [JsonStdout] (lg_propagate (lg_root st)).
Proof. unfold configure_logging. by rewrite Hlevel. Qed.

Lemma configured_uvicorn name : name ∈ uvicorn_names -> get_logger name configured = mkLogger WARNING [] true.
Proof.
  unfold configure_logging, get_logger, uvicorn_names. rewrite Hlevel. cbn [fst lg_named foldr].
  intros Hn. repeat (apply elem_of_cons in Hn as [->|Hn]); [..|by apply not_elem_of_nil in Hn];
    by rewrite ?lookup_insert_ne, lookup_insert_eq by done.
Qed.

Lemma configured_app : get_logger "app" configured = set_level level (get_logger "app" st).
Proof.
  unfold configure_logging, get_logger, uvicorn_names. rewrite Hlevel. cbn [fst lg_named foldr].
  by rewrite !lookup_insert_ne, lookup_insert_eq by done.
Qed.

Lemma configured_under_app x : get_logger ("app." +:+ x) configured = get_logger ("app." +:+ x) st.
Proof.
  unfold configure_logging, get_logger, uvicorn_names. rewrite Hlevel. cbn [fst lg_named foldr].
  by rewrite !lookup_insert_ne by done.
Qed.

(** After [configure_logging] every record of the program's own loggers ([app] and
    below) at the configured level or above, and every record of uvicorn's at WARNING
    or above, reaches the one JSON handler, once; those below reach none. *)
Theorem configure_logging_routes name lvl :
  app_untouched ->
  (name = "app"%string \/ (exists x, name = ("app." +:+ x)%string) ->
    handled name lvl configured = if (if level =? 0 then WARNING else level) <=? lvl then [JsonStdout] else []) /\
  (name ∈ uvicorn_names -> handled name lvl configured = if WARNING <=? lvl then [JsonStdout] else []).
Proof.
  intros (Hbelow & Happ & Hprop).
  assert (forall ls, Forall (fun l => l = fresh_logger) ls ->
    effective_level (ls ++ [get_logger "app" configured; lg_root configured]) = (if level =? 0 then WARNING else level) /\
    reached (ls ++ [get_logger "app" configured; lg_root configured]) = [JsonStdout]) as Hchain.
  { intros ls. rewrite configured_app, configured_root. induction 1 as [|l ls -> _ [IH1 IH2]]; [|done].
    cbn [app effective_level reached set_level lg_level lg_handlers lg_propagate]. rewrite Happ, Hprop.
    by destruct (lg_propagate (lg_root st)). }
  split.
  - intros Hname. unfold handled.
    assert (exists ls, chain name configured = ls ++ [get_logger "app" configured; lg_root configured] /\
      Forall (fun l => l = fresh_logger) ls) as (ls & -> & Hls).
    { destruct Hname as [->|[x ->]]; [by exists []|]. unfold chain.
      destruct (ancestors_app x) as (l & -> & Hl). exists ((fun n => get_logger n configured) <$> l). split.
      - rewrite fmap_app, <-app_assoc. done.
      - apply Forall_fmap. eapply Forall_impl; [exact Hl|]. intros n [y ->]. simpl.
        by rewrite configured_under_app. }
    by destruct (Hchain ls Hls) as [-> ->].
  - intros Hn. unfold handled, chain.
    assert (forall n, n ∈ uvicorn_names -> Forall (fun m => m ∈ uvicorn_names) (ancestors n) /\ ancestors n <> []) as Hanc.
    { intros n Hn'. repeat (apply elem_of_cons in Hn' as [->|Hn']); [..|by apply not_elem_of_nil in Hn'];
        split; try done; apply (bool_decide_unpack _); vm_compute; exact I. }
    destruct (Hanc name Hn) as [Hall Hne]. clear Hanc.
    assert (Forall (fun l => l = mkLogger WARNING [] true) ((fun n => get_logger n configured) <$> ancestors name)) as Huv.
    { apply Forall_fmap. eapply Forall_impl; [exact Hall|]. intros m Hm. by apply configured_uvicorn. }
    rewrite configured_root. destruct (ancestors name) as [|a l]; [done|]. rewrite fmap_cons in *.
    apply Forall_cons in Huv as [-> Huv]. cbn [app effective_level reached lg_level lg_handlers lg_propagate].
    change (WARNING =? 0) with false. cbv iota. destruct (WARNING <=? lvl); [|done].
    assert (forall ls, Forall (fun l => l = mkLogger WARNING [] true) ls ->
      reached (ls ++ [mkLogger WARNING [JsonStdout] (lg_propagate (lg_root st))]) = [JsonStdout]) as Hr.
    { induction 1 as [|? ls -> _ IH]; [cbn; by destruct (lg_propagate (lg_root st))|done]. }
    by apply Hr.
Qed.
End Routes.

(** * A line of the worker *)

(** A message that tries to forge a second line. *)
Definition forged_text : string := ("received" +:+ String (ascii_of_N 10) "{}")%string.

Definition received_record : LogRecord :=
  mkRecord (seconds 1700000000) "INFO" "app.worker" forged_text
    [("name", str_value "app.worker"); ("attempt", Plain (JInt 2))]%string None.

Definition job_fields : log_fields := [("job_id", str_value "00000000-0000-0000-0000-000000000001")]%string.

Lemma received_dict : NoDup (r_dict received_record).*1.
Proof. apply (bool_decide_unpack _). vm_compute. exact I. Qed.

Lemma format_spec_witness :
  Forall is_plain (codes (format received_record)) /\
  od_get "attempt"%string (format_fields received_record) = Some (Plain (JInt 2)) /\
  od_get "event"%string (format_fields received_record) = Some (str_value forged_text).
Proof.
  destruct (format_spec received_record received_dict) as (Hp & _ & _ & Hget); [repeat split|].
  split; [exact Hp|]. split; rewrite Hget; vm_compute; reflexivity.
Defined.

Lemma bind_log_context_scoped_witness :
  exists r', od_get "job_id"%string (format_fields r') = Some (str_value "00000000-0000-0000-0000-000000000001") /\
    ls_context (exec (bind_log_context job_fields (_ ← emit received_record; Raise CancelledError : logging unit))
      (mkLog [] [])).1 = [].
Proof.
  destruct (bind_log_context_scoped job_fields received_record (Raise CancelledError : logging unit) (mkLog [] []))
    as (Hctx & _ & r' & _ & Hget).
  - apply (bool_decide_unpack _). vm_compute. exact I.
  - apply (bool_decide_unpack _). vm_compute. exact I.
  - exact received_dict.
  - exists r'. split; [|exact Hctx]. apply Hget; try (vm_compute; reflexivity);
      apply (bool_decide_unpack _); vm_compute; exact I.
Defined.

Lemma configure_logging_routes_witness :
  handled "app.worker" 20 (configure_logging "info" (mkLoggers fresh_logger ∅)).1 = [JsonStdout] /\
  handled "uvicorn.access" 20 (configure_logging "info" (mkLoggers fresh_logger ∅)).1 = [].
Proof.
  assert (app_untouched (mkLoggers fresh_logger ∅)) as Hu by (split; [intros x; reflexivity|split; reflexivity]).
  split.
  - refine (proj1 (configure_logging_routes "info" (mkLoggers fresh_logger ∅) 20 eq_refl "app.worker" 20 Hu) _).
    right. exists "worker"%string. reflexivity.
  - refine (proj2 (configure_logging_routes "info" (mkLoggers fresh_logger ∅) 20 eq_refl "uvicorn.access" 20 Hu) _).
    apply (bool_decide_unpack _). vm_compute. exact I.
Defined.
