(* ===== verification/Meters.v ===== *)
(** The instruments (app/core/metrics.py), and programs that measure and log.

    A coroutine as the code has it also records measurements and writes log lines.
    An observed program is one on the world and the list of the events so far:

    - [erases p q]: without its events the observed program [p] is the program [q],
      effect by effect, so that measuring and logging change neither what a run does
      nor what it answers, alone ([exec_erases]) or among others ([pool_erases]);
    - [yields Q p acc]: whatever the other processes do between its effects, [p]
      adds to its own events [acc] those that, with its answer, satisfy [Q];
    - [during I p acc]: wherever [p] is cut, its events so far satisfy [I]. *)
From stdpp Require Import base tactics option list gmap strings numbers relations.
From S2P Require Import Prelude Prog Uuid Model Json Services Logging.
Set Default Goal Selector "!".
Open Scope Z_scope.

(** * Instruments *)

Inductive instrument :=
  | jobs_submitted | jobs_processed | jobs_failed | job_processing_duration | job_queue_wait
  | ticker_promoted | ticker_reaped | ticker_reconciled | auth_validations | jobs_dropped_ownerless
  | worker_recycles.
#[export] Instance instrument_eq_dec : EqDecision instrument. Proof. solve_decision. Defined.

Inductive instrument_kind := Counter | Histogram (unit : string).

Record instrument_info := mkInfo { ii_kind : instrument_kind; ii_name : string; ii_description : string }.

(** What each instrument is created with. *)
Definition created (i : instrument) : instrument_info :=
  match i with
  | jobs_submitted => mkInfo Counter "jobs.submitted" "Jobs accepted by the API"
  | jobs_processed => mkInfo Counter "jobs.processed" "Worker outcomes per delivery"
  | jobs_failed => mkInfo Counter "jobs.failed" "Jobs that exhausted max_attempts"
  | job_processing_duration => mkInfo (Histogram "s") "job.processing.duration" "process_job wall time"
  | job_queue_wait => mkInfo (Histogram "s") "job.queue.wait" "XADD-to-delivery latency"
  | ticker_promoted => mkInfo Counter "ticker.promoted" "Scheduled jobs promoted to streams"
  | ticker_reaped => mkInfo Counter "ticker.reaped" "Stale in-flight messages reclaimed"
  | ticker_reconciled => mkInfo Counter "ticker.reconciled" "Unsynced jobs re-handed to Redis"
  | auth_validations => mkInfo Counter "auth.validations" "Bearer token auth attempts by result and source"
  | jobs_dropped_ownerless => mkInfo Counter "jobs.dropped_ownerless" "Jobs dropped by the worker ownerless guard"
  | worker_recycles => mkInfo Counter "worker.recycles" "Workers that self-recycled on memory breach"
  end.

(** * Events *)

Inductive attribute := AText (s : string) | ABool (b : bool).
Abbreviation attributes := (list (string * attribute)).

(** [i.add(v, attrs)] or [i.record(v, attrs)], durations in microseconds; or a record
    given to a logger, as the context filter completes it. *)
Inductive event := Measured (i : instrument) (v : Z) (attrs : attributes) | Logged (r : LogRecord).

(** What was recorded on [i], in order. *)
Definition measures (i : instrument) (es : list event) : list (Z * attributes) :=
  omap (fun e => match e with
                 | Measured i' v attrs => if decide (i' = i) then Some (v, attrs) else None
                 | Logged _ => None
                 end) es.

Definition records (es : list event) : list LogRecord :=
  omap (fun e => match e with Logged r => Some r | Measured _ _ _ => None end) es.

(** The lines the records become under a configuration of the loggers. *)
Definition stdout (conf : loggers) (es : list event) : list (list Ascii.ascii) :=
  format <$> filter (fun r =>
    JsonStdout ∈ handled (r_name r) (default 0 (od_get (r_levelname r) level_numbers)) conf) (records es).

(** Not a measurement of [i]. *)
Definition aside (i : instrument) (e : event) : Prop :=
  match e with Measured i' _ _ => i' <> i | Logged _ => True end.

Lemma measures_aside i es : Forall (aside i) es -> measures i es = [].
Proof.
  induction 1 as [|[i' v attrs|r] es He _ IH]; [done|..|exact IH]. unfold measures in *. cbn.
  by rewrite decide_False.
Qed.

Lemma measures_app i es1 es2 : measures i (es1 ++ es2) = measures i es1 ++ measures i es2.
Proof. apply omap_app. Qed.

Lemma records_app es1 es2 : records (es1 ++ es2) = records es1 ++ records es2.
Proof. apply omap_app. Qed.

(** * Observed programs *)

Class Clocked (W : Type) := now_of : W -> datetime.

Abbreviation observed W := (prog (W * list event) exn).

(** A program that neither measures nor logs. *)
Definition lift {W A} (p : prog W exn A) : observed W A := zoom fst (fun w s => (w, s.2)) p.

Section Effects.
Context {W : Type} `{!Clocked W}.

(** A look at the world: [time.time()], [time.monotonic()]. *)
Definition look : observed W datetime := act (fun s => (s, now_of s.1)).

Definition record (i : instrument) (v : Z) (attrs : attributes) : observed W unit :=
  act (fun s => ((s.1, s.2 ++ [Measured i v attrs]), tt)).

(** The record a logger makes: its own attributes, none of which is shown, and the
    [extra] of the call, whose names are none of them. *)
Definition log_record (now : datetime) (logger level message : string) (extra : log_fields)
    (exception : option string) : LogRecord :=
  mkRecord now level logger message (((fun k => (k, Object "")) <$> record_attributes) ++ extra) exception.

(** [logging.getLogger(logger).info(message, extra=extra)] under the bound context
    [ctx], a variable of the task; likewise for the other levels. *)
Definition say (ctx : log_fields) (logger level message : string) (extra : log_fields)
    (exception : option string) : observed W unit :=
  act (fun s => ((s.1, s.2 ++ [Logged (filter_record ctx (log_record (now_of s.1) logger level message extra exception))]), tt)).
End Effects.

Definition field_text (s : string) : log_value := Plain (JStr s).
Definition field_bool (b : bool) : log_value := Plain (JBool b).
Definition field_int (z : Z) : log_value := Plain (JInt z).

(** * Erasure *)

(** Each effect of [p] either leaves the world alone or is the next effect of [q]. *)
Fixpoint erases {W D E A} (p : prog (W * D) E A) (q : prog W E A) : Prop :=
  match p with
  | Ret a => q = Ret a
  | Raise e => q = Raise e
  | Step f k =>
      (forall s, (f s).1.1 = s.1) /\ (forall x, erases (k x) q) \/
      exists f' k', q = Step f' k' /\ (forall w d, f (w, d) = (((f' w).1, d), (f' w).2)) /\
        forall x, erases (k x) (k' x)
  end.

(** Nothing but looks, measurements and log lines. *)
Fixpoint silent {W D E A} (p : prog (W * D) E A) : Prop :=
  match p with
  | Ret _ => True
  | Raise _ => False
  | Step f k => (forall s, (f s).1.1 = s.1) /\ forall x, silent (k x)
  end.

Section Erasure.
Context {W D E : Type}.
Implicit Types (w : W) (d : D).

Lemma erases_bind {A B} (p : prog (W * D) E A) q (k : A -> prog (W * D) E B) k' :
  erases p q -> (forall a, erases (k a) (k' a)) -> erases (p ≫= k) (q ≫= k').
Proof.
  revert q. induction p as [a|e|X f c IH]; intros q; simpl; [by intros -> ?..|].
  intros [[Hf Hc]|(f' & c' & -> & Hf & Hc)] Hk; [left; split; [done|intros x; by apply (IH x q)]|].
  right. exists f'. eexists. split; [reflexivity|]. split; [done|]. intros x. by apply (IH x (c' x)).
Qed.

Lemma erases_attempt {A} (p : prog (W * D) E A) q : erases p q -> erases (attempt p) (attempt q).
Proof.
  revert q. induction p as [a|e|X f c IH]; intros q; simpl; [by intros ->..|].
  intros [[Hf Hc]|(f' & c' & -> & Hf & Hc)]; [by left; eauto|].
  right. exists f'. eexists. split; [reflexivity|]. split; [done|]. intros x. by apply (IH x (c' x)).
Qed.

Lemma erases_ret {A} (a : A) : erases (Ret a : prog (W * D) E A) (Ret a).
Proof. done. Qed.

Lemma erases_raise {A} (e : E) : erases (Raise e : prog (W * D) E A) (Raise e).
Proof. done. Qed.

Lemma erases_silent {A B} (p : prog (W * D) E A) (k : A -> prog (W * D) E B) q :
  silent p -> (forall a, erases (k a) q) -> erases (p ≫= k) q.
Proof.
  induction p as [a|e|X f c IH]; simpl; [by eauto|done|]. intros [Hf Hc] Hk. left.
  split; [done|]. intros x. by apply IH.
Qed.

(** What is measured and logged before the answer is passed on. *)
Lemma erases_tail {A} (p : prog (W * D) E A) q (k : A -> prog (W * D) E A) :
  erases p q -> (forall a, erases (k a) (Ret a)) -> erases (p ≫= k) q.
Proof.
  intros Hp Hk. revert q Hp. induction p as [a|e|X f c IH]; intros q; simpl; [by intros ->|by intros ->|].
  intros [[Hf Hc]|(f' & c' & -> & Hf & Hc)]; [left; split; [done|intros x; by apply IH]|].
  right. exists f', c'. split; [done|]. split; [done|]. intros x. by apply IH.
Qed.

Lemma silent_bind {A B} (p : prog (W * D) E A) (k : A -> prog (W * D) E B) :
  silent p -> (forall a, silent (k a)) -> silent (p ≫= k).
Proof. induction p as [a|e|X f c IH]; simpl; [by eauto|done|]. intros [Hf Hc] Hk. split; [done|]. eauto. Qed.

Lemma erases_for_each {A} (body : A -> prog (W * D) E unit) body' (l : list A) :
  (forall x, erases (body x) (body' x)) -> erases (for_each body l) (for_each body' l).
Proof. intros Hb. induction l as [|x l IH]; [done|]. by apply (erases_bind _ (body' x)). Qed.

(** A run alone: the same world and the same answer. *)
Lemma exec_erases {A} (p : prog (W * D) E A) q w d :
  erases p q -> (exec p (w, d)).1.1 = (exec q w).1 /\ (exec p (w, d)).2 = (exec q w).2.
Proof.
  revert q w d. induction p as [a|e|X f c IH]; intros q w d; simpl; [by intros ->..|].
  intros [[Hf Hc]|(f' & c' & -> & Hf & Hc)].
  - specialize (Hf (w, d)). destruct (f (w, d)) as [[w1 d1] x]. simpl in *. subst w1. by apply IH.
  - rewrite Hf. simpl. by apply IH.
Qed.

(** A run that crashes: a world the program without the events may crash in. *)
Lemma upto_erases {A} (p : prog (W * D) E A) q w d n :
  erases p q -> exists m, (exec_upto n p (w, d)).1 = exec_upto m q w.
Proof.
  revert q w d n. induction p as [a|e|X f c IH]; intros q w d [|n]; try (by exists 0%nat); simpl.
  intros [[Hf Hc]|(f' & c' & -> & Hf & Hc)].
  - specialize (Hf (w, d)). destruct (f (w, d)) as [[w1 d1] x]. simpl in *. subst w1. by apply IH.
  - rewrite Hf. simpl. destruct (IH (f' w).2 (c' (f' w).2) (f' w).1 d n (Hc _)) as [m ->]. by exists (S m).
Qed.
End Erasure.

Lemma erases_lift {W A} (p : prog W exn A) : erases (lift p) p.
Proof.
  induction p as [a|e|X f c IH]; [done..|]. right. exists f, c. split; [done|]. split; [done|exact IH].
Qed.

(** What holds of every effect of [q] holds of every effect of [p]. *)
Lemma all_steps_erases {W D E A} (R : W -> W -> Prop) `{!Reflexive R} (p : prog (W * D) E A) q :
  erases p q -> all_steps R q -> all_steps (fun s s' => R s.1 s'.1) p.
Proof.
  revert q. induction p as [a|e|X f c IH]; intros q; simpl; [done..|].
  intros [[Hf Hc]|(f' & c' & -> & Hf & Hc)] Hq.
  - split; [|intros x; by apply (IH x q)]. intros s. by rewrite Hf.
  - destruct Hq as [Hq1 Hq2]. split; [|intros x; by apply (IH x (c' x))]. intros [w d]. rewrite Hf. apply Hq1.
Qed.

(** Every interleaving of observed processes is one of the processes they erase to. *)
Lemma pool_erases {W D E} (spawn : prog (W * D) E unit -> Prop) (spawn' : prog W E unit -> Prop)
    (env : W * D -> W * D -> Prop) (env' : W -> W -> Prop) c c' :
  (forall t, spawn t -> exists t', spawn' t' /\ erases t t') ->
  (forall s s', env s s' -> env' s.1 s'.1) ->
  rtc (pool_step spawn env) c c' ->
  forall ts, Forall2 erases c.1 ts ->
  exists ts', Forall2 erases c'.1 ts' /\ rtc (pool_step spawn' env') (ts, c.2.1) (ts', c'.2.1).
Proof.
  intros Hspawn Henv Hc. induction Hc as [c|c c1 c' Hstep _ IH]; intros ts Hts; [by exists ts|].
  assert (exists ts1, Forall2 erases c1.1 ts1 /\
    rtc (pool_step spawn' env') (ts, c.2.1) (ts1, c1.2.1)) as (ts1 & H1 & Hstep').
  { clear IH. destruct Hstep as [us1 us2 X f k s|us1 us2 u s|us u s Hu|us s s' Hs]; simpl in *.
    - apply Forall2_app_inv_l in Hts as (ts1 & ts2 & H1 & H2 & ->).
      apply Forall2_cons_inv_l in H2 as (t & ts2' & Ht & H2 & ->).
      destruct s as [w d]. destruct Ht as [[Hf Hk]|(f' & k' & -> & Hf & Hk)].
      + exists (ts1 ++ t :: ts2'). rewrite Hf. split; [|done]. by apply Forall2_app, Forall2_cons; auto.
      + rewrite Hf. exists (ts1 ++ k' (f' w).2 :: ts2'). split; [by apply Forall2_app, Forall2_cons; auto|].
        apply rtc_once. simpl. apply pool_run.
    - apply Forall2_app_inv_l in Hts as (ts1 & ts2 & H1 & H2 & ->).
      apply Forall2_cons_inv_l in H2 as (t & ts2' & Ht & H2 & ->).
      exists (ts1 ++ ts2'). split; [by apply Forall2_app|]. apply rtc_once, pool_die.
    - destruct (Hspawn u Hu) as (t & Ht & He). exists (t :: ts). split; [by constructor|].
      by apply rtc_once, pool_spawn.
    - exists ts. split; [done|]. by apply rtc_once, pool_env, Henv. }
  destruct (IH ts1 H1) as (ts' & H' & Hrest). exists ts'. split; [done|]. by etrans.
Qed.

(** * The events of a run *)

Fixpoint yields {W A} (Q : exn + A -> list event -> Prop) (p : observed W A) (acc : list event) : Prop :=
  match p with
  | Ret a => Q (inr a) acc
  | Raise e => Q (inl e) acc
  | Step f k => forall s, exists es, (f s).1.2 = s.2 ++ es /\ yields Q (k (f s).2) (acc ++ es)
  end.

Section Yields.
Context {W : Type} `{!Clocked W}.
Implicit Types (acc : list event).

Lemma yields_mono {A} (Q Q' : exn + A -> list event -> Prop) (p : observed W A) acc :
  yields Q p acc -> (forall r es, Q r es -> Q' r es) -> yields Q' p acc.
Proof.
  intros Hp HQ. revert acc Hp. induction p as [a|e|X f c IH]; intros acc; simpl; [by auto..|].
  intros Hp s. destruct (Hp s) as (es & ? & ?). exists es. eauto.
Qed.

Lemma yields_bind {A B} (Q : exn + B -> list event -> Prop) (p : observed W A) (k : A -> observed W B) acc :
  yields (fun r es => match r with inr a => yields Q (k a) es | inl e => Q (inl e) es end) p acc ->
  yields Q (p ≫= k) acc.
Proof.
  revert acc. induction p as [a|e|X f c IH]; intros acc; simpl; [done..|].
  intros Hp s. destruct (Hp s) as (es & ? & ?). exists es. split; [done|]. by apply IH.
Qed.

Lemma yields_attempt {A} (Q : exn + (exn + A) -> list event -> Prop) (p : observed W A) acc :
  yields (fun r es => Q (inr r) es) p acc -> yields Q (attempt p) acc.
Proof.
  revert acc. induction p as [a|e|X f c IH]; intros acc; simpl; [done..|].
  intros Hp s. destruct (Hp s) as (es & ? & ?). exists es. split; [done|]. by apply IH.
Qed.

Lemma yields_lift {A} (Q : exn + A -> list event -> Prop) (p : prog W exn A) acc :
  (forall r, Q r acc) -> yields Q (lift p) acc.
Proof.
  intros HQ. induction p as [a|e|X f c IH]; simpl; [apply HQ..|]. intros s. exists [].
  rewrite !app_nil_r. split; [done|apply IH].
Qed.

(** The same, when the exceptions are known. *)
Lemma yields_lift_throws {A} (P : exn -> Prop) (Q : exn + A -> list event -> Prop) (p : prog W exn A) acc :
  throws P p -> (forall a, Q (inr a) acc) -> (forall e, P e -> Q (inl e) acc) -> yields Q (lift p) acc.
Proof.
  intros Hp HQ He. induction p as [a|e|X f c IH]; simpl in *; [by apply HQ|by apply He|]. intros s. exists [].
  rewrite !app_nil_r. split; [done|by apply IH].
Qed.

(** And for a program that raises nothing. *)
Lemma yields_lift_quiet {A} (Q : exn + A -> list event -> Prop) (p : prog W exn A) acc :
  throws (fun _ => False) p -> (forall a, Q (inr a) acc) -> yields Q (lift p) acc.
Proof. intros Hp HQ. by eapply yields_lift_throws. Qed.

Lemma yields_act {X} (Q : exn + X -> list event -> Prop) (f : W -> W * X) acc :
  (forall w, Q (inr (f w).2) acc) -> yields Q (lift (act f)) acc.
Proof. intros HQ s. exists []. rewrite !app_nil_r. split; [done|apply HQ]. Qed.

Lemma yields_look Q acc : (forall now, Q (inr now) acc) -> yields (W:=W) Q look acc.
Proof. intros HQ s. exists []. rewrite !app_nil_r. split; [done|apply HQ]. Qed.

Lemma yields_record Q i v attrs acc :
  Q (inr tt) (acc ++ [Measured i v attrs]) -> yields (W:=W) Q (record i v attrs) acc.
Proof. intros HQ s. exists [Measured i v attrs]. done. Qed.

Lemma yields_say Q ctx logger level message extra exception acc :
  (forall now, Q (inr tt) (acc ++ [Logged (filter_record ctx (log_record now logger level message extra exception))])) ->
  yields (W:=W) Q (say ctx logger level message extra exception) acc.
Proof. intros HQ s. eexists [_]. split; [reflexivity|apply HQ]. Qed.

Lemma yields_for_each {A} (I : list event -> Prop) (Q : exn + unit -> list event -> Prop)
    (body : A -> observed W unit) (l : list A) acc :
  (forall x es, I es -> yields (fun r es' => match r with inr _ => I es' | inl e => Q (inl e) es' end) (body x) es) ->
  (forall es, I es -> Q (inr tt) es) -> I acc -> yields Q (for_each body l) acc.
Proof.
  intros Hb HQ. revert acc. induction l as [|x l IH]; intros acc HI; [by apply HQ|].
  apply yields_bind. eapply yields_mono; [by apply Hb|]. intros [e|[]] es Hes; [done|by apply IH].
Qed.

Lemma yields_shift {A} (Q : exn + A -> list event -> Prop) (p : observed W A) acc acc' :
  yields (fun r es => Q r (acc ++ es)) p acc' -> yields Q p (acc ++ acc').
Proof.
  revert acc'. induction p as [a|e|X f c IH]; intros acc'; simpl; [done..|].
  intros Hp s. destruct (Hp s) as (es & ? & Hc). exists es. split; [done|]. rewrite <-app_assoc. by apply IH.
Qed.

(** The events of the parts, one after the other. *)
Lemma yields_then {A B} (P : exn + A -> list event -> Prop) (Q : exn + B -> list event -> Prop)
    (p : observed W A) (k : A -> observed W B) :
  yields P p [] -> (forall e es, P (inl e) es -> Q (inl e) es) ->
  (forall a es, P (inr a) es -> yields (fun r es' => Q r (es ++ es')) (k a) []) -> yields Q (p ≫= k) [].
Proof.
  intros Hp He Hk. apply yields_bind. eapply yields_mono; [exact Hp|]. intros [e|a] es HP; [by apply He|].
  rewrite <-(app_nil_r es). by apply yields_shift, Hk.
Qed.

(** A run alone. *)
Lemma yields_exec {A} (Q : exn + A -> list event -> Prop) (p : observed W A) acc w d :
  yields Q p acc -> exists es, (exec p (w, d)).1.2 = d ++ es /\ Q (exec p (w, d)).2 (acc ++ es).
Proof.
  revert acc w d. induction p as [a|e|X f c IH]; intros acc w d; simpl.
  1,2: intros HQ; exists []; by rewrite !app_nil_r.
  intros Hp. destruct (Hp (w, d)) as (es & Hs & Hc). destruct (f (w, d)) as [[w1 d1] x]. simpl in *. subst d1.
  destruct (IH x _ w1 (d ++ es) Hc) as (es' & -> & HQ). exists (es ++ es'). by rewrite !app_assoc.
Qed.

(** ** A run that is cut

    A process that crashes, or that a service's failure throws out, ends before one of
    its effects: its events until then satisfy [I]. *)
Fixpoint during {A} (I : list event -> Prop) (p : observed W A) acc : Prop :=
  match p with
  | Ret _ | Raise _ => I acc
  | Step f k => forall s, I acc /\ exists es, (f s).1.2 = s.2 ++ es /\ during I (k (f s).2) (acc ++ es)
  end.

(** What holds at the end of every run, and of a part of it if it holds of the whole,
    holds wherever it is cut. *)
Lemma yields_during {A} (I : list event -> Prop) Q (p : observed W A) acc :
  (forall es es', I (es ++ es') -> I es) -> (forall r es, Q r es -> I es) ->
  yields Q p acc -> during I p acc.
Proof.
  intros Hpre HQ. revert acc. induction p as [a|e|X f c IH]; intros acc Hp; [by eapply HQ..|].
  intros s. split; [|destruct (Hp s) as (es & E & Hc); by eauto]. destruct s as [w d].
  destruct (yields_exec _ _ _ w d Hp) as (es & _ & H). by eapply Hpre, HQ.
Qed.

(** ** What every event satisfies *)

Context (P : event -> Prop).

Definition tells {A} (p : observed W A) : Prop := yields (fun _ es => Forall P es) p [].

Lemma tells_ret {A} (a : A) : tells (Ret a).
Proof. constructor. Qed.

Lemma tells_raise {A} (e : exn) : tells (A:=A) (Raise e).
Proof. constructor. Qed.

Lemma tells_bind {A B} (p : observed W A) (k : A -> observed W B) :
  tells p -> (forall a, tells (k a)) -> tells (p ≫= k).
Proof.
  intros Hp Hk. eapply yields_then; [exact Hp|done|]. intros a es Hes. eapply yields_mono; [apply Hk|].
  intros r es' Hes'. by apply Forall_app.
Qed.

Lemma tells_attempt {A} (p : observed W A) : tells p -> tells (attempt p).
Proof. intros Hp. by apply (yields_attempt (fun _ es => Forall P es)). Qed.

Lemma tells_for_each {A} (body : A -> observed W unit) (l : list A) :
  (forall x, tells (body x)) -> tells (for_each body l).
Proof. intros Hb. induction l as [|x l IH]; [constructor|]. by apply (tells_bind (body x)). Qed.

Lemma tells_lift {A} (p : prog W exn A) : tells (lift p).
Proof. apply yields_lift. constructor. Qed.

Lemma tells_look : tells look.
Proof. apply yields_look. constructor. Qed.

Lemma tells_record i v attrs : P (Measured i v attrs) -> tells (record i v attrs).
Proof. intros HP. apply yields_record. by repeat constructor. Qed.

Lemma tells_say ctx logger level message extra exception :
  (forall now, P (Logged (filter_record ctx (log_record now logger level message extra exception)))) ->
  tells (say ctx logger level message extra exception).
Proof. intros HP. apply yields_say. intros now. by repeat constructor. Qed.
End Yields.

(** In a pool, a process that starts and runs to its end with the others still. *)
Lemma pool_alone {W E} (spawn : prog W E unit -> Prop) env (t : prog W E unit) w :
  spawn t -> exists t', rtc (pool_step spawn env) ([], w) ([t'], (exec t w).1).
Proof.
  intros Ht. assert (forall t w, exists t', rtc (pool_step spawn env) ([t], w) ([t'], (exec t w).1)) as H.
  { clear. intros t. induction t as [a|e|X f k IH]; intros w; [by eexists|by eexists|].
    destruct (IH (f w).2 (f w).1) as [t' Ht']. exists t'. eapply rtc_l; [apply (pool_run _ _ [] [])|done]. }
  destruct (H t w) as [t' Ht']. exists t'. eapply rtc_l; [by apply pool_spawn|done].
Qed.

Lemma silent_ret {W D E A} (a : A) : silent (Ret a : prog (W * D) E A).
Proof. done. Qed.
Lemma silent_look {W} `{!Clocked W} : silent (look (W:=W)).
Proof. done. Qed.
Lemma silent_record {W} i v attrs : silent (record (W:=W) i v attrs).
Proof. done. Qed.
Lemma silent_say {W} `{!Clocked W} ctx logger level message extra exception :
  silent (say (W:=W) ctx logger level message extra exception).
Proof. done. Qed.

(** * Automation *)

Create HintDb observed.
#[export] Hint Resolve silent_ret silent_look silent_record silent_say silent_bind erases_lift erases_ret erases_raise
  erases_attempt erases_for_each : observed.
#[export] Hint Extern 4 (silent (if ?b then _ else _)) => destruct b : observed.

#[export] Hint Resolve tells_ret tells_raise tells_attempt tells_for_each tells_lift tells_look : observed.

(** Down a program; what is left are its log lines. *)
Ltac tells_walk :=
  repeat first
    [ progress (intros; cbv beta)
    | solve [eauto with observed]
    | apply tells_bind
    | apply tells_attempt
    | apply tells_for_each
    | apply tells_record
    | apply tells_say
    | case_match ].

(** Down both programs at once; a [match] is followed in each of its cases. *)
Ltac erases_walk :=
  repeat first
    [ progress (intros; cbv beta)
    | solve [eauto with observed]
    | apply erases_silent; [solve [eauto with observed]|]
    | apply erases_bind
    | apply erases_attempt
    | apply erases_tail; [solve [eauto with observed]|]
    | case_match ].
