(* ===== verification/Credits.v ===== *)
(** Counting by credits.

    A balance [bal s s'] says what an effect from [s] to [s'] earns, less what it
    spends.  A program is [funded] with [n] credits when it never spends what it and
    they have not earned, whatever the other processes do between its effects; in a
    pool of funded threads all that was spent is covered by what was earned, although
    any thread may die with its credits ([pool_covers]).

    With the balance "rows changed less measurements recorded" this bounds a counter
    by the changes it stands for ([counter_covered]). *)
From stdpp Require Import base tactics option list gmap strings numbers relations.
From S2P Require Import Prelude Prog Uuid Model Services Logging Meters.
Set Default Goal Selector "!".
Open Scope Z_scope.

(** * Totals of a run *)

(** [g] summed over the steps of a run. *)
Inductive run_total {C} (R : C -> C -> Prop) (g : C -> C -> Z) : C -> Z -> C -> Prop :=
| run_total_refl c : run_total R g c 0 c
| run_total_step c c1 z c' : R c c1 -> run_total R g c1 z c' -> run_total R g c (g c c1 + z) c'.

Lemma run_total_rtc {C} (R : C -> C -> Prop) g c z c' : run_total R g c z c' -> rtc R c c'.
Proof. induction 1; [done|]. by eapply rtc_l. Qed.

Lemma rtc_run_total {C} (R : C -> C -> Prop) g c c' : rtc R c c' -> exists z, run_total R g c z c'.
Proof. induction 1 as [c|c c1 c' Hs _ [z Hz]]; [eexists; constructor|]. eexists. by econstructor. Qed.

Lemma run_total_trans {C} (R : C -> C -> Prop) g c z c1 z' c' :
  run_total R g c z c1 -> run_total R g c1 z' c' -> run_total R g c (z + z') c'.
Proof. induction 1 as [|c c1 z c2 Hs _ IH]; [done|]. intros Hr. rewrite <-Z.add_assoc. econstructor; eauto. Qed.

(** The changes of [h] along the run add up. *)
Lemma run_total_less {C} (R : C -> C -> Prop) g (h : C -> Z) c z c' :
  run_total R g c z c' -> run_total R (fun c c1 => g c c1 - (h c1 - h c)) c (z - (h c' - h c)) c'.
Proof.
  induction 1 as [c|c c1 z c' Hs _ IH]; [replace (0 - _) with 0 by lia; constructor|].
  replace (g c c1 + z - _) with ((g c c1 - (h c1 - h c)) + (z - (h c' - h c1))) by lia.
  exact (run_total_step R (fun c c1 => g c c1 - (h c1 - h c)) _ _ _ _ Hs IH).
Qed.

(** In a pool whose effects stay in [R], a [g] that is there the growth of [h]. *)
Lemma pool_total_along {S E} (spawn : prog S E unit -> Prop) (env R : S -> S -> Prop) (g : S -> S -> Z) (h : S -> Z) c z c' :
  (forall t, spawn t -> all_steps R t) -> (forall s s', env s s' -> R s s') ->
  (forall s s', R s s' \/ s = s' -> g s s' = h s' - h s) ->
  run_total (pool_step spawn env) (fun c c1 => g c.2 c1.2) c z c' -> Forall (all_steps R) c.1 -> z = h c'.2 - h c.2.
Proof.
  intros Hspawn Henv Hg. induction 1 as [c|c c1 z c' Hstep _ IH]; [lia|]. intros Hc.
  assert (Forall (all_steps R) c1.1 /\ (R c.2 c1.2 \/ c.2 = c1.2)) as [Hc1 Hr].
  { clear IH. destruct Hstep as [us1 us2 X f k s|us1 us2 u s|us u s Hu|us s s' Hs]; simpl in *;
      rewrite ?Forall_app, ?Forall_cons in *; [|tauto|by auto|by auto].
    destruct Hc as (H1 & [Hf Hk] & H2). by auto. }
  rewrite (Hg _ _ Hr), (IH Hc1). lia.
Qed.

(** * Funded programs *)

Section Funded.
Context {S E : Type} (bal : S -> S -> Z).

Fixpoint funded {A} (Q : E + A -> Z -> Prop) (p : prog S E A) (n : Z) : Prop :=
  match p with
  | Ret a => Q (inr a) n
  | Raise e => Q (inl e) n
  | Step f k => forall s, let m := n + bal s (f s).1 in 0 <= m /\ funded Q (k (f s).2) m
  end.

Lemma funded_mono {A} (Q Q' : E + A -> Z -> Prop) (p : prog S E A) n :
  funded Q p n -> (forall r m, Q r m -> Q' r m) -> funded Q' p n.
Proof.
  revert n. induction p as [a|e|X f c IH]; intros n; simpl; [by auto..|].
  intros Hp HQ s. destruct (Hp s). split; eauto.
Qed.

Lemma funded_bind {A B} (Q : E + B -> Z -> Prop) (p : prog S E A) (k : A -> prog S E B) n :
  funded (fun r m => match r with inr a => funded Q (k a) m | inl e => Q (inl e) m end) p n ->
  funded Q (p ≫= k) n.
Proof.
  revert n. induction p as [a|e|X f c IH]; intros n; simpl; [done..|].
  intros Hp s. destruct (Hp s). split; [done|]. by apply IH.
Qed.

Lemma funded_attempt {A} (Q : E + (E + A) -> Z -> Prop) (p : prog S E A) n :
  funded (fun r m => Q (inr r) m) p n -> funded Q (attempt p) n.
Proof.
  revert n. induction p as [a|e|X f c IH]; intros n; simpl; [done..|].
  intros Hp s. destruct (Hp s). split; [done|]. by apply IH.
Qed.

(** ** Programs that pay for themselves *)

Definition solvent {A} (p : prog S E A) : Prop :=
  forall n, 0 <= n -> funded (fun _ m => n <= m) p n.

Lemma solvent_ret {A} (a : A) : solvent (Ret a).
Proof. intros n Hn. simpl. lia. Qed.

Lemma solvent_raise {A} (e : E) : solvent (Raise e : prog S E A).
Proof. intros n Hn. simpl. lia. Qed.

Lemma solvent_bind {A B} (p : prog S E A) (k : A -> prog S E B) :
  solvent p -> (forall a, solvent (k a)) -> solvent (p ≫= k).
Proof.
  intros Hp Hk n Hn. apply funded_bind. eapply funded_mono; [by apply Hp|]. intros [e|a] m Hm; [done|].
  eapply funded_mono; [apply Hk; lia|]. simpl. lia.
Qed.

Lemma solvent_attempt {A} (p : prog S E A) : solvent p -> solvent (attempt p).
Proof. intros Hp n Hn. by apply funded_attempt, Hp. Qed.

Lemma solvent_act {X} (f : S -> S * X) : (forall s, 0 <= bal s (f s).1) -> solvent (act f).
Proof. intros Hf n Hn s. specialize (Hf s). split; simpl; lia. Qed.

Lemma solvent_for_each {A} (body : A -> prog S E unit) (l : list A) :
  (forall x, solvent (body x)) -> solvent (for_each body l).
Proof. intros Hb. induction l as [|x l IH]; [apply solvent_ret|]. by apply (solvent_bind (body x)). Qed.

(** Where nothing is ever spent. *)
Lemma solvent_free {A} (p : prog S E A) : (forall s s', 0 <= bal s s') -> solvent p.
Proof.
  intros Hb. induction p as [a|e|X f c IH]; [apply solvent_ret|apply solvent_raise|]. intros n Hn s.
  specialize (Hb s (f s).1). split; [lia|]. eapply funded_mono; [apply IH; lia|]. simpl. lia.
Qed.

(** ** Programs that earn *)

(** A value [a] with [c a] comes with one credit. *)
Definition earns {A} (c : A -> bool) (p : prog S E A) : Prop :=
  forall n, 0 <= n -> funded (fun r m => match r with inr a => n + Z.b2z (c a) <= m | inl _ => n <= m end) p n.

Lemma earns_act {X} (c : X -> bool) (f : S -> S * X) :
  (forall s, Z.b2z (c (f s).2) <= bal s (f s).1) -> earns c (act f).
Proof. intros Hf n Hn s. specialize (Hf s). assert (0 <= Z.b2z (c (f s).2)) by (destruct (c _); simpl; lia). split; simpl; lia. Qed.

Lemma earns_later {A B} (c : B -> bool) (p : prog S E A) (k : A -> prog S E B) :
  solvent p -> (forall a, earns c (k a)) -> earns c (p ≫= k).
Proof.
  intros Hp Hk n Hn. apply funded_bind. eapply funded_mono; [by apply Hp|]. intros [e|a] m Hm; [done|].
  eapply funded_mono; [apply Hk; lia|]. intros [e|b] m'; simpl; lia.
Qed.

(** The rest may need what was earned to be known. *)
Lemma earns_first {A B} (c : A -> bool) (d : B -> bool) (p : prog S E A) (k : A -> prog S E B) :
  earns c p -> (forall a, c a = true -> solvent (k a)) -> (forall a, c a = false -> earns d (k a)) ->
  earns d (p ≫= k).
Proof.
  intros Hp Ht Hf n Hn. apply funded_bind. eapply funded_mono; [by apply Hp|]. intros [e|a] m Hm; [done|].
  destruct (c a) eqn:Hc; simpl in Hm.
  - eapply funded_mono; [apply Ht; [done|lia]|]. intros [e|b] m' Hm'; [lia|].
    destruct (d b); simpl; lia.
  - eapply funded_mono; [apply Hf; [done|lia]|]. intros [e|b] m'; simpl; lia.
Qed.

Lemma earns_raise {A} (c : A -> bool) (e : E) : earns c (Raise e : prog S E A).
Proof. intros n Hn. simpl. lia. Qed.

(** ** A pool of funded threads *)

(** A thread with its credits. *)
Definition rich (t : prog S E unit) (n : Z) : Prop := 0 <= n /\ funded (fun _ _ => True) t n.

Definition sum (ns : list Z) : Z := foldr Z.add 0 ns.

Lemma sum_cons n l : sum (n :: l) = n + sum l.
Proof. done. Qed.

Lemma sum_app l1 l2 : sum (l1 ++ l2) = sum l1 + sum l2.
Proof. induction l1 as [|n l1 IH]; [done|]. rewrite <-app_comm_cons, !sum_cons, IH. lia. Qed.

Lemma credits_nonneg ts ns : Forall2 rich ts ns -> 0 <= sum ns.
Proof. induction 1 as [|t n ts ns [? _] _ IH]; [done|]. rewrite sum_cons. lia. Qed.

Lemma rich_solvent t : solvent t -> rich t 0.
Proof. intros Ht. split; [lia|]. by eapply funded_mono; [apply Ht|]. Qed.

Lemma pool_covers (spawn : prog S E unit -> Prop) (env : S -> S -> Prop) c z c' :
  (forall t, spawn t -> solvent t) -> (forall s s', env s s' -> 0 <= bal s s') -> (forall s, 0 <= bal s s) ->
  run_total (pool_step spawn env) (fun c c1 => bal c.2 c1.2) c z c' ->
  forall ns, Forall2 rich c.1 ns -> 0 <= sum ns + z.
Proof.
  intros Hspawn Henv Hidle. induction 1 as [c|c c1 z c' Hstep _ IH]; intros ns Hns.
  { apply credits_nonneg in Hns. lia. }
  assert (exists ns', Forall2 rich c1.1 ns' /\ sum ns' <= sum ns + bal c.2 c1.2) as (ns' & H' & Hs).
  { clear IH. destruct Hstep as [us1 us2 X f k s|us1 us2 u s|us u s Hu|us s s' Hs]; simpl in *.
    - apply Forall2_app_inv_l in Hns as (n1 & n2 & H1 & H2 & ->).
      apply Forall2_cons_inv_l in H2 as (n & n2' & [Hn Hf] & H2 & ->). destruct (Hf s) as [Hm Hk].
      exists (n1 ++ (n + bal s (f s).1) :: n2'). split; [by apply Forall2_app, Forall2_cons; auto|].
      rewrite !sum_app, !sum_cons. lia.
    - apply Forall2_app_inv_l in Hns as (n1 & n2 & H1 & H2 & ->).
      apply Forall2_cons_inv_l in H2 as (n & n2' & [Hn _] & H2 & ->).
      exists (n1 ++ n2'). split; [by apply Forall2_app|]. rewrite !sum_app, sum_cons.
      pose proof (Hidle s). lia.
    - exists (0 :: ns). split; [constructor; [by apply rich_solvent, Hspawn|done]|]. rewrite sum_cons.
      pose proof (Hidle s). lia.
    - exists ns. split; [done|]. pose proof (Henv _ _ Hs). lia. }
  specialize (IH ns' H'). lia.
Qed.
End Funded.

(** * Counters *)

(** What is recorded on a counter. *)
Definition counted (i : instrument) (es : list event) : Z := foldr (fun m z => m.1 + z) 0 (measures i es).

Lemma counted_app i es1 es2 : counted i (es1 ++ es2) = counted i es1 + counted i es2.
Proof.
  unfold counted. rewrite measures_app. induction (measures i es1) as [|m l IH]; [done|]. cbn in *. rewrite IH. lia.
Qed.

Section Counters.
Context {W : Type} `{!Clocked W} (gain : W -> W -> Z) (gain_pos : forall w w', 0 <= gain w w') (i : instrument).

(** What the world gains less what the counter does. *)
Definition balance (s s' : W * list event) : Z := gain s.1 s'.1 - (counted i s'.2 - counted i s.2).

Lemma funded_lift {A} (Q : exn + A -> Z -> Prop) (p : prog W exn A) n :
  funded gain Q p n -> funded balance Q (lift p) n.
Proof.
  revert n. induction p as [a|e|X f c IH]; intros n; simpl; [done..|]. intros Hp s. destruct (Hp s.1) as [Hm Hk].
  unfold balance. simpl. rewrite Z.sub_diag, Z.sub_0_r. split; [done|]. by apply IH.
Qed.

Lemma solvent_lift {A} (p : prog W exn A) : solvent balance (lift p).
Proof. intros n Hn. by apply funded_lift, (solvent_free gain). Qed.

Lemma solvent_look : solvent balance look.
Proof. apply solvent_act. intros s. unfold balance. simpl. specialize (gain_pos s.1 s.1). lia. Qed.

Lemma solvent_say ctx logger level message extra exception : solvent balance (say ctx logger level message extra exception).
Proof.
  apply solvent_act. intros s. unfold balance. simpl. rewrite counted_app. cbn. specialize (gain_pos s.1 s.1). lia.
Qed.

Lemma counted_other i' v attrs : i' <> i -> counted i [Measured i' v attrs] = 0.
Proof. intros Hi. unfold counted, measures. simpl. by rewrite decide_False. Qed.

Lemma solvent_record i' v attrs : i' <> i -> solvent balance (record i' v attrs).
Proof.
  intros Hi. apply solvent_act. intros s. unfold balance. simpl. rewrite counted_app, counted_other by done.
  specialize (gain_pos s.1 s.1). lia.
Qed.

Lemma balance_own (s : W * list event) v attrs :
  balance s (s.1, s.2 ++ [Measured i v attrs]) = gain s.1 s.1 - v.
Proof.
  unfold balance. simpl. rewrite counted_app. unfold counted at 2, measures. simpl.
  rewrite decide_True by done. simpl. lia.
Qed.

(** What is earned pays for one on the counter. *)
Lemma solvent_earned {A B} (c : A -> bool) (p : prog W exn A) (pay : A -> observed W unit) (k : A -> observed W B) :
  earns gain c p ->
  (forall a, c a = true -> exists attrs, pay a = record i 1 attrs) -> (forall a, c a = false -> solvent balance (pay a)) ->
  (forall a, solvent balance (k a)) ->
  solvent balance (a ← lift p; _ ← pay a; k a).
Proof.
  intros Hp Hpay Hnot Hk n Hn. apply funded_bind, funded_lift. eapply funded_mono; [by apply Hp|].
  intros [e|a] m Hm; [done|]. destruct (c a) eqn:Hc; simpl in Hm.
  - destruct (Hpay a Hc) as [attrs ->]. apply funded_bind. intros s. cbn [fst snd]. rewrite balance_own.
    specialize (gain_pos s.1 s.1). split; [lia|].
    change (funded balance (fun _ m' => n <= m') (k a) (m + (gain s.1 s.1 - 1))).
    eapply funded_mono; [apply Hk; lia|]. simpl. lia.
  - eapply funded_mono; [apply (solvent_bind _ (pay a) (fun _ => k a)); [by apply Hnot|done|lia]|]. simpl. lia.
Qed.
(** In a pool of processes that pay for what they count, the counter never runs
    ahead of the gains of the run. *)
Lemma counter_covered (spawn : observed W unit -> Prop) (env : W * list event -> W * list event -> Prop) s z c' :
  (forall t, spawn t -> solvent balance t) -> (forall s s', env s s' -> s'.2 = s.2) ->
  run_total (pool_step spawn env) (fun c c1 => gain c.2.1 c1.2.1) ([], s) z c' ->
  counted i c'.2.2 - counted i s.2 <= z.
Proof.
  intros Hspawn Henv Hz. apply (run_total_less _ _ (fun c => counted i c.2.2)) in Hz.
  apply (pool_covers balance spawn env) with (ns := []) in Hz; [cbn in Hz; lia|done|..].
  - intros s1 s2 H. unfold balance. rewrite (Henv _ _ H). specialize (gain_pos s1.1 s2.1). lia.
  - intros s1. unfold balance. specialize (gain_pos s1.1 s1.1). lia.
  - constructor.
Qed.
End Counters.

(** * Automation *)

Create HintDb credits.
#[export] Hint Resolve solvent_ret solvent_raise solvent_attempt solvent_for_each solvent_lift solvent_look
  solvent_say : credits.
#[export] Hint Extern 5 (solvent _ (record _ _ _)) => apply solvent_record; [assumption|discriminate] : credits.

(** Down a program that leaves the counter alone. *)
Ltac solvent_walk :=
  repeat first
    [ progress (intros; cbv beta)
    | solve [eauto with credits]
    | apply solvent_bind
    | apply solvent_attempt
    | apply solvent_for_each
    | case_match ].
