(* ===== verification/Worker.v ===== *)
(** The worker (app/worker/runner.py, recycler.py): the processing of one job, of
    one delivered message, and the loop that pulls work under a semaphore.

    What is measured and logged is in Observed.v, which ObservedFacts.v proves to have
    no effect; spans are left out, as is [session.rollback()]: every transaction of the model is committed or absent. *)
From stdpp Require Import base tactics option list gmap strings numbers pretty.
From Stdlib Require Import Ascii.
From S2P Require Import Prelude Prog Uuid Model Services Repository Queue Retry Json Handlers Payloads.
Set Default Goal Selector "!".
Open Scope Z_scope.

(** * Outcomes *)

Record Outcome := mkOutcome { o_ack : bool; o_label : string }.

(** ** [f"{x}"] of a float of microseconds, for [x >= 0.0001] *)

Fixpoint trim_zeros (l : list ascii) : list ascii :=
  match l with
  | [] => []
  | c :: l' =>
      match trim_zeros l' with
      | [] => if bool_decide (c = "0"%char) then [] else [c]
      | r => c :: r
      end
  end.

Definition pad6 (n : Z) : list ascii :=
  let d := text (pretty n) in repeat "0"%char (6 - length d) ++ d.

Definition float_text (us : Z) : string :=
  let frac := trim_zeros (pad6 (us mod 1000000)) in
  (pretty (us / 1000000) +:+ "." +:+
    (if bool_decide (frac = []) then "0" else String.string_of_list_ascii frac))%string.

(** [{"type": ..., "message": ...}] *)
Definition error_json (type message : string) : json :=
  JObj [("type", JStr type); ("message", JStr message)]%string.

Section Worker.
Context {PG : Postgres} {RD : Redis} {EN : Entropy} {OT : Otel} {PY : Pydantic}.
Context (settings : Settings).

(** ** process_job *)

(** The body of the [try]. *)
Definition run_job (job : Job) : coroutine json :=
  payload ← or_raise (validate_payload (j_type job) (j_payload job) (Some settings));
  run_with_timeout
    (run_handler (j_type job) payload
       (new_context (j_id job) (cancel_poll_interval_s settings)))
    (job_handler_timeout_s settings).

(** The [except] clauses. *)
Definition settle_error (job : Job) (e : exn) : coroutine Outcome :=
  match e with
  | JobCancelled summary =>
      won ← pg (fun now => cancel_job now (j_id job) summary);
      Ret (mkOutcome won "cancelled")
  | HandlerTimeout =>
      won ← schedule_retry_or_fail settings job
        (error_json "HandlerTimeout" (">" +:+ float_text (job_handler_timeout_s settings) +:+ "s")%string)
        None;
      Ret (mkOutcome won "timeout")
  | CancelledError => Raise CancelledError
  | PayloadPolicyError msg =>
      won ← pg (fun now => fail_job now (j_id job) (error_json "PayloadPolicyError" msg));
      Ret (mkOutcome won "policy_rejected")
  | e =>
      won ← schedule_retry_or_fail settings job (error_json (exn_name e) (exn_str e)) None;
      Ret (mkOutcome won "retried")
  end.

(** After the [try]. *)
Definition settle_result (job : Job) (result : json) : coroutine Outcome :=
  won ← pg (fun now => complete_job now (j_id job) result
              (if decide (j_type job = batch) then Some 100 else None));
  if won : bool then Ret (mkOutcome true "completed") else Ret (mkOutcome false "lost").

(** What follows the claim, with the row read back. *)
Definition process_claimed (job : Job) : coroutine Outcome :=
  match j_user_id job with
  | None =>
      won ← pg (fun now => fail_job now (j_id job)
                  (JObj [("reason", JStr "ownerless job dropped")]%string));
      Ret (mkOutcome won "dropped_ownerless")
  | Some _ =>
      _ ← (if decide (j_type job = batch) then pg (fun _ => init_progress (j_id job)) else Ret true);
      r ← attempt (run_job job);
      match r with
      | inl e => settle_error job e
      | inr result => settle_result job result
      end
  end.

Definition process_job (job_id : uuid) : coroutine Outcome :=
  claimed ← pg (fun now => claim_job now job_id);
  if claimed : bool then
    found ← pg_read (get_job job_id None);
    row ← or_raise found;
    match row with
    | None => Raise (OtherError "AttributeError" "'NoneType' object has no attribute 'type'")
    | Some job => process_claimed job
    end
  else Ret (mkOutcome true "skipped").

(** ** handle_message *)

(** [UUID(fields["job_id"])], [None] for the exceptions that make the message poison. *)
Definition message_job (f : fields) : option uuid := f !! "job_id"%string ≫= parse_uuid.

Definition handle_message (m : delivery) : coroutine Outcome :=
  let '(stream, message_id, f) := m in
  match message_job f with
  | None =>
      _ ← ack stream (consumer_group settings) message_id;
      Ret (mkOutcome true "poison")
  | Some job_id =>
      outcome ← process_job job_id;
      _ ← (if o_ack outcome then ack stream (consumer_group settings) message_id else Ret tt);
      Ret outcome
  end.

(** ** One round of the loop of run_forever *)

(** The read, and the message a task is created for. *)
Definition pull (consumer : string) : coroutine (option delivery) :=
  batch ← read_priority (ordered_streams settings) (consumer_group settings) consumer
            (block_ms settings) 1;
  Ret (match batch with [] => None | m :: _ => Some m end).

(** A round with its task run at once (a worker of one slot). *)
Definition worker_round (consumer : string) : coroutine unit :=
  m ← pull consumer;
  match m with
  | None => Ret tt
  | Some m => _ ← handle_message m; Ret tt
  end.

(** The groups a process needs before its loop. *)
Definition ensure_groups : coroutine unit :=
  for_each (fun stream => ensure_group stream (consumer_group settings)) (ordered_streams settings).
End Worker.

(** * MemoryRecycler *)

Record MemoryRecycler := mkRecycler {
  _max_bytes : option Z;
  triggered : bool;
}.

Definition _MB : Z := 1024 * 1024.

Definition new_recycler (max_rss_mb : option Z) : MemoryRecycler :=
  mkRecycler ((fun mb => mb * _MB) <$> max_rss_mb) false.

(** [rss] is what the process would read now. *)
Definition should_recycle (rss : Z) (r : MemoryRecycler) : MemoryRecycler * bool :=
  match _max_bytes r with
  | None => (r, triggered r)
  | Some limit =>
      if triggered r then (r, true)
      else if limit <? rss then (mkRecycler (Some limit) true, true) else (r, false)
  end.

(** * The loop under the semaphore *)

(** Where [run_forever] is: at the head of the loop, waiting for a slot, reading
    with a slot held, leaving through the task group, or gone. *)
Inductive phase := Head | Acquire | Reading | Draining | Stopped.

Record loop := mkLoop {
  l_phase : phase;
  l_free : nat;
  l_tasks : list delivery;
  l_recycler : MemoryRecycler;
}.

Definition loop_start (settings : Settings) : loop :=
  mkLoop Head (worker_concurrency settings) [] (new_recycler (worker_max_rss_mb settings)).

(** One step, with what the environment answers: the stop flag and the RSS read
    at the head, the batch read, a task that ends.  A task that raises makes the
    task group cancel the loop, which gives back the slot of a pending read. *)
Inductive loop_step : loop -> loop -> Prop :=
| loop_stop free tasks r :
    loop_step (mkLoop Head free tasks r) (mkLoop Draining free tasks r)
| loop_check rss free tasks r :
    loop_step (mkLoop Head free tasks r)
      (mkLoop (if (should_recycle rss r).2 then Draining else Acquire) free tasks (should_recycle rss r).1)
| loop_acquire free tasks r :
    loop_step (mkLoop Acquire (S free) tasks r) (mkLoop Reading free tasks r)
| loop_empty free tasks r :
    loop_step (mkLoop Reading free tasks r) (mkLoop Head (S free) tasks r)
| loop_error free tasks r :
    loop_step (mkLoop Reading free tasks r) (mkLoop Draining (S free) tasks r)
| loop_task (batch : list delivery) m free tasks r :
    head batch = Some m ->
    loop_step (mkLoop Reading free tasks r) (mkLoop Head free (tasks ++ [m]) r)
| loop_finish p ts1 m ts2 free r :
    loop_step (mkLoop p free (ts1 ++ m :: ts2) r) (mkLoop p (S free) (ts1 ++ ts2) r)
| loop_raise p ts1 m ts2 free r :
    loop_step (mkLoop p free (ts1 ++ m :: ts2) r)
      (mkLoop Draining (S (match p with Reading => S free | _ => free end)) (ts1 ++ ts2) r)
| loop_drained free r :
    loop_step (mkLoop Draining free [] r) (mkLoop Stopped free [] r).
