(* ===== verification/Ticker.v ===== *)
(** The ticker (app/ticker/runner.py): promotion of due jobs, recovery of jobs that
    never reached Redis, the reaper of stale deliveries, and one tick of the loop.

    The two [while True] loops carry fuel; [OutOfFuel] marks a run that used it up. *)
From stdpp Require Import base tactics option list gmap strings numbers.
From S2P Require Import Prelude Prog Uuid Model Services Repository Queue Retry Handlers Worker.
Set Default Goal Selector "!".
Open Scope Z_scope.

Section Ticker.
Context {PG : Postgres} {RD : Redis} {EN : Entropy} {OT : Otel}.
Context (settings : Settings).

(** ** promote_due *)

(** [[UUID(i) for i in ids]] *)
Fixpoint parse_ids (ids : list string) : exn + list uuid :=
  match ids with
  | [] => inr []
  | i :: ids' =>
      match parse_uuid i with
      | None => inl (ValueError "badly formed hexadecimal UUID string")
      | Some u => match parse_ids ids' with inl e => inl e | inr us => inr (u :: us) end
      end
  end.

(** The messages to enqueue: an id without a row is dropped. *)
Definition route (info : gmap uuid (JobPriority * option fields)) (ids : list string) :
    list (string * fields) :=
  omap (fun i =>
    match parse_uuid i ≫= (fun u => info !! u) with
    | None => None
    | Some (priority, carrier) =>
        let stream := stream_for_priority settings priority in
        Some (stream, message_fields stream i carrier)
    end) ids.

Definition promote_due : coroutine nat :=
  now_epoch ← clock;
  ids ← due_job_ids (delayed_zset settings) now_epoch (ticker_batch_size settings);
  match ids with
  | [] => Ret 0%nat
  | _ =>
      us ← or_raise (parse_ids ids);
      info ← pg_read (get_promotion_info us);
      _ ← promote (delayed_zset settings) (route info ids) ids;
      _ ← pg (fun _ => promote_scheduled_to_pending us);
      Ret (length ids)
  end.

(** ** reconcile_orphans *)

(** The hand-off of a row to Redis, as the reconciler and the reaper do it. *)
Definition handoff_scheduled (job : Job) (scheduled_at : datetime) : coroutine unit :=
  schedule (delayed_zset settings) (str_uuid (j_id job)) scheduled_at.

Definition handoff_pending (job : Job) : coroutine unit :=
  _ ← enqueue (stream_for_priority settings (j_priority job)) (str_uuid (j_id job))
        (j_trace_context job);
  Ret tt.

(** One row; [true] when it was handed off, [false] for the [continue]. *)
Definition reconcile_one (job : Job) : coroutine bool :=
  if decide (j_status job = scheduled) then
    match j_scheduled_at job with
    | None => Ret false
    | Some scheduled_at =>
        _ ← handoff_scheduled job scheduled_at;
        _ ← pg (fun _ => mark_synced (j_id job));
        Ret true
    end
  else
    _ ← handoff_pending job;
    _ ← pg (fun _ => mark_synced (j_id job));
    Ret true.

Fixpoint reconcile_rows (rows : list Job) (total : nat) : coroutine nat :=
  match rows with
  | [] => Ret total
  | job :: rows' =>
      done ← reconcile_one job;
      reconcile_rows rows' (if done : bool then S total else total)
  end.

(** A session answers a row it still holds with the object it loaded before. *)
Definition from_session (held rows : list Job) : list Job :=
  (fun j => default j (list_find (fun h => j_id h = j_id j) held ≫= fun ih => Some ih.2)) <$> rows.

(** [held] is the batch of the previous round, alive until [rows] is assigned. *)
Fixpoint reconcile_loop (fuel : nat) (cutoff : datetime) (held : list Job) (total : nat) :
    coroutine nat :=
  match fuel with
  | O => Raise OutOfFuel
  | S fuel' =>
      found ← pg_read (list_unsynced cutoff (reconcile_batch_size settings));
      match from_session held found with
      | [] => Ret total
      | rows =>
          total' ← reconcile_rows rows total;
          if decide (length rows < reconcile_batch_size settings)%nat then Ret total'
          else reconcile_loop fuel' cutoff rows total'
      end
  end.

Definition reconcile_orphans (fuel : nat) : coroutine nat :=
  now ← clock;
  reconcile_loop fuel (now - reconcile_grace_s settings) [] 0.

(** ** The reaper *)

Definition worker_lost : json := error_json "WorkerLost" "reclaimed by reaper".

(** What happens to the row of a reclaimed entry. *)
Definition reap_row (job : Job) : coroutine unit :=
  match j_status job with
  | completed | failed | cancelled => Ret tt
  | processing =>
      _ ← schedule_retry_or_fail settings job worker_lost (j_trace_context job); Ret tt
  | pending | scheduled =>
      if j_is_synced_to_redis job then Ret tt
      else
        _ ← (match j_status job, j_scheduled_at job with
             | scheduled, Some scheduled_at => handoff_scheduled job scheduled_at
             | _, _ => handoff_pending job
             end);
        pg (fun _ => mark_synced (j_id job))
  end.

Definition _reap_one (stream : string) (message_id : stream_id) (job_id : uuid) : coroutine unit :=
  found ← pg_read (get_job job_id None);
  row ← or_raise found;
  _ ← (match row with Some job => reap_row job | None => Ret tt end);
  ack stream (consumer_group settings) message_id.

(** One reclaimed entry; a poison entry is only acknowledged. *)
Definition reap_entry (stream : string) (m : stream_id * fields) : coroutine unit :=
  match message_job m.2 with
  | None => ack stream (consumer_group settings) m.1
  | Some job_id => _reap_one stream m.1 job_id
  end.

Definition min_idle : Z := visibility_timeout_s settings / 1000.

Fixpoint reap_loop (fuel : nat) (stream : string) (cursor : stream_id) (handled : nat) :
    coroutine nat :=
  match fuel with
  | O => Raise OutOfFuel
  | S fuel' =>
      resp ← redis_try (xautoclaim stream (consumer_group settings) REAPER_NAME min_idle cursor
                          (reaper_batch_size settings));
      _ ← for_each (reap_entry stream) resp.2;
      let handled' := (handled + length resp.2)%nat in
      if decide (resp.1 = (0%N, 0%N)) then Ret handled'
      else reap_loop fuel' stream resp.1 handled'
  end.

Fixpoint reap_streams (fuel : nat) (streams : list string) (handled : nat) : coroutine nat :=
  match streams with
  | [] => Ret handled
  | stream :: streams' =>
      _ ← ensure_group stream (consumer_group settings);
      handled' ← reap_loop fuel stream (0%N, 0%N) handled;
      reap_streams fuel streams' handled'
  end.

Definition reap_stale (fuel : nat) : coroutine nat :=
  reap_streams fuel (ordered_streams settings) 0.

(** ** One tick of run_forever *)

(** A step of the tick that is due when its interval has passed since [last];
    answers the new [last], and the exception that ends the tick. *)
Definition when_due (now interval last : Z) (job : coroutine nat) : coroutine (option exn * Z) :=
  if interval <=? now - last then
    r ← attempt job;
    Ret (match r with inl e => (Some e, last) | inr _ => (None, now) end)
  else Ret (None, last).

(** The body of the [try]: its exception or the number promoted, and the times
    of the last reconciliation and of the last reaping. *)
Definition tick_body (fuel : nat) (last_reconcile last_reap : datetime) :
    coroutine ((exn + nat) * (datetime * datetime)) :=
  p ← attempt promote_due;
  match p with
  | inl e => Ret (inl e, (last_reconcile, last_reap))
  | inr promoted =>
      now ← clock;
      rc ← when_due now (reconcile_interval_s settings) last_reconcile (reconcile_orphans fuel);
      match rc with
      | (Some e, last_reconcile') => Ret (inl e, (last_reconcile', last_reap))
      | (None, last_reconcile') =>
          rp ← when_due now (reaper_interval_s settings) last_reap (reap_stale fuel);
          match rp with
          | (Some e, last_reap') => Ret (inl e, (last_reconcile', last_reap'))
          | (None, last_reap') => Ret (inr promoted, (last_reconcile', last_reap'))
          end
      end
  end.

Definition tick (fuel : nat) (last : datetime * datetime) : coroutine (datetime * datetime) :=
  b ← tick_body fuel last.1 last.2;
  match b.1 with
  | inl e =>
      if is_exception e then _ ← sleep (ticker_interval_s settings); Ret b.2 else Raise e
  | inr promoted =>
      if decide (ticker_batch_size settings <= promoted)%nat then Ret b.2
      else _ ← sleep (ticker_interval_s settings); Ret b.2
  end.

(** [rounds] turns of the loop, from its start. *)
Fixpoint ticks (rounds fuel : nat) (last : datetime * datetime) : coroutine unit :=
  match rounds with
  | O => Ret tt
  | S rounds' => last' ← tick fuel last; ticks rounds' fuel last'
  end.

Definition ticker_main (rounds fuel : nat) : coroutine unit :=
  _ ← ensure_groups settings; ticks rounds fuel (0, 0).
End Ticker.
