(* ===== verification/Idempotency.v ===== *)
(** The idempotency hash (app/idempotency.py): [json.dumps] with sorted keys and
    compact separators, SHA-256, and the hex digest; what is hashed determines the
    job. *)
From Stdlib Require Import Ascii.
From stdpp Require Import base tactics option list gmap strings numbers sorting pretty.
From S2P Require Import Prelude Prog Uuid Model Codecs Payloads Json JsonFacts.
Set Default Goal Selector "!".
Open Scope Z_scope.

(** [json.dumps(..., sort_keys=True, separators=(',', ':'))] *)
Definition dumps (v : json) : list ascii := json_dumps (text ",") (text ":") true v.

(** * SHA-256 *)

(** Words are integers below [2 ^ 32]. *)
Definition word (n : Z) : Z := Z.land n (2 ^ 32 - 1).
Definition rotr (k n : Z) : Z := word (Z.lor (Z.shiftr n k) (Z.shiftl n (32 - k))).
Definition shr (k n : Z) : Z := Z.shiftr n k.
Definition ch (x y z : Z) : Z := Z.lxor (Z.land x y) (Z.land (Z.lxor x (2 ^ 32 - 1)) z).
Definition maj (x y z : Z) : Z := Z.lxor (Z.lxor (Z.land x y) (Z.land x z)) (Z.land y z).
Definition big_sigma0 (x : Z) : Z := Z.lxor (Z.lxor (rotr 2 x) (rotr 13 x)) (rotr 22 x).
Definition big_sigma1 (x : Z) : Z := Z.lxor (Z.lxor (rotr 6 x) (rotr 11 x)) (rotr 25 x).
Definition small_sigma0 (x : Z) : Z := Z.lxor (Z.lxor (rotr 7 x) (rotr 18 x)) (shr 3 x).
Definition small_sigma1 (x : Z) : Z := Z.lxor (Z.lxor (rotr 17 x) (rotr 19 x)) (shr 10 x).

(** The primes, by trial division. *)
Definition is_prime (n : nat) : bool :=
  forallb (fun d => negb (n mod d =? 0)%nat) (seq 2 (n - 2)).
Definition primes_below (n : nat) : list nat := List.filter is_prime (seq 2 (n - 2)).

(** The integer cube root of [n], bit by bit from [2 ^ bits] down. *)
Fixpoint cube_root (bits : nat) (acc n : Z) : Z :=
  match bits with
  | O => acc
  | S b =>
      let acc' := acc + 2 ^ Z.of_nat b in
      cube_root b (if acc' ^ 3 <=? n then acc' else acc) n
  end.

(** The standard's tables: the first 32 bits of the fractional parts of the cube
    roots of the first 64 primes and of the square roots of the first 8. *)
Definition round_constants : list Z :=
  Eval vm_compute in
    (fun p => word (cube_root 36 0 (Z.of_nat p * 2 ^ 96))) <$> primes_below 312.
Definition initial_hash : list Z :=
  Eval vm_compute in (fun p => word (Z.sqrt (Z.of_nat p * 2 ^ 64))) <$> primes_below 20.

(** Big-endian bytes of an [n]-byte integer. *)
Fixpoint be_bytes (n : nat) (x : Z) : list Z :=
  match n with
  | O => []
  | S n' => be_bytes n' (x / 256) ++ [x mod 256]
  end.

Definition of_be_bytes (l : list Z) : Z := foldl (fun acc b => acc * 256 + b) 0 l.

(** The message with the bit 1, zeros and its length in bits. *)
Definition pad_message (m : list Z) : list Z :=
  let n := Z.of_nat (length m) in
  m ++ 0x80 :: repeat 0 (Z.to_nat ((55 - n) mod 64)) ++ be_bytes 8 (8 * n).

Fixpoint chunks (fuel n : nat) {A} (l : list A) : list (list A) :=
  match fuel, l with
  | S fuel', _ :: _ => take n l :: chunks fuel' n (drop n l)
  | _, _ => []
  end.

(** The message schedule, newest word first. *)
Fixpoint extend_schedule (rounds : nat) (rev_w : list Z) : list Z :=
  match rounds with
  | O => rev_w
  | S r =>
      let at_ i := nth i rev_w 0 in
      extend_schedule r (word (small_sigma1 (at_ 1%nat) + at_ 6%nat + small_sigma0 (at_ 14%nat) + at_ 15%nat) :: rev_w)
  end.

Definition schedule_words (block : list Z) : list Z :=
  rev (extend_schedule 48 (rev (of_be_bytes <$> chunks 16 4 block))).

Definition sha_round (s : list Z) (kw : Z * Z) : list Z :=
  match s with
  | [a; b; c; d; e; f; g; h] =>
      let t1 := word (h + big_sigma1 e + ch e f g + kw.1 + kw.2) in
      let t2 := word (big_sigma0 a + maj a b c) in
      [word (t1 + t2); a; b; c; word (d + t1); e; f; g]
  | _ => s
  end.

Definition compress (s block : list Z) : list Z :=
  zip_with (fun x y => word (x + y)) s
    (foldl sha_round s (zip round_constants (schedule_words block))).

Definition sha256 (m : list Z) : list Z :=
  let p := pad_message m in
  foldl compress initial_hash (chunks (length p) 64 p) ≫= be_bytes 4.

Definition hexdigest (l : list Z) : string :=
  String.string_of_list_ascii (l ≫= fun b => hex_fixed 2 (Z.to_N b)).

(** * canonical_hash *)

Definition canonical_blob (job_type : JobType) (payload : json) : list ascii :=
  dumps (JObj [("type", JStr (JobType_value job_type)); ("payload", payload)]%string).

(** [.encode()] is the identity on the ASCII text that [dumps] produces. *)
Definition canonical_hash (job_type : JobType) (payload : json) : string :=
  hexdigest (sha256 ((fun c => Z.of_N (N_of_ascii c)) <$> canonical_blob job_type payload)).

Example sha256_abc :
  hexdigest (sha256 [97; 98; 99]) =
  "ba7816bf8f01cfea414140de5dae2223b00361a396177a9cb410ff61f20015ad"%string.
Proof. vm_compute. reflexivity. Qed.

(** * The blob determines the job *)

Lemma sort_blob t p :
  sort_json (JObj [("type", JStr (JobType_value t)); ("payload", p)]%string) =
  JObj [("payload", sort_json p); ("type", JStr (JobType_value t))]%string.
Proof. reflexivity. Qed.

Lemma canonical_blob_plain t p : json_ok p -> Forall is_plain (codes (canonical_blob t p)).
Proof.
  intros Hp. unfold canonical_blob, dumps. rewrite dumps_sorted. apply dumps_plain; [plain|plain|].
  rewrite sort_blob. apply json_ok_obj. repeat constructor. by apply sort_json_ok.
Qed.

(** C37: What is hashed determines the job, and nothing more: the blob of a type and a
    payload whose floats are written as [repr] writes them is printable ASCII, strings
    of any characters included, so that [.encode()] is the identity on it, and parses
    back to the object of both, with keys sorted; two submissions have the same blob
    exactly when they have the same type and payloads that are equal up to the order
    of keys, at every depth.  So a replay under a key is refused only
    for a different job, and accepted for another one only on a collision of SHA-256. *)
Theorem canonical_blob_exact t p t' p' :
  json_ok p -> json_ok p' ->
  Forall is_plain (codes (canonical_blob t p)) /\
  utf8_encode (codes (canonical_blob t p)) = Some (codes (canonical_blob t p)) /\
  json_loads_text (codes (canonical_blob t p)) =
    Some (to_py (JObj [("payload", sort_json p); ("type", JStr (JobType_value t))]%string)) /\
  (canonical_blob t p = canonical_blob t' p' <-> t = t' /\ sort_json p = sort_json p').
Proof.
  intros Hp Hp'. pose proof (canonical_blob_plain t p Hp) as Hplain.
  split; [done|]. split; [by apply utf8_plain|].
  assert (forall t p, json_ok p -> json_loads_text (codes (canonical_blob t p)) =
    Some (to_py (JObj [("payload", sort_json p); ("type", JStr (JobType_value t))]%string))) as Hloads.
  { clear. intros t p Hp. unfold canonical_blob, dumps. rewrite dumps_sorted, sort_blob.
    apply (json_loads_dumps _ _ [] []); [done..|]. apply json_ok_obj. repeat constructor. by apply sort_json_ok. }
  split; [by apply Hloads|]. split.
  - intros E. pose proof (Hloads t p Hp) as H. rewrite E, (Hloads t' p' Hp') in H.
    apply (inj Some), to_py_inj in H. injection H as -> Ht. split; [by destruct t, t'|done].
  - intros [-> Hs]. unfold canonical_blob, dumps. by rewrite !dumps_sorted, !sort_blob, Hs.
Qed.

Lemma canonical_blob_exact_witness :
  Forall is_plain (codes (canonical_blob report (JObj [(String "233" EmptyString, JStr (String "000" EmptyString))]))) /\
  canonical_blob report (JObj [("report_type", JStr "ops"); ("params", JArr [JInt 1; JNull])])%string =
  canonical_blob report (JObj [("params", JArr [JInt 1; JNull]); ("report_type", JStr "ops")])%string.
Proof.
  split.
  - refine (proj1 (canonical_blob_exact report (JObj [(String "233" EmptyString, JStr (String "000" EmptyString))])
      report (JObj []) _ _)); repeat split.
  - apply (canonical_blob_exact report _ report _); [repeat split..|split; reflexivity].
Defined.
