(* ===== verification/TokenCache.v ===== *)
(** The bounded cache of validated bearer tokens (app/auth/cache.py).

    The dict of entries keeps its insertion order, which eviction relies on: it is
    an association list with one binding per key.  [ideal] is what the cache
    promises: an unbounded table with expiry.  The refinement theorem says that a
    hit of the cache is a hit of the ideal table with the same user, that the cache
    never holds more than [max_entries], and that a token just stored is found
    until it expires. *)
From stdpp Require Import base tactics option list gmap strings numbers.
From S2P Require Import Prelude Uuid Model.
Set Default Goal Selector "!".
Open Scope Z_scope.

(** * The cache *)

(** The identity of app/auth/identity.py. *)
Record AuthedUser := mkUser { user_id : uuid; user_name : string }.

Abbreviation entries := (list (string * (datetime * AuthedUser))).

Record TokenCache := mkCache { tc_ttl : duration; tc_max : nat; tc_entries : entries }.

Definition get (now : datetime) (token_hash : string) (c : TokenCache) : TokenCache * option AuthedUser :=
  match od_get token_hash (tc_entries c) with
  | None => (c, None)
  | Some (expires_at, user) =>
      if expires_at <=? now
      then (mkCache (tc_ttl c) (tc_max c) (od_del token_hash (tc_entries c)), None)
      else (c, Some user)
  end.

(** [while len(d) >= max: del d[next(iter(d))]] *)
Fixpoint drop_oldest (max : nat) (l : entries) : exn + entries :=
  if (max <=? length l)%nat then
    match l with
    | [] => inl StopIteration
    | _ :: l' => drop_oldest max l'
    end
  else inr l.

Definition _evict (now : datetime) (max : nat) (l : entries) : exn + entries :=
  drop_oldest max (filter (fun e => now < e.2.1) l).

(** The clock is read by [_evict], if it runs, and once for the expiry. *)
Definition put (evict_at now : datetime) (token_hash : string) (user : AuthedUser) (c : TokenCache) :
    exn + TokenCache :=
  if tc_ttl c <=? 0 then inr c else
  room ← (match od_get token_hash (tc_entries c) with
          | None => if (tc_max c <=? length (tc_entries c))%nat
                    then _evict evict_at (tc_max c) (tc_entries c) else inr (tc_entries c)
          | Some _ => inr (tc_entries c)
          end);
  inr (mkCache (tc_ttl c) (tc_max c) (od_set token_hash (now + tc_ttl c, user) room)).

(** ** Sequences of calls *)

Inductive call :=
| Get (now : datetime) (token_hash : string)
| Put (evict_at now : datetime) (token_hash : string) (user : AuthedUser).

(** The answers of a sequence of calls, in order; a [put] answers [None]. *)
Fixpoint run (calls : list call) (c : TokenCache) : exn + (TokenCache * list (option AuthedUser)) :=
  match calls with
  | [] => inr (c, [])
  | Get now h :: calls' =>
      let r := get now h c in
      rest ← run calls' r.1; inr (rest.1, r.2 :: rest.2)
  | Put evict_at now h u :: calls' =>
      c' ← put evict_at now h u c;
      rest ← run calls' c'; inr (rest.1, None :: rest.2)
  end.

(** The table the cache stands for. *)
Definition ideal_get (now : datetime) (h : string) (m : gmap string (datetime * AuthedUser)) : option AuthedUser :=
  match m !! h with
  | Some (expires_at, user) => if expires_at <=? now then None else Some user
  | None => None
  end.

Fixpoint ideal_run (ttl : duration) (calls : list call) (m : gmap string (datetime * AuthedUser)) :
    list (option AuthedUser) :=
  match calls with
  | [] => []
  | Get now h :: calls' => ideal_get now h m :: ideal_run ttl calls' m
  | Put _ now h u :: calls' =>
      None :: ideal_run ttl calls' (if ttl <=? 0 then m else <[h := (now + ttl, u)]> m)
  end.

(** ** Invariant and refinement *)

Definition cache_ok (c : TokenCache) : Prop :=
  NoDup (tc_entries c).*1 /\ (length (tc_entries c) <= tc_max c)%nat.

(** Every binding of the cache is the one of the table. *)
Definition within (l : entries) (m : gmap string (datetime * AuthedUser)) : Prop :=
  forall h e, od_get h l = Some e -> m !! h = Some e.

Lemma within_sub l l' m : NoDup l.*1 -> sublist l' l -> within l m -> within l' m.
Proof.
  intros Hn Hs Hw h e He. apply Hw, elem_od_get; [done|].
  eapply elem_of_sublist; [|done]. by apply od_get_elem.
Qed.

Lemma drop_oldest_ok max l :
  (0 < max)%nat -> exists l', drop_oldest max l = inr l' /\ sublist l' l /\ (length l' < max)%nat.
Proof.
  intros Hm. induction l as [|e l (l' & IH & Hs & Hl)]; cbn [drop_oldest].
  - rewrite (proj2 (Nat.leb_gt _ _)) by (simpl; lia). by exists [].
  - destruct (max <=? length (e :: l))%nat eqn:E.
    + exists l'. split_and!; [done| |done]. by apply sublist_cons.
    + apply Nat.leb_gt in E. by exists (e :: l).
Qed.

(** Room for one more entry, made from entries of the cache. *)
Lemma put_ok evict_at now h u c :
  (0 < tc_max c)%nat -> cache_ok c ->
  exists c', put evict_at now h u c = inr c' /\ cache_ok c' /\ tc_max c' = tc_max c /\ tc_ttl c' = tc_ttl c /\
    (if tc_ttl c <=? 0 then c' = c
     else exists room, sublist room (tc_entries c) /\ tc_entries c' = od_set h (now + tc_ttl c, u) room).
Proof.
  intros Hm [Hn Hl]. unfold put. destruct (tc_ttl c <=? 0) eqn:Ht; [by exists c|].
  assert (exists room, (match od_get h (tc_entries c) with
          | None => if (tc_max c <=? length (tc_entries c))%nat
                    then _evict evict_at (tc_max c) (tc_entries c) else inr (tc_entries c)
          | Some _ => inr (tc_entries c) end) = @inr exn _ room /\
      sublist room (tc_entries c) /\ (h ∈ room.*1 \/ length room < tc_max c)%nat) as (room & -> & Hs & Hroom).
  { destruct (od_get h (tc_entries c)) as [e|] eqn:Hh.
    - exists (tc_entries c). split_and!; [done..|]. left. apply list_elem_of_fmap.
      exists (h, e). split; [done|]. by apply od_get_elem.
    - destruct (tc_max c <=? length (tc_entries c))%nat eqn:E.
      + destruct (drop_oldest_ok (tc_max c) (filter (fun e => evict_at < e.2.1) (tc_entries c)) Hm)
          as (l' & He & Hs & Hl'). exists l'. split_and!; [done| |by right].
        etrans; [done|]. apply sublist_filter.
      + apply Nat.leb_gt in E. exists (tc_entries c). split_and!; [done..|by right]. }
  rewrite sum_bind_inr. eexists. split; [done|]. cbn.
  assert (NoDup room.*1) as Hnr by by eapply od_sub_NoDup.
  split_and!; [|done|done|by exists room].
  split; cbn; [by apply od_set_NoDup|].
  rewrite <-(length_fmap fst), od_set_keys. case_decide as Hd.
  - rewrite length_fmap. etrans; [by apply sublist_length|done].
  - destruct Hroom as [?|Hroom]; [done|]. rewrite length_app, length_fmap. simpl. lia.
Qed.

Lemma get_ok now h c : cache_ok c -> cache_ok (get now h c).1 /\ sublist (tc_entries (get now h c).1) (tc_entries c).
Proof.
  intros [Hn Hl]. unfold get. destruct (od_get _ _) as [[expires_at u]|]; [|done].
  case_match; [|done]. cbn.
  assert (sublist (od_del h (tc_entries c)) (tc_entries c)) as Hs by apply sublist_filter.
  split; [|done]. split; cbn; [by eapply od_sub_NoDup|]. by apply sublist_length in Hs; lia.
Qed.

Lemma get_frame now h c : tc_max (get now h c).1 = tc_max c /\ tc_ttl (get now h c).1 = tc_ttl c.
Proof. unfold get. by repeat case_match. Qed.

Lemma get_hit now h c m u :
  within (tc_entries c) m -> (get now h c).2 = Some u -> ideal_get now h m = Some u.
Proof.
  intros Hw. unfold get, ideal_get. destruct (od_get _ _) as [[expires_at u']|] eqn:E; [|done].
  apply Hw in E. rewrite E. by case_match.
Qed.

(** An answer of the cache against the answer of the table. *)
Definition hit_or_miss (r ideal : option AuthedUser) : Prop := r = None \/ r = ideal.

Lemma run_refines calls c m :
  (0 < tc_max c)%nat -> cache_ok c -> within (tc_entries c) m ->
  exists c' rs, run calls c = inr (c', rs) /\ cache_ok c' /\ tc_max c' = tc_max c /\ tc_ttl c' = tc_ttl c /\
    Forall2 hit_or_miss rs (ideal_run (tc_ttl c) calls m).
Proof.
  revert c m. induction calls as [|[now h|evict_at now h u] calls IH]; intros c m Hm Hok Hw.
  - exists c, []. split_and!; [done..|constructor].
  - pose proof (get_ok now h c Hok) as [Hok' Hs]. pose proof (get_frame now h c) as [Hmax Httl].
    destruct (IH (get now h c).1 m) as (c' & rs & Hr & Hok'' & Hmax' & Httl' & Hf); [lia|done|..].
    { eapply within_sub; [apply Hok|done|done]. }
    exists c', ((get now h c).2 :: rs). cbn [run ideal_run]. rewrite Hr, sum_bind_inr, Httl in *.
    split_and!; [done|done|lia|done|]. constructor; [|done].
    unfold hit_or_miss. destruct (get now h c).2 as [u|] eqn:E; [right|by left].
    symmetry. by eapply get_hit.
  - destruct (put_ok evict_at now h u c Hm Hok) as (c1 & Hp & Hok1 & Hmax & Httl & Hc).
    cbn [run ideal_run]. rewrite Hp, sum_bind_inr.
    set (m' := if tc_ttl c <=? 0 then m else <[h:=(now + tc_ttl c, u)]> m).
    assert (within (tc_entries c1) m') as Hw1.
    { unfold m'. destruct (tc_ttl c <=? 0); [by subst|]. destruct Hc as (room & Hs & ->).
      pose proof (within_sub _ _ _ (proj1 Hok) Hs Hw) as Hr.
      intros k e. rewrite od_get_set. case_decide as Hk; subst.
      - intros [= <-]. by rewrite lookup_insert_eq.
      - intros He. rewrite lookup_insert_ne by done. by apply Hr. }
    destruct (IH c1 m') as (c' & rs & Hr & Hok'' & Hmax' & Httl' & Hf); [lia|done..|].
    rewrite Hr, sum_bind_inr. exists c', (None :: rs). rewrite Httl in *.
    split_and!; [done|done|lia|done|]. constructor; [by left|done].
Qed.

(** * Theorems *)

(** C11: Whatever calls are made, the cache never raises and never holds more than
    [max_entries] tokens, and each of its answers is a miss or the answer of an
    unbounded table with expiry. *)
Theorem cache_refines ttl max calls :
  (0 < max)%nat ->
  exists c rs, run calls (mkCache ttl max []) = inr (c, rs) /\
    NoDup (tc_entries c).*1 /\ (length (tc_entries c) <= max)%nat /\
    Forall2 hit_or_miss rs (ideal_run ttl calls ∅).
Proof.
  intros Hm. destruct (run_refines calls (mkCache ttl max []) ∅) as (c & rs & Hr & Hok & Hmax & _ & Hf).
  - done.
  - split; cbn; [constructor|lia].
  - by intros h e.
  - exists c, rs. cbn in *. destruct Hok. split_and!; [done|done|lia|done].
Qed.

(** A token just stored is found, with its user, until its time to live is over;
    from then on it is a miss. *)
Theorem cache_hit_until_expiry evict_at now later h u c :
  (0 < tc_max c)%nat -> cache_ok c -> 0 < tc_ttl c ->
  exists c', put evict_at now h u c = inr c' /\
    (get later h c').2 = if later <? now + tc_ttl c then Some u else None.
Proof.
  intros Hm Hok Ht. destruct (put_ok evict_at now h u c Hm Hok) as (c' & Hp & _ & _ & _ & Hc).
  exists c'. split; [done|]. rewrite (proj2 (Z.leb_gt _ _)) in Hc by done. destruct Hc as (room & _ & Hc).
  unfold get. rewrite Hc, od_get_set, decide_True by done.
  destruct (now + tc_ttl c <=? later) eqn:E; cbn; simp_bool.
  - by rewrite (proj2 (Z.ltb_ge _ _)).
  - by rewrite (proj2 (Z.ltb_lt _ _)).
Qed.

Definition some_user : AuthedUser := mkUser (Uuid 1 eq_refl) "alice".
Definition some_calls : list call :=
  [Put 0 0 "a" some_user; Get 5 "a"; Put 6 6 "b" some_user; Get 7 "a"; Get 20 "b"].

Lemma cache_refines_witness :
  exists c rs, run some_calls (mkCache 10 1 []) = inr (c, rs) /\
    NoDup (tc_entries c).*1 /\ (length (tc_entries c) <= 1)%nat /\
    Forall2 hit_or_miss rs (ideal_run 10 some_calls ∅).
Proof. apply (cache_refines 10 1 some_calls). lia. Defined.

Lemma cache_hit_until_expiry_witness :
  exists c', put 0 0 "a" some_user (mkCache 10 1 []) = inr c' /\ (get 9 "a" c').2 = Some some_user.
Proof.
  apply (cache_hit_until_expiry 0 0 9 "a" some_user (mkCache 10 1 [])); [cbn; lia| |cbn; lia].
  split; cbn; [constructor|lia].
Defined.
