(* ===== verification/Api.v ===== *)
(** The job routes (app/api/routes.py) with their request and response models
    (app/schemas/api.py): submission with idempotent replay, read, retry, cancel.

    A route answers a status code and a body, or raises: an [HTTPException] is the
    response it carries, any other exception a 500. *)
From stdpp Require Import base tactics option list gmap strings numbers.
From S2P Require Import Prelude Prog Uuid Model Services Repository Queue Handlers Payloads Idempotency TokenCache.
Set Default Goal Selector "!".
Open Scope Z_scope.

(** * Models *)

Record JobSubmission := mkSubmission {
  s_type : JobType;
  s_payload : json;
  s_priority : JobPriority;
  s_scheduled_at : option datetime;
  s_idempotency_key : option string;
}.

Definition year365 : duration := seconds (365 * 86400).

(** The validator of [scheduled_at]. *)
Definition _normalize_utc (now : datetime) (v : option raw_datetime) : exn + option datetime :=
  match v with
  | None => inr None
  | Some v =>
      let t := match raw_offset v with None => raw_reading v | Some o => raw_reading v - o end in
      if now + year365 <? t then inl (ValueError "scheduled_at more than 365 days in the future")
      else inr (Some t)
  end.

(** [Field(default=None, min_length=1, max_length=255)] *)
Definition key_ok (key : option string) : bool :=
  match key with
  | None => true
  | Some k => (1 <=? String.length k)%nat && (String.length k <=? 255)%nat
  end.

(** The request body as the model accepts it. *)
Definition job_submission (now : datetime) (type : JobType) (payload : json) (priority : option JobPriority)
    (scheduled_at : option raw_datetime) (key : option string) : exn + JobSubmission :=
  match _normalize_utc now scheduled_at with
  | inl e => inl e
  | inr t =>
      if key_ok key then inr (mkSubmission type payload (default normal priority) t key)
      else inl (ValidationError "idempotency_key")
  end.

Record JobAccepted := mkAccepted {
  acc_id : uuid;
  acc_type : JobType;
  acc_status : JobStatus;
  acc_priority : JobPriority;
  acc_created_at : datetime;
  acc_scheduled_at : option datetime;
}.

Record JobOut := mkJobOut {
  out_id : uuid;
  out_type : JobType;
  out_status : JobStatus;
  out_priority : JobPriority;
  out_payload : json;
  out_result : option json;
  out_error : option json;
  out_created_at : datetime;
  out_started_at : option datetime;
  out_completed_at : option datetime;
  out_scheduled_at : option datetime;
  out_attempts : Z;
  out_max_attempts : Z;
  out_progress : option Z;
  out_cancel_requested_at : option datetime;
}.

(** [JobOut.model_validate(job)] *)
Definition job_out (j : Job) : JobOut :=
  mkJobOut (j_id j) (j_type j) (j_status j) (j_priority j) (j_payload j) (j_result j) (j_error j)
    (j_created_at j) (j_started_at j) (j_completed_at j) (j_scheduled_at j) (j_attempts j)
    (j_max_attempts j) (j_progress j) (j_cancel_requested_at j).

Record response A := mkResponse { status_code : Z; body : A }.
Arguments mkResponse {A} _ _.
Arguments status_code {A} _.
Arguments body {A} _.

Definition _accepted (job : Job) : JobAccepted :=
  mkAccepted (j_id job) (j_type job) (j_status job) (j_priority job) (j_created_at job) (j_scheduled_at job).

(** * The ORM session *)

(** An object the session holds, after an UPDATE of its row by the same session
    ([synchronize won guard upd]): whether and how the object follows the row is
    the ORM's business, but it stays the object of its row. *)
Class Orm := {
  synchronize : bool -> (Job -> bool) -> (Job -> Job) -> Job -> Job;
  synchronize_id won guard upd j : keeps_key upd -> j_id (synchronize won guard upd j) = j_id j;
}.

Section Routes.
Context {PG : Postgres} {RD : Redis} {EN : Entropy} {OT : Otel} {PY : Pydantic} {OM : Orm}.
Context (settings : Settings).

(** [session.refresh(job)] *)
Definition refresh (job_id : uuid) : coroutine Job :=
  found ← pg_read (get_job job_id None);
  row ← or_raise found;
  match row with
  | Some j => Ret j
  | None => Raise (OtherError "InvalidRequestError" "Could not refresh instance")
  end.

(** [session.get]: an object the session holds is answered without a query. *)
Definition session_get (held : option Job) (job_id : uuid) : coroutine (option Job) :=
  match held with
  | Some j => Ret (Some j)
  | None => found ← pg_read (get_job job_id None); or_raise found
  end.

(** [repo.create_job(...)]: insert, commit, read back. *)
Definition create (submission : JobSubmission) (status : JobStatus) (scheduled_at : option datetime)
    (max_attempts : Z) (key req_hash : option string) (user : AuthedUser) : coroutine Job :=
  new_id ← fresh_uuid;
  r ← pg (fun now => create_job
        (new_job new_id now (s_type submission) (s_payload submission) status scheduled_at
           (s_priority submission) max_attempts key req_hash current_trace_carrier
           (Some (user_id user)) (Some (user_name user))));
  job ← or_raise r;
  refresh (j_id job).

Definition _create_and_handoff (submission : JobSubmission) (key req_hash : option string)
    (user : AuthedUser) : coroutine Job :=
  let max_attempts := if decide (s_type submission = batch) then 1 else max_attempts settings in
  let later scheduled_at :=
    job ← create submission scheduled (Some scheduled_at) max_attempts key req_hash user;
    _ ← schedule (delayed_zset settings) (str_uuid (j_id job)) scheduled_at;
    Ret job in
  let at_once :=
    job ← create submission pending None max_attempts key req_hash user;
    _ ← enqueue (stream_for_priority settings (s_priority submission)) (str_uuid (j_id job)) None;
    Ret job in
  job ← (match s_scheduled_at submission with
         | None => at_once
         | Some scheduled_at =>
             now ← clock;
             if now <? scheduled_at then later scheduled_at else at_once
         end);
  _ ← pg (fun _ => mark_synced (j_id job));
  Ret job.

Definition _replay_or_conflict (existing : option Job) (req_hash : string) :
    exn + response JobAccepted :=
  let conflict := inl (HTTPException 409 "idempotency key reused with a different payload") in
  match existing with
  | Some j =>
      if decide (j_idempotency_hash j = Some req_hash) then inr (mkResponse 200 (_accepted j))
      else conflict
  | None => conflict
  end.

Definition submit_job (submission : JobSubmission) (user : AuthedUser) :
    coroutine (response JobAccepted) :=
  match validate_payload (s_type submission) (s_payload submission) (Some settings) with
  | inl (ValidationError m | ValueError m | PayloadPolicyError m) => Raise (HTTPException 422 m)
  | inl e => Raise e
  | inr _ =>
      match s_idempotency_key submission with
      | None =>
          job ← _create_and_handoff submission None None user;
          Ret (mkResponse 202 (_accepted job))
      | Some key =>
          let req_hash := canonical_hash (s_type submission) (s_payload submission) in
          found ← pg_read (get_by_idempotency_key key (user_id user));
          existing ← or_raise found;
          match existing with
          | Some j => or_raise (_replay_or_conflict (Some j) req_hash)
          | None =>
              r ← attempt (_create_and_handoff submission (Some key) (Some req_hash) user);
              match r with
              | inr job => Ret (mkResponse 202 (_accepted job))
              | inl IntegrityError =>
                  found ← pg_read (get_by_idempotency_key key (user_id user));
                  existing ← or_raise found;
                  or_raise (_replay_or_conflict existing req_hash)
              | inl e => Raise e
              end
          end
      end
  end.

(** The caller's own row, or 404. *)
Definition owned_job (job_id : uuid) (user : AuthedUser) : coroutine Job :=
  found ← pg_read (get_job job_id (Some (user_id user)));
  row ← or_raise found;
  match row with
  | Some j => Ret j
  | None => Raise (HTTPException 404 "job not found")
  end.

Definition get_job_route (job_id : uuid) (user : AuthedUser) : coroutine (response JobOut) :=
  job ← owned_job job_id user;
  Ret (mkResponse 200 (job_out job)).

Definition retry_job (job_id : uuid) (user : AuthedUser) : coroutine (response JobOut) :=
  job ← owned_job job_id user;
  reset ← pg (fun _ => reset_failed_to_pending job_id);
  if reset : bool then
    _ ← enqueue (stream_for_priority settings (j_priority job)) (str_uuid job_id) None;
    _ ← pg (fun _ => mark_synced job_id);
    job ← refresh job_id;
    Ret (mkResponse 200 (job_out job))
  else
    Raise (HTTPException 409 "job is not retryable (not failed, or cancel was requested)").

(** [JobOut.model_validate(await repo.get_job(session, job_id))] *)
Definition answer_with (code : Z) (held : option Job) (job_id : uuid) : coroutine (response JobOut) :=
  row ← session_get held job_id;
  match row with
  | Some j => Ret (mkResponse code (job_out j))
  | None => Raise (ValidationError "JobOut")
  end.

(** The bounded loop; [held] is the object [job] still refers to. *)
Fixpoint cancel_rounds (n : nat) (job_id : uuid) (held : option Job) : coroutine (response JobOut) :=
  match n with
  | O => Raise (HTTPException 409 "job state is changing; retry")
  | S n' =>
      now ← clock;
      won ← pg (fun _ => cancel_pending_or_scheduled now job_id);
      let held := synchronize won (status_in [pending; scheduled])
                    (fun j => set_status cancelled (set_completed_at (Some now) j)) <$> held in
      if won : bool then
        _ ← redis_do (fun _ => zrem (delayed_zset settings) [str_uuid job_id]);
        answer_with 200 held job_id
      else
        now ← clock;
        requested ← pg (fun _ => request_cancel now job_id);
        let held := synchronize requested (status_in [processing])
                      (set_cancel_requested_at (Some now)) <$> held in
        if requested : bool then answer_with 202 held job_id
        else
          row ← session_get held job_id;
          match row with
          | None => Raise (HTTPException 404 "job not found")
          | Some job =>
              match j_status job with
              | cancelled => Ret (mkResponse 200 (job_out job))
              | completed | failed =>
                  Raise (HTTPException 409 "job cannot be cancelled in its current state")
              | _ => cancel_rounds n' job_id (Some job)
              end
          end
  end.

Definition cancel_job_route (job_id : uuid) (user : AuthedUser) : coroutine (response JobOut) :=
  _ ← owned_job job_id user;
  cancel_rounds 3 job_id None.
End Routes.
