(* ===== verification/Auth.v ===== *)
(** Authentication: the TokenReview client (app/auth/tokenreview.py), the token hash
    (app/auth/identity.py) and the request dependency [get_current_user]
    (app/api/deps.py), over the token cache.

    The Kubernetes API server and the projected token file are the [Apiserver]
    interface.  The dependency runs on [auth_world]: the state of the API server as
    far as the client can tell, the credential the client holds, the cache and the
    clock. *)
From stdpp Require Import base tactics option list gmap strings numbers relations.
From Stdlib Require Import Ascii.
From stdpp Require Import pretty.
From S2P Require Import Prelude Prog Uuid Model Codecs Json Idempotency TokenCache.
Set Default Goal Selector "!".
Open Scope Z_scope.

(** ** Python's view of a JSON value *)

(** [bool(v)] *)
Definition truthy (v : json) : bool :=
  match v with
  | JNull => false
  | JBool b => b
  | JInt z => negb (z =? 0)
  | JFloat r => negb (bool_decide (r = "0.0" \/ r = "-0.0")%string)
  | JStr s => negb (bool_decide (s = ""%string))
  | JArr l => negb (bool_decide (length l = 0%nat))
  | JObj l => negb (bool_decide (length l = 0%nat))
  end.

(** [v.get(key, fallback)]: only an object has [get]. *)
Definition json_get (v : json) (key : string) (fallback : json) : exn + json :=
  match v with
  | JObj l => inr (default fallback (dict_get key l))
  | _ => inl (OtherError "AttributeError" "object has no attribute 'get'")
  end.

(** [tuple(v)] *)
Definition json_items (v : json) : exn + list json :=
  match v with
  | JArr l => inr l
  | JObj l => inr ((fun kv => JStr kv.1) <$> l)
  | JStr s => inr ((fun c => JStr (String c EmptyString)) <$> text s)
  | _ => inl (OtherError "TypeError" "object is not iterable")
  end.

(** [UUID(v)] of what the JSON answer holds *)
Definition json_uuid (v : json) : exn + uuid :=
  match v with
  | JStr s => match parse_uuid s with Some u => inr u | None => inl (ValueError "badly formed hexadecimal UUID string") end
  | JNull => inl (OtherError "TypeError" "one of the hex, bytes, bytes_le, fields, or int arguments must be given")
  | _ => inl (OtherError "AttributeError" "object has no attribute 'replace'")
  end.

(** ** identity.py *)

(** A header value is Latin-1 text, so it can always be encoded. *)
Definition hash_token (raw : string) : string :=
  hexdigest (sha256 (Z.of_N <$> default [] (utf8_encode (points raw)))).

(** ** tokenreview.py *)

Class Apiserver := {
  net : Type;
  (** [client.post(url, json=..., headers=...)] with the given bearer credential, if
      any, reviewing the user's token: a subclass of [httpx.HTTPError], or a status
      code and a body ([None] when it is not JSON). *)
  post_review : option string -> string -> net -> net * (string + (Z * option json));
  (** [token_path.read_text()]; [None] is the [OSError]. *)
  read_token_file : net -> net * option string;
  (** The types of the status of a TokenReview v1: [authenticated] is a boolean, a
      user name a string and the groups a list, where they are present. *)
  review_types cred token n code l status :
    (post_review cred token n).2 = inr (code, Some (JObj l)) ->
    dict_get "status" l = Some (JObj status) ->
    (forall v, dict_get "authenticated" status = Some v -> exists b, v = JBool b) /\
    forall user, dict_get "user" status = Some (JObj user) ->
      (forall v, dict_get "username" user = Some v -> exists s, v = JStr s) /\
      (forall v, dict_get "groups" user = Some v -> exists gs, v = JArr gs);
}.

Record ReviewedUser := mkReviewed { rv_uid : json; rv_username : json; rv_groups : list json }.

Section Auth.
Context {AP : Apiserver}.

Record auth_world := AuthWorld {
  aw_net : net;
  aw_sa_token : option string;
  aw_cache : TokenCache;
  aw_now : datetime;
}.
Definition set_net (n : net) (w : auth_world) : auth_world := AuthWorld n (aw_sa_token w) (aw_cache w) (aw_now w).
Definition set_sa_token (t : option string) (w : auth_world) : auth_world := AuthWorld (aw_net w) t (aw_cache w) (aw_now w).
Definition set_cache (c : TokenCache) (w : auth_world) : auth_world := AuthWorld (aw_net w) (aw_sa_token w) c (aw_now w).

#[local] Abbreviation task := (prog auth_world exn).

(** [text.strip()] *)
Definition strip (s : string) : string := String.string_of_list_ascii (strip_chars is_space (text s)).

(** [self._sa_token = self._read_sa_token()] *)
Definition _read_sa_token : task unit :=
  act (fun w => let r := read_token_file (aw_net w) in (set_sa_token (strip <$> r.2) (set_net r.1 w), tt)).

(** The [Authorization] header goes along when the held token is not empty. *)
Definition credential (w : auth_world) : option string :=
  match aw_sa_token w with
  | Some t => if decide (t = ""%string) then None else Some ("Bearer " +:+ t)
  | None => None
  end.

Definition _post (user_token : string) : task (Z * option json) :=
  r ← act (fun w => let r := post_review (credential w) user_token (aw_net w) in (set_net r.1 w, r.2));
  match r with
  | inl cls => Raise (HTTPError cls)
  | inr resp => Ret resp
  end.

Definition or_raise {X} (r : exn + X) : task X :=
  match r with inl e => Raise e | inr x => Ret x end.

(** What the body of a successful answer says of the user. *)
Definition read_review (body : option json) : exn + option ReviewedUser :=
  match body with
  | None => inl (ValueError "Expecting value")
  | Some data =>
      status ← json_get data "status" (JObj []);
      authenticated ← json_get status "authenticated" JNull;
      if truthy authenticated then
        user ← json_get status "user" (JObj []);
        uid ← json_get user "uid" (JStr "");
        username ← json_get user "username" (JStr "");
        groups ← json_get user "groups" (JArr []);
        items ← json_items groups;
        inr (Some (mkReviewed uid username items))
      else inr None
  end.

(** The [try]: one more attempt with the token read again, if ours was refused. *)
Definition post_with_rotation (user_token : string) : task (Z * option json) :=
  resp ← _post user_token;
  if resp.1 =? 401 then
    _ ← _read_sa_token;
    _post user_token
  else Ret resp.

Definition review (user_token : string) : task (option ReviewedUser) :=
  r ← attempt (post_with_rotation user_token);
  match r with
  | inl (HTTPError cls) => Raise (TokenReviewUnavailable cls)
  | inl e => Raise e
  | inr (status_code, body) =>
      if status_code =? 401 then Raise (TokenReviewUnavailable "apiserver rejected ServiceAccount token")
      else if 300 <=? status_code then
        Raise (TokenReviewUnavailable ("tokenreview status " +:+ pretty status_code))
      else or_raise (read_review body)
  end.

(** ** deps.py *)

Definition cache_get (token_hash : string) : task (option AuthedUser) :=
  act (fun w => let r := get (aw_now w) token_hash (aw_cache w) in (set_cache r.1 w, r.2)).

(** The calls of [time.monotonic] inside one [put] are one reading. *)
Definition cache_put (token_hash : string) (user : AuthedUser) : task unit :=
  r ← act (fun w => match put (aw_now w) (aw_now w) token_hash user (aw_cache w) with
                    | inl e => (w, inl e)
                    | inr c => (set_cache c w, inr tt)
                    end);
  or_raise r.

Context (settings : Settings).

(** The user a review stands for: in the required group, with a UUID.  The name is
    for logs and for the job's user_name; the API server sends a text, and another
    value counts as the empty one. *)
Definition identify (reviewed : ReviewedUser) : exn + AuthedUser :=
  if existsb (fun v => match v with JStr g => bool_decide (g = auth_required_group settings) | _ => false end)
       (rv_groups reviewed)
  then match json_uuid (rv_uid reviewed) with
       | inr uid => inr (mkUser uid (match rv_username reviewed with JStr s => s | _ => ""%string end))
       | inl (ValueError _) => inl (HTTPException 401 "invalid token")
       | inl e => inl e
       end
  else inl (HTTPException 403 "not a member of the required group").

Definition get_current_user (credentials : option string) : task AuthedUser :=
  match credentials with
  | None => Raise (HTTPException 401 "missing bearer token")
  | Some raw =>
      let token_hash := hash_token raw in
      cached ← cache_get token_hash;
      match cached with
      | Some user => Ret user
      | None =>
          r ← attempt (review raw);
          match r with
          | inl (TokenReviewUnavailable _) => Raise (HTTPException 503 "authentication unavailable")
          | inl e => Raise e
          | inr None => Raise (HTTPException 401 "invalid token")
          | inr (Some reviewed) =>
              user ← or_raise (identify reviewed);
              _ ← cache_put token_hash user;
              Ret user
          end
      end
  end.
End Auth.

(** * Lemmas *)

Section Review.
Context {AP : Apiserver}.

(** What the client makes of the answer it settles for. *)
Definition classify (answer : string + (Z * option json)) : exn + option ReviewedUser :=
  match answer with
  | inl cls => inl (TokenReviewUnavailable cls)
  | inr (code, body) =>
      if code =? 401 then inl (TokenReviewUnavailable "apiserver rejected ServiceAccount token")
      else if 300 <=? code then inl (TokenReviewUnavailable ("tokenreview status " +:+ pretty code))
      else read_review body
  end.

(** The first answer, from world [w]. *)
Definition ask (raw : string) (w : auth_world) : net * (string + (Z * option json)) :=
  post_review (credential w) raw (aw_net w).

(** The world after the token file is read again. *)
Definition rotated (w : auth_world) : auth_world :=
  let r := read_token_file (aw_net w) in set_sa_token (strip <$> r.2) (set_net r.1 w).

(** The API server refused our credential. *)
Definition refused (answer : string + (Z * option json)) : bool :=
  match answer with inr (code, _) => code =? 401 | inl _ => false end.

Lemma exec_post raw w :
  exec (_post raw) w =
  (set_net (ask raw w).1 w, match (ask raw w).2 with inl cls => inl (HTTPError cls) | inr a => inr a end).
Proof. unfold _post. rewrite exec_bind, exec_act. cbn. unfold ask. by destruct (post_review _ _ _).2. Qed.

(** The world and the answer that a review ends with. *)
Definition settled (raw : string) (w : auth_world) : auth_world * (string + (Z * option json)) :=
  let w1 := set_net (ask raw w).1 w in
  if refused (ask raw w).2
  then (set_net (ask raw (rotated w1)).1 (rotated w1), (ask raw (rotated w1)).2)
  else (w1, (ask raw w).2).

Lemma exec_rotation raw w :
  exec (post_with_rotation raw) w =
  ((settled raw w).1, match (settled raw w).2 with inl cls => inl (HTTPError cls) | inr a => inr a end).
Proof.
  unfold post_with_rotation, settled. rewrite exec_bind, exec_post.
  destruct (ask raw w).2 as [cls|[code body]] eqn:E; cbn [refused fst snd]; [done|].
  destruct (code =? 401); [|done]. rewrite exec_bind. unfold _read_sa_token. rewrite exec_act.
  cbn [fst snd]. apply exec_post.
Qed.

Lemma exec_review raw w : exec (review raw) w = ((settled raw w).1, classify (settled raw w).2).
Proof.
  unfold review. rewrite exec_bind, exec_attempt, exec_rotation. cbn [fst snd].
  destruct (settled raw w).2 as [cls|[code body]]; [done|]. cbn [classify].
  destruct (code =? 401); [done|]. destruct (300 <=? code); [done|].
  unfold or_raise. by destruct (read_review body).
Qed.
End Review.

(** How [get_current_user] goes on from there. *)
Definition verdict (settings : Settings) (review : exn + option ReviewedUser) : exn + AuthedUser :=
  match review with
  | inl (TokenReviewUnavailable _) => inl (HTTPException 503 "authentication unavailable")
  | inl e => inl e
  | inr None => inl (HTTPException 401 "invalid token")
  | inr (Some reviewed) => identify settings reviewed
  end.

Section Users.
Context {AP : Apiserver} (settings : Settings).

(** ** What the cluster vouches for *)

(** [V token user]: the API server may answer that [token] is this user's, in the
    required group. *)
Context (V : string -> AuthedUser -> Prop).
Context (cluster_vouches : forall cred token n code body reviewed user,
  (post_review cred token n).2 = inr (code, body) -> code <> 401 -> code < 300 ->
  read_review body = inr (Some reviewed) -> identify settings reviewed = inr user -> V token user).

Definition vouched (token_hash : string) (u : AuthedUser) : Prop :=
  exists token, hash_token token = token_hash /\ V token u.

(** Every user in the cache is vouched for, and the cache is sound. *)
Definition trusted (w : auth_world) : Prop :=
  cache_ok (aw_cache w) /\ (0 < tc_max (aw_cache w))%nat /\
  forall h exp u, od_get h (tc_entries (aw_cache w)) = Some (exp, u) -> vouched h u.

Lemma trusted_net n w : trusted w -> trusted (set_net n w).
Proof. done. Qed.

Lemma trusted_sub c w :
  trusted w -> cache_ok c -> tc_max c = tc_max (aw_cache w) ->
  sublist (tc_entries c) (tc_entries (aw_cache w)) -> trusted (set_cache c w).
Proof.
  intros (Hok & Hm & Hv) Hc Hmax Hs. split_and!; cbn; [done|lia|].
  intros h exp u Hu. apply (Hv h exp), elem_od_get; [apply Hok|].
  eapply elem_of_sublist; [|done]. by apply od_get_elem.
Qed.

Lemma safe_cache_get h :
  safe trusted (fun r => forall u, r = inr (Some u) -> vouched h u) (cache_get h).
Proof.
  intros w Hw. pose proof (get_ok (aw_now w) h (aw_cache w) (proj1 Hw)) as [Hok Hs].
  pose proof (get_frame (aw_now w) h (aw_cache w)) as [Hmax _].
  split; [by apply trusted_sub|]. cbn. intros u [= Hu].
  destruct Hw as (_ & _ & Hv). revert Hu. unfold get.
  destruct (od_get _ _) as [[exp u']|] eqn:E; [|done]. case_match; [done|]. intros [= ->]. by eapply Hv.
Qed.

Lemma safe_cache_put h u :
  vouched h u -> safe trusted (fun _ => True) (cache_put h u).
Proof.
  intros Hu w (Hok & Hm & Hv).
  destruct (put_ok (aw_now w) (aw_now w) h u (aw_cache w) Hm Hok) as (c & Hp & Hc & Hmax & Httl & Hcase).
  rewrite Hp. cbn. split; [|done]. split_and!; cbn; [done|lia|].
  intros k exp v. destruct (tc_ttl (aw_cache w) <=? 0); [subst; apply Hv|].
  destruct Hcase as (room & Hs & ->). rewrite od_get_set. case_decide as Hk; subst; [by intros [= _ <-]|].
  intros Hkv. apply (Hv k exp), elem_od_get; [apply Hok|].
  eapply elem_of_sublist; [|done]. by apply od_get_elem.
Qed.

(** A status and body that the API server may answer for the token. *)
Definition answered (raw : string) (a : Z * option json) : Prop :=
  exists cred n, (post_review cred raw n).2 = inr a.

Lemma safe_post raw :
  safe trusted (fun r => forall a, r = inr a -> answered raw a) (_post raw).
Proof.
  intros w Hw. split; [done|]. cbn.
  destruct (post_review (credential w) raw (aw_net w)).2 as [cls|a] eqn:E; cbn; [done|].
  intros a' [= ->]. by exists (credential w), (aw_net w).
Qed.

Lemma safe_rotation raw :
  safe trusted (fun r => forall a, r = inr a -> answered raw a) (post_with_rotation raw).
Proof.
  apply safe_bind. eapply safe_mono; [|apply safe_post]. intros [e|a] Ha; [done|].
  case_match; [|cbn; by intros ? [= <-]; apply Ha].
  apply safe_bind. intros w Hw. split; [done|]. apply safe_post.
Qed.

Lemma safe_review raw :
  safe trusted (fun r => forall reviewed user,
    r = inr (Some reviewed) -> identify settings reviewed = inr user -> V raw user) (review raw).
Proof.
  apply safe_bind, safe_attempt. eapply safe_mono; [|apply safe_rotation].
  intros [e|[code body]] Ha; [by destruct e|].
  destruct (code =? 401) eqn:H401; [done|]. destruct (300 <=? code) eqn:Hc; [done|]. simp_bool.
  destruct (Ha _ eq_refl) as (cred & n & Hp). unfold or_raise.
  destruct (read_review body) as [e|o] eqn:Hr; [done|]. cbn. intros reviewed user [= ->] Hi.
  by eapply cluster_vouches.
Qed.

Lemma get_current_user_safe raw :
  safe trusted (fun r => forall u, r = inr u -> vouched (hash_token raw) u)
    (get_current_user settings (Some raw)).
Proof.
  unfold get_current_user. apply safe_bind. eapply safe_mono; [|apply safe_cache_get].
  intros [e|[user|]] Hu; [done|by cbn; intros u [= <-]; apply Hu|].
  apply safe_bind, safe_attempt. eapply safe_mono; [|apply (safe_review raw)].
  intros [e|[reviewed|]] Hr; [by destruct e| |done].
  unfold or_raise. destruct (identify settings reviewed) as [e|u] eqn:Hi; [done|].
  specialize (Hr reviewed u eq_refl Hi). assert (vouched (hash_token raw) u) as Hv by by exists raw.
  apply (safe_bind _ _ (Ret u)). change (safe trusted ?Q (Ret u)) with (Q (inr u)). cbv beta iota.
  apply safe_bind. eapply safe_mono; [|by apply safe_cache_put].
  intros [e|[]] _; [done|]. cbn. by intros ? [= <-].
Qed.
End Users.

(** The cache, the clock and the settings do not move during a review. *)
Lemma settled_frame {AP : Apiserver} raw w :
  aw_cache (settled raw w).1 = aw_cache w /\ aw_now (settled raw w).1 = aw_now w.
Proof. unfold settled. by destruct (refused _). Qed.

Lemma miss_unbound now h c : (get now h c).2 = None -> od_get h (tc_entries (get now h c).1) = None.
Proof.
  unfold get. destruct (od_get h (tc_entries c)) as [[exp u]|] eqn:E; [|done].
  destruct (exp <=? now); [|done]. intros _. cbn. apply od_get_None. unfold od_del.
  rewrite list_elem_of_fmap. intros (e & -> & [He _]%list_elem_of_filter). done.
Qed.

Lemma hit_same now h c u : (get now h c).2 = Some u -> (get now h c).1 = c.
Proof. unfold get. destruct (od_get h (tc_entries c)) as [[exp u']|]; [|done]. by destruct (exp <=? now). Qed.

(** * What a TokenReview says *)

(** The specification reads the JSON of the answer itself, not what [read_review] and
    [identify] make of it. *)

(** The members of the object at [key]; an object that is absent counts as empty. *)
Definition member_object (key : string) (l : list (string * json)) : option (list (string * json)) :=
  match dict_get key l with
  | None => Some []
  | Some (JObj o) => Some o
  | Some _ => None
  end.

Definition in_group (g : string) (user : list (string * json)) : Prop :=
  exists gs, dict_get "groups" user = Some (JArr gs) /\ JStr g ∈ gs.

Definition says_authenticated (status : list (string * json)) : Prop :=
  dict_get "authenticated" status = Some (JBool true).

Definition username (user : list (string * json)) : string :=
  match dict_get "username" user with Some (JStr s) => s | _ => ""%string end.

(** The answer to a review of [token] says that it is [u]'s, who is in the group. *)
Definition vouches {AP : Apiserver} (settings : Settings) (token : string) (u : AuthedUser) : Prop :=
  exists cred n code l status user uid,
    (post_review cred token n).2 = inr (code, Some (JObj l)) /\ code <> 401 /\ code < 300 /\
    dict_get "status" l = Some (JObj status) /\ says_authenticated status /\
    dict_get "user" status = Some (JObj user) /\ in_group (auth_required_group settings) user /\
    dict_get "uid" user = Some (JStr uid) /\ parse_uuid uid = Some (user_id u) /\
    user_name u = username user.

(** A body that is no review. *)
Inductive malformed (g : string) : option json -> Prop :=
| mal_text : malformed g None
| mal_body v : (forall l, v <> JObj l) -> malformed g (Some v)
| mal_status l : member_object "status" l = None -> malformed g (Some (JObj l))
| mal_user l status :
    member_object "status" l = Some status -> says_authenticated status ->
    member_object "user" status = None -> malformed g (Some (JObj l))
| mal_uid l status user v :
    member_object "status" l = Some status -> says_authenticated status ->
    member_object "user" status = Some user -> in_group g user ->
    dict_get "uid" user = Some v -> (forall s, v <> JStr s) -> malformed g (Some (JObj l)).

(** An error of Python's own: neither an answer of the API's nor one it handles. *)
Definition own_error (e : exn) : Prop :=
  match e with ValueError _ | OtherError _ _ => True | _ => False end.

(** The answer to a request, by the API server's answer to the review of its token. *)
Inductive answers (g : string) : string + (Z * option json) -> exn + AuthedUser -> Prop :=
| ans_unreachable cls : answers g (inl cls) (inl (HTTPException 503 "authentication unavailable"))
| ans_refused code body :
    code = 401 \/ 300 <= code ->
    answers g (inr (code, body)) (inl (HTTPException 503 "authentication unavailable"))
| ans_malformed code body e :
    code <> 401 -> code < 300 -> malformed g body -> own_error e -> answers g (inr (code, body)) (inl e)
| ans_rejected code l status :
    code <> 401 -> code < 300 -> member_object "status" l = Some status -> ~ says_authenticated status ->
    answers g (inr (code, Some (JObj l))) (inl (HTTPException 401 "invalid token"))
| ans_outside code l status user :
    code <> 401 -> code < 300 -> member_object "status" l = Some status -> says_authenticated status ->
    member_object "user" status = Some user -> ~ in_group g user ->
    answers g (inr (code, Some (JObj l))) (inl (HTTPException 403 "not a member of the required group"))
| ans_no_uuid code l status user :
    code <> 401 -> code < 300 -> member_object "status" l = Some status -> says_authenticated status ->
    member_object "user" status = Some user -> in_group g user ->
    (dict_get "uid" user = None \/ exists s, dict_get "uid" user = Some (JStr s) /\ parse_uuid s = None) ->
    answers g (inr (code, Some (JObj l))) (inl (HTTPException 401 "invalid token"))
| ans_admitted code l status user s uid :
    code <> 401 -> code < 300 -> member_object "status" l = Some status -> says_authenticated status ->
    member_object "user" status = Some user -> in_group g user ->
    dict_get "uid" user = Some (JStr s) -> parse_uuid s = Some uid ->
    answers g (inr (code, Some (JObj l))) (inr (mkUser uid (username user))).

(** [_in_], as [identify] tests it, is membership. *)
Lemma group_test g gs :
  existsb (fun v => match v with JStr g' => bool_decide (g' = g) | _ => false end) gs = true <-> JStr g ∈ gs.
Proof.
  rewrite existsb_exists. split.
  - intros (v & Hv%list_elem_of_In & Ht). destruct v; try done. by apply bool_decide_eq_true in Ht as ->.
  - intros Hg. exists (JStr g). split; [by apply list_elem_of_In|by apply bool_decide_eq_true].
Qed.

(** The member read with an empty object as the fallback. *)
Lemma json_get_member key l :
  match member_object key l with
  | Some o => json_get (JObj l) key (JObj []) = inr (JObj o)
  | None => exists v, json_get (JObj l) key (JObj []) = inr v /\ forall o, v <> JObj o
  end.
Proof.
  unfold member_object. cbn. destruct (dict_get key l) as [[]|]; try done; eexists; (split; [done|]); by intros.
Qed.

Lemma json_get_not_object v key d :
  (forall l, v <> JObj l) -> json_get v key d = inl (OtherError "AttributeError" "object has no attribute 'get'").
Proof. intros Hv. destruct v as [| | | | | |l]; try done. by destruct (Hv l). Qed.

Section Table.
Context {AP : Apiserver} (settings : Settings).
#[local] Abbreviation group := (auth_required_group settings).

(** What [read_review] answers on an authenticated review, by the user's object. *)
Definition read_user (user : list (string * json)) (gs : list json) : ReviewedUser :=
  mkReviewed (default (JStr "") (dict_get "uid" user)) (default (JStr "") (dict_get "username" user)) gs.

(** The groups of a typed user. *)
Definition groups_of (user : list (string * json)) : list json :=
  match dict_get "groups" user with Some (JArr gs) => gs | _ => [] end.

Lemma in_group_of g user : in_group g user <-> JStr g ∈ groups_of user.
Proof.
  unfold in_group, groups_of. split; [by intros (gs & -> & ?)|].
  intros H. destruct (dict_get "groups" user) as [[]|]; try by apply elem_of_nil in H. eauto.
Qed.

(** The tests of [identify] are the table's last three rows. *)
Lemma identify_row code l status user :
  code <> 401 -> code < 300 -> member_object "status" l = Some status -> says_authenticated status ->
  member_object "user" status = Some user ->
  answers group (inr (code, Some (JObj l))) (identify settings (read_user user (groups_of user))).
Proof.
  intros H401 Hc Hs Ha Hu. unfold identify. cbn [rv_groups rv_uid rv_username read_user].
  destruct (existsb _ _) eqn:Hg; [apply group_test, in_group_of in Hg|
    apply not_true_iff_false in Hg; rewrite group_test, <-in_group_of in Hg; by eapply ans_outside].
  destruct (dict_get "uid" user) as [v|] eqn:Hv; cbn [default from_option];
    [|by eapply ans_no_uuid; eauto].
  destruct v as [|b|z|r|s|vs|o]; try by (eapply ans_malformed; [done..|by eapply mal_uid|]).
  cbn [id json_uuid]. destruct (parse_uuid s) as [uid|] eqn:Hp; [|by eapply ans_no_uuid; eauto].
  replace (match default (JStr "") (dict_get "username" user) with JStr s0 => s0 | _ => ""%string end)
    with (username user) by (unfold username; by destruct (dict_get "username" user) as [[]|]).
  by eapply ans_admitted.
Qed.

(** The types of a TokenReview, for a status that may be absent. *)
Lemma typed_status cred token n code l status :
  (post_review cred token n).2 = inr (code, Some (JObj l)) -> member_object "status" l = Some status ->
  dict_get "authenticated" status = None \/ exists b, dict_get "authenticated" status = Some (JBool b).
Proof.
  unfold member_object. intros Hp. destruct (dict_get "status" l) as [[]|] eqn:Hs; try done; intros [= <-]; [|by left].
  destruct (review_types _ _ _ _ _ _ Hp Hs) as [Ha _].
  destruct (dict_get "authenticated" _) as [v|]; [|by left]. destruct (Ha v eq_refl) as [b ->]. eauto.
Qed.

Lemma typed_user cred token n code l status user :
  (post_review cred token n).2 = inr (code, Some (JObj l)) -> member_object "status" l = Some status ->
  member_object "user" status = Some user ->
  default (JArr []) (dict_get "groups" user) = JArr (groups_of user).
Proof.
  unfold member_object, groups_of. intros Hp Hs Hu.
  destruct (dict_get "user" status) as [[]|] eqn:Hu'; try done; injection Hu as <-; [|done].
  destruct (dict_get "status" l) as [[]|] eqn:Hs'; try done; injection Hs as <-; [|done].
  destruct (review_types _ _ _ _ _ _ Hp Hs') as [_ Ht]. destruct (Ht _ Hu') as [_ Hg].
  destruct (dict_get "groups" _) as [v|]; [|done]. by destruct (Hg v eq_refl) as [gs ->].
Qed.

(** What [read_review] answers on a typed review, case by case. *)
Inductive reads (l : list (string * json)) : exn + option ReviewedUser -> Prop :=
| reads_status e : own_error e -> member_object "status" l = None -> reads l (inl e)
| reads_rejected status :
    member_object "status" l = Some status -> ~ says_authenticated status -> reads l (inr None)
| reads_no_user e status :
    own_error e -> member_object "status" l = Some status -> says_authenticated status ->
    member_object "user" status = None -> reads l (inl e)
| reads_user status user :
    member_object "status" l = Some status -> says_authenticated status ->
    member_object "user" status = Some user -> reads l (inr (Some (read_user user (groups_of user)))).

Lemma read_review_reads cred token n code l :
  (post_review cred token n).2 = inr (code, Some (JObj l)) -> reads l (read_review (Some (JObj l))).
Proof.
  intros Hp. unfold read_review, mbind, sum_mbind. pose proof (json_get_member "status" l) as Hs.
  destruct (member_object "status" l) as [status|] eqn:Es.
  2: { destruct Hs as (v & -> & Hv). rewrite json_get_not_object by done. by apply reads_status. }
  rewrite Hs. change (json_get (JObj status) "authenticated" JNull)
    with (@inr exn _ (default JNull (dict_get "authenticated" status))).
  destruct (typed_status _ _ _ _ _ _ Hp Es) as [Ea|[[] Ea]]; rewrite Ea;
    cbn [default from_option id truthy].
  - eapply reads_rejected; [done|]. unfold says_authenticated. by rewrite Ea.
  - pose proof (json_get_member "user" status) as Hu.
    destruct (member_object "user" status) as [user|] eqn:Eu.
    + rewrite Hu. cbn [json_get]. rewrite (typed_user _ _ _ _ _ _ _ Hp Es Eu). by eapply reads_user.
    + destruct Hu as (v & -> & Hv). rewrite json_get_not_object by done. by eapply reads_no_user.
  - eapply reads_rejected; [done|]. unfold says_authenticated. rewrite Ea. by intros [=].
Qed.

Lemma answers_review cred token n code body :
  (post_review cred token n).2 = inr (code, body) -> code <> 401 -> code < 300 ->
  answers group (inr (code, body)) (verdict settings (read_review body)).
Proof.
  intros Hp H401 Hc. destruct body as [v|]; [|by eapply ans_malformed; [..|apply mal_text|]].
  assert ((exists l, v = JObj l) \/ forall l, v <> JObj l) as [[l ->]|Hv] by (destruct v; eauto).
  - destruct (read_review_reads _ _ _ _ _ Hp) as [e He Hs|status|e status He Hs Ha Hu|status user].
    + destruct e; try done; by (eapply ans_malformed; [..|by apply mal_status|]).
    + by eapply ans_rejected.
    + destruct e; try done; by (eapply ans_malformed; [..|by eapply mal_user|]).
    + by eapply identify_row.
  - unfold read_review, mbind, sum_mbind. rewrite json_get_not_object by done.
    by eapply ans_malformed; [..|apply mal_body|].
Qed.

(** The settled answer is the API server's to some review of the token. *)
Lemma settled_answer raw w : exists cred n, (post_review cred raw n).2 = (settled raw w).2.
Proof. unfold settled, ask. case_match; cbn; eauto. Qed.

Lemma answers_settled raw w :
  answers group (settled raw w).2 (verdict settings (classify (settled raw w).2)).
Proof.
  destruct (settled_answer raw w) as (cred & n & Hp). destruct (settled raw w).2 as [cls|[code body]]; [constructor|].
  unfold classify. destruct (code =? 401) eqn:H401; simp_bool; [by constructor; left|].
  destruct (300 <=? code) eqn:Hc; simp_bool; [by constructor; right|]. by eapply answers_review.
Qed.

(** A user that passes [read_review] and [identify] is vouched for. *)
Lemma read_review_vouches cred token n code body reviewed user :
  (post_review cred token n).2 = inr (code, body) -> code <> 401 -> code < 300 ->
  read_review body = inr (Some reviewed) -> identify settings reviewed = inr user -> vouches settings token user.
Proof.
  intros Hp H401 Hc Hr Hi. pose proof (answers_review _ _ _ _ _ Hp H401 Hc) as H.
  rewrite Hr in H. cbn [verdict] in H. rewrite Hi in H.
  inversion H as [| | | | | |c l status u s uid _ _ Hs Ha Hu Hg Hid Hpu]; subst.
  unfold member_object in *. destruct (dict_get "status" l) as [[]|] eqn:Hs'; try done; injection Hs as <-; [|done].
  destruct (dict_get "user" _) as [[]|] eqn:Hu'; try done; injection Hu as <-; [|by destruct Hg as (? & [=] & _)].
  by exists cred, n, code, l; do 3 eexists; split_and!.
Qed.
End Table.

(** * Theorems *)

(** C10: A request that carries a token is let in as a user, or its user cached, only
    if the API server itself answered a review of a token of the same hash (so of that
    token, unless SHA-256 collides) with a success whose status says authenticated, lists
    the required group and gives that user's uid and name, whatever other requests do
    to the cache meanwhile; a request without a token is a 401. *)
Theorem get_current_user_vouched {AP : Apiserver} settings raw :
  safe (trusted (vouches settings)) (fun r => forall u, r = inr u ->
      vouched (vouches settings) (hash_token raw) u /\
      ((forall token, hash_token token = hash_token raw -> token = raw) -> vouches settings raw u))
    (get_current_user settings (Some raw)) /\
  get_current_user settings None = Raise (HTTPException 401 "missing bearer token").
Proof.
  split; [|done]. eapply safe_mono; [|apply get_current_user_safe, read_review_vouches].
  intros r Hr u Hu. destruct (Hr u Hu) as (token & Ht & Hv). split; [by exists token|].
  intros Hinj. by rewrite <-(Hinj token Ht).
Qed.

(** C12: A hit asks nobody.  On a miss the API server's answer decides (one retry
    with the service's own token read again if the server refused that), by the table
    [answers]: no answer, an error status or a refusal of the service is a 503; a body
    that is no review passes Python's error through, which is answered as a 500; a
    token that is not authenticated or whose uid is no UUID is a 401, a user outside
    the group a 403, and only a user inside it is let in.  A refusal is never cached,
    and a user let in is found from then on. *)
Theorem get_current_user_outcome {AP : Apiserver} settings raw w :
  cache_ok (aw_cache w) -> (0 < tc_max (aw_cache w))%nat -> 0 < tc_ttl (aw_cache w) ->
  let h := hash_token raw in
  let r := exec (get_current_user settings (Some raw)) w in
  let looked_up := get (aw_now w) h (aw_cache w) in
  match looked_up.2 with
  | Some u => r = (w, inr u)
  | None =>
      answers (auth_required_group settings) (settled raw (set_cache looked_up.1 w)).2 r.2 /\
      (forall e, r.2 = inl e -> od_get h (tc_entries (aw_cache r.1)) = None) /\
      (forall u, r.2 = inr u -> (get (aw_now r.1) h (aw_cache r.1)).2 = Some u)
  end.
Proof.
  intros Hok Hm Ht h r looked_up. unfold r, get_current_user.
  rewrite exec_bind. unfold cache_get. rewrite exec_act. fold h. fold looked_up. cbn [fst snd].
  pose proof (get_ok (aw_now w) h (aw_cache w) Hok) as [Hok' _].
  pose proof (get_frame (aw_now w) h (aw_cache w)) as [Hmax Httl].
  pose proof (miss_unbound (aw_now w) h (aw_cache w)) as Hmiss. fold looked_up in Hok', Hmax, Httl, Hmiss.
  destruct looked_up.2 as [u|] eqn:El.
  { cbn [exec]. f_equal. unfold looked_up in El. apply hit_same in El. fold looked_up in El. rewrite El. by destruct w. }
  specialize (Hmiss eq_refl). rewrite exec_bind, exec_attempt, exec_review.
  set (review := settled raw (set_cache looked_up.1 w)).
  pose proof (settled_frame raw (set_cache looked_up.1 w)) as [Hc Hn]. fold review in Hc, Hn. cbn in Hc, Hn.
  cbn [fst snd]. pose proof (answers_settled settings raw (set_cache looked_up.1 w)) as Htable. fold review in Htable.
  revert Htable. unfold verdict. destruct (classify review.2) as [e|[reviewed|]]; intros Htable.
  - destruct e; cbn [exec fst snd]; rewrite Hc; by split_and!; [exact Htable|..].
  - unfold or_raise. destruct (identify settings reviewed) as [e|u].
    { rewrite (exec_bind (Raise e)). cbn [exec fst snd]. rewrite Hc. by split_and!; [exact Htable|..]. }
    rewrite (exec_bind (Ret u)). cbn [exec]. rewrite exec_bind. unfold cache_put. rewrite exec_bind, exec_act.
    rewrite Hc, Hn. destruct (put_ok (aw_now w) (aw_now w) h u looked_up.1 ltac:(lia) Hok')
      as (c & -> & _ & _ & _ & Hput). cbn.
    split_and!; [exact Htable|by intros ? [=]|]. intros ? [= <-].
    rewrite (proj2 (Z.leb_gt _ _)) in Hput by lia. destruct Hput as (room & _ & Hput).
    rewrite Hn. unfold get. rewrite Hput, od_get_set, decide_True by done.
    by rewrite (proj2 (Z.leb_gt _ _)) by lia.
  - cbn [exec fst snd]. rewrite Hc. by split_and!; [exact Htable|..].
Qed.

(** * A cluster *)

Module RefCluster.
Definition alice_uid : string := "00000000-0000-0000-0000-0000000003e8".
Definition review_json (token : string) : json :=
  if decide (token = "alice-token"%string) then
    JObj [("status", JObj [("authenticated", JBool true);
      ("user", JObj [("uid", JStr alice_uid); ("username", JStr "alice");
                     ("groups", JArr [JStr "jobprocessor-users"])])])]%string
  else JObj [("status", JObj [("authenticated", JBool false)])]%string.

(** It accepts the service's token ["sa-2"], which is what the file holds. *)
#[export] Program Instance cluster : Apiserver := {|
  net := unit;
  post_review cred token n :=
    (n, if decide (cred = Some "Bearer sa-2"%string) then inr (201, Some (review_json token)) else inr (401, None));
  read_token_file n := (n, Some (String.append "sa-2" (String "010"%char EmptyString)));
|}.
Next Obligation.
  intros cred token n code l status. cbn. case_decide; [|done]. intros [= _ Hl].
  unfold review_json in Hl. case_decide; injection Hl as <-; cbn; intros [= <-]; cbn; (split; [intros ? [= <-]; eauto|]); [|done].
  intros user [= <-]. cbn. split; intros ? [= <-]; eauto.
Qed.
End RefCluster.
Export RefCluster.

Definition stale_world : auth_world := AuthWorld tt (Some "sa-1"%string) (mkCache (seconds 60) 1024 []) 0.
Definition alice : AuthedUser := mkUser (Uuid 1000 eq_refl) "alice".

Lemma stale_trusted : trusted (vouches default_settings) stale_world.
Proof. split_and!; [split; cbn; [constructor|lia]|cbn; lia|done]. Qed.

(** Alice is let in, and the cluster's review of a token of that hash says so. *)
Lemma get_current_user_vouched_witness :
  (exec (get_current_user default_settings (Some "alice-token"%string)) stale_world).2 = inr alice /\
  vouched (vouches default_settings) (hash_token "alice-token") alice.
Proof.
  assert ((exec (get_current_user default_settings (Some "alice-token"%string)) stale_world).2 = inr alice) as E
    by (vm_compute; reflexivity).
  split; [exact E|].
  exact (proj1 (proj2 (safe_exec _ _ _ _ (proj1 (get_current_user_vouched default_settings "alice-token"))
    stale_trusted) alice E)).
Defined.

Lemma get_current_user_outcome_witness :
  answers "jobprocessor-users" (inr (201, Some (review_json "alice-token"))) (inr alice) /\
  answers "jobprocessor-users" (inr (201, Some (review_json "mallory"))) (inl (HTTPException 401 "invalid token")).
Proof.
  assert (cache_ok (aw_cache stale_world)) as Hok by (split; cbn; [constructor|lia]).
  split.
  - exact (proj1 (get_current_user_outcome default_settings "alice-token" stale_world Hok ltac:(cbn; lia) ltac:(cbn; lia))).
  - exact (proj1 (get_current_user_outcome default_settings "mallory" stale_world Hok ltac:(cbn; lia) ltac:(cbn; lia))).
Defined.
