(* ===== verification/Effects.v ===== *)
(** Reasoning about coroutines: their runs without interference, and the relations
    on the rows that every one of their effects respects. *)
From stdpp Require Import base tactics option list gmap strings numbers relations.
From S2P Require Import Prelude Prog Uuid Model Services Repository RepositoryFacts Queue Retry Handlers Payloads Worker Ticker Api.
Set Default Goal Selector "!".
Open Scope Z_scope.

Create HintDb along.

Section Effects.
Context {PG : Postgres} {RD : Redis} {EN : Entropy}.
Implicit Types (w : world).

(** The rows of a world. *)
Definition rows (w : world) : gmap uuid Job := pg_rows (w_db w).

Lemma rows_keyed w k j : rows w !! k = Some j -> j_id j = k.
Proof. apply pg_primary_key. Qed.

(** ** Runs *)

Lemma exec_pg {X} (t : datetime -> pg_db -> pg_db * X) w :
  exec (pg t) w = (with_db (t (w_now w) (w_db w)).1 w, inr (t (w_now w) (w_db w)).2).
Proof. done. Qed.
Lemma exec_pg_read {X} (q : pg_db -> X) w : exec (pg_read q) w = (w, inr (q (w_db w))).
Proof. done. Qed.
Lemma exec_redis_do {X} (c : datetime -> rd -> rd * X) w :
  exec (redis_do c) w =
  (with_redis (c (w_now w) (w_redis w)).1 w, inr (c (w_now w) (w_redis w)).2).
Proof. done. Qed.
Lemma exec_redis_try {X} (c : datetime -> rd -> rd * (exn + X)) w :
  exec (redis_try c) w =
  (with_redis (c (w_now w) (w_redis w)).1 w, (c (w_now w) (w_redis w)).2).
Proof. unfold redis_try. rewrite exec_bind, exec_redis_do. by destruct (c _ _).2. Qed.
Lemma exec_clock w : exec clock w = (w, inr (w_now w)).
Proof. done. Qed.
Lemma exec_or_raise {X} (r : exn + X) w : exec (or_raise r) w = (w, r).
Proof. by destruct r. Qed.
Lemma exec_ret {X} (x : X) w : exec (Ret x : coroutine X) w = (w, inr x).
Proof. done. Qed.
Lemma exec_raise {X} (e : exn) w : exec (Raise e : coroutine X) w = (w, inl e).
Proof. done. Qed.

(** [w'] is [w] with other rows, [m]. *)
Record wrote (m : gmap uuid Job) (w w' : world) : Prop := mkWrote {
  wrote_rows : rows w' = m;
  wrote_redis : w_redis w' = w_redis w;
  wrote_now : w_now w' = w_now w;
  wrote_rng : w_rng w' = w_rng w;
}.

Lemma rows_with_redis r w : rows (with_redis r w) = rows w.
Proof. done. Qed.

(** A guarded transition whose row satisfies the guard wins and writes the row. *)
Lemma exec_win (t : datetime -> pg_db -> pg_db * bool) id g f w j :
  (forall now d, t now d = guarded id g (f now) d) -> (forall now, keeps_key (f now)) ->
  rows w !! id = Some j -> g j = true ->
  exists w', exec (pg t) w = (w', inr true) /\ wrote (<[id := f (w_now w) j]> (rows w)) w w'.
Proof.
  intros Ht Hf Hj Hg.
  assert (row_at (rows w) id g = Some j) as Hrow by (unfold row_at; by rewrite Hj, Hg).
  eexists. rewrite exec_pg. split.
  - f_equal. f_equal. rewrite Ht, guarded_won by done. unfold rows in Hrow. by rewrite Hrow.
  - split; [|done..]. unfold rows; simpl. rewrite Ht, guarded_rows by done.
    unfold upd_rows. unfold rows in Hrow. by rewrite Hrow.
Qed.

(** Otherwise it loses and writes nothing. *)
Lemma exec_lose (t : datetime -> pg_db -> pg_db * bool) id g f w :
  (forall now d, t now d = guarded id g (f now) d) -> (forall now, keeps_key (f now)) ->
  row_at (rows w) id g = None ->
  exists w', exec (pg t) w = (w', inr false) /\ wrote (rows w) w w'.
Proof.
  intros Ht Hf Hrow. eexists. rewrite exec_pg. split.
  - f_equal. f_equal. rewrite Ht, guarded_won by done. unfold rows in Hrow. by rewrite Hrow.
  - split; [|done..]. unfold rows; simpl. rewrite Ht, guarded_rows by done.
    unfold upd_rows. unfold rows in Hrow. by rewrite Hrow.
Qed.

Lemma exec_mark_synced id w j :
  rows w !! id = Some j ->
  exists w', exec (pg (fun _ => mark_synced id)) w = (w', inr tt) /\
    wrote (<[id := set_is_synced_to_redis true j]> (rows w)) w w'.
Proof.
  intros Hj. eexists. rewrite exec_pg. split; [done|]. split; [|done..].
  unfold rows; simpl. rewrite update_where_id_rows by done.
  unfold upd_rows, row_at, rows in *. by rewrite Hj.
Qed.

Lemma exec_get_job id w : exec (pg_read (get_job id None)) w = (w, inr (inr (rows w !! id))).
Proof. rewrite exec_pg_read. by rewrite get_job_rows. Qed.

Lemma exec_get_owned id u w :
  exec (pg_read (get_job id (Some u))) w =
  (w, inr (inr (row_at (rows w) id (fun j => bool_decide (j_user_id j = Some u))))).
Proof. rewrite exec_pg_read. by rewrite get_job_owned_rows. Qed.

(** ** Relations on the rows *)

Definition on_rows (Q : relation (gmap uuid Job)) : relation world :=
  fun w w' => Q (rows w) (rows w').

Lemma rtc_on_rows Q w w' : rtc (on_rows Q) w w' -> rtc Q (rows w) (rows w').
Proof. induction 1; [done|]. by eapply rtc_l. Qed.

(** Every run of the transaction [t] moves the rows along [Q]. *)
Definition leads {X} (Q : relation (gmap uuid Job)) (t : datetime -> pg_db -> pg_db * X) : Prop :=
  forall now d, Q (pg_rows d) (pg_rows (t now d).1).

(** A relation that does not look at clocks and random numbers. *)
Class Calm (R : relation world) : Prop :=
  calm w w' : w_db w' = w_db w -> w_redis w' = w_redis w -> R w w'.

#[export] Instance on_rows_calm Q : Reflexive Q -> Calm (on_rows Q).
Proof. intros HQ w w' Hd _. unfold on_rows, rows. by rewrite Hd. Qed.

Section Calm.
Context (R : relation world) {HR : Calm R}.
Notation along := (all_steps R).

Lemma along_pg_read {X} (q : pg_db -> X) : along (pg_read q).
Proof. apply all_steps_act. intros w. by apply HR. Qed.
Lemma along_or_raise {X} (r : exn + X) : along (or_raise r).
Proof. by destruct r. Qed.
Lemma along_clock : along clock.
Proof. apply all_steps_act. intros w. by apply HR. Qed.
Lemma along_random53 : along random53.
Proof. apply all_steps_act. intros w. by apply HR. Qed.
Lemma along_fresh_uuid : along fresh_uuid.
Proof. apply all_steps_act. intros w. by apply HR. Qed.
Lemma along_sleep d : along (sleep d).
Proof. apply all_steps_act. intros w. by apply HR. Qed.
Lemma along_with_deadline {A} (deadline : datetime) (p : coroutine A) :
  along p -> along (with_deadline deadline p).
Proof.
  induction p as [a|e|X f k IH]; simpl; [done..|]. intros [Hf Hk]. split; [done|].
  intros [[|] x]; [done|]. by apply IH.
Qed.
Lemma along_ret {X} (x : X) : along (Ret x : coroutine X).
Proof. done. Qed.
Lemma along_raise {X} (e : exn) : along (Raise e : coroutine X).
Proof. done. Qed.
End Calm.

Section Along.
Context (Q : relation (gmap uuid Job)) {HQ : Reflexive Q}.
Notation along := (all_steps (on_rows Q)).

Lemma along_pg {X} (t : datetime -> pg_db -> pg_db * X) : leads Q t -> along (pg t).
Proof. intros Ht. apply all_steps_act. intros w. apply Ht. Qed.
Lemma along_redis_do {X} (c : datetime -> rd -> rd * X) : along (redis_do c).
Proof. apply all_steps_act. intros w. apply HQ. Qed.
Lemma along_redis_try {X} (c : datetime -> rd -> rd * (exn + X)) : along (redis_try c).
Proof. apply all_steps_bind; [apply along_redis_do|]. intros r. apply along_or_raise. Qed.
End Along.
End Effects.
#[export] Hint Rewrite @exec_get_job @exec_get_owned @rows_with_redis : jobs_rw.
#[export] Hint Rewrite @exec_redis_do @exec_redis_try @exec_clock
  @exec_or_raise @exec_ret @exec_raise : jobs_rw.
#[export] Hint Resolve along_pg_read along_redis_do along_or_raise along_redis_try along_clock
  along_random53 along_fresh_uuid along_sleep along_ret along_raise : along.
#[export] Hint Resolve all_steps_for_each all_steps_attempt : along.
#[export] Hint Extern 1 (Reflexive _) => typeclasses eauto : along.
#[export] Hint Extern 1 (Calm _) => typeclasses eauto : along.

(** Run the guarded transition [t] at the head of [exec _ w], on the row [Hj] says,
    whose guard holds by [Hg]; or on a row it does not apply to. *)
Tactic Notation "win" constr(t) constr(Hj) constr(Hg) "as" simple_intropattern(p) :=
  destruct (exec_win t _ _ _ _ _ (fun _ _ => eq_refl) (fun _ _ => eq_refl) Hj Hg) as p.
Tactic Notation "lose" constr(t) constr(Hr) "as" simple_intropattern(p) :=
  destruct (exec_lose t _ _ _ _ (fun _ _ => eq_refl) (fun _ _ => eq_refl) Hr) as p.
Tactic Notation "synced" "as" simple_intropattern(p) :=
  match goal with
  | |- context [exec (pg (fun _ => mark_synced ?i)) ?w] => edestruct (exec_mark_synced i w) as p
  end.

(** Walk through a coroutine, leaving the writes of the table and the calls that
    [along] does not know. *)
Ltac along_walk :=
  repeat match goal with
  | |- all_steps _ (_ ≫= _) => apply all_steps_bind; [|intros ?]
  | |- all_steps _ (match ?x with _ => _ end) => destruct x
  | |- all_steps _ (let '_ := ?x in _) => destruct x
  | |- all_steps _ (attempt _) => apply all_steps_attempt
  | |- all_steps _ (with_deadline _ _) => apply along_with_deadline
  | |- all_steps _ (for_each _ _) => apply all_steps_for_each; intros ?
  | |- all_steps _ (pg _) => apply along_pg
  | |- leads _ _ => solve [auto with along nocore]
  | |- all_steps _ _ => solve [auto with along nocore]
  | |- _ => progress (cbv beta zeta)
  end.
