(* ===== verification/Along.v ===== *)
(** Which rows each coroutine of the service touches, and how: every effect of the
    coroutines of one job moves the table along any relation that allows steps of
    that job's row ([Moves]); every effect of any coroutine is a [db_step]. *)
From stdpp Require Import base tactics option list gmap strings numbers relations.
From S2P Require Import Prelude Prog Uuid Model Services Repository RepositoryFacts Queue Retry Handlers Payloads Worker Ticker TokenCache Api Effects.
Set Default Goal Selector "!".
Open Scope Z_scope.

(** * Relations on the table that a job's own transactions respect *)

(** [Q] allows any step of the row of [id]. *)
Class Moves (Q : relation (gmap uuid Job)) (id : uuid) : Prop := {
  moves_refl :: Reflexive Q;
  moves_upd g f l m : (forall j, g j = true -> row_step l j (f j)) -> Q m (upd_rows id g f m);
}.

#[export] Instance db_step_moves id : Moves db_step id.
Proof. split; [apply _|]. intros. by eapply upd_rows_step. Qed.

(** Nothing but the row of [id] changes. *)
Definition only_row (id : uuid) (m m' : gmap uuid Job) : Prop := forall k, k <> id -> m' !! k = m !! k.

#[export] Instance only_row_refl id : Reflexive (only_row id).
Proof. by intros m k. Qed.
#[export] Instance only_row_moves id : Moves (only_row id) id.
Proof.
  split; [apply _|]. intros g f l m _ k Hk. unfold upd_rows.
  destruct (row_at m id g); [by rewrite lookup_insert_ne|done].
Qed.

Section Moves.
Context {PG : Postgres}.
Context (Q : relation (gmap uuid Job)) (id : uuid) {HM : Moves Q id}.
Implicit Types (d : pg_db).

Lemma moves_guarded {X} g f l (t : datetime -> pg_db -> pg_db * X) :
  (forall now d, pg_rows (t now d).1 = pg_rows (guarded id g (f now) d).1) ->
  (forall now, keeps_key (f now)) -> (forall now j, g j = true -> row_step l j (f now j)) ->
  leads Q t.
Proof.
  intros Ht Hf Hstep now d. rewrite Ht, guarded_rows by done. eapply moves_upd; eauto.
Qed.

Ltac solve_moves := eapply moves_guarded; [intros; reflexivity|done|intros; cbv beta; by constructor].

Lemma moves_mark_synced : leads Q (fun _ => mark_synced id).
Proof.
  intros now d. unfold mark_synced. simpl. rewrite update_where_id_rows by done.
  eapply moves_upd. intros. by constructor.
Qed.
Lemma moves_claim : leads Q (fun now => claim_job now id).
Proof. solve_moves. Qed.
Lemma moves_complete r p : leads Q (fun now => complete_job now id r p).
Proof. solve_moves. Qed.
Lemma moves_fail e : leads Q (fun now => fail_job now id e).
Proof. solve_moves. Qed.
Lemma moves_retry_pending : leads Q (fun _ => retry_to_pending id).
Proof. solve_moves. Qed.
Lemma moves_retry_scheduled t : leads Q (fun _ => retry_to_scheduled id t).
Proof. solve_moves. Qed.
Lemma moves_reset : leads Q (fun _ => reset_failed_to_pending id).
Proof. solve_moves. Qed.
Lemma moves_init_progress : leads Q (fun _ => init_progress id).
Proof. solve_moves. Qed.
Lemma moves_cancel_pending now : leads Q (fun _ => cancel_pending_or_scheduled now id).
Proof. solve_moves. Qed.
Lemma moves_request_cancel now : leads Q (fun _ => request_cancel now id).
Proof. solve_moves. Qed.
Lemma moves_cancel_job s : leads Q (fun now => cancel_job now id s).
Proof. solve_moves. Qed.
Lemma moves_write_progress p : leads Q (fun _ => write_progress id p).
Proof. solve_moves. Qed.
End Moves.
#[export] Hint Resolve moves_mark_synced moves_claim moves_complete moves_fail moves_retry_pending
  moves_retry_scheduled moves_reset moves_init_progress moves_cancel_pending moves_request_cancel
  moves_cancel_job moves_write_progress : along.
#[export] Hint Extern 1 (Moves _ _) => typeclasses eauto : along.

(** * Coroutines that leave the table alone *)

(** [along_walk] with the reflexivity that [Moves] carries. *)
Ltac moves_walk :=
  match goal with
  | HM : Moves ?Q ?id |- _ => pose proof (@moves_refl Q id HM); along_walk
  end.

Section Any.
Context {PG : Postgres} {RD : Redis} {EN : Entropy} {OT : Otel}.
Context (Q : relation (gmap uuid Job)) {HQ : Reflexive Q}.
Notation along := (all_steps (on_rows Q)).

Lemma along_enqueue s i c : along (enqueue s i c).
Proof. unfold enqueue. along_walk. Qed.
Lemma along_schedule z i t : along (schedule z i t).
Proof. unfold schedule. along_walk. Qed.
Lemma along_ack s g i : along (ack s g i).
Proof. unfold ack. along_walk. Qed.
Lemma along_ensure_group s g : along (ensure_group s g).
Proof. unfold ensure_group. along_walk. Qed.
Lemma along_ensure_groups settings : along (ensure_groups settings).
Proof. apply all_steps_for_each. intros s. apply along_ensure_group. Qed.
Lemma along_probe g c n ss : along (probe g c n ss).
Proof. induction ss as [|s ss IH]; cbn [probe]; along_walk. Qed.
Lemma along_read_priority ss g c b n : along (read_priority ss g c b n).
Proof. pose proof along_probe. unfold read_priority. along_walk. Qed.
Lemma along_due_job_ids z t n : along (due_job_ids z t n).
Proof. unfold due_job_ids. along_walk. Qed.
Lemma along_promote z r i : along (promote z r i).
Proof. unfold promote. along_walk. Qed.
End Any.
#[export] Hint Resolve along_enqueue along_schedule along_ack along_ensure_group along_ensure_groups
  along_read_priority along_due_job_ids along_promote : along.

(** Those that do not touch Redis either. *)
Section Untouched.
Context {PG : Postgres} {RD : Redis} {EN : Entropy}.
Context (R : relation world) {HR : Calm R}.
Notation along := (all_steps R).

Lemma along_sleep_uniform a b : along (sleep_uniform a b).
Proof. unfold sleep_uniform. along_walk. Qed.
Lemma along_session_get h i : along (session_get h i).
Proof. unfold session_get. along_walk. Qed.
Lemma along_refresh i : along (refresh i).
Proof. unfold refresh. along_walk. Qed.
Lemma along_owned_job i u : along (owned_job i u).
Proof. unfold owned_job. along_walk. Qed.
End Untouched.
#[export] Hint Resolve along_sleep_uniform along_session_get along_refresh along_owned_job : along.

(** A handler writes nothing but the progress of its job. *)
Section Handler.
Context {PG : Postgres} {RD : Redis} {EN : Entropy} {PY : Pydantic}.
Context (R : relation world) {HR : Calm R} (id : uuid).
Context (Hprogress : forall p, all_steps R (pg (fun _ => write_progress id p))).
Notation along := (all_steps R).

Lemma along_handle_email p : along (handle_email p).
Proof. unfold handle_email. along_walk. Qed.
Lemma along_handle_webhook p : along (handle_webhook p).
Proof. unfold handle_webhook. along_walk. Qed.
Lemma along_handle_report p : along (handle_report p).
Proof. unfold handle_report. along_walk. Qed.
#[local] Hint Resolve along_handle_email along_handle_webhook along_handle_report : along.
Lemma along_run_item i : along (run_item i).
Proof. unfold run_item. along_walk. Qed.

Lemma along_ctx_cancelled c : ctx_job_id c = id -> along (ctx_cancelled c).
Proof. intros Hc. unfold ctx_cancelled. rewrite Hc. along_walk. Qed.

Lemma ctx_cancelled_id c : returns (fun r => ctx_job_id r.2 = ctx_job_id c) (ctx_cancelled c).
Proof.
  simpl. intros now. destruct (ctx_due now c); [|done].
  destruct (bool_decide _); by simpl.
Qed.

Lemma along_batch_loop n i items c s : ctx_job_id c = id -> along (batch_loop n i items c s).
Proof.
  revert i c s. induction items as [|item items IH]; intros i c s Hc; cbn [batch_loop]; [done|].
  eapply all_steps_bind_returns; [by apply along_ctx_cancelled|apply ctx_cancelled_id|].
  intros [[|] c'] Hc'; simpl in *; [done|].
  apply all_steps_bind; [apply all_steps_attempt, along_run_item|].
  intros [e|result]; [destruct (is_exception e); [|done]|]; apply IH; by rewrite <-Hc, <-Hc'.
Qed.

Lemma along_run_handler t p c : ctx_job_id c = id -> along (run_handler t p c).
Proof.
  intros Hc. pose proof along_batch_loop. destruct t; cbn [run_handler]; auto with along.
  unfold handle_batch. along_walk.
Qed.

Lemma along_run_job settings job : j_id job = id -> along (run_job settings job).
Proof.
  intros Hid. unfold run_job, run_with_timeout. along_walk. by apply along_run_handler.
Qed.
End Handler.

(** * The coroutines of one job *)

Section OneJob.
Context {PG : Postgres} {RD : Redis} {EN : Entropy} {OT : Otel} {PY : Pydantic} {OM : Orm}.
Context (settings : Settings).
Context (Q : relation (gmap uuid Job)).
Notation along := (all_steps (on_rows Q)).

Lemma along_schedule_retry_or_fail j e c :
  Moves Q (j_id j) -> along (schedule_retry_or_fail settings j e c).
Proof. intros HM. unfold schedule_retry_or_fail. moves_walk. Qed.
#[local] Hint Resolve along_schedule_retry_or_fail : along.

Lemma along_settle_error j e : Moves Q (j_id j) -> along (settle_error settings j e).
Proof. intros HM. unfold settle_error. moves_walk. Qed.
Lemma along_settle_result j r : Moves Q (j_id j) -> along (settle_result j r).
Proof. intros HM. unfold settle_result. moves_walk. Qed.
#[local] Hint Resolve along_settle_error along_settle_result : along.

Lemma along_process_claimed j : Moves Q (j_id j) -> along (process_claimed settings j).
Proof.
  intros HM. unfold process_claimed. moves_walk.
  apply (along_run_job _ (j_id j)); [|done]. intros p. by apply along_pg, moves_write_progress.
Qed.

Lemma along_handoff_pending j : Reflexive Q -> along (handoff_pending settings j).
Proof. intros. unfold handoff_pending. along_walk. Qed.
Lemma along_handoff_scheduled j t : Reflexive Q -> along (handoff_scheduled settings j t).
Proof. intros. unfold handoff_scheduled. along_walk. Qed.
#[local] Hint Resolve along_handoff_pending along_handoff_scheduled : along.

Lemma along_reconcile_one j : Moves Q (j_id j) -> along (reconcile_one settings j).
Proof. intros HM. unfold reconcile_one. moves_walk. Qed.
Lemma along_reap_row j : Moves Q (j_id j) -> along (reap_row settings j).
Proof. intros HM. unfold reap_row. moves_walk. Qed.

Lemma along_cancel_rounds n id h : Moves Q id -> along (cancel_rounds settings n id h).
Proof.
  intros HM. revert h. induction n as [|n IH]; intros h; cbn [cancel_rounds]; [done|].
  unfold answer_with. moves_walk.
Qed.
Lemma along_cancel_job_route id u : Moves Q id -> along (cancel_job_route settings id u).
Proof. intros HM. unfold cancel_job_route. moves_walk. by apply along_cancel_rounds. Qed.
Lemma along_retry_job id u : Moves Q id -> along (retry_job settings id u).
Proof. intros HM. unfold retry_job. moves_walk. Qed.
Lemma along_get_job_route id u : Reflexive Q -> along (get_job_route id u).
Proof. intros HQ. unfold get_job_route. along_walk. Qed.
End OneJob.

(** * Every coroutine, along [db_step] *)

Section Table.
Context {PG : Postgres} {RD : Redis} {EN : Entropy} {OT : Otel} {PY : Pydantic} {OM : Orm}.
Context (settings : Settings).
Notation along := (all_steps (on_rows db_step)).

Lemma leads_promote us : leads db_step (fun _ => promote_scheduled_to_pending us).
Proof. intros now d. apply promote_scheduled_to_pending_step. Qed.

Lemma leads_create id t p st sa pr mx k h tr u n :
  st = pending \/ st = scheduled /\ is_Some sa ->
  leads db_step (fun now => create_job (new_job id now t p st sa pr mx k h tr u n)).
Proof. intros Hst now d. apply create_job_step. unfold fresh_row. eauto 20. Qed.
#[local] Hint Resolve leads_promote : along.

Lemma along_create sub st sa mx k h u :
  st = pending \/ st = scheduled /\ is_Some sa -> along (create sub st sa mx k h u).
Proof. intros Hst. unfold create. along_walk. by apply leads_create. Qed.

Lemma along_create_and_handoff sub k h u : along (_create_and_handoff settings sub k h u).
Proof.
  assert (forall t sub mx k h u, along (create sub scheduled (Some t) mx k h u)) by
    eauto using along_create.
  assert (forall sub mx k h u, along (create sub pending None mx k h u)) by
    eauto using along_create.
  unfold _create_and_handoff. along_walk.
Qed.

Lemma along_submit_job sub u : along (submit_job settings sub u).
Proof. pose proof along_create_and_handoff. unfold submit_job. along_walk. Qed.

Lemma along_handle_message m : along (handle_message settings m).
Proof.
  pose proof along_process_claimed. destruct m as [[s i] f]. unfold handle_message, process_job.
  along_walk.
Qed.
#[local] Hint Resolve along_handle_message : along.

Lemma along_pull c : along (pull settings c).
Proof. unfold pull. along_walk. Qed.
#[local] Hint Resolve along_pull : along.

Lemma along_worker_round c : along (worker_round settings c).
Proof. unfold worker_round. along_walk. Qed.

Lemma along_promote_due : along (promote_due settings).
Proof. unfold promote_due. along_walk. Qed.

Lemma along_reconcile_rows rows n : along (reconcile_rows settings rows n).
Proof.
  pose proof along_reconcile_one. revert n.
  induction rows as [|j rows IH]; intros n; cbn [reconcile_rows]; along_walk.
Qed.
#[local] Hint Resolve along_reconcile_rows : along.

Lemma along_reconcile_orphans fuel : along (reconcile_orphans settings fuel).
Proof.
  unfold reconcile_orphans. apply all_steps_bind; [auto with along|]. intros now.
  generalize (@nil Job) 0%nat. induction fuel as [|fuel IH]; intros held n; cbn [reconcile_loop];
    along_walk.
Qed.

Lemma along_reap_one s i id : along (_reap_one settings s i id).
Proof. pose proof along_reap_row. unfold _reap_one. along_walk. Qed.
#[local] Hint Resolve along_reap_one : along.
Lemma along_reap_entry s m : along (reap_entry settings s m).
Proof. unfold reap_entry. along_walk. Qed.
#[local] Hint Resolve along_reap_entry : along.
Lemma along_reap_loop fuel s c n : along (reap_loop settings fuel s c n).
Proof. revert c n. induction fuel as [|fuel IH]; intros c n; cbn [reap_loop]; along_walk. Qed.
#[local] Hint Resolve along_reap_loop : along.
Lemma along_reap_streams fuel ss n : along (reap_streams settings fuel ss n).
Proof. revert n. induction ss as [|s ss IH]; intros n; cbn [reap_streams]; along_walk. Qed.
#[local] Hint Resolve along_promote_due along_reconcile_orphans along_reap_streams : along.

Lemma along_tick fuel l : along (tick settings fuel l).
Proof. unfold tick, tick_body, when_due, reap_stale. along_walk. Qed.
Lemma along_ticks n fuel l : along (ticks settings n fuel l).
Proof.
  pose proof along_tick. revert l. induction n as [|n IH]; intros l; cbn [ticks]; along_walk.
Qed.
Lemma along_ticker_main n fuel : along (ticker_main settings n fuel).
Proof. pose proof along_ticks. unfold ticker_main. along_walk. Qed.
End Table.
