(* ===== verification/Scenario.v ===== *)
(** Concrete inputs: reference field types and ORM, and the requests, jobs and
    worlds at which the theorems are evaluated. *)
From stdpp Require Import base tactics option list gmap strings numbers relations.
From Stdlib Require Import Ascii.
From S2P Require Import Prelude Prog Uuid Model Services Reference Repository RepositoryFacts Queue Json Handlers Payloads Schemas Worker Ticker TokenCache Api.
From S2P Require Import Effects.
Set Default Goal Selector "!".
Open Scope Z_scope.

Module RefSchemas.
(** An address is any text with an @; a URL any text after the scheme, its host what
    precedes a slash. *)
Definition email_text (n : Z) (s : string) : option string :=
  if (str_len s <=? n) && bool_decide (is_Some (after_last_at (text s))) then Some s else None.

Fixpoint until_slash (l : list ascii) : list ascii :=
  match l with
  | [] => []
  | c :: l' => if bool_decide (c = "/"%char) then [] else c :: until_slash l'
  end.
Definition https_text (schemes : list string) (n : Z) (s : string) : option (string * option string) :=
  if (str_len s <=? n) && starts_with (text "https://") (text s) && bool_decide ("https"%string ∈ schemes)
  then Some (s, Some (String.string_of_list_ascii (until_slash (drop 8 (text s))))) else None.

#[export] Program Instance field_types : FieldTypes := {| email_str := email_text; any_url := https_text |}.
Next Obligation.
  intros n s e. cbn beta. unfold email_text. destruct (_ && _) eqn:E; [|done]. intros [= <-]. simp_bool. done.
Qed.

#[export] Instance pydantic : Pydantic := payload_models.

(** The ORM's default: the object follows when it satisfies the WHERE clause. *)
#[export] Program Instance orm : Orm := {|
  synchronize won guard upd j := if guard j then upd j else j;
|}.
Next Obligation. intros won guard upd j Hu. cbn beta. destruct (guard j); [|done]. by apply keeps_key_id. Qed.
End RefSchemas.
Export RefWorld RefSchemas.

(** * Requests and jobs *)

Definition the_settings : Settings := default_settings.

(** The default settings with an allowlist of hosts. *)
Definition allow_hosts (hosts : list string) (s : Settings) : Settings :=
  mkSettings (database_url s) (redis_url s) (stream_high s) (stream_normal s) (stream_low s)
    (consumer_group s) (block_ms s) (delayed_zset s) (ticker_interval_s s) (ticker_batch_size s)
    (reconcile_interval_s s) (reconcile_grace_s s) (reconcile_batch_size s) (log_level s)
    (job_handler_timeout_s s) (visibility_timeout_s s) (reaper_interval_s s) (reaper_batch_size s)
    (max_attempts s) (retry_backoff_schedule s) (cancel_poll_interval_s s) (worker_concurrency s)
    (db_pool_size s) (db_disable_prepared_statements s) (worker_max_rss_mb s) (auth_cache_ttl_s s)
    (auth_tokenreview_url s) (auth_sa_token_file s) (auth_ca_file s) (auth_required_group s)
    (auth_timeout_s s) (otel_enabled s) (otel_exporter_otlp_endpoint s) (health_port s) (rate_limit_enabled s)
    (submit_rate_limit_per_min s) (control_rate_limit_per_min s) (read_rate_limit_per_min s)
    (stats_rate_limit_per_min s) (forwarded_allow_ips s) hosts (email_allowed_domains s)
    (max_request_body_bytes s).

Definition hook_settings : Settings := allow_hosts ["example.com"%string] default_settings.

Definition t0 : datetime := seconds 1700000000.
Definition alice : AuthedUser := mkUser (Uuid 1000 eq_refl) "alice".
Definition bob : AuthedUser := mkUser (Uuid 2000 eq_refl) "bob".

Definition report_json : json := JObj [("report_type", JStr "sales")]%string.
Definition batch_json : json :=
  JObj [("items", JArr [JObj [("type", JStr "report"); ("report_type", JStr "ops")];
                        JObj [("type", JStr "report"); ("report_type", JStr "sales")]])]%string.

Definition report_submission (key : option string) : JobSubmission :=
  mkSubmission report report_json normal None key.
Definition later_submission (t : datetime) : JobSubmission :=
  mkSubmission report report_json high (Some t) None.
Definition batch_submission : JobSubmission := mkSubmission batch batch_json normal None None.

(** A deployment whose consumer groups exist. *)
Definition ready_world : world := (exec (ensure_groups the_settings) (empty_world t0)).1.

(** After one report is submitted, with its id. *)
Definition submitted_world : world :=
  (exec (submit_job the_settings (report_submission (Some "k1"%string)) alice) ready_world).1.
Definition first_id : uuid := Uuid 1 eq_refl.

Definition no_row : Job :=
  new_job first_id 0 report JNull pending None normal 0 None None None None None.
Definition submitted_job : Job :=
  Eval vm_compute in default no_row (rows submitted_world !! first_id).
Lemma submitted_job_row : rows submitted_world !! first_id = Some submitted_job.
Proof. vm_compute. reflexivity. Qed.

(** After a worker claims it. *)
Definition claimed_world : world :=
  (exec (pg (fun now => claim_job now first_id)) submitted_world).1.
Definition claimed_job : Job :=
  Eval vm_compute in default no_row (rows claimed_world !! first_id).
Lemma claimed_job_row : rows claimed_world !! first_id = Some claimed_job.
Proof. vm_compute. reflexivity. Qed.

(** A worker reads the message and claims the job, dies, and 61 seconds pass. *)
Definition pulled_world : world := (exec (pull the_settings "w1"%string) submitted_world).1.
Definition lost_world : world :=
  with_now (t0 + seconds 61) (exec (pg (fun now => claim_job now first_id)) pulled_world).1.

(** The API dies between the insert and the hand-off, and a minute passes. *)
Definition orphan_world : world :=
  with_now (t0 + seconds 60)
    (exec_upto 2 (submit_job the_settings (report_submission None) alice) ready_world).

(** A job submitted for later, and its time has come. *)
Definition due_world : world :=
  with_now (t0 + seconds 200)
    (exec (submit_job the_settings (later_submission (t0 + seconds 100)) alice) ready_world).1.

(** The claimed job failed. *)
Definition failed_world : world :=
  (exec (pg (fun now => fail_job now first_id (error_json "ValueError" "boom"))) claimed_world).1.
Definition failed_job : Job :=
  Eval vm_compute in default no_row (rows failed_world !! first_id).
Lemma failed_job_row : rows failed_world !! first_id = Some failed_job.
Proof. vm_compute. reflexivity. Qed.
