(* ===== verification/Listing.v ===== *)
(** Listing jobs page by page: [list_jobs] of app/repository.py and the route
    GET /jobs of app/api/routes.py.

    [listing] is what the pages are pages of: the rows that pass the filters, the
    newest first.  The theorems say that a page is the stretch of [listing] after
    its cursor, and that a client which follows the cursors, while the table
    changes between its requests, sees no row twice and misses no row that was
    there all along. *)
From stdpp Require Import base tactics option list gmap strings numbers sorting.
From S2P Require Import Prelude Prog Uuid Model Codecs IsoTime Cursor Services Repository RepositoryFacts TokenCache Api Scenario.
Set Default Goal Selector "!".
Open Scope Z_scope.

(** What the driver and the server make of a datetime bound to a timestamptz
    parameter: a reading in UTC is that instant; a naive one is read in the session's
    zone, and an offset the server does not know is an error of the database. *)
Class Timestamps := {
  timestamptz : raw_datetime -> exn + datetime;
  timestamptz_utc t : datetime_ok t = true -> timestamptz (mkRaw t (Some 0)) = inr t;
  timestamptz_error r e : timestamptz r = inl e -> exists m, e = OtherError "DataError" m;
}.

Section Listing.
Context {PG : Postgres} {TS : Timestamps}.

(** The query parameters that select rows, and the owner. *)
Record filters := mkFilters {
  f_status : option JobStatus;
  f_type : option JobType;
  f_priority : option JobPriority;
  f_user_id : option uuid;
}.

(** [stmt.where(column == value)] if a value is given *)
Definition where_eq {A} `{EqDecision A} (value : option A) (column : A) : bool :=
  match value with Some v => bool_decide (column = v) | None => true end.

Definition selected (f : filters) (j : Job) : bool :=
  where_eq (f_status f) (j_status j) && where_eq (f_type f) (j_type j) &&
  where_eq (f_priority f) (j_priority j) &&
  match f_user_id f with Some u => bool_decide (j_user_id j = Some u) | None => true end.

(** [tuple_(Job.created_at, Job.id) < (t, u)] *)
Definition key_before (pos : datetime * uuid) (j : Job) : bool :=
  (j_created_at j <? pos.1) || ((j_created_at j =? pos.1) && uuid_lt (j_id j) pos.2).

Definition after_cursor (pos : option (datetime * uuid)) (j : Job) : bool :=
  match pos with Some p => key_before p j | None => true end.

(** [ORDER BY created_at DESC, id DESC] *)
Definition newer (a b : Job) : bool := older b a.

Definition position (cursor : option pystr) : exn + option (datetime * uuid) :=
  match cursor with
  | None => inr None
  | Some c =>
      decoded ← decode_cursor c;
      t ← timestamptz decoded.1;
      inr (Some (t, decoded.2))
  end.

Definition list_jobs (f : filters) (limit : nat) (cursor : option pystr) (d : pg_db) :
    exn + (list Job * option pystr) :=
  pos ← position cursor;
  let rows := pg_select_by (fun j => selected f j && after_cursor pos j) newer (limit + 1) d in
  if (limit <? length rows)%nat then
    let rows := take limit rows in
    match py_index rows (-1) with
    | Some last => inr (rows, Some (encode_cursor (j_created_at last) (j_id last)))
    | None => inl IndexError
    end
  else inr (rows, None).

(** ** The reference listing *)

Definition db_rows (d : pg_db) : list Job := (map_to_list (pg_rows d)).*2.

Definition listing (p : Job -> bool) (d : pg_db) : list Job :=
  merge_sort (in_order newer) (filter (fun j => p j = true) (db_rows d)).

(** The place of a row in the order. *)
Definition key (j : Job) : datetime * uuid := (j_created_at j, j_id j).

Definition key_lt (a b : datetime * uuid) : Prop :=
  a.1 < b.1 \/ (a.1 = b.1 /\ (uuid_int a.2 < uuid_int b.2)%N).

Lemma key_before_iff p j : key_before p j = true <-> key_lt (key j) p.
Proof.
  unfold key_before, key_lt, key, uuid_lt. cbn [fst snd].
  by rewrite orb_true_iff, andb_true_iff, Z.ltb_lt, Z.eqb_eq, N.ltb_lt.
Qed.

Lemma older_iff a b : older a b = true <-> key_lt (key a) (key b).
Proof. apply (key_before_iff (key b)). Qed.

#[export] Instance key_lt_trans : Transitive key_lt.
Proof. unfold key_lt. intros [] [] []; simpl. lia. Qed.

Lemma key_lt_irrefl a : ~ key_lt a a.
Proof. unfold key_lt. lia. Qed.

Lemma key_total a b : key_lt a b \/ a = b \/ key_lt b a.
Proof.
  unfold key_lt. destruct a as [s u], b as [t v]; simpl.
  destruct (Z.lt_trichotomy s t) as [|[->|]]; [by auto| |by auto].
  destruct (N.lt_trichotomy (uuid_int u) (uuid_int v)) as [|[E|]]; [by auto| |by auto 6].
  right; left. by rewrite (uuid_eq _ _ E).
Qed.

(** [in_order newer a b]: [b] does not come before [a]. *)
Lemma in_newer_iff a b : in_order newer a b <-> key a = key b \/ key_lt (key b) (key a).
Proof.
  unfold in_order, newer. rewrite <-not_true_iff_false, older_iff.
  pose proof (key_total (key a) (key b)) as [?|[?|?]]; split; try tauto.
  - intros [E|E] Hl; [rewrite E in Hl|rewrite E in *]; by eapply key_lt_irrefl.
  - intros _ Hl. rewrite H in Hl. by eapply key_lt_irrefl.
  - intros _ Hl. destruct (key_lt_irrefl (key a)). by trans (key b).
Qed.

(** Strictly descending, the order of every page. *)
Definition desc : list Job -> Prop := StronglySorted (fun a b => key_lt (key b) (key a)).

Lemma desc_unique l1 l2 : l1 ≡ₚ l2 -> desc l1 -> desc l2 -> l1 = l2.
Proof.
  intros Hp H1 H2. eapply StronglySorted_unique_strong; [|exact H1|exact H2|exact Hp].
  intros a b _ _ Hab Hba. destruct (key_lt_irrefl (key a)). by trans (key b).
Qed.

Lemma desc_app l1 l2 :
  desc l1 -> desc l2 -> (forall a b, a ∈ l1 -> b ∈ l2 -> key_lt (key b) (key a)) -> desc (l1 ++ l2).
Proof.
  intros H1 H2 H12. by apply StronglySorted_app_2.
Qed.

Lemma desc_filter p l : desc l -> desc (filter (fun j => p j = true) l).
Proof.
  intros H. induction H as [|a l H IH Ha]; [constructor|]. rewrite filter_cons. case_decide; [|done].
  constructor; [done|]. apply Forall_forall. intros b [_ Hb]%list_elem_of_filter.
  by apply (proj1 (Forall_forall _ _) Ha).
Qed.

Lemma desc_take n l : desc l -> desc (take n l).
Proof.
  intros H. revert n. induction H as [|a l H IH Ha]; intros [|n]; try by constructor.
  cbn [take]. constructor; [apply IH|]. by apply Forall_take.
Qed.

(** What a descending list holds past its first [n] rows comes after the [n]th. *)
Lemma desc_drop n l a b : desc l -> last (take n l) = Some a -> b ∈ drop n l -> key_lt (key b) (key a).
Proof.
  intros H. revert n. induction H as [|x l H IH Hx]; intros [|n]; try done. cbn [take drop].
  destruct (take n l) as [|y l'] eqn:E.
  - intros [= <-] Hb. apply (proj1 (Forall_forall _ _) Hx).
    rewrite <-(take_drop n l). set_solver.
  - rewrite last_cons. destruct (last (y :: l')) eqn:El; [|by apply last_None in El].
    intros [= ->] Hb. apply (IH n); [by rewrite E, El|done].
Qed.

Lemma elem_db_rows d j : j ∈ db_rows d <-> pg_rows d !! j_id j = Some j.
Proof.
  unfold db_rows. rewrite list_elem_of_fmap. split.
  - intros ([k j'] & -> & Hj%elem_of_map_to_list). cbn. by rewrite (pg_primary_key _ _ _ Hj).
  - intros Hj. exists (j_id j, j). by rewrite elem_of_map_to_list.
Qed.

Lemma db_rows_key d a b : a ∈ db_rows d -> b ∈ db_rows d -> key a = key b -> a = b.
Proof.
  rewrite !elem_db_rows. unfold key. intros Ha Hb [= _ E]. rewrite E in Ha. congruence.
Qed.

Lemma db_rows_NoDup d : NoDup (db_rows d).
Proof.
  unfold db_rows. apply NoDup_fmap_2_strong; [|apply NoDup_map_to_list].
  intros [k a] [l b] Ha%elem_of_map_to_list Hb%elem_of_map_to_list. cbn. intros ->.
  f_equal. by rewrite <-(pg_primary_key _ _ _ Ha), (pg_primary_key _ _ _ Hb).
Qed.

(** Sorted rows of a database are strictly sorted. *)
Lemma sorted_desc d l :
  (forall j, j ∈ l -> j ∈ db_rows d) -> NoDup l -> Sorted (in_order newer) l -> desc l.
Proof.
  intros Hl Hn Hs. apply Sorted_StronglySorted in Hs.
  2:{ intros a b c. rewrite !in_newer_iff. intros [->|?] [<-|?]; auto. right. by etrans. }
  induction Hs as [|a l Hs IH Ha]; [constructor|]. apply NoDup_cons in Hn as [Hna Hn].
  constructor; [apply IH; set_solver|]. apply Forall_forall. intros b Hb.
  destruct (proj1 (in_newer_iff a b) (proj1 (Forall_forall _ _) Ha b Hb)) as [E|]; [|done].
  destruct Hna. by rewrite (db_rows_key d a b) by (done || apply Hl; set_solver).
Qed.

Lemma newer_asym a b : newer a b = true -> newer b a = false.
Proof.
  unfold newer. rewrite <-not_true_iff_false, !older_iff. intros H1 H2.
  destruct (key_lt_irrefl (key a)). by trans (key b).
Qed.

#[export] Instance newer_total : Total (in_order newer).
Proof.
  intros a b. unfold in_order. destruct (newer b a) eqn:E; [right; by apply newer_asym|by left].
Qed.

Lemma filtered_sorted_desc p d l :
  l ≡ₚ filter (fun j => p j = true) (db_rows d) -> Sorted (in_order newer) l -> desc l.
Proof.
  intros Hp. apply (sorted_desc d).
  - intros j. rewrite Hp, list_elem_of_filter. tauto.
  - rewrite Hp. apply NoDup_filter, db_rows_NoDup.
Qed.

Lemma listing_perm p d : listing p d ≡ₚ filter (fun j => p j = true) (db_rows d).
Proof. apply merge_sort_Permutation. Qed.

Lemma listing_desc p d : desc (listing p d).
Proof. eapply filtered_sorted_desc; [apply listing_perm|]. apply (Sorted_merge_sort _). Qed.

Lemma elem_listing p d j : j ∈ listing p d <-> pg_rows d !! j_id j = Some j /\ p j = true.
Proof. rewrite listing_perm, list_elem_of_filter, elem_db_rows. tauto. Qed.

(** The query answers a prefix of the listing. *)
Lemma select_listing p n d : pg_select_by p newer n d = take n (listing p d).
Proof.
  destruct (pg_select_by_rows p newer n d newer_asym) as (l & Hl & Hs & ->).
  f_equal. apply desc_unique; [by rewrite Hl, listing_perm| |apply listing_desc].
  by eapply filtered_sorted_desc.
Qed.

Lemma listing_and p q d :
  listing (fun j => p j && q j) d = filter (fun j => q j = true) (listing p d).
Proof.
  apply desc_unique; [|apply listing_desc|apply desc_filter, listing_desc].
  rewrite listing_perm, listing_perm, list_filter_filter.
  erewrite filter_ext_in; [done|]. intros j _. cbn. rewrite andb_true_iff. tauto.
Qed.

(** Every creation time is one that a datetime can hold. *)
Definition times_ok (d : pg_db) : Prop := forall j, j ∈ db_rows d -> datetime_ok (j_created_at j) = true.

Lemma position_encode d j :
  times_ok d -> j ∈ db_rows d ->
  position (Some (encode_cursor (j_created_at j) (j_id j))) = inr (Some (key j)).
Proof.
  intros Hd Hj. unfold position. rewrite decode_encode by by apply Hd.
  rewrite sum_bind_inr. cbn [fst snd]. rewrite timestamptz_utc by by apply Hd. by rewrite sum_bind_inr.
Qed.

Lemma last_py_index {A} (l : list A) : py_index l (-1) = last l.
Proof.
  rewrite last_lookup. destruct l as [|x l]; [done|].
  rewrite py_index_neg by (simpl; lia). f_equal. simpl. lia.
Qed.

(** A page: the rows of the listing after the cursor, at most [limit] of them; when
    there are more, the next cursor is the place of the last row. *)
Lemma list_jobs_page f limit cursor pos d :
  times_ok d -> position cursor = inr pos -> (0 < limit)%nat ->
  let l := listing (fun j => selected f j && after_cursor pos j) d in
  exists next, list_jobs f limit cursor d = inr (take limit l, next) /\
    match next with
    | None => (length l <= limit)%nat
    | Some c => (limit < length l)%nat /\
        exists a, last (take limit l) = Some a /\ position (Some c) = inr (Some (key a))
    end.
Proof.
  intros Hd Hpos Hlimit l. unfold list_jobs. rewrite Hpos, sum_bind_inr, select_listing. fold l.
  rewrite length_take. destruct (limit <? (limit + 1) `min` length l)%nat eqn:E.
  - apply Nat.ltb_lt in E. rewrite take_take, Nat.min_l by lia. rewrite last_py_index.
    destruct (last (take limit l)) as [a|] eqn:Ha.
    + eexists. split; [done|]. split; [lia|]. exists a. split; [done|]. apply (position_encode d); [done|].
      assert (a ∈ l) as Hal.
      { rewrite <-(take_drop limit l). apply elem_of_app. left. by apply last_Some_elem_of. }
      apply elem_listing in Hal as [Hal _]. by apply elem_db_rows.
    + apply last_None, (f_equal length) in Ha. rewrite length_take in Ha. simpl in Ha. lia.
  - apply Nat.ltb_ge in E. exists None. split; [|lia].
    rewrite !take_ge by lia. done.
Qed.

(** ** Following the cursors *)

(** A client that asks for page after page; the table is [d] at each request. *)
Fixpoint walk (f : filters) (limit : nat) (ds : list pg_db) (cursor : option pystr) :
    exn + (list Job * option pystr) :=
  match ds with
  | [] => inr ([], cursor)
  | d :: ds' =>
      page ← list_jobs f limit cursor d;
      match page.2 with
      | None => inr page
      | Some c => rest ← walk f limit ds' (Some c); inr (page.1 ++ rest.1, rest.2)
      end
  end.

Lemma walk_cons f limit d ds cursor :
  walk f limit (d :: ds) cursor =
  (page ← list_jobs f limit cursor d;
   match page.2 with
   | None => inr page
   | Some c => rest ← walk f limit ds (Some c); inr (page.1 ++ rest.1, rest.2)
   end).
Proof. reflexivity. Qed.

(** A row with this key passes the filters in [d]. *)
Definition shown (f : filters) (k : datetime * uuid) (d : pg_db) : Prop :=
  exists j, pg_rows d !! j_id j = Some j /\ selected f j = true /\ key j = k.

Definition past (pos : option (datetime * uuid)) (k : datetime * uuid) : Prop :=
  match pos with Some p => key_lt k p | None => True end.

Lemma after_cursor_past pos j : after_cursor pos j = true <-> past pos (key j).
Proof. destruct pos; [apply key_before_iff|done]. Qed.

Lemma shown_listing f pos k d :
  shown f k d -> past pos k ->
  exists j, j ∈ listing (fun j => selected f j && after_cursor pos j) d /\ key j = k.
Proof.
  intros (j & Hj & Hs & <-) Hp. exists j. split; [|done].
  apply elem_listing. rewrite Hs, (proj2 (after_cursor_past pos j) Hp). done.
Qed.

Lemma walk_from f limit ds cursor pos :
  (0 < limit)%nat -> Forall times_ok ds -> position cursor = inr pos -> (ds = [] -> is_Some cursor) ->
  exists seen next, walk f limit ds cursor = inr (seen, next) /\
    desc seen /\
    (forall j, j ∈ seen -> past pos (key j) /\ Exists (shown f (key j)) ds) /\
    (next = None -> forall k, Forall (shown f k) ds -> past pos k -> k ∈ key <$> seen).
Proof.
  intros Hlimit Hds. revert cursor pos. induction Hds as [|d ds Hd Hds IH]; intros cursor pos Hpos Hne.
  { destruct (Hne eq_refl) as [c ->]. exists [], (Some c). split_and!; [done|constructor|set_solver|done]. }
  destruct (list_jobs_page f limit cursor pos d Hd Hpos Hlimit) as (next & Hpage & Hnext).
  set (l := listing _ d) in *. cbn [walk]. rewrite Hpage, sum_bind_inr. cbn [fst snd].
  assert (forall j, j ∈ take limit l -> past pos (key j) /\ shown f (key j) d) as Hin.
  { intros j Hj. assert (j ∈ l) as [Hr Hs]%elem_listing by (rewrite <-(take_drop limit l); set_solver).
    simp_bool. split; [by apply after_cursor_past|]. by exists j. }
  destruct next as [c|].
  - destruct Hnext as (_ & a & Ha & Hc).
    destruct (IH (Some c) (Some (key a)) Hc ltac:(eauto)) as (seen & next & -> & Hdesc & Hseen & Hall).
    assert (a ∈ take limit l) as Hal by by apply last_Some_elem_of.
    rewrite sum_bind_inr. exists (take limit l ++ seen), next. split; [done|]. split_and!.
    + apply desc_app; [apply desc_take, listing_desc|done|]. intros x b Hx [Hb _]%Hseen.
      apply last_Some in Ha as (l' & Hl'). rewrite Hl' in Hx.
      apply elem_of_app in Hx as [Hx|Hx]; [|by apply list_elem_of_singleton in Hx as ->].
      cbn in Hb. trans (key a); [done|].
      assert (desc (l' ++ [a])) as Hd' by (rewrite <-Hl'; apply desc_take, listing_desc).
      apply StronglySorted_app in Hd' as [Hd' _]. apply Hd'; [done|by left].
    + intros j [[? ?]%Hin|[Hb ?]%Hseen]%elem_of_app; (split; [|by constructor]); [done|].
      destruct (Hin a Hal) as [Hpa _]. destruct pos as [p|]; [|done]. cbn in *. by trans (key a).
    + intros Hn k Hk Hp. apply Forall_cons in Hk as [Hk Hks]. rewrite fmap_app. apply elem_of_app.
      destruct (shown_listing f pos k d Hk Hp) as (j & Hj & <-). fold l in Hj.
      rewrite <-(take_drop limit l) in Hj. apply elem_of_app in Hj as [Hj|Hj]; [left; set_solver|right].
      apply Hall; [done..|]. cbn. eapply (desc_drop limit l); [apply listing_desc|done|done].
  - exists (take limit l), None. split; [done|]. split_and!.
    + apply desc_take, listing_desc.
    + intros j [? ?]%Hin. split; [done|]. by constructor.
    + intros _ k [Hk _]%Forall_cons Hp. destruct (shown_listing f pos k d Hk Hp) as (j & Hj & <-).
      fold l in Hj. rewrite take_ge by lia. set_solver.
Qed.

(** The rows after the last one of a page are the rest of the listing. *)
Lemma filter_after_last n l a :
  desc l -> last (take n l) = Some a -> filter (fun j => key_before (key a) j = true) l = drop n l.
Proof.
  intros Hl Ha. rewrite <-(take_drop n l) at 1. rewrite filter_app.
  rewrite filter_keep_none, filter_keep_all; [done|..].
  - intros j Hj. apply key_before_iff. by eapply desc_drop.
  - intros j Hj Hk%key_before_iff.
    pose proof (desc_take n l Hl) as Ht. apply last_Some in Ha as (l' & Ha). rewrite Ha in Hj, Ht.
    apply StronglySorted_app in Ht as [Ht _]. apply elem_of_app in Hj as [Hj|Hj].
    + destruct (key_lt_irrefl (key a)). trans (key j); [|done]. apply Ht; [done|by left].
    + apply list_elem_of_singleton in Hj as ->. by eapply key_lt_irrefl.
Qed.

Lemma listing_next f pos n d a :
  let l := listing (fun j => selected f j && after_cursor pos j) d in
  last (take n l) = Some a ->
  listing (fun j => selected f j && after_cursor (Some (key a)) j) d = drop n l.
Proof.
  intros l Ha. rewrite <-(filter_after_last n l a (listing_desc _ _) Ha).
  unfold l. rewrite !listing_and, list_filter_filter. apply filter_ext_in.
  intros j _. cbn. split; [|tauto]. intros Hj. split; [done|].
  assert (a ∈ l) as [_ Has]%elem_listing.
  { rewrite <-(take_drop n l). apply elem_of_app. left. by apply last_Some_elem_of. }
  simp_bool. apply after_cursor_past. apply key_before_iff in Hj.
  match goal with H : after_cursor pos a = true |- _ => apply after_cursor_past in H end.
  destruct pos; [|done]. cbn in *. by trans (key a).
Qed.

Lemma walk_replicate f limit d n cursor pos :
  (0 < limit)%nat -> times_ok d -> position cursor = inr pos ->
  let l := listing (fun j => selected f j && after_cursor pos j) d in
  (length l <= S n * limit)%nat -> walk f limit (replicate (S n) d) cursor = inr (l, None).
Proof.
  intros Hlimit Hd. revert cursor pos. induction n as [|n IH]; intros cursor pos Hpos l Hl.
  all: destruct (list_jobs_page f limit cursor pos d Hd Hpos Hlimit) as (next & Hpage & Hnext).
  all: fold l in Hpage, Hnext; rewrite replicate_S, walk_cons, Hpage, sum_bind_inr; cbn [fst snd].
  all: destruct next as [c|]; [|by rewrite take_ge by lia].
  all: destruct Hnext as (Hmore & a & Ha & Hc).
  { lia. }
  pose proof (listing_next f pos limit d a Ha) as Hn. fold l in Hn.
  rewrite (IH _ _ Hc) by (rewrite Hn, length_drop; lia). rewrite Hn, sum_bind_inr. cbn [fst snd]. by rewrite take_drop.
Qed.

(** ** The route *)

Record JobList := mkJobList { items : list JobOut; next_cursor : option pystr }.

(** [Query(ge=1, le=200)] and [Query(max_length=512)] *)
Definition list_params_ok (limit : Z) (cursor : option pystr) : bool :=
  (1 <=? limit) && (limit <=? 200) &&
  match cursor with Some c => (length c <=? 512)%nat | None => true end.

Context {RD : Redis} {EN : Entropy}.

Definition list_jobs_route (status : option JobStatus) (type : option JobType)
    (priority : option JobPriority) (limit : Z) (cursor : option pystr) (user : AuthedUser) :
    coroutine (response JobList) :=
  if list_params_ok limit cursor then
    found ← pg_read (list_jobs (mkFilters status type priority (Some (user_id user))) (Z.to_nat limit) cursor);
    match found with
    | inr (jobs, next) => Ret (mkResponse 200 (mkJobList (job_out <$> jobs) next))
    | inl (ValueError _) => Raise (HTTPException 422 "invalid cursor")
    | inl e => Raise e
    end
  else Raise (HTTPException 422 "validation error").
End Listing.

(** * Theorems *)

Section Theorems.
Context {PG : Postgres} {TS : Timestamps}.

(** C8: A client that follows the cursors of a table that does not change reads the
    reference listing, each row once and in order, and gets no cursor at the end;
    a page per [limit] rows is enough. *)
Theorem walk_reads_listing f limit d n :
  (0 < limit)%nat -> times_ok d ->
  (length (listing (selected f) d) <= S n * limit)%nat ->
  walk f limit (replicate (S n) d) None = inr (listing (selected f) d, None).
Proof.
  intros Hlimit Hd Hn.
  assert (listing (selected f) d = listing (fun j => selected f j && after_cursor None j) d) as E.
  { rewrite listing_and. symmetry. apply filter_keep_all. done. }
  rewrite E in *. by apply (walk_replicate f limit d n None None).
Qed.

(** C9: While rows come, go and change between the requests, the pages a client has
    read hold no row twice, newest first; every row on them passed the filters at
    some request, and once there is no next cursor they hold every row that passed
    the filters all along. *)
Theorem walk_stable f limit ds :
  (0 < limit)%nat -> ds <> [] -> Forall times_ok ds ->
  exists seen next, walk f limit ds None = inr (seen, next) /\
    StronglySorted (fun a b => key_lt (key b) (key a)) seen /\
    (forall j, j ∈ seen -> Exists (shown f (key j)) ds) /\
    (next = None -> forall k, Forall (shown f k) ds -> k ∈ key <$> seen).
Proof.
  intros Hlimit Hne Hds.
  destruct (walk_from f limit ds None None Hlimit Hds eq_refl) as (seen & next & Hw & Hd & Hs & Ha).
  { by intros ->. }
  exists seen, next. split_and!; [done|done| |].
  - intros j Hj. by apply Hs.
  - intros Hn k Hk. by apply Ha.
Qed.

Lemma times_okb d : forallb (fun j => datetime_ok (j_created_at j)) (db_rows d) = true -> times_ok d.
Proof. intros H j Hj. rewrite forallb_forall in H. by apply H, list_elem_of_In. Qed.
End Theorems.

(** A session in UTC. *)
#[export] Program Instance utc_session : Timestamps := {|
  timestamptz r := inr (raw_reading r - default 0 (raw_offset r));
|}.
Next Obligation. intros t _. cbn. by rewrite Z.sub_0_r. Qed.
Next Obligation. done. Qed.

Lemma submitted_times_ok : times_ok (w_db submitted_world).
Proof. apply times_okb. vm_compute. reflexivity. Qed.

Definition everything : filters := mkFilters None None None None.

Lemma walk_reads_listing_witness :
  walk everything 1 (replicate 2 (w_db submitted_world)) None =
  inr (listing (selected everything) (w_db submitted_world), None).
Proof.
  apply (walk_reads_listing everything 1 (w_db submitted_world) 1); [lia|apply submitted_times_ok|].
  apply Nat.leb_le. vm_compute. reflexivity.
Defined.

Lemma walk_stable_witness :
  exists seen next, walk everything 1 [w_db submitted_world] None = inr (seen, next) /\
    StronglySorted (fun a b => key_lt (key b) (key a)) seen /\
    (forall j, j ∈ seen -> Exists (shown everything (key j)) [w_db submitted_world]) /\
    (next = None -> forall k, Forall (shown everything k) [w_db submitted_world] -> k ∈ key <$> seen).
Proof.
  apply (walk_stable everything 1 [w_db submitted_world]); [lia|done|].
  constructor; [apply submitted_times_ok|constructor].
Defined.

Section Route.
Context {PG : Postgres} {TS : Timestamps}.
Context {RD : Redis} {EN : Entropy}.

(** GET /jobs answers the page of the caller's own jobs that its cursor names,
    at most [limit] of them; a parameter out of bounds or a text that is no cursor is a 422, and
    nothing changes in any case. *)
Theorem list_jobs_route_spec status type priority limit cursor user w :
  times_ok (w_db w) ->
  let f := mkFilters status type priority (Some (user_id user)) in
  let r := exec (list_jobs_route status type priority limit cursor user) w in
  r.1 = w /\
  (list_params_ok limit cursor = false -> r.2 = inl (HTTPException 422 "validation error")) /\
  (list_params_ok limit cursor = true -> forall pos, position cursor = inr pos ->
    exists next, r.2 = inr (mkResponse 200 (mkJobList
      (job_out <$> take (Z.to_nat limit) (listing (fun j => selected f j && after_cursor pos j) (w_db w))) next))) /\
  (list_params_ok limit cursor = true -> forall m, position cursor = inl (ValueError m) ->
    r.2 = inl (HTTPException 422 "invalid cursor")).
Proof.
  intros Hd f r. unfold r, list_jobs_route.
  destruct (list_params_ok limit cursor) eqn:Hok; [|done].
  rewrite exec_bind. unfold pg_read. rewrite exec_act. cbn [fst snd].
  assert (0 < Z.to_nat limit)%nat as Hlimit.
  { unfold list_params_ok in Hok. simp_bool. lia. }
  fold f. split_and!; [by repeat case_match|done| |].
  - intros _ pos Hpos. destruct (list_jobs_page f (Z.to_nat limit) cursor pos (w_db w) Hd Hpos Hlimit)
      as (next & -> & _). by exists next.
  - intros _ m Hpos. unfold list_jobs. by rewrite Hpos.
Qed.
End Route.

Lemma list_jobs_route_spec_witness :
  exists next, (exec (list_jobs_route None None None 50 None alice) submitted_world).2 =
    inr (mkResponse 200 (mkJobList
      (job_out <$> take 50 (listing (fun j => selected (mkFilters None None None (Some (user_id alice))) j &&
        after_cursor None j) (w_db submitted_world))) next)).
Proof.
  destruct (list_jobs_route_spec None None None 50 None alice submitted_world submitted_times_ok)
    as (_ & _ & H & _).
  by apply (H eq_refl None).
Defined.
