(* ===== verification/RateLimit.v ===== *)
(** Rate limiting (app/api/ratelimit.py): the bucket of a request, the group limiter
    with its reload of a lost script, and the route dependency.

    The Lua script of fastapi-limiter and the Redis that runs it are the [Limiter]
    interface: a bucket holds the hits of its window and the window's end.  The
    theorems say that a caller cannot spend another's budget or another group's,
    and that no caller passes more often than the limit within a window. *)
From stdpp Require Import base tactics option list gmap strings numbers.
From Stdlib Require Import Ascii.
From S2P Require Import Prelude Prog Uuid Model.
Set Default Goal Selector "!".
Open Scope Z_scope.

(** The hits counted in the current window, and when it ends. *)
Record window := mkWindow { win_hits : Z; win_end : datetime }.

(** The window that is still open at [now]. *)
Definition open_window (now : datetime) (w : option window) : option window :=
  w ← w; if now <? win_end w then Some w else None.

(** What one more hit does: a new window, one more hit, or a refusal that answers
    the milliseconds left. *)
Definition hit (times ms : Z) (now : datetime) (w : option window) : option window * Z :=
  match open_window now w with
  | None => (Some (mkWindow 1 (now + ms * 1000)), 0)
  | Some w =>
      if times <? win_hits w + 1 then (Some w, (win_end w - now) / 1000)
      else (Some (mkWindow (win_hits w + 1) (win_end w)), 0)
  end.

Class Limiter := {
  lm : Type;
  lm_window : lm -> string -> option window;
  (** [EVALSHA sha 1 key times ms]; [None] is the [NoScriptError] *)
  evalsha : string -> string -> Z -> Z -> datetime -> lm -> lm * option Z;
  (** [SCRIPT LOAD] of the limiter's script, answering its digest *)
  script_load : lm -> lm * string;

  evalsha_ran sha key times ms now r z :
    (evalsha sha key times ms now r).2 = Some z ->
    z = (hit times ms now (lm_window r key)).2 /\
    lm_window (evalsha sha key times ms now r).1 key = (hit times ms now (lm_window r key)).1;
  evalsha_lost sha key times ms now r :
    (evalsha sha key times ms now r).2 = None ->
    lm_window (evalsha sha key times ms now r).1 key = lm_window r key;
  evalsha_other sha key times ms now r key' :
    key' <> key -> lm_window (evalsha sha key times ms now r).1 key' = lm_window r key';
  script_load_windows r key : lm_window (script_load r).1 key = lm_window r key;
  script_load_ready key times ms now r :
    (evalsha (script_load r).2 key times ms now (script_load r).1).2 <> None;
}.

(** ** The bucket of a request *)

(** What the identifier reads: [request.state.authed_user_id] and
    [request.client.host]. *)
Record caller := mkCaller { authed_user_id : option uuid; client_host : option string }.

Definition user_or_ip_identifier (c : caller) : string :=
  match authed_user_id c with
  | Some u => "u:" +:+ str_uuid u
  | None => "ip:" +:+ default "unknown" (client_host c)
  end.

(** The groups the routes use, and their limits. *)
Inductive limit_group := submit_group | control_group | read_group | stats_group.
#[export] Instance limit_group_eq_dec : EqDecision limit_group.
Proof. solve_decision. Defined.

Definition group_name (g : limit_group) : string :=
  match g with submit_group => "submit" | control_group => "control" | read_group => "read" | stats_group => "stats" end.

(** [getattr(settings, f'{group}_rate_limit_per_min')] *)
Definition group_limit (s : Settings) (g : limit_group) : Z :=
  match g with
  | submit_group => submit_rate_limit_per_min s
  | control_group => control_rate_limit_per_min s
  | read_group => read_rate_limit_per_min s
  | stats_group => stats_rate_limit_per_min s
  end.

Section RateLimit.
Context {LM : Limiter}.
(** [FastAPILimiter.prefix] *)
Context (prefix : string).

(** The limiter's Redis, the digest it holds, and the clock; [None] for the digest
    is a limiter that was not initialised. *)
Record limiter_world := LimiterWorld {
  lw_redis : lm;
  lw_sha : option string;
  lw_now : datetime;
}.
#[local] Abbreviation task := (prog limiter_world exn).

Definition bucket (g : limit_group) (c : caller) : string :=
  prefix +:+ ":" +:+ group_name g +:+ ":" +:+ user_or_ip_identifier c.

(** [self._check(key)], with the digest held now *)
Definition _check (key : string) (times ms : Z) : task (option Z) :=
  act (fun w =>
    let r := evalsha (default ""%string (lw_sha w)) key times ms (lw_now w) (lw_redis w) in
    (LimiterWorld r.1 (lw_sha w) (lw_now w), r.2)).

Definition reload_script : task unit :=
  act (fun w => let r := script_load (lw_redis w) in (LimiterWorld r.1 (Some r.2) (lw_now w), tt)).

(** The default callback of the limiter. *)
Definition too_many {X} : task X := Raise (HTTPException 429 "Too Many Requests").

Definition group_limiter (g : limit_group) (times ms : Z) (c : caller) : task unit :=
  ready ← act (fun w => (w, lw_sha w));
  match ready with
  | None => Raise (OtherError "RuntimeError" "You must call FastAPILimiter.init in startup event of fastapi!")
  | Some _ =>
      let key := bucket g c in
      pexpire ← _check key times ms;
      pexpire ← (match pexpire with
                 | Some z => Ret z
                 | None =>
                     _ ← reload_script;
                     again ← _check key times ms;
                     match again with
                     | Some z => Ret z
                     | None => Raise (OtherError "NoScriptError" "No matching script")
                     end
                 end);
      if pexpire =? 0 then Ret tt else too_many
  end.

Definition rate_limit (settings : Settings) (g : limit_group) (c : caller) : task unit :=
  if rate_limit_enabled settings
  then group_limiter g (group_limit settings g) 60000 c
  else Ret tt.

(** ** Buckets are apart *)

Lemma append_inj (s t u : string) : s +:+ t = s +:+ u -> t = u.
Proof. induction s as [|a s IH]; [done|]. cbn. intros [= E]. by apply IH. Qed.

Lemma identifier_inj c d :
  user_or_ip_identifier c = user_or_ip_identifier d ->
  authed_user_id c = authed_user_id d /\
  (authed_user_id c = None -> default "unknown"%string (client_host c) = default "unknown"%string (client_host d)).
Proof.
  unfold user_or_ip_identifier. destruct (authed_user_id c) as [u|], (authed_user_id d) as [v|]; intros E.
  - apply append_inj, str_uuid_inj in E. by subst.
  - discriminate E.
  - discriminate E.
  - by apply append_inj in E.
Qed.

Lemma bucket_inj g c g' c' :
  bucket g c = bucket g' c' -> g = g' /\ user_or_ip_identifier c = user_or_ip_identifier c'.
Proof.
  unfold bucket. intros E%append_inj%append_inj.
  destruct g, g'; try discriminate E; (split; [done|]); by apply append_inj, append_inj in E.
Qed.

(** ** One request *)

(** The limiter after [evalsha] runs with a script that is there, as a function. *)
Lemma exec_group_limiter g times ms c w :
  is_Some (lw_sha w) ->
  let key := bucket g c in
  let r := exec (group_limiter g times ms c) w in
  let h := hit times ms (lw_now w) (lm_window (lw_redis w) key) in
  r.2 = (if h.2 =? 0 then inr tt else inl (HTTPException 429 "Too Many Requests")) /\
  lm_window (lw_redis r.1) key = h.1 /\
  (forall key', key' <> key -> lm_window (lw_redis r.1) key' = lm_window (lw_redis w) key') /\
  is_Some (lw_sha r.1) /\ lw_now r.1 = lw_now w.
Proof.
  intros [sha Hsha] key r h. unfold r, group_limiter. rewrite exec_bind, exec_act. cbn [fst snd]. rewrite Hsha.
  rewrite exec_bind. unfold _check. rewrite exec_act. cbn [fst snd]. rewrite Hsha. cbn [default].
  fold key. set (e := evalsha _ key times ms (lw_now w) (lw_redis w)).
  destruct e.2 as [z|] eqn:E.
  - apply evalsha_ran in E as [-> Hw]. fold e in Hw. fold h in Hw |- *. rewrite (exec_bind (Ret _)). cbn [exec].
    assert (forall key', key' <> key -> lm_window e.1 key' = lm_window (lw_redis w) key') as Ho
      by (intros; by apply evalsha_other).
    by destruct (h.2 =? 0); cbn; rewrite ?Hsha.
  - pose proof (evalsha_lost _ _ _ _ _ _ E) as Hl. fold e in Hl.
    set (l := script_load e.1).
    set (e2 := evalsha l.2 key times ms (lw_now w) l.1).
    assert (exists z, e2.2 = Some z) as [z E2].
    { pose proof (script_load_ready key times ms (lw_now w) e.1) as Hr. fold l in Hr. fold e2 in Hr.
      destruct e2.2; [eauto|done]. }
    pose proof (evalsha_ran _ _ _ _ _ _ _ E2) as [-> Hw]. fold e2 in Hw.
    assert (lm_window l.1 key = lm_window (lw_redis w) key) as Hk by (unfold l; by rewrite script_load_windows).
    rewrite Hk in Hw, E2. fold h in Hw, E2.
    assert (forall key', key' <> key -> lm_window e2.1 key' = lm_window (lw_redis w) key') as Ho.
    { intros key' Hne. unfold e2. rewrite evalsha_other by done. unfold l. rewrite script_load_windows.
      by apply evalsha_other. }
    rewrite exec_bind. cbn [exec]. unfold reload_script. cbn. fold l. fold e2. rewrite E2. cbn.
    by destruct (h.2 =? 0); cbn.
Qed.
End RateLimit.

(** * Theorems *)

Section Theorems.
Context {LM : Limiter} (prefix : string) (settings : Settings).

(** A request counts in its own bucket only, the one of its group and of its
    validated user or, without one, its address: the windows of all other callers
    and groups stay as they are, and whether it passes depends on its own window
    alone, even when the script was lost and had to be loaded again. *)
Theorem rate_limit_isolated g c w :
  rate_limit_enabled settings = true -> is_Some (lw_sha w) ->
  let r := exec (rate_limit prefix settings g c) w in
  let h := hit (group_limit settings g) 60000 (lw_now w) (lm_window (lw_redis w) (bucket prefix g c)) in
  r.2 = (if h.2 =? 0 then inr tt else inl (HTTPException 429 "Too Many Requests")) /\
  lm_window (lw_redis r.1) (bucket prefix g c) = h.1 /\
  forall g' c', (g' <> g \/ user_or_ip_identifier c' <> user_or_ip_identifier c) ->
    lm_window (lw_redis r.1) (bucket prefix g' c') = lm_window (lw_redis w) (bucket prefix g' c').
Proof.
  intros Hon Hsha r h. unfold r, rate_limit. rewrite Hon.
  destruct (exec_group_limiter prefix g (group_limit settings g) 60000 c w Hsha) as (Hr & Hw & Ho & _).
  split_and!; [done|done|]. intros g' c' Hne. apply Ho. intros E%bucket_inj. naive_solver.
Qed.

(** Requests one after the other, each at its time. *)
Definition request := (datetime * limit_group * caller)%type.

Definition at_time (t : datetime) (w : limiter_world) : limiter_world :=
  LimiterWorld (lw_redis w) (lw_sha w) t.

(** How many requests of the bucket of [g] and [c] pass. *)
Fixpoint passes (g : limit_group) (c : caller) (reqs : list request) (w : limiter_world) : nat :=
  match reqs with
  | [] => 0
  | (t, g', c') :: reqs' =>
      let r := exec (rate_limit prefix settings g' c') (at_time t w) in
      let own := bool_decide (bucket prefix g' c' = bucket prefix g c) in
      let passed := match r.2 with inr _ => true | inl _ => false end in
      (if own && passed then 1 else 0) + passes g c reqs' r.1
  end.

(** C31: Until its window's last millisecond, no more requests of a caller pass than
    its group's limit leaves: with [n] hits counted, at most [limit - n], however
    many come, in whatever order with the requests of others. *)
Theorem rate_limit_budget g c reqs w n ends :
  rate_limit_enabled settings = true -> is_Some (lw_sha w) ->
  lm_window (lw_redis w) (bucket prefix g c) = Some (mkWindow n ends) ->
  Forall (fun req : request => req.1.1 + 1000 <= ends) reqs ->
  Z.of_nat (passes g c reqs w) <= Z.max 0 (group_limit settings g - n).
Proof.
  intros Hon. revert w n. induction reqs as [|[[t g'] c'] reqs IH]; intros w n Hsha Hwin Ht; [cbn; lia|].
  apply Forall_cons in Ht as [Ht Hts]. cbn [passes fst] in *. unfold rate_limit. rewrite Hon.
  destruct (exec_group_limiter prefix g' (group_limit settings g') 60000 c' (at_time t w) Hsha)
    as (Hr & Hw & Ho & Hsha' & _).
  set (r := exec _ (at_time t w)) in *. rewrite Hr. case_bool_decide as Hb.
  - pose proof (bucket_inj prefix _ _ _ _ Hb) as [-> _]. rewrite Hb in Hw. cbn in Hw. rewrite Hwin in Hw.
    rewrite Hb. cbn [at_time lw_redis lw_now]. rewrite Hwin.
    assert (hit (group_limit settings g) 60000 t (Some (mkWindow n ends)) =
      if group_limit settings g <? n + 1 then (Some (mkWindow n ends), (ends - t) / 1000)
      else (Some (mkWindow (n + 1) ends), 0)) as Hh.
    { unfold hit, open_window. cbn. by rewrite (proj2 (Z.ltb_lt t ends)) by lia. }
    rewrite Hh in *. destruct (group_limit settings g <? n + 1) eqn:E; cbn [fst snd] in *; simp_bool.
    + assert (1 <= (ends - t) / 1000) by (apply Z.div_le_lower_bound; lia).
      rewrite (proj2 (Z.eqb_neq _ _)) by lia. cbn [andb]. by apply (IH r.1 n).
    + cbn [Z.eqb andb]. pose proof (IH r.1 (n + 1) Hsha' Hw Hts). lia.
  - cbn [andb]. apply (IH r.1 n); [done| |done]. rewrite Ho; [done|]. by intros E.
Qed.
End Theorems.

(** ** A limiter *)

Module RefLimiter.
(** Windows and the scripts Redis has cached. *)
Record redis := mkRedis { r_windows : gmap string window; r_loaded : bool }.

#[export] Program Instance limiter : Limiter := {|
  lm := redis;
  lm_window r k := r_windows r !! k;
  evalsha sha key times ms now r :=
    if r_loaded r then
      let h := hit times ms now (r_windows r !! key) in
      (mkRedis (partial_alter (fun _ => h.1) key (r_windows r)) true, Some h.2)
    else (r, None);
  script_load r := (mkRedis (r_windows r) true, "digest"%string);
|}.
Next Obligation. intros sha key times ms now r z. cbn. case_match; [|done]. cbn. intros [= <-]. by rewrite lookup_partial_alter_eq. Qed.
Next Obligation. intros sha key times ms now r. cbn. by case_match. Qed.
Next Obligation. intros sha key times ms now r key' Hne. cbn. case_match; [|done]. cbn. by rewrite lookup_partial_alter_ne. Qed.
Next Obligation. done. Qed.
Next Obligation. done. Qed.
End RefLimiter.
Export RefLimiter.

Definition a_user : caller := mkCaller (Some (Uuid 1000 eq_refl)) None.
(** The script was lost; one hit of the user's window is counted. *)
Definition lost_script_world : limiter_world :=
  LimiterWorld (mkRedis {[bucket "limit" submit_group a_user := mkWindow 1 (seconds 60)]} false) (Some "old"%string) 0.

Lemma rate_limit_isolated_witness :
  (exec (rate_limit "limit" default_settings submit_group a_user) lost_script_world).2 = inr tt.
Proof.
  destruct (rate_limit_isolated "limit" default_settings submit_group a_user lost_script_world) as (-> & _).
  - reflexivity.
  - by eexists.
  - vm_compute. reflexivity.
Defined.

Definition thirty_requests : list request := replicate 30 (seconds 1, submit_group, a_user).

Lemma rate_limit_budget_witness :
  Z.of_nat (passes "limit" default_settings submit_group a_user thirty_requests lost_script_world) <= Z.max 0 (20 - 1).
Proof.
  apply (rate_limit_budget "limit" default_settings submit_group a_user thirty_requests lost_script_world 1 (seconds 60)).
  - reflexivity.
  - by eexists.
  - vm_compute. reflexivity.
  - apply Forall_replicate. cbn. lia.
Defined.
