(* ===== verification/Middleware.v ===== *)
(** The body size limit (app/api/middleware.py), an ASGI middleware.

    An ASGI application is a tree of its interactions with the server: it waits for
    a message, sends an event, ends or raises.  The wire is the sequence of messages
    the server has for the request; waiting beyond its end blocks.  The theorem says
    that for a request within the limit the application cannot tell the middleware
    from the server, and that any other request is answered 413 without it. *)
From stdpp Require Import base tactics option list strings numbers pretty.
From Stdlib Require Import Ascii.
From S2P Require Import Prelude Uuid Model Json.
Set Default Goal Selector "!".
Open Scope Z_scope.

(** * ASGI *)

Inductive message :=
| HttpRequest (body : option (list ascii)) (more_body : option bool)
| OtherMessage (type : string).

Inductive event :=
| ResponseStart (status : Z) (headers : list (string * string))
| ResponseBody (body : list ascii).

Inductive app :=
| Finish
| Fault (e : exn)
| Receive (k : message -> app)
| Send (e : event) (k : app).

Record scope := mkScope { scope_type : string; scope_headers : list (string * list ascii) }.

Inductive ending := Finished | Blocked | Raised (e : exn).

(** The events an application sends, and how it ends, when it receives [queue] and
    then what is on the wire. *)
Fixpoint run_app (a : app) (queue wire : list message) : list event * ending :=
  match a with
  | Finish => ([], Finished)
  | Fault e => ([], Raised e)
  | Send e k => let r := run_app k queue wire in (e :: r.1, r.2)
  | Receive k =>
      match queue, wire with
      | m :: queue', _ => run_app (k m) queue' wire
      | [], m :: wire' => run_app (k m) [] wire'
      | [], [] => ([], Blocked)
      end
  end.

(** * int(value) of a header *)

Definition is_ws (c : ascii) : bool := let n := N_of_ascii c in ((9 <=? n) && (n <=? 13) || (n =? 32))%N.

(** The digits of a decimal literal; single underscores may separate them. *)
Fixpoint decimal_digits (after_digit : bool) (l : list ascii) : option (list Z) :=
  match l with
  | [] => if after_digit then Some [] else None
  | c :: l' =>
      let n := Z.of_N (N_of_ascii c) in
      if n =? 95 then if after_digit then decimal_digits false l' else None
      else if (48 <=? n) && (n <=? 57) then cons (n - 48) <$> decimal_digits true l'
      else None
  end.

(** [int(b)] of bytes; [None] is the [ValueError], also of more than 4300 digits. *)
Definition int_of_bytes (b : list ascii) : option Z :=
  let s := strip_chars is_ws b in
  let sign c := bool_decide (c = "+"%char \/ c = "-"%char) in
  let neg := match s with c :: _ => bool_decide (c = "-"%char) | [] => false end in
  let s := match s with c :: s' => if sign c then s' else s | [] => [] end in
  ds ← decimal_digits false s;
  if (4300 <? length ds)%nat then None
  else let n := foldl (fun acc d => acc * 10 + d) 0 ds in Some (if neg then - n else n).

(** * The middleware *)

Definition too_large_body : list ascii :=
  json_dumps (text ", ") (text ": ") false (JObj [("detail", JStr "request body too large")]%string).

(** [_send_413] *)
Definition send_413 : list event :=
  [ResponseStart 413 [("content-type", "application/json");
                      ("content-length", pretty (Z.of_nat (length too_large_body)))]%string;
   ResponseBody too_large_body].

(** A declared length over the limit; a malformed one is passed over. *)
Fixpoint declared_over (max_bytes : Z) (headers : list (string * list ascii)) : bool :=
  match headers with
  | [] => false
  | (name, value) :: headers' =>
      if decide (name = "content-length"%string) then
        match int_of_bytes value with
        | Some n => if max_bytes <? n then true else declared_over max_bytes headers'
        | None => declared_over max_bytes headers'
        end
      else declared_over max_bytes headers'
  end.

Inductive buffering :=
| Buffered (messages rest : list message)
| TooLarge
| Waiting.

(** The loop that reads the body before the application starts. *)
Fixpoint buffer (max_bytes total : Z) (buffered wire : list message) : buffering :=
  match wire with
  | [] => Waiting
  | m :: wire' =>
      match m with
      | OtherMessage _ => Buffered (buffered ++ [m]) wire'
      | HttpRequest body more_body =>
          let total := total + Z.of_nat (length (default [] body)) in
          if max_bytes <? total then TooLarge
          else if default false more_body then buffer max_bytes total (buffered ++ [m]) wire'
          else Buffered (buffered ++ [m]) wire'
      end
  end.

Definition body_size_limit (max_bytes : Z) (a : app) (s : scope) (wire : list message) : list event * ending :=
  if negb (bool_decide (scope_type s = "http"%string)) then run_app a [] wire
  else if declared_over max_bytes (scope_headers s) then (send_413, Finished)
  else match buffer max_bytes 0 [] wire with
       | TooLarge => (send_413, Finished)
       | Waiting => ([], Blocked)
       | Buffered buffered rest => run_app a buffered rest
       end.

(** * Specification *)

(** The sizes of the body's chunks, and whether the body ends on the wire. *)
Fixpoint body_chunks (wire : list message) : list Z * bool :=
  match wire with
  | [] => ([], false)
  | OtherMessage _ :: _ => ([], true)
  | HttpRequest body more_body :: wire' =>
      let size := Z.of_nat (length (default [] body)) in
      if default false more_body then let r := body_chunks wire' in (size :: r.1, r.2) else ([size], true)
  end.

Definition body_size (wire : list message) : Z := foldr Z.add 0 (body_chunks wire).1.

Lemma run_app_replay a queue wire : run_app a queue wire = run_app a [] (queue ++ wire).
Proof.
  revert queue wire. induction a as [|e|k IH|e k IH]; intros queue wire; cbn [run_app]; [done|done| |by rewrite IH].
  destruct queue as [|m queue]; rewrite ?app_nil_l; [done|]. apply IH.
Qed.

Lemma body_chunks_nonneg wire : Forall (fun z => 0 <= z) (body_chunks wire).1.
Proof.
  induction wire as [|[body more|ty] wire IH]; cbn; [constructor| |constructor].
  destruct (default false more); cbn; (constructor; [lia|done]) || (constructor; [lia|constructor]).
Qed.

Lemma sum_nonneg l : Forall (fun z => 0 <= z) l -> 0 <= foldr Z.add 0 l.
Proof. induction 1; cbn; lia. Qed.

Lemma buffer_spec max_bytes total acc wire :
  0 <= total <= max_bytes ->
  match buffer max_bytes total acc wire with
  | TooLarge => max_bytes < total + body_size wire
  | Waiting => total + body_size wire <= max_bytes /\ (body_chunks wire).2 = false
  | Buffered messages rest =>
      messages ++ rest = acc ++ wire /\ total + body_size wire <= max_bytes /\ (body_chunks wire).2 = true
  end.
Proof.
  unfold body_size. revert total acc. induction wire as [|[body more|ty] wire IH]; intros total acc Ht; cbn.
  - split; [lia|done].
  - set (size := Z.of_nat (length (default [] body))). assert (0 <= size) by lia.
    pose proof (sum_nonneg _ (body_chunks_nonneg wire)) as Hs.
    destruct (max_bytes <? total + size) eqn:E; simp_bool.
    + destruct (default false more); cbn; lia.
    + destruct (default false more); cbn.
      * specialize (IH (total + size) (acc ++ [HttpRequest body more]) ltac:(lia)).
        destruct (buffer _ _ _ _) as [messages rest| |].
        -- destruct IH as (-> & ? & ?). rewrite <-(assoc_L (++)). split_and!; [done|lia|done].
        -- lia.
        -- split; [lia|tauto].
      * rewrite <-(assoc_L (++)). split_and!; [done|lia|done].
  - rewrite <-(assoc_L (++)). split_and!; [done|lia|done].
Qed.

(** * Theorems *)

(** C32: Of an HTTP request whose declared lengths, if any, are within the limit: when the
    whole body fits, the application sends the events and ends as it would without
    the middleware, whatever it does; when the body outgrows the limit the answer is a
    413 and the application never starts; while the body has not ended nothing is
    sent. *)
Theorem body_size_limit_transparent max_bytes a s wire :
  0 <= max_bytes -> scope_type s = "http"%string -> declared_over max_bytes (scope_headers s) = false ->
  body_size_limit max_bytes a s wire =
    if max_bytes <? body_size wire then (send_413, Finished)
    else if (body_chunks wire).2 then run_app a [] wire
    else ([], Blocked).
Proof.
  intros Hmax Htype Hover. unfold body_size_limit. rewrite bool_decide_eq_true_2 by done. rewrite Hover. cbn [negb].
  pose proof (buffer_spec max_bytes 0 [] wire ltac:(lia)) as Hb.
  destruct (buffer max_bytes 0 [] wire) as [messages rest| |]; rewrite ?Z.add_0_l in Hb.
  - destruct Hb as (Hm & Hle & ->). rewrite (proj2 (Z.ltb_ge _ _)) by done.
    by rewrite run_app_replay, Hm.
  - by rewrite (proj2 (Z.ltb_lt _ _)).
  - destruct Hb as [Hle ->]. by rewrite (proj2 (Z.ltb_ge _ _)).
Qed.

(** A declared length over the limit is refused unread, whatever headers come
    with it: the answer is the 413 response alone. *)
Theorem body_size_limit_declared max_bytes a s wire value n :
  scope_type s = "http"%string -> ("content-length"%string, value) ∈ scope_headers s ->
  int_of_bytes value = Some n -> max_bytes < n ->
  body_size_limit max_bytes a s wire = (send_413, Finished).
Proof.
  intros Htype Hin Hn Hlt. unfold body_size_limit. rewrite bool_decide_eq_true_2 by done. cbn [negb].
  assert (declared_over max_bytes (scope_headers s) = true) as ->; [|done].
  induction (scope_headers s) as [|[name v] headers IH]; [by apply not_elem_of_nil in Hin|].
  cbn [declared_over]. apply elem_of_cons in Hin as [E|Hin].
  - injection E as <- <-. rewrite decide_True, Hn by done. by rewrite (proj2 (Z.ltb_lt _ _)).
  - rewrite (IH Hin). repeat case_match; done.
Qed.

Definition an_app : app := Receive (fun _ => Receive (fun _ => Send (ResponseStart 202 []) Finish)).
Definition a_request (length_header : string) : scope :=
  mkScope "http" [("content-length", text length_header)]%string.
Definition a_wire : list message := [HttpRequest (Some (text "{}")) (Some true); HttpRequest None None].

Lemma body_size_limit_transparent_witness :
  body_size_limit 10 an_app (a_request " 1_0 ") a_wire = ([ResponseStart 202 []], Finished).
Proof.
  rewrite (body_size_limit_transparent 10 an_app (a_request " 1_0 ") a_wire);
    [reflexivity|lia|reflexivity|reflexivity].
Defined.

Lemma body_size_limit_declared_witness :
  body_size_limit 10 an_app (a_request "11") a_wire = (send_413, Finished).
Proof.
  apply (body_size_limit_declared 10 an_app (a_request "11") a_wire (text "11") 11);
    [reflexivity|by left|reflexivity|lia].
Defined.
