(* ===== verification/Observability.v ===== *)
(** What the service reports about itself: app/observability.py (worker liveness,
    status counts, readiness, the statistics), the routes /ready and /stats, the
    ticker's gauges, and the probes of app/core/healthcheck.py.

    The XINFO commands of Redis are the [RedisInfo] interface. *)
From stdpp Require Import base tactics option list gmap strings numbers pretty.
From S2P Require Import Prelude Prog Uuid Model Services Reference Repository RepositoryFacts Queue Worker TokenCache Effects Scenario.
Set Default Goal Selector "!".
Open Scope Z_scope.

(** * Counting *)

(** A row of XINFO CONSUMERS. *)
Record consumer_info := mkConsumer { ci_name : string; ci_idle : Z }.

(** The smallest idle time of each name, as a dict. *)
Definition note_idle (min_idle : list (string * Z)) (row : consumer_info) : list (string * Z) :=
  match od_get (ci_name row) min_idle with
  | Some idle => if ci_idle row <? idle then od_set (ci_name row) (ci_idle row) min_idle else min_idle
  | None => od_set (ci_name row) (ci_idle row) min_idle
  end.

Definition live_worker_count (rows_per_stream : list (list consumer_info)) (cutoff_ms : Z) : nat :=
  let min_idle := foldl (foldl note_idle) [] rows_per_stream in
  length (filter (fun e : string * Z => e.2 < cutoff_ms) min_idle).

(** [zero_fill_status_counts]; a row's key may be a member or its text. *)
Definition status_key (s : JobStatus + string) : string :=
  match s with inl s => JobStatus_value s | inr s => s end.

Definition zero_fill_status_counts (rows : list ((JobStatus + string) * Z)) : list (string * Z) :=
  foldl (fun counts row => od_set (status_key row.1) row.2 counts)
    ((fun s => (JobStatus_value s, 0)) <$> JobStatus_members) rows.

(** Microseconds stand for the float seconds. *)
Definition pending_age_seconds (min_created_at : option datetime) (now : datetime) : option duration :=
  t ← min_created_at; Some (now - t).

(** * Reading Redis *)

(** A row of XINFO GROUPS. *)
Record group_info := mkGroupInfo { gi_name : string; gi_pending : Z; gi_lag : option Z }.

Class RedisInfo {RD : Redis} := {
  xinfo_groups : string -> rd -> exn + list group_info;
  xinfo_consumers : string -> string -> datetime -> rd -> exn + list consumer_info;
  zcard : string -> rd -> exn + Z;
  (** A group's row gives its pending entries and, as no entry is ever deleted from
      a stream, its lag. *)
  xinfo_groups_row s g r v :
    rd_group r s g = Some v ->
    exists l, xinfo_groups s r = inr l /\
      find (fun i => bool_decide (gi_name i = g)) l =
      Some (mkGroupInfo g (Z.of_nat (length (g_pel v))) (Some (Z.of_nat (length (g_fresh v)))));
  xinfo_consumers_ok s g now r : is_Some (rd_group r s g) -> exists l, xinfo_consumers s g now r = inr l;
  zcard_size z r : zcard z r = inr (Z.of_nat (size (rd_zset r z)));
}.

(** [isinstance(exc, redis.ResponseError) and 'NOGROUP' in str(exc)] is an empty
    answer; any other error is raised. *)
Definition _tolerate_nogroup {A} (result : exn + A) (empty : A) : exn + A :=
  match result with
  | inl (ResponseError msg) => if contains "NOGROUP" msg then inr empty else inl (ResponseError msg)
  | _ => result
  end.

Record StreamStat := mkStreamStat { depth : option Z; in_flight : Z }.
Record QueueStats := mkQueueStats { streams : list (JobPriority * StreamStat); scheduled_count : Z; workers : nat }.
Record JobStats := mkJobStats { by_status : list (string * Z); oldest_pending_age : option duration }.
Record StatsResponse := mkStats { queue : QueueStats; jobs : JobStats }.

Section Stats.
Context {PG : Postgres} {RD : Redis} {EN : Entropy} {RI : RedisInfo}.
Context (settings : Settings).

(** A command that only reads; Redis takes the time from its own clock. *)
Definition redis_read {X} (q : datetime -> rd -> X) : coroutine X :=
  act (fun w => (w, q (w_now w) (w_redis w))).

(** The commands of a pipeline, one after the other; an error is a result. *)
Fixpoint each {A X} (command : A -> datetime -> rd -> X) (l : list A) : coroutine (list X) :=
  match l with
  | [] => Ret []
  | a :: l' => x ← redis_read (command a); xs ← each command l'; Ret (x :: xs)
  end.

Fixpoint tolerate_all {A} (results : list (exn + A)) (empty : A) : exn + list A :=
  match results with
  | [] => inr []
  | r :: results' => x ← _tolerate_nogroup r empty; xs ← tolerate_all results' empty; inr (x :: xs)
  end.

Definition stream_stat (groups : list group_info) : StreamStat :=
  match find (fun i => bool_decide (gi_name i = consumer_group settings)) groups with
  | None => mkStreamStat (Some 0) 0
  | Some i => mkStreamStat (gi_lag i) (gi_pending i)
  end.

(** [int(settings.visibility_timeout_s * 1000)] *)
Definition cutoff_ms : Z := visibility_timeout_s settings / 1000.

(** [SELECT min(created_at) WHERE status = 'pending'] *)
Definition min_pending_created (d : pg_db) : option datetime :=
  foldr (fun j acc => Some (match acc with Some t => Z.min (j_created_at j) t | None => j_created_at j end))
    None (pg_select (status_in [pending]) d).

Definition gather_stats : coroutine StatsResponse :=
  let names := (priority_streams settings).*2 in
  group_results ← each (fun s _ => xinfo_groups s) names;
  consumer_results ← each (fun s => xinfo_consumers s (consumer_group settings)) names;
  zcard_result ← redis_read (fun _ => zcard (delayed_zset settings));
  groups ← or_raise (tolerate_all group_results []);
  consumers ← or_raise (tolerate_all consumer_results []);
  n ← or_raise (_tolerate_nogroup zcard_result 0);
  let consumers := filter (fun c => ci_name c <> REAPER_NAME) <$> consumers in
  let stats := zip_with (fun ps g => (ps.1, stream_stat g)) (priority_streams settings) groups in
  status_rows ← pg_read count_by_status;
  min_created ← pg_read min_pending_created;
  now ← clock;
  Ret (mkStats (mkQueueStats stats n (live_worker_count consumers cutoff_ms))
    (mkJobStats (zero_fill_status_counts ((fun r => (inl r.1, Z.of_nat r.2)) <$> status_rows))
       (pending_age_seconds min_created now))).

(** The route: what the two clients may raise is a 503. *)
Definition stats_route (is_backend_error : exn -> bool) : coroutine StatsResponse :=
  r ← attempt gather_stats;
  match r with
  | inr s => Ret s
  | inl e => if is_backend_error e then Raise (HTTPException 503 "stats unavailable") else Raise e
  end.

(** ** The ticker's gauges *)

(** One observation per stream with a group whose lag is known. *)
Fixpoint queue_depth_loop (ps : list (JobPriority * string)) : coroutine (list (Z * string)) :=
  match ps with
  | [] => Ret []
  | (priority, stream) :: ps' =>
      r ← redis_read (fun _ => xinfo_groups stream);
      match r with
      | inl (ResponseError _) => queue_depth_loop ps'
      | inl e => Raise e
      | inr groups =>
          rest ← queue_depth_loop ps';
          match find (fun i => bool_decide (gi_name i = consumer_group settings)) groups with
          | Some i => match gi_lag i with
                      | Some lag => Ret ((lag, JobPriority_value priority) :: rest)
                      | None => Ret rest
                      end
          | None => Ret rest
          end
      end
  end.

Definition queue_depth_observations (is_redis_error : exn -> bool) : coroutine (list (Z * string)) :=
  r ← attempt (queue_depth_loop (priority_streams settings));
  match r with
  | inr out => Ret out
  | inl e => if is_redis_error e then Ret [] else Raise e
  end.

Definition queue_scheduled_observations (is_redis_error : exn -> bool) : coroutine (list Z) :=
  r ← redis_read (fun _ => zcard (delayed_zset settings));
  match r with
  | inr n => Ret [n]
  | inl e => if is_redis_error e then Ret [] else Raise e
  end.

(** [status_rows] is the query, which may raise. *)
Definition job_status_observations (is_db_error : exn -> bool)
    (status_rows : coroutine (list ((JobStatus + string) * Z))) : coroutine (list (Z * string)) :=
  r ← attempt status_rows;
  match r with
  | inr rows => Ret ((fun kc => (kc.2, kc.1)) <$> zero_fill_status_counts rows)
  | inl e => if is_db_error e then Ret [] else Raise e
  end.
End Stats.

(** * Probes *)

Section Probes.
Context {W : Type}.
#[local] Abbreviation task := (prog W exn).
(** The two probes, and the exceptions each client may raise. *)
Context (select_1 ping : task unit) (is_db_error is_redis_error : exn -> bool).

Definition checks := list (string * string).

(** [try: probe; checks[name] = 'ok' except errors: checks[name] = 'error'] *)
Definition checked (name : string) (probe : task unit) (caught : exn -> bool) : task (string * string) :=
  r ← attempt probe;
  match r with
  | inr _ => Ret (name, "ok"%string)
  | inl e => if caught e then Ret (name, "error"%string) else Raise e
  end.

Definition check_readiness : task checks :=
  pg ← checked "postgres" select_1 is_db_error;
  rd ← checked "redis" ping is_redis_error;
  Ret [pg; rd].

Definition all_ok (cs : checks) : bool := forallb (fun c => bool_decide (c.2 = "ok"%string)) cs.

(** The status code and the body of a health answer. *)
Definition health_answer (ok : bool) (cs : checks) : Z * (string * checks) :=
  if ok then (200, ("ok"%string, cs)) else (503, ("unavailable"%string, cs)).

(** GET /ready of the API *)
Definition ready : task (Z * (string * checks)) :=
  cs ← check_readiness; Ret (health_answer (all_ok cs) cs).

(** GET /ready of the worker and the ticker: every failure of the database counts,
    and a draining process is not ready. *)
Definition health_server_ready (draining : option bool) : task (Z * (string * checks)) :=
  if default false draining
  then Ret (503, ("draining"%string, [("draining"%string, "true"%string)]))
  else
    pg ← checked "postgres" select_1 (fun _ => true);
    rd ← checked "redis" ping is_redis_error;
    Ret (health_answer (all_ok [pg; rd]) [pg; rd]).
End Probes.

(** ** Heartbeats *)

Definition worker_heartbeat_threshold_s (s : Settings) : duration :=
  block_ms s * 1000 + job_handler_timeout_s s + seconds 10.
Definition ticker_heartbeat_threshold_s (s : Settings) : duration :=
  Z.max (seconds 10) (5 * ticker_interval_s s).

(** [f'{age:.0f}'] of a duration: rounded to seconds, half to even. *)
Definition whole_seconds (d : duration) : Z :=
  let q := d / seconds 1 in let r := d mod seconds 1 in
  if r * 2 <? seconds 1 then q else if seconds 1 <? r * 2 then q + 1
  else if Z.even q then q else q + 1.

(** GET /health of the worker and the ticker, [last] being the last beat. *)
Definition health (last now max_age : duration) : Z * (string * checks) :=
  let age := now - last in
  if age <=? max_age then (200, ("ok", [("loop", "ok")]))%string
  else (503, ("unavailable", [("loop",
    "stale (" +:+ pretty (whole_seconds age) +:+ "s > " +:+ pretty (whole_seconds max_age) +:+ "s)")]))%string.

(** * Lemmas *)

(** A dict of minima: a name is under the cutoff exactly when one of its rows is. *)
Definition minima (rows : list consumer_info) (m : list (string * Z)) : Prop :=
  NoDup m.*1 /\
  forall n c, (exists idle, od_get n m = Some idle /\ idle < c) <->
              (exists row, row ∈ rows /\ ci_name row = n /\ ci_idle row < c).

Lemma note_idle_minima rows m row : minima rows m -> minima (rows ++ [row]) (note_idle m row).
Proof.
  intros [Hn Hm]. split.
  { unfold note_idle. repeat case_match; auto using od_set_NoDup. }
  intros n c.
  assert ((exists r, r ∈ rows ++ [row] /\ ci_name r = n /\ ci_idle r < c) <->
          (exists idle, od_get n m = Some idle /\ idle < c) \/ (ci_name row = n /\ ci_idle row < c)) as ->.
  { rewrite Hm. setoid_rewrite elem_of_app. setoid_rewrite list_elem_of_singleton. naive_solver. }
  unfold note_idle. destruct (od_get (ci_name row) m) as [idle|] eqn:E; [destruct (ci_idle row <? idle) eqn:L|].
  all: rewrite ?od_get_set; simp_bool; try case_decide; subst; rewrite ?E; naive_solver lia.
Qed.

Lemma minima_foldl rows seen m : minima seen m -> minima (seen ++ rows) (foldl note_idle m rows).
Proof.
  revert seen m. induction rows as [|row rows IH]; intros seen m Hm; cbn [foldl]; [by rewrite app_nil_r|].
  replace (seen ++ row :: rows) with ((seen ++ [row]) ++ rows) by by rewrite <-(assoc_L (++)).
  by apply IH, note_idle_minima.
Qed.

Lemma foldl_concat rows m : foldl (foldl note_idle) m rows = foldl note_idle m (concat rows).
Proof. revert m. induction rows as [|r rows IH]; intros m; [done|]. cbn. by rewrite IH, foldl_app. Qed.

(** The names that read some stream within the cutoff. *)
Definition live_names (rows : list consumer_info) (cutoff : Z) : gset string :=
  list_to_set (ci_name <$> filter (fun r => ci_idle r < cutoff) rows).

Lemma live_worker_count_names rows cutoff :
  live_worker_count rows cutoff = size (live_names (concat rows) cutoff).
Proof.
  unfold live_worker_count. rewrite foldl_concat.
  destruct (minima_foldl (concat rows) [] []) as [Hn Hm].
  { split; [constructor|]. intros n c. split; [by intros (? & ? & ?)|]. intros (? & H & _). by apply not_elem_of_nil in H. }
  rewrite app_nil_l in Hm. set (m := foldl note_idle [] (concat rows)) in *.
  assert (live_names (concat rows) cutoff = list_to_set (filter (fun e : string * Z => e.2 < cutoff) m).*1) as ->.
  { apply set_eq. intros n. unfold live_names. rewrite !elem_of_list_to_set, !list_elem_of_fmap.
    setoid_rewrite list_elem_of_filter. specialize (Hm n cutoff). split.
    - intros (r & -> & Hc & Hr). destruct (proj2 Hm) as (idle & Hg & Hi); [by exists r|].
      exists (ci_name r, idle). split_and!; [done|done|by apply od_get_elem].
    - intros ([n' idle] & -> & Hc & He). cbn in *. apply elem_od_get in He; [|done].
      destruct (proj1 Hm) as (r & ? & ? & ?); [eauto|]. by exists r. }
  rewrite size_list_to_set; [by rewrite length_fmap|].
  eapply od_sub_NoDup; [apply sublist_filter|done].
Qed.

Section Facts.
Context {PG : Postgres} {RD : Redis} {EN : Entropy} {RI : RedisInfo}.
Context (settings : Settings).

Definition all_rows (d : pg_db) : list Job := (map_to_list (pg_rows d)).*2.

(** How many rows of [d] have a status. *)
Definition rows_with (s : JobStatus) (l : list Job) : nat := length (filter (fun j => j_status j = s) l).

Lemma select_status s d : length (pg_select (status_in [s]) d) = rows_with s (all_rows d).
Proof.
  rewrite pg_select_rows. unfold rows_with, all_rows. f_equal. apply filter_ext_in.
  intros j _. unfold status_in. rewrite bool_decide_eq_true, list_elem_of_singleton. done.
Qed.

Lemma rows_with_sum l :
  foldr (fun s acc => rows_with s l + acc)%nat 0%nat JobStatus_members = length l.
Proof.
  unfold JobStatus_members, rows_with. cbn [foldr].
  induction l as [|j l IH]; [done|]. rewrite !filter_cons.
  destruct (j_status j); repeat first [rewrite decide_True by done | rewrite decide_False by done];
    cbn [length]; lia.
Qed.

(** The zero-filled counts of the query: every status, with its number of rows. *)
Lemma zero_fill_counts d :
  zero_fill_status_counts ((fun r => (inl r.1, Z.of_nat r.2)) <$> count_by_status d) =
  (fun s => (JobStatus_value s, Z.of_nat (rows_with s (all_rows d)))) <$> JobStatus_members.
Proof.
  unfold count_by_status, JobStatus_members. cbn [fmap list_fmap]. rewrite !select_status.
  generalize (rows_with scheduled (all_rows d)), (rows_with pending (all_rows d)),
    (rows_with processing (all_rows d)), (rows_with completed (all_rows d)),
    (rows_with failed (all_rows d)), (rows_with cancelled (all_rows d)).
  intros [] [] [] [] [] []; reflexivity.
Qed.

Lemma exec_redis_read {X} (q : datetime -> rd -> X) (w : world) :
  exec (redis_read q) w = (w, inr (q (w_now w) (w_redis w))).
Proof. apply exec_act. Qed.

Lemma exec_each {A X} (command : A -> datetime -> rd -> X) l (w : world) :
  exec (each command l) w = (w, inr ((fun a => command a (w_now w) (w_redis w)) <$> l)).
Proof.
  induction l as [|a l IH]; [done|]. cbn [each]. rewrite exec_bind, exec_redis_read.
  by rewrite exec_bind, IH.
Qed.

Lemma tolerate_all_ok {A} (rs : list (exn + A)) xs empty :
  rs = inr <$> xs -> tolerate_all rs empty = inr xs.
Proof.
  intros ->. induction xs as [|x xs IH]; [done|]. cbn [fmap list_fmap tolerate_all _tolerate_nogroup].
  rewrite sum_bind_inr. change (list_fmap _ _ inr xs) with (@inr exn A <$> xs). rewrite IH. done.
Qed.

(** What a stream with a group is reported as. *)
Definition view_stat (v : group_view) : StreamStat :=
  mkStreamStat (Some (Z.of_nat (length (g_fresh v)))) (Z.of_nat (length (g_pel v))).

Lemma group_infos s v r :
  rd_group r s (consumer_group settings) = Some v ->
  exists l, xinfo_groups s r = inr l /\ stream_stat settings l = view_stat v.
Proof.
  intros Hv. destruct (xinfo_groups_row _ _ _ _ Hv) as (l & Hl & Hf). exists l. split; [done|].
  unfold stream_stat. by rewrite Hf.
Qed.

Lemma min_pending_spec d :
  match min_pending_created d with
  | None => forall j, j ∈ all_rows d -> j_status j <> pending
  | Some t => (exists j, j ∈ all_rows d /\ j_status j = pending /\ j_created_at j = t) /\
              forall j, j ∈ all_rows d -> j_status j = pending -> t <= j_created_at j
  end.
Proof.
  unfold min_pending_created.
  assert (forall j, j ∈ pg_select (status_in [pending]) d <-> j ∈ all_rows d /\ j_status j = pending) as Hin.
  { intros j. rewrite pg_select_rows, list_elem_of_filter. unfold status_in.
    rewrite bool_decide_eq_true, list_elem_of_singleton. unfold all_rows. tauto. }
  assert (forall l, match foldr (fun j acc => Some (match acc with Some t => Z.min (j_created_at j) t | None => j_created_at j end)) None l with
    | None => l = []
    | Some t => (exists j, j ∈ l /\ j_created_at j = t) /\ forall j, j ∈ l -> t <= j_created_at j end) as Hf.
  { induction l as [|j l IH]; [done|]. cbn [foldr]. destruct (foldr _ None l) as [t|]; cbn.
    - destruct IH as [(k & Hk & <-) Hle]. split.
      + destruct (Z.min_spec (j_created_at j) (j_created_at k)) as [[_ ->]|[_ ->]]; [exists j|exists k]; set_solver.
      + intros i [->|Hi]%elem_of_cons; [lia|]. specialize (Hle i Hi). lia.
    - subst l. split; [exists j; set_solver|]. intros i ->%list_elem_of_singleton. lia. }
  specialize (Hf (pg_select (status_in [pending]) d)). destruct (foldr _ None _) as [t|].
  - destruct Hf as [(j & Hj & Ht) Hle]. apply Hin in Hj as [? ?]. split; [eauto|].
    intros i ? ?. apply Hle, Hin. done.
  - intros j Hj Hs. assert (j ∈ pg_select (status_in [pending]) d) as H by by apply Hin.
    rewrite Hf in H. by apply not_elem_of_nil in H.
Qed.
End Facts.

(** ** The reference instance answers XINFO *)

Lemma find_unique {A} (f : A -> bool) l x :
  x ∈ l -> f x = true -> (forall y, y ∈ l -> f y = true -> y = x) -> find f l = Some x.
Proof.
  induction l as [|y l IH]; [by intros ?%not_elem_of_nil|].
  intros Hx Hf Hu. cbn. destruct (f y) eqn:E.
  - f_equal. apply Hu; [apply elem_of_cons; by left|done].
  - apply elem_of_cons in Hx as [->|Hx]; [congruence|]. apply IH; [done|done|].
    intros z Hz. apply Hu, elem_of_cons. by right.
Qed.

Module RefInfo.
Definition group_row (kv : (string * string) * group_view) : group_info :=
  mkGroupInfo kv.1.2 (Z.of_nat (length (g_pel kv.2))) (Some (Z.of_nat (length (g_fresh kv.2)))).

Definition groups_of (s : string) (r : store) : exn + list group_info :=
  match group_row <$> filter (fun kv => kv.1.1 = s) (map_to_list (st_groups (norm r))) with
  | [] => inl (ResponseError "ERR no such key")
  | l => inr l
  end.

(** The consumers that hold an entry, idle since they last took one. *)
Definition consumers_of (s g : string) (now : datetime) (r : store) : exn + list consumer_info :=
  match group_at r s g with
  | None => inl (ResponseError "NOGROUP No such consumer group")
  | Some v => inr (foldr (fun e acc => if bool_decide (pe_consumer e ∈ ci_name <$> acc) then acc
                                       else mkConsumer (pe_consumer e) (pe_idle_ms now e) :: acc) [] (g_pel v))
  end.

#[export] Program Instance redis_info : RedisInfo := {|
  xinfo_groups := groups_of;
  xinfo_consumers := consumers_of;
  zcard z r := inr (Z.of_nat (size (rd_zset (r : rd) z)));
|}.
Next Obligation.
  intros s g r v Hv. unfold groups_of. change (st_groups (norm r) !! (s, g) = Some v) in Hv.
  set (l := filter _ _). set (row := group_row ((s, g), v)).
  assert (row ∈ group_row <$> l) as Hin.
  { apply list_elem_of_fmap_2, list_elem_of_filter. split; [done|]. by apply elem_of_map_to_list. }
  exists (group_row <$> l). split; [by destruct (group_row <$> l); [apply not_elem_of_nil in Hin|]|].
  apply find_unique; [done|by apply bool_decide_eq_true|].
  intros y ([[s' g'] v'] & -> & Hy)%list_elem_of_fmap Hg. apply bool_decide_eq_true in Hg. cbn in Hg. subst.
  apply list_elem_of_filter in Hy as [Hs Hy]. cbn in Hs. subst. apply elem_of_map_to_list in Hy. by simplify_eq.
Qed.
Next Obligation.
  intros s g now r [v Hv]. unfold consumers_of. change (group_at r s g = Some v) in Hv. rewrite Hv. eauto.
Qed.
Next Obligation. done. Qed.
End RefInfo.
Export RefInfo.

(** * Theorems *)

Section StatsSpec.
Context {PG : Postgres} {RD : Redis} {EN : Entropy} {RI : RedisInfo}.
Context (settings : Settings).

(** The consumers of the three streams but for the reaper. *)
Definition worker_rows (now : datetime) (r : rd) : list (list consumer_info) :=
  (fun s => match xinfo_consumers s (consumer_group settings) now r with
            | inr l => filter (fun c => ci_name c <> REAPER_NAME) l
            | inl _ => []
            end) <$> ordered_streams settings.

(** When the streams have their group, /stats changes nothing and reports, for
    each priority, the messages not yet delivered and those not acknowledged, the
    size of the delayed set, the consumers other than the reaper that some stream
    saw within the cutoff, the number of rows of every status (they add up to the table) and the age of the oldest pending row. *)
Theorem gather_stats_spec (w : world) (views : JobPriority -> group_view) :
  (forall p, rd_group (w_redis w) (stream_for_priority settings p) (consumer_group settings) = Some (views p)) ->
  let counts := (fun s => (JobStatus_value s, Z.of_nat (rows_with s (all_rows (w_db w))))) <$> JobStatus_members in
  exec (gather_stats settings) w =
    (w, inr (mkStats
      (mkQueueStats ((fun p => (p, view_stat (views p))) <$> [high; normal; low])
         (Z.of_nat (size (rd_zset (w_redis w) (delayed_zset settings))))
         (size (live_names (concat (worker_rows (w_now w) (w_redis w))) (cutoff_ms settings))))
      (mkJobStats counts (pending_age_seconds (min_pending_created (w_db w)) (w_now w))))) /\
  foldr (fun kc acc => kc.2 + acc) 0 counts = Z.of_nat (size (pg_rows (w_db w))).
Proof.
  intros Hviews counts. split.
  - destruct (group_infos settings _ _ _ (Hviews high)) as (lh & Hh & Sh).
    destruct (group_infos settings _ _ _ (Hviews normal)) as (ln & Hn & Sn).
    destruct (group_infos settings _ _ _ (Hviews low)) as (ll & Hl & Sl).
    destruct (xinfo_consumers_ok _ _ (w_now w) (w_redis w) (mk_is_Some _ _ (Hviews high))) as [ch Ch].
    destruct (xinfo_consumers_ok _ _ (w_now w) (w_redis w) (mk_is_Some _ _ (Hviews normal))) as [cn Cn].
    destruct (xinfo_consumers_ok _ _ (w_now w) (w_redis w) (mk_is_Some _ _ (Hviews low))) as [cl Cl].
    change (stream_for_priority settings high) with (stream_high settings) in *.
    change (stream_for_priority settings normal) with (stream_normal settings) in *.
    change (stream_for_priority settings low) with (stream_low settings) in *.
    unfold gather_stats. rewrite !exec_bind, exec_each. cbv beta iota.
    rewrite exec_bind, exec_each. cbv beta iota. rewrite exec_bind, exec_redis_read. cbv beta iota.
    unfold priority_streams. cbn [fmap list_fmap snd].
    rewrite Hh, Hn, Hl, Ch, Cn, Cl, zcard_size.
    rewrite (tolerate_all_ok [inr lh; inr ln; inr ll] [lh; ln; ll]), (tolerate_all_ok [inr ch; inr cn; inr cl] [ch; cn; cl]) by done.
    cbn [_tolerate_nogroup]. repeat (rewrite exec_bind, exec_or_raise; cbv beta iota).
    rewrite exec_bind, exec_pg_read. cbv beta iota. rewrite exec_bind, exec_pg_read. cbv beta iota.
    rewrite exec_bind, exec_clock. cbv beta iota. rewrite exec_ret. cbn [zip_with fmap list_fmap fst snd].
    rewrite Sh, Sn, Sl, zero_fill_counts. unfold worker_rows, ordered_streams. cbn [fmap list_fmap].
    by rewrite Ch, Cn, Cl, live_worker_count_names.
  - unfold counts.
    assert (size (pg_rows (w_db w)) = length (all_rows (w_db w))) as ->.
    { unfold all_rows. by rewrite length_fmap, length_map_to_list. }
    rewrite <-rows_with_sum. unfold JobStatus_members. cbn [fmap list_fmap foldr snd]. lia.
Qed.
End StatsSpec.

Definition views_of (w : world) (p : JobPriority) : group_view :=
  default (mkGroup [] []) (rd_group (w_redis w) (stream_for_priority the_settings p) (consumer_group the_settings)).

Lemma gather_stats_spec_witness :
  (exec (gather_stats the_settings) lost_world).2 =
  inr (mkStats (mkQueueStats [(high, mkStreamStat (Some 0) 0); (normal, mkStreamStat (Some 0) 1);
                              (low, mkStreamStat (Some 0) 0)] 0 0)
    (mkJobStats [("scheduled", 0); ("pending", 0); ("processing", 1); ("completed", 0);
                 ("failed", 0); ("cancelled", 0)]%string None)).
Proof.
  rewrite (proj1 (gather_stats_spec the_settings lost_world (views_of lost_world)
    ltac:(intros []; vm_compute; reflexivity))).
  vm_compute. reflexivity.
Defined.

(** The two probes are independent: the database's outcome decides its own check
    and Redis is probed all the same; the service is ready, and answers 200, exactly
    when both probes succeed, and each failing backend is named in the 503. *)
Theorem ready_spec {W} (select_1 ping : prog W exn unit) (is_db_error is_redis_error : exn -> bool) w :
  let db := exec select_1 w in
  let rd := exec ping db.1 in
  let up (r : exn + unit) := match r with inr _ => true | inl _ => false end in
  (forall e, db.2 = inl e -> is_db_error e = true) ->
  (forall e, rd.2 = inl e -> is_redis_error e = true) ->
  let word (ok : bool) := (if ok then "ok" else "error")%string in
  exec (ready select_1 ping is_db_error is_redis_error) w =
    (rd.1, inr (health_answer (up db.2 && up rd.2)
      [("postgres", word (up db.2)); ("redis", word (up rd.2))]%string)).
Proof.
  intros db rd up Hdb Hrd word. unfold ready, check_readiness.
  assert (forall name (probe : prog W exn unit) caught w', (forall e, (exec probe w').2 = inl e -> caught e = true) ->
    exec (checked name probe caught) w' =
      ((exec probe w').1, inr (name, word (up (exec probe w').2)))) as Hc.
  { intros name probe caught w' Hcaught. unfold checked. rewrite exec_bind, exec_attempt.
    destruct (exec probe w').2 as [e|[]]; [|done]. by rewrite (Hcaught e eq_refl). }
  rewrite exec_bind, exec_bind, Hc by done. fold db. rewrite exec_bind, Hc by done. fold rd. cbn [exec].
  do 2 f_equal. f_equal. unfold all_ok. cbn [forallb snd].
  by destruct (up db.2), (up rd.2).
Qed.

Lemma ready_spec_witness :
  exec (ready (W:=unit) (Raise (OtherError "OperationalError" "")) (Ret tt) (fun _ => true) (fun _ => true)) tt =
  (tt, inr (503, ("unavailable", [("postgres", "error"); ("redis", "ok")])))%string.
Proof.
  apply (ready_spec (W:=unit) (Raise (OtherError "OperationalError" "")) (Ret tt) (fun _ => true) (fun _ => true) tt);
    reflexivity.
Defined.
