(* ===== verification/Process.v ===== *)
(** What a process is made of: its calls of libraries, what it holds, its telemetry
    (app/core/telemetry.py), its clients (app/core/db.py, app/core/redis.py) and its
    health server (app/core/healthcheck.py).

    The calls of libraries are events that the environment ([Platform]) lets pass or
    fail, whatever happened before; a call that opens something is matched by the one
    that closes it, so what a process still holds at any point is part of its state.
    The world of jobs and the API's authentication state are components of the
    process, and the coroutines of the other files run on them unchanged. *)
From stdpp Require Import base tactics option list gmap strings numbers relations.
From S2P Require Import Prelude Prog Uuid Model Services Handlers Json Logging Auth Reference Scenario Observability.
Set Default Goal Selector "!".
Open Scope Z_scope.

(** * Calls and resources *)

Inductive signal := Traces | Metrics | Logs.
#[export] Instance signal_eq_dec : EqDecision signal. Proof. solve_decision. Defined.

Inductive kind := Engine | RedisClient | SyncEngine | SyncClient | HttpClient | Socket | ServeTask | Provider (s : signal).
#[export] Instance kind_eq_dec : EqDecision kind. Proof. solve_decision. Defined.

(** An object a call made: its kind, and the place of that call. *)
Record resource := Res { res_kind : kind; res_id : nat }.
#[export] Instance resource_eq_dec : EqDecision resource. Proof. solve_decision. Defined.

(** The keyword arguments of an engine. *)
Inductive kwarg := KBool (b : bool) | KInt (n : Z) | KNone | KDict (d : list (string * kwarg)).

Inductive call :=
(* opentelemetry *)
| ResourceCreate (attributes : list (string * string))
| NewProvider (s : signal)
| NewExporter (s : signal) (endpoint : string)
| NewProcessor (s : signal)
| AddProcessor (s : signal)
| SetProvider (s : signal)
| NewLoggingHandler
| AddFilter (name : string)
| Instrument (name : string)
| ShutdownProvider (s : signal)
| CreateGauge (name : string)
| InstrumentApp
(* clients *)
| CreateEngine (url : string) (kwargs : list (string * kwarg))
| RedisFromUrl (url : string)
| CreateHttpClient (verify : string + bool) (timeout : duration)
| InitLimiter
| DisposeEngine
| CloseRedis
| CloseHttp
(* sockets, the server and the process *)
| NewSocket
| ReuseAddr
| Bind (port : Z)
| Listen (backlog : Z)
| SetNonblocking
| CloseSocket
| ServeOn
| Sleep (d : duration)
| AwaitServe
| HandleSignal (name : string)
(* the log *)
| LogLine (level event : string).

Class Platform := {
  (** the exception a call raises, after the calls before it *)
  fault : list call -> call -> option exn;
  win32 : bool;
  (** [getsockname()[1]] of a listening socket *)
  sock_port : list call -> Z;
  (** what a poll of the server sees: [server.started], or the end of its task *)
  started : list call -> bool;
  ended : list call -> option (option exn);
  (** [Path.is_file] *)
  is_file : string -> bool;
}.

(** * The process *)

Section Process.
Context {PG : Postgres} {RD : Redis} {EN : Entropy} {AP : Apiserver} {PF : Platform}.

Record process := mkProcess {
  p_calls : list call;
  p_held : list resource;
  p_loggers : loggers;
  p_log : log_state;
  p_handlers : list nat;              (** [_state["handlers"]] *)
  p_providers : list resource;        (** [_state["providers"]] *)
  p_world : world;
  p_auth : auth_world;
}.

Definition set_calls l p :=
  mkProcess l (p_held p) (p_loggers p) (p_log p) (p_handlers p) (p_providers p) (p_world p) (p_auth p).
Definition set_held l p :=
  mkProcess (p_calls p) l (p_loggers p) (p_log p) (p_handlers p) (p_providers p) (p_world p) (p_auth p).
Definition set_loggers l p :=
  mkProcess (p_calls p) (p_held p) l (p_log p) (p_handlers p) (p_providers p) (p_world p) (p_auth p).
Definition set_log l p :=
  mkProcess (p_calls p) (p_held p) (p_loggers p) l (p_handlers p) (p_providers p) (p_world p) (p_auth p).
Definition set_handlers l p :=
  mkProcess (p_calls p) (p_held p) (p_loggers p) (p_log p) l (p_providers p) (p_world p) (p_auth p).
Definition set_providers l p :=
  mkProcess (p_calls p) (p_held p) (p_loggers p) (p_log p) (p_handlers p) l (p_world p) (p_auth p).
Definition set_world w p :=
  mkProcess (p_calls p) (p_held p) (p_loggers p) (p_log p) (p_handlers p) (p_providers p) w (p_auth p).
Definition set_auth a p :=
  mkProcess (p_calls p) (p_held p) (p_loggers p) (p_log p) (p_handlers p) (p_providers p) (p_world p) a.

#[local] Abbreviation proc := (prog process exn).

(** A call of a library: it is made, and when it does not fail it has its effect,
    [f], which gets the place of the call. *)
Definition perform (c : call) (f : nat -> process -> process) : proc nat :=
  r ← act (fun p =>
    let p' := set_calls (p_calls p ++ [c]) p in
    match fault (p_calls p) c with
    | Some e => (p', inl e)
    | None => (f (length (p_calls p)) p', inr (length (p_calls p)))
    end);
  match r with inl e => Raise e | inr id => Ret id end.

Definition call_lib (c : call) : proc nat := perform c (fun _ p => p).
Definition acquire (k : kind) (c : call) : proc resource :=
  id ← perform c (fun id p => set_held (p_held p ++ [Res k id]) p); Ret (Res k id).
Definition without (rs l : list resource) : list resource := filter (fun r => r ∉ rs) l.
Definition release (rs : list resource) (c : call) : proc unit :=
  _ ← perform c (fun _ p => set_held (without rs (p_held p)) p); Ret tt.
Definition observe {X} (f : process -> X) : proc X := act (fun p => (p, f p)).
Definition modify (f : process -> process) : proc unit := act (fun p => (f p, tt)).
Definition log_line (level event : string) : proc unit :=
  modify (fun p => set_calls (p_calls p ++ [LogLine level event]) p).

(** Programs on the parts of the process. *)
Definition on_world {A} (c : coroutine A) : proc A := zoom p_world set_world c.
Definition on_log {A} (c : prog log_state exn A) : proc A := zoom p_log set_log c.
Definition on_auth {A} (c : prog auth_world exn A) : proc A := zoom p_auth set_auth c.

(** * Telemetry *)

(** The root logger's [addHandler] and [removeHandler]. *)
Definition on_root (f : list log_handler -> list log_handler) (st : loggers) : loggers :=
  let r := lg_root st in mkLoggers (mkLogger (lg_level r) (f (lg_handlers r)) (lg_propagate r)) (lg_named st).
Definition addHandler (h : log_handler) : proc unit :=
  modify (fun p => set_loggers (on_root (fun l => if decide (h ∈ l) then l else l ++ [h]) (p_loggers p)) p).
Fixpoint remove_first {X} `{EqDecision X} (x : X) (l : list X) : list X :=
  match l with [] => [] | y :: l' => if decide (x = y) then l' else y :: remove_first x l' end.
Definition removeHandler (h : log_handler) : proc unit :=
  modify (fun p => set_loggers (on_root (remove_first h) (p_loggers p)) p).

(** The body of the [try] of [configure_telemetry]. *)
Definition set_up_telemetry (settings : Settings) (service_name : string) (instance_id : option string) : proc unit :=
  let attributes := ("service.name", service_name) ::
    match instance_id with Some i => [("service.instance.id", i)] | None => [] end in
  let endpoint := otel_exporter_otlp_endpoint settings in
  _ ← call_lib (ResourceCreate attributes);
  tracer_provider ← acquire (Provider Traces) (NewProvider Traces);
  _ ← call_lib (NewExporter Traces endpoint);
  _ ← call_lib (NewProcessor Traces);
  _ ← call_lib (AddProcessor Traces);
  _ ← call_lib (SetProvider Traces);
  _ ← call_lib (NewExporter Metrics endpoint);
  _ ← call_lib (NewProcessor Metrics);
  meter_provider ← acquire (Provider Metrics) (NewProvider Metrics);
  _ ← call_lib (SetProvider Metrics);
  logger_provider ← acquire (Provider Logs) (NewProvider Logs);
  _ ← call_lib (NewExporter Logs endpoint);
  _ ← call_lib (NewProcessor Logs);
  _ ← call_lib (AddProcessor Logs);
  _ ← call_lib (SetProvider Logs);
  otel_handler ← call_lib NewLoggingHandler;
  _ ← call_lib (AddFilter "ContextFilter");
  _ ← addHandler (Foreign otel_handler);
  _ ← modify (fun p => set_handlers (p_handlers p ++ [otel_handler]) p);
  _ ← call_lib (Instrument "logging");
  _ ← call_lib (Instrument "sqlalchemy");
  _ ← call_lib (Instrument "redis");
  modify (set_providers [tracer_provider; meter_provider; logger_provider]).

Definition configure_telemetry (settings : Settings) (service_name : string) (instance_id : option string) : proc unit :=
  if otel_enabled settings then
    r ← attempt (set_up_telemetry settings service_name instance_id);
    match r with
    | inl e => if is_exception e then log_line "warning" "telemetry.configure_failed" else Raise e
    | inr _ => Ret tt
    end
  else Ret tt.

(** [provider.shutdown()] *)
Definition shutdown_provider (r : resource) : proc unit :=
  match res_kind r with
  | Provider s => release [r] (ShutdownProvider s)
  | _ => Ret tt
  end.

Definition shutdown_telemetry : proc unit :=
  handlers ← observe p_handlers;
  _ ← for_each (fun h => removeHandler (Foreign h)) handlers;
  _ ← modify (set_handlers []);
  providers ← observe p_providers;
  _ ← for_each shutdown_provider providers;
  modify (set_providers []).

(** * Clients *)

Definition engine_kwargs (pool_size : Z) (disable_prepared_statements : bool) : list (string * kwarg) :=
  [("pool_pre_ping", KBool true); ("pool_timeout", KInt 5); ("pool_size", KInt pool_size)]%string ++
  if disable_prepared_statements then [("connect_args", KDict [("prepare_threshold", KNone)])]%string else [].

Definition make_engine (settings : Settings) : proc resource :=
  acquire Engine (CreateEngine (database_url settings)
    (engine_kwargs (db_pool_size settings) (db_disable_prepared_statements settings))).

Definition create_redis_client (redis_url : string) : proc resource :=
  acquire RedisClient (RedisFromUrl redis_url).

(** * The health server *)

Definition _LISTEN_BACKLOG : Z := 100.

Record HealthServer := mkHealthServer {
  hs_port : Z;
  hs_max_age : duration;
  hs_draining : bool;                  (** whether it was given a [draining] callback *)
  hs_task : option (resource * resource);   (** the task and the socket it serves *)
  hs_should_exit : bool;
}.

Definition new_health_server (port : Z) (max_heartbeat_age_s : duration) (draining : bool) : HealthServer :=
  mkHealthServer port max_heartbeat_age_s draining None false.

(** A socket bound to the port, or none. *)
Definition bind_socket (port : Z) : proc resource :=
  sock ← acquire Socket NewSocket;
  r ← attempt (_ ← (if win32 then Ret O else call_lib ReuseAddr); call_lib (Bind port));
  match r with
  | inl e => _ ← release [sock] CloseSocket; Raise e
  | inr _ => Ret sock
  end.

(** The loop that waits for the server.  A task that is done is no longer held, the
    socket it was given is. *)
Fixpoint wait_started (fuel : nat) (task : resource) : proc unit :=
  match fuel with
  | O => Raise OutOfFuel
  | S fuel' =>
      up ← observe (fun p => started (p_calls p));
      done ← observe (fun p => ended (p_calls p));
      if (up : bool) then Ret tt
      else match done with
      | Some result =>
          _ ← modify (fun p => set_held (without [task] (p_held p)) p);
          match result with
          | Some e => Raise e
          | None => Raise (OtherError "RuntimeError" "health server exited before startup")
          end
      | None => _ ← call_lib (Sleep 10000); wait_started fuel' task
      end
  end.

Definition getsockname : proc Z := observe (fun p => sock_port (p_calls p)).

Definition start (fuel : nat) (hs : HealthServer) : proc HealthServer :=
  sock ← bind_socket (hs_port hs);
  _ ← call_lib (Listen _LISTEN_BACKLOG);
  _ ← call_lib SetNonblocking;
  _ ← getsockname;
  task ← acquire ServeTask ServeOn;
  _ ← wait_started fuel task;
  port ← getsockname;
  Ret (mkHealthServer port (hs_max_age hs) (hs_draining hs) (Some (task, sock)) (hs_should_exit hs)).

(** Told to exit, the server closes the sockets it was given and its task ends. *)
Definition stop (hs : HealthServer) : proc HealthServer :=
  let hs := mkHealthServer (hs_port hs) (hs_max_age hs) (hs_draining hs) (hs_task hs) true in
  match hs_task hs with
  | Some (task, sock) => _ ← release [task; sock] AwaitServe; Ret hs
  | None => Ret hs
  end.
End Process.
Arguments process {PG RD EN AP}.
Abbreviation proc := (prog process exn).

(** * Runs *)

Section Runs.
Context {PG : Postgres} {RD : Redis} {EN : Entropy} {AP : Apiserver} {PF : Platform}.
Implicit Types (p q : process).

Lemma exec_on_world {A} (c : coroutine A) p :
  exec (on_world c) p = (set_world (exec c (p_world p)).1 p, (exec c (p_world p)).2).
Proof. apply exec_zoom; [by intros []..|done]. Qed.
Lemma exec_on_log {A} (c : prog log_state exn A) p :
  exec (on_log c) p = (set_log (exec c (p_log p)).1 p, (exec c (p_log p)).2).
Proof. apply exec_zoom; [by intros []..|done]. Qed.
Lemma exec_on_auth {A} (c : prog auth_world exn A) p :
  exec (on_auth c) p = (set_auth (exec c (p_auth p)).1 p, (exec c (p_auth p)).2).
Proof. apply exec_zoom; [by intros []..|done]. Qed.

Lemma exec_perform c f p :
  exec (perform c f) p =
  match fault (p_calls p) c with
  | Some e => (set_calls (p_calls p ++ [c]) p, inl e)
  | None => (f (length (p_calls p)) (set_calls (p_calls p ++ [c]) p), inr (length (p_calls p)))
  end.
Proof. unfold perform. rewrite exec_bind, exec_act. simpl. by destruct (fault _ _). Qed.

Lemma exec_call_lib c p :
  exec (call_lib c) p =
  (set_calls (p_calls p ++ [c]) p, match fault (p_calls p) c with Some e => inl e | None => inr (length (p_calls p)) end).
Proof. unfold call_lib. rewrite exec_perform. by destruct (fault _ _). Qed.

Lemma exec_acquire k c p :
  exec (acquire k c) p =
  let r := Res k (length (p_calls p)) in
  match fault (p_calls p) c with
  | Some e => (set_calls (p_calls p ++ [c]) p, inl e)
  | None => (set_held (p_held p ++ [r]) (set_calls (p_calls p ++ [c]) p), inr r)
  end.
Proof. unfold acquire. rewrite exec_bind, exec_perform. by destruct (fault _ _). Qed.

Lemma exec_release rs c p :
  exec (release rs c) p =
  match fault (p_calls p) c with
  | Some e => (set_calls (p_calls p ++ [c]) p, inl e)
  | None => (set_held (without rs (p_held p)) (set_calls (p_calls p ++ [c]) p), inr tt)
  end.
Proof. unfold release. rewrite exec_bind, exec_perform. by destruct (fault _ _). Qed.

Lemma exec_assoc {A B C} (c : proc A) (f : A -> proc B) (g : B -> proc C) p :
  exec ((c ≫= f) ≫= g) p = exec (c ≫= fun x => f x ≫= g) p.
Proof. rewrite !exec_bind. destruct (exec c p) as [q [e|a]]; [done|]. by rewrite exec_bind. Qed.

Lemma exec_then {A B} {c : proc A} {p q a} (k : A -> proc B) :
  exec c p = (q, inr a) -> exec (c ≫= k) p = exec (k a) q.
Proof. intros H. by rewrite exec_bind, H. Qed.

Lemma exec_observe {X} (f : process -> X) p : exec (observe f) p = (p, inr (f p)).
Proof. done. Qed.
Lemma exec_modify f p : exec (modify f) p = (f p, inr tt).
Proof. done. Qed.
End Runs.
#[export] Hint Rewrite @exec_on_world @exec_on_log @exec_on_auth @exec_call_lib @exec_acquire @exec_release
  @exec_observe @exec_modify : jobs_rw.

(** * Telemetry never blocks *)

Section TelemetryFacts.
Context {PG : Postgres} {RD : Redis} {EN : Entropy} {AP : Apiserver} {PF : Platform}.
Implicit Types (p q : process).

(** The calls between two states, and objects they may have made. *)
Definition since p q (id : nat) : Prop := (length (p_calls p) <= id < length (p_calls q))%nat.

(** [q] is [p] with more calls made, [rs] held and the handlers [hs] installed. *)
Record grown (rs : list resource) (hs : list nat) p q : Prop := mkGrown {
  grown_calls : exists l, p_calls q = p_calls p ++ l;
  grown_held : p_held q = p_held p ++ rs;
  grown_ids : Forall (fun r => since p q (res_id r)) rs;
  grown_handler_ids : Forall (since p q) hs;
  grown_loggers : p_loggers q = on_root (fun l => l ++ (Foreign <$> hs)) (p_loggers p);
  grown_handlers : p_handlers q = p_handlers p ++ hs;
  grown_log : p_log q = p_log p;
  grown_world : p_world q = p_world p;
  grown_auth : p_auth q = p_auth p;
}.

(** A handler in the root logger was made by a call. *)
Definition handlers_made p : Prop :=
  forall h, Foreign h ∈ lg_handlers (lg_root (p_loggers p)) -> (h < length (p_calls p))%nat.

Lemma on_root_id st : on_root (fun l => l ++ []) st = st.
Proof. destruct st as [[lv hs pr] named]. unfold on_root. simpl. by rewrite app_nil_r. Qed.

Lemma grown_refl p : grown [] [] p p.
Proof. split; rewrite ?app_nil_r; try done; [exists []; by rewrite app_nil_r|]. simpl. by rewrite on_root_id. Qed.

Lemma since_mono p q q' id : (exists l, p_calls q' = p_calls q ++ l) -> since p q id -> since p q' id.
Proof. intros [l Hl]. unfold since. rewrite Hl, length_app. lia. Qed.

(** One more call, that may open a resource. *)
Lemma grown_call c rs' rs hs p q :
  grown rs hs p q -> Forall (fun r => res_id r = length (p_calls q)) rs' ->
  grown (rs ++ rs') hs p (set_held (p_held q ++ rs') (set_calls (p_calls q ++ [c]) q)).
Proof.
  intros [[l Hl] Hheld Hids Hhids Hlog Hhs ???] Hrs'. split; try done; simpl.
  - exists (l ++ [c]). by rewrite Hl, app_assoc.
  - by rewrite Hheld, app_assoc.
  - apply Forall_app. split.
    + eapply Forall_impl; [exact Hids|]. intros r. apply since_mono. by exists [c].
    + eapply Forall_impl; [exact Hrs'|]. intros r ->. unfold since. simpl. rewrite Hl, !length_app. simpl. lia.
  - eapply Forall_impl; [exact Hhids|]. intros r. apply since_mono. by exists [c].
Qed.

Lemma grown_calls_only c rs hs p q : grown rs hs p q -> grown rs hs p (set_calls (p_calls q ++ [c]) q).
Proof.
  intros H. pose proof (grown_call c [] rs hs p q H (Forall_nil_2 _)) as H'.
  rewrite !app_nil_r in H'. by destruct q.
Qed.

(** A handler that is not there yet is installed and noted. *)
Definition installed (h : nat) q : process :=
  set_handlers (p_handlers q ++ [h])
    (set_loggers (on_root (fun l => if decide (Foreign h ∈ l) then l else l ++ [Foreign h]) (p_loggers q)) q).

Lemma grown_install rs h p q :
  handlers_made p -> grown rs [] p q -> since p q h -> grown rs [h] p (installed h q).
Proof.
  intros Hmade [[l Hl] ?? _ Hlog Hhs ???] Hh.
  assert (Foreign h ∉ lg_handlers (lg_root (p_loggers p))) as Hnew.
  { intros Hin. apply Hmade in Hin. unfold since in Hh. lia. }
  split; try done; simpl; [by exists l|by constructor| |].
  - rewrite Hlog. rewrite fmap_nil, on_root_id. destruct (p_loggers p) as [[lv hs pr] named].
    unfold on_root. simpl in *. by rewrite decide_False.
  - by rewrite Hhs, app_nil_r.
Qed.

(** Where the set-up may stop: on an exception of a call, with whatever it has opened
    held but not noted, or at its end with all of it noted. *)
Definition set_up_ends p (r : process * (exn + unit)) : Prop :=
  exists rs hs, grown rs hs p r.1 /\ Forall (fun x => exists s, res_kind x = Provider s) rs /\
    match r.2 with
    | inl e => (exists h c, fault h c = Some e) /\ p_providers r.1 = p_providers p
    | inr _ => p_providers r.1 = rs
    end.

(** The state of the set-up between two calls. *)
Definition setting_up rs hs p q : Prop :=
  grown rs hs p q /\ Forall (fun x => exists s, res_kind x = Provider s) rs /\ p_providers q = p_providers p.

Lemma set_up_call rs hs c (k : nat -> proc unit) p q :
  setting_up rs hs p q ->
  (forall q', setting_up rs hs p q' -> since p q' (length (p_calls q)) ->
     (forall h, since p q h -> since p q' h) -> set_up_ends p (exec (k (length (p_calls q))) q')) ->
  set_up_ends p (exec (call_lib c ≫= k) q).
Proof.
  intros (Hg & Hk & Hpv) Hcont. rewrite exec_bind, exec_call_lib.
  pose proof (grown_calls_only c rs hs p q Hg) as Hg'. destruct (fault _ c) as [e|] eqn:Hf.
  - exists rs, hs. split; [done|]. split; [done|]. split; [by exists (p_calls q), c|done].
  - apply Hcont; [done| |intros h; apply since_mono; by exists [c]]. destruct Hg as [[l Hl] _ _ _ _ _ _ _ _].
    unfold since. simpl. rewrite Hl, !length_app. simpl. lia.
Qed.

Lemma set_up_acquire rs hs s c (k : resource -> proc unit) p q :
  setting_up rs hs p q ->
  (forall q' r, setting_up (rs ++ [r]) hs p q' -> set_up_ends p (exec (k r) q')) ->
  set_up_ends p (exec (acquire (Provider s) c ≫= k) q).
Proof.
  intros (Hg & Hk & Hpv) Hcont. rewrite exec_bind, exec_acquire. cbv zeta. destruct (fault _ c) as [e|] eqn:Hf.
  - exists rs, hs. split; [by apply grown_calls_only|]. split; [done|]. split; [by exists (p_calls q), c|done].
  - apply Hcont. split; [apply grown_call; [done|by constructor]|]. split; [|done].
    apply Forall_app. split; [done|]. constructor; [by exists s|done].
Qed.

Ltac next_call q H :=
  let q' := fresh "q'" in let H' := fresh "H'" in
  eapply set_up_call; [exact H|]; intros q' H' _ _; cbv beta; clear dependent q; rename q' into q; rename H' into H.
Ltac next_provider q H r :=
  let q' := fresh "q'" in let H' := fresh "H'" in
  eapply set_up_acquire; [exact H|]; intros q' r H'; cbv beta; clear dependent q; rename q' into q; rename H' into H.

Lemma set_up_spec settings name inst p :
  handlers_made p -> set_up_ends p (exec (set_up_telemetry settings name inst) p).
Proof.
  intros Hmade. unfold set_up_telemetry. cbv zeta.
  apply (set_up_call [] []); [split; [apply grown_refl|done]|]. intros q1 H1 _ _.
  eapply set_up_acquire; [exact H1|]. clear H1. intros q2 traces H2.
  do 6 next_call q2 H2.
  next_provider q2 H2 meter.
  next_call q2 H2.
  next_provider q2 H2 logs.
  do 4 next_call q2 H2.
  eapply set_up_call; [eassumption|]. clear q1. intros q1 Hq1 Hid1 _.
  set (h := length (p_calls q2)) in *. clearbody h.
  eapply set_up_call; [exact Hq1|]. intros q3 (Hg & Hk & Hpv) _ Hsince. pose proof (Hsince h Hid1) as Hid.
  clear dependent q1.
  change (set_up_ends p (exec (_ ← call_lib (Instrument "logging"); _ ← call_lib (Instrument "sqlalchemy");
    _ ← call_lib (Instrument "redis"); modify (set_providers [traces; meter; logs])) (installed h q3))).
  assert (setting_up (([] ++ [traces]) ++ [meter] ++ [logs]) [h] p (installed h q3)) as H3.
  { split; [|done]. rewrite <-app_assoc in Hg. by apply grown_install. }
  clear dependent q2. clear Hg Hk Hpv Hid. revert H3. generalize (installed h q3). clear q3. intros q3 H3.
  do 3 next_call q3 H3.
  rewrite exec_modify. destruct H3 as (Hg & Hk & Hpv). exists [traces; meter; logs], [h].
  split; [|done]. destruct Hg as [????????]. by split.
Qed.
(** Everything the process has was made by an earlier call. *)
Definition made p : Prop := handlers_made p /\ Forall (fun r => (res_id r < length (p_calls p))%nat) (p_held p).

(** The warning that the set-up has failed. *)
Definition configure_failed : call := LogLine "warning" "telemetry.configure_failed".

(** [configure_telemetry] goes through, and the process is as before but for what was
    opened; it is all noted unless there was a warning. *)
Lemma configure_telemetry_runs settings name inst p :
  (forall h c e, fault h c = Some e -> is_exception e = true) -> handlers_made p ->
  let r := exec (configure_telemetry settings name inst) p in
  r.2 = inr tt /\ exists rs hs, grown rs hs p r.1 /\ Forall (fun x => exists s, res_kind x = Provider s) rs /\
    (p_providers r.1 = rs \/ p_providers r.1 = p_providers p /\ (rs = [] \/ last (p_calls r.1) = Some configure_failed)).
Proof.
  intros Hexc Hmade. unfold configure_telemetry. destruct (otel_enabled settings).
  2: { split; [done|]. exists [], []. split; [apply grown_refl|]. eauto. }
  cbv zeta. rewrite exec_bind, exec_attempt.
  destruct (set_up_spec settings name inst p Hmade) as (rs & hs & Hg & Hk & Hend). cbn [fst snd].
  destruct (exec (set_up_telemetry _ _ _) p) as [q [e|[]]]; cbn [fst snd] in *.
  - destruct Hend as ((h & c & Hf) & Hpv). rewrite (Hexc h c e Hf). unfold log_line. rewrite exec_modify.
    split; [done|]. exists rs, hs. split; [by apply grown_calls_only|]. split; [done|]. right. split; [done|].
    right. simpl. apply last_snoc.
  - split; [done|]. exists rs, hs. eauto.
Qed.

Lemma exec_removeHandlers hs p :
  exec (for_each (fun h => removeHandler (Foreign h)) hs) p =
  (set_loggers (on_root (fun l => foldl (fun l h => remove_first (Foreign h) l) l hs) (p_loggers p)) p, inr tt).
Proof.
  revert p. induction hs as [|h hs IH]; intros p.
  - destruct p as [??[[lv l pr] nm]?????]. done.
  - rewrite exec_for_each_cons. unfold removeHandler at 1. rewrite exec_modify, IH. by destruct p as [??[[lv l pr] nm]?????].
Qed.

Lemma remove_first_app {X} `{EqDecision X} (x : X) l l' : x ∉ l -> remove_first x (l ++ x :: l') = l ++ l'.
Proof.
  induction l as [|y l IH]; intros Hx; simpl; [by rewrite decide_True|].
  rewrite decide_False by set_solver. f_equal. apply IH. set_solver.
Qed.

Lemma remove_installed l hs :
  Forall (fun h => Foreign h ∉ l) hs ->
  foldl (fun l h => remove_first (Foreign h) l) (l ++ (Foreign <$> hs)) hs = l.
Proof.
  induction 1 as [|h hs Hh _ IH]; simpl; [by rewrite app_nil_r|]. by rewrite remove_first_app.
Qed.

Lemma without_without rs rs' l : without rs (without rs' l) = without (rs' ++ rs) l.
Proof.
  unfold without. rewrite list_filter_filter. apply list_filter_iff. intros r. rewrite not_elem_of_app. tauto.
Qed.

Lemma without_nil l : without [] l = l.
Proof. apply filter_keep_all. set_solver. Qed.

Lemma without_grown l rs rs' :
  rs ⊆ rs' -> Forall (fun r => r ∉ rs') l -> without rs' (l ++ rs) = l.
Proof.
  intros Hsub Hl. unfold without. rewrite filter_app, (filter_keep_all _ l), (filter_keep_none _ rs).
  - apply app_nil_r.
  - intros r Hr. apply Hsub in Hr. tauto.
  - by apply Forall_forall.
Qed.

(** The providers go one by one. *)
Lemma exec_shutdown_providers rs p :
  (forall h s, fault h (ShutdownProvider s) = None) -> Forall (fun x => exists s, res_kind x = Provider s) rs ->
  exists l, exec (for_each shutdown_provider rs) p =
    (set_held (without rs (p_held p)) (set_calls (p_calls p ++ l) p), inr tt) /\
    length l = length rs.
Proof.
  intros Hcalm Hk. revert p. induction Hk as [|r rs [s Hs] _ IH]; intros p.
  - exists []. rewrite app_nil_r, without_nil. by destruct p.
  - rewrite exec_for_each_cons. unfold shutdown_provider at 1. rewrite Hs, exec_release, Hcalm.
    destruct (IH (set_held (without [r] (p_held p)) (set_calls (p_calls p ++ [ShutdownProvider s]) p))) as (l & -> & Hl).
    exists (ShutdownProvider s :: l). simpl. split; [|by rewrite Hl]. rewrite without_without, <-app_assoc. done.
Qed.

(** What [shutdown_telemetry] leaves when no provider refuses. *)
Lemma shutdown_telemetry_runs p :
  (forall h s, fault h (ShutdownProvider s) = None) ->
  Forall (fun x => exists s, res_kind x = Provider s) (p_providers p) ->
  exists l, exec shutdown_telemetry p =
    (mkProcess (p_calls p ++ l) (without (p_providers p) (p_held p))
       (on_root (fun l => foldl (fun l h => remove_first (Foreign h) l) l (p_handlers p)) (p_loggers p))
       (p_log p) [] [] (p_world p) (p_auth p), inr tt) /\
    length l = length (p_providers p).
Proof.
  intros Hcalm Hk. unfold shutdown_telemetry.
  rewrite exec_bind, exec_observe, exec_bind, exec_removeHandlers, exec_bind, exec_modify, exec_bind, exec_observe, exec_bind.
  destruct (exec_shutdown_providers (p_providers p) (set_handlers [] (set_loggers
    (on_root (fun l => foldl (fun l h => remove_first (Foreign h) l) l (p_handlers p)) (p_loggers p)) p)) Hcalm Hk)
    as (l & Hl & Hlen). cbn [p_providers set_handlers set_loggers p_held p_calls] in Hl |- *. rewrite Hl. by exists l.
Qed.

(** Telemetry never gets in the way: whatever call of its set-up fails,
    [configure_telemetry] returns, having touched nothing of the service; and
    [shutdown_telemetry] then takes every handler out of the root logger, leaves the
    loggers as they were, closes every provider of a set-up that went through, and
    does nothing the second time. *)
Theorem telemetry_never_blocks settings name inst p :
  (forall h c e, fault h c = Some e -> is_exception e = true) ->
  (forall h s, fault h (ShutdownProvider s) = None) ->
  made p -> p_handlers p = [] -> p_providers p = [] ->
  let c := exec (configure_telemetry settings name inst) p in
  let z := exec shutdown_telemetry c.1 in
  c.2 = inr tt /\ p_world c.1 = p_world p /\ p_auth c.1 = p_auth p /\ p_log c.1 = p_log p /\
  z.2 = inr tt /\ p_loggers z.1 = p_loggers p /\ p_handlers z.1 = [] /\ p_providers z.1 = [] /\
  (last (p_calls c.1) <> Some configure_failed -> p_held z.1 = p_held p) /\
  exec shutdown_telemetry z.1 = z.
Proof.
  intros Hexc Hcalm [Hmade Hheld] Hh Hpv.
  destruct (configure_telemetry_runs settings name inst p Hexc Hmade) as (Hret & rs & hs & Hg & Hk & Hend). cbv zeta.
  set (q := (exec (configure_telemetry _ _ _) p).1) in *.
  assert (Forall (fun x => exists s, res_kind x = Provider s) (p_providers q)) as Hkq.
  { destruct Hend as [->|[-> _]]; [done|]. by rewrite Hpv. }
  destruct (shutdown_telemetry_runs q Hcalm Hkq) as (l & Hz & _). rewrite Hz. cbn [fst snd].
  destruct Hg as [Hcalls Hgheld Hids Hhids Hlog Hhs Hgl Hgw Hga].
  assert (forall r, r ∈ p_held p -> r ∉ rs) as Hnew.
  { intros r Hr Hrs. rewrite Forall_forall in Hids, Hheld. specialize (Hids r Hrs). specialize (Hheld r Hr).
    unfold since in Hids. lia. }
  split_and!; try done; cbn [p_loggers p_held p_handlers p_providers].
  - rewrite Hlog, Hhs, Hh. destruct (p_loggers p) as [[lv l' pr] nm] eqn:El. unfold on_root. simpl. do 2 f_equal.
    apply remove_installed. eapply Forall_impl; [exact Hhids|]. intros h [Hlt _] Hin.
    assert (h < length (p_calls p))%nat; [|lia]. apply Hmade. by rewrite El.
  - intros Hok. rewrite Hgheld. destruct Hend as [->|[-> [->|Hlast]]]; [| |done].
    + apply without_grown; [done|]. apply Forall_forall. exact Hnew.
    + rewrite Hpv, app_nil_r. apply without_nil.
Qed.
End TelemetryFacts.

(** * The health server *)

(** The calls made while waiting. *)
Abbreviation naps n := (replicate n (Sleep 10000)).

Section HealthServerFacts.
Context {PG : Postgres} {RD : Redis} {EN : Entropy} {AP : Apiserver} {PF : Platform}.
Implicit Types (p q : process).

(** After [h] the server comes up, or gives up, at poll [n] and not before. *)
Definition settles (h : list call) (n : nat) : Prop :=
  (forall i, (i < n)%nat -> started (h ++ naps i) = false /\ ended (h ++ naps i) = None) /\
  (started (h ++ naps n) = true \/ is_Some (ended (h ++ naps n))).

(** What [task.result()] and the line below it raise. *)
Definition gave_up (result : option exn) : exn :=
  default (OtherError "RuntimeError" "health server exited before startup") result.

Lemma exec_wait_started fuel n task p :
  (forall h, fault h (Sleep 10000) = None) -> settles (p_calls p) n -> (n < fuel)%nat ->
  let q := set_calls (p_calls p ++ naps n) p in
  exec (wait_started fuel task) p =
  if started (p_calls q) then (q, inr tt)
  else (set_held (without [task] (p_held p)) q, inl (gave_up (default None (ended (p_calls q))))).
Proof.
  intros Hnap. revert n p. induction fuel as [|fuel IH]; intros n p [Hbefore Hend] Hn; [lia|].
  cbn [wait_started]. rewrite exec_bind, exec_observe, exec_bind, exec_observe. destruct n as [|n].
  - cbn [replicate] in *. rewrite app_nil_r in *. cbn [p_calls set_calls].
    assert (set_calls (p_calls p) p = p) as -> by (by destruct p).
    destruct (started (p_calls p)); [done|]. destruct Hend as [?|[result Hres]]; [done|]. rewrite Hres.
    rewrite exec_bind, exec_modify. by destruct result.
  - destruct (Hbefore O) as [Hs He]; [lia|]. cbn [replicate] in Hs, He. rewrite app_nil_r in Hs, He. rewrite Hs, He.
    rewrite exec_bind, exec_call_lib, Hnap.
    rewrite (IH n); [|split|lia]; cbn [p_calls set_calls p_held].
    + by rewrite <-app_assoc.
    + intros i Hi. rewrite <-app_assoc. apply (Hbefore (S i)). lia.
    + by rewrite <-app_assoc.
Qed.

(** The server's calls but the bind. *)
Definition server_call (c : call) : bool :=
  match c with
  | NewSocket | ReuseAddr | Listen _ | SetNonblocking | CloseSocket | ServeOn | Sleep _ | AwaitServe => true
  | _ => false
  end.

(** Before the bind, and up to the server's task. *)
Definition binding p : list call := p_calls p ++ NewSocket :: if win32 then [] else [ReuseAddr].
Definition serving hs p : list call := binding p ++ [Bind (hs_port hs); Listen _LISTEN_BACKLOG; SetNonblocking; ServeOn].

Definition fresh_socket p : resource := Res Socket (length (p_calls p)).

Lemma exec_bind_socket port p :
  (forall h c, server_call c = true -> fault h c = None) -> made p ->
  exec (bind_socket port) p =
  match fault (binding p) (Bind port) with
  | Some e => (set_calls (binding p ++ [Bind port; CloseSocket]) p, inl e)
  | None => (set_held (p_held p ++ [fresh_socket p]) (set_calls (binding p ++ [Bind port]) p), inr (fresh_socket p))
  end.
Proof.
  intros Hcalm [_ Hheld]. unfold bind_socket, binding. rewrite exec_bind, exec_acquire, Hcalm by done. cbv beta iota zeta.
  rewrite exec_bind, exec_attempt, exec_bind.
  assert (without [fresh_socket p] (p_held p ++ [fresh_socket p]) = p_held p) as Hw.
  { apply without_grown; [done|]. eapply Forall_impl; [exact Hheld|]. intros r Hr ->%list_elem_of_singleton.
    simpl in Hr. lia. }
  destruct win32; cbn [exec fst snd]; rewrite ?exec_call_lib, ?Hcalm by done; cbn [fst snd p_calls set_calls set_held];
    rewrite <-?app_assoc; cbn [app]; (destruct (fault _ _) as [e|]; cbn [fst snd]; [|done]);
    rewrite exec_bind, exec_release, Hcalm by done; cbn [p_calls set_calls set_held p_held];
    fold (fresh_socket p); rewrite Hw, <-?app_assoc; by destruct p.
Qed.

(** The server that [start] answers, and how it ends when it does not come up. *)
Definition serving_task hs p : resource := Res ServeTask (length (binding p ++ [Bind (hs_port hs); Listen _LISTEN_BACKLOG; SetNonblocking])).
Definition served hs p h : HealthServer :=
  mkHealthServer (sock_port h) (hs_max_age hs) (hs_draining hs) (Some (serving_task hs p, fresh_socket p)) (hs_should_exit hs).

Lemma taken_fresh hs p : made p -> Forall (fun r => r ∉ [serving_task hs p; fresh_socket p]) (p_held p).
Proof.
  intros [_ Hheld]. eapply Forall_impl; [exact Hheld|]. cbv beta. intros r Hr Hin.
  assert (length (p_calls p) <= res_id r)%nat; [|lia].
  repeat (apply elem_of_cons in Hin as [->|Hin]); [| |by apply not_elem_of_nil in Hin]; simpl; [|lia].
  unfold binding. rewrite !length_app. lia.
Qed.

Lemma exec_start fuel hs p :
  (forall h c, server_call c = true -> fault h c = None) -> made p ->
  match fault (binding p) (Bind (hs_port hs)) with
  | Some e => exec (start fuel hs) p = (set_calls (binding p ++ [Bind (hs_port hs); CloseSocket]) p, inl e)
  | None =>
      forall n, settles (serving hs p) n -> (n < fuel)%nat ->
      let h := serving hs p ++ naps n in
      exec (start fuel hs) p =
      if started h
      then (set_held (p_held p ++ [fresh_socket p; serving_task hs p]) (set_calls h p), inr (served hs p h))
      else (set_held (p_held p ++ [fresh_socket p]) (set_calls h p), inl (gave_up (default None (ended h))))
  end.
Proof.
  intros Hcalm Hmade. unfold start, getsockname. rewrite exec_bind, exec_bind_socket by done.
  destruct (fault (binding p) (Bind (hs_port hs))) as [e|]; [done|]. intros n Hset Hn. cbv zeta.
  do 2 (rewrite exec_bind, exec_call_lib, Hcalm by done; cbv beta iota).
  rewrite exec_bind, exec_observe. cbv beta iota. rewrite exec_bind, exec_acquire, Hcalm by done. cbv beta iota zeta.
  cbn [p_calls set_calls set_held p_held]. rewrite <-!app_assoc. cbn [app]. fold (serving hs p). fold (serving_task hs p).
  rewrite exec_bind, (exec_wait_started fuel n) by (auto; done). cbn [p_calls set_calls set_held p_held].
  destruct (started (serving hs p ++ naps n)) eqn:Hup; cbn [fst snd].
  - rewrite exec_bind, exec_observe. by destruct p.
  - change [fresh_socket p; serving_task hs p] with ([fresh_socket p] ++ [serving_task hs p]).
    rewrite app_assoc, without_grown; [by destruct p|done|].
    apply Forall_app. split; [|constructor; [|done]; by intros [=]%list_elem_of_singleton].
    eapply Forall_impl; [by apply (taken_fresh hs)|]. set_solver.
Qed.

Lemma exec_stop hs p h q :
  fault (p_calls q) AwaitServe = None -> hs_task hs = Some (serving_task h p, fresh_socket p) ->
  exec (stop hs) q =
  (set_held (without [serving_task h p; fresh_socket p] (p_held q)) (set_calls (p_calls q ++ [AwaitServe]) q),
   inr (mkHealthServer (hs_port hs) (hs_max_age hs) (hs_draining hs) (hs_task hs) true)).
Proof. intros Hf Ht. unfold stop. cbn [hs_task]. rewrite Ht, exec_bind, exec_release, Hf. done. Qed.

(** C40: The health server fails fast and cleanly.  A port conflict raises the bind's own
    error out of [start] after four calls, with the socket closed and no server made.
    Otherwise, as soon as the server is up [start] answers its port, and [stop] gives
    back all it took; and a server that ends first raises its error, or a
    RuntimeError.  Polling ends with the poll that sees it. *)
Theorem health_server_spec fuel hs p :
  (forall h c, server_call c = true -> fault h c = None) -> made p ->
  match fault (binding p) (Bind (hs_port hs)) with
  | Some e => exec (start fuel hs) p = (set_calls (binding p ++ [Bind (hs_port hs); CloseSocket]) p, inl e)
  | None =>
      forall n, settles (serving hs p) n -> (n < fuel)%nat ->
      let h := serving hs p ++ naps n in
      let r := exec (start fuel hs) p in
      if started h then
        exists hs', r.2 = inr hs' /\ hs_port hs' = sock_port h /\
          exec (stop hs') r.1 = (set_calls (h ++ [AwaitServe]) p, inr (mkHealthServer (sock_port h) (hs_max_age hs) (hs_draining hs) (hs_task hs') true))
      else r = (set_held (p_held p ++ [fresh_socket p]) (set_calls h p), inl (gave_up (default None (ended h))))
  end.
Proof.
  intros Hcalm Hmade. pose proof (exec_start fuel hs p Hcalm Hmade) as Hstart.
  destruct (fault (binding p) (Bind (hs_port hs))) as [e|]; [done|]. intros n Hset Hn. cbv zeta.
  rewrite (Hstart n Hset Hn). destruct (started _); [|done]. eexists. split; [done|]. split; [done|]. cbn [fst snd].
  rewrite (exec_stop _ p hs) by (done || by apply Hcalm). cbn [p_calls set_calls set_held p_held].
  rewrite without_grown; [by destruct p|set_solver|by apply taken_fresh].
Qed.
End HealthServerFacts.

(** * A platform *)

(** Whether the set-up of telemetry fails at its last call, and whether ports are taken. *)
Definition address_in_use : exn := OtherError "OSError" "Address already in use".
Definition platform_fault (broken taken : bool) (c : call) : option exn :=
  match c with
  | Instrument name => if broken && bool_decide (name = "redis"%string) then Some (OtherError "RuntimeError" "no") else None
  | Bind _ => if taken then Some address_in_use else None
  | _ => None
  end.

(** A Linux machine whose servers are up at the second poll. *)
Definition platform (broken taken : bool) : Platform := {|
  fault _ c := platform_fault broken taken c;
  win32 := false;
  sock_port _ := 8080;
  started h := existsb (fun c => match c with Sleep _ => true | _ => false end) h;
  ended _ := None;
  is_file _ := true;
|}.
Definition new_process : process :=
  mkProcess [] [] (mkLoggers fresh_logger ∅) (mkLog [] []) [] [] (empty_world t0) stale_world.

Lemma new_process_made : made new_process.
Proof. split; [intros h Hin; by apply not_elem_of_nil in Hin|constructor]. Qed.

(** Settings with telemetry and a health port. *)
Definition deployed (otel : bool) (port : option Z) (s : Settings) : Settings :=
  mkSettings (database_url s) (redis_url s) (stream_high s) (stream_normal s) (stream_low s)
    (consumer_group s) (block_ms s) (delayed_zset s) (ticker_interval_s s) (ticker_batch_size s)
    (reconcile_interval_s s) (reconcile_grace_s s) (reconcile_batch_size s) (log_level s)
    (job_handler_timeout_s s) (visibility_timeout_s s) (reaper_interval_s s) (reaper_batch_size s)
    (max_attempts s) (retry_backoff_schedule s) (cancel_poll_interval_s s) (worker_concurrency s)
    (db_pool_size s) (db_disable_prepared_statements s) (worker_max_rss_mb s) (auth_cache_ttl_s s)
    (auth_tokenreview_url s) (auth_sa_token_file s) (auth_ca_file s) (auth_required_group s)
    (auth_timeout_s s) otel (otel_exporter_otlp_endpoint s) port (rate_limit_enabled s)
    (submit_rate_limit_per_min s) (control_rate_limit_per_min s) (read_rate_limit_per_min s)
    (stats_rate_limit_per_min s) (forwarded_allow_ips s) (webhook_allowed_hosts s) (email_allowed_domains s)
    (max_request_body_bytes s).

Lemma platform_exceptions broken taken h c e : @fault (platform broken taken) h c = Some e -> is_exception e = true.
Proof. cbn. destruct c; cbn; try done; [destruct (broken && _)|destruct taken]; by intros [= <-]. Qed.

Lemma telemetry_never_blocks_witness :
  (exec (@configure_telemetry _ _ _ _ (platform true false) (deployed true None default_settings) "jobs-worker" None)
    new_process).2 = inr tt.
Proof.
  refine (proj1 (@telemetry_never_blocks _ _ _ _ (platform true false) (deployed true None default_settings)
    "jobs-worker" None new_process (platform_exceptions true false) _ new_process_made eq_refl eq_refl)).
  reflexivity.
Defined.

Lemma health_server_spec_witness :
  (exec (@start _ _ _ _ (platform false true) 3 (new_health_server 8080 0 false)) new_process).2 = inl address_in_use /\
  exists hs, (exec (@start _ _ _ _ (platform false false) 3 (new_health_server 8080 0 false)) new_process).2 = inr hs.
Proof.
  split.
  - assert (forall h c, server_call c = true -> @fault (platform false true) h c = None) as Hcalm by (by intros h []).
    pose proof (@health_server_spec _ _ _ _ (platform false true) 3 (new_health_server 8080 0 false) new_process
      Hcalm new_process_made) as H.
    cbn [fault platform platform_fault new_health_server hs_port] in H. rewrite H. reflexivity.
  - assert (forall h c, server_call c = true -> @fault (platform false false) h c = None) as Hcalm by (by intros h []).
    pose proof (@health_server_spec _ _ _ _ (platform false false) 3 (new_health_server 8080 0 false) new_process
      Hcalm new_process_made 1%nat) as H.
    destruct H as (hs & Hhs & _).
    + split; [|by left]. intros i Hi. assert (i = O) as -> by lia. split; reflexivity.
    + lia.
    + exists hs. exact Hhs.
Defined.

(** A set-up that fails at its last call leaves three providers that nothing shuts down:
    they are noted only after it. *)
Lemma failed_set_up_leaks :
  let q := (exec (@configure_telemetry _ _ _ _ (platform true false) (deployed true None default_settings) "jobs-worker" None)
    new_process).1 in
  res_kind <$> p_held (exec (@shutdown_telemetry _ _ _ _ (platform true false)) q).1 =
    [Provider Traces; Provider Metrics; Provider Logs].
Proof. vm_compute. reflexivity. Qed.
