(* ===== verification/Lifecycle.v ===== *)
(** The three processes from their first call to their last: [run_forever] of the
    worker and of the ticker (app/worker/runner.py, app/ticker/runner.py, the
    [__main__] modules) and the application with its lifespan (app/main.py).

    The loop of a worker is a parameter of its [run_forever]: it is any coroutine on
    the world, and Worker.v models what the code runs there. *)
From stdpp Require Import base tactics option list gmap strings numbers relations.
From S2P Require Import Prelude Prog Uuid Model Services Json Codecs Logging Handlers Worker Ticker TokenCache Auth Reference Scenario Observability Process.
Set Default Goal Selector "!".
Open Scope Z_scope.

Section Lifecycle.
Context {PG : Postgres} {RD : Redis} {EN : Entropy} {OT : Otel} {AP : Apiserver} {PF : Platform}.

(** * The worker *)

Definition register_worker_resource_gauges : proc unit :=
  _ ← call_lib (CreateGauge "process.cpu.utilization"); Ret tt.

Definition handle_signals : proc unit :=
  _ ← call_lib (HandleSignal "SIGTERM");
  _ ← call_lib (HandleSignal "SIGINT");
  Ret tt.

(** [HealthServer(...)] and its [start], when a port is configured. *)
Definition start_health_server (fuel : nat) (port : option Z) (max_age : duration) (draining : bool) :
    proc (option HealthServer) :=
  match port with
  | Some port => hs ← start fuel (new_health_server port max_age draining); Ret (Some hs)
  | None => Ret None
  end.
Definition stop_health_server (hs : option HealthServer) : proc unit :=
  match hs with Some hs => _ ← stop hs; Ret tt | None => Ret tt end.

Definition worker_run_forever (settings : Settings) (consumer : string) (fuel : nat) (loop : coroutine unit) : proc Z :=
  _ ← configure_telemetry settings "jobs-worker" (Some consumer);
  engine ← make_engine settings;
  client ← create_redis_client (redis_url settings);
  health_server ← start_health_server fuel (health_port settings) (worker_heartbeat_threshold_s settings) true;
  _ ← on_world (ensure_groups settings);
  _ ← (if otel_enabled settings then register_worker_resource_gauges else Ret tt);
  _ ← handle_signals;
  _ ← on_log (bind_static_log_context [("consumer"%string, str_value consumer)]);
  _ ← log_line "info" "worker.started";
  _ ← on_world loop;
  _ ← log_line "info" "worker.stopped";
  _ ← stop_health_server health_server;
  _ ← shutdown_telemetry;
  _ ← release [client] CloseRedis;
  _ ← release [engine] DisposeEngine;
  Ret 0.

(** * The ticker *)

Definition register_ticker_gauges : proc unit :=
  _ ← call_lib (CreateGauge "queue.depth");
  _ ← call_lib (CreateGauge "queue.scheduled");
  _ ← call_lib (CreateGauge "jobs.saturation");
  Ret tt.

Definition _make_sync_observability_resources (settings : Settings) : proc (resource * resource) :=
  engine ← acquire SyncEngine (CreateEngine (database_url settings)
    [("pool_pre_ping", KBool true); ("pool_timeout", KInt 5); ("pool_size", KInt 1)]%string);
  client ← acquire SyncClient (RedisFromUrl (redis_url settings));
  Ret (engine, client).

Definition start_gauges (settings : Settings) : proc (option (resource * resource)) :=
  if otel_enabled settings then
    sync ← _make_sync_observability_resources settings;
    _ ← register_ticker_gauges;
    Ret (Some sync)
  else Ret None.

Definition close_sync (sync : option (resource * resource)) : proc unit :=
  match sync with
  | Some (sync_engine, sync_client) =>
      _ ← release [sync_client] CloseRedis;
      release [sync_engine] DisposeEngine
  | None => Ret tt
  end.

(** [rounds] is how many turns the loop makes before it is told to stop. *)
Definition ticker_run_forever (settings : Settings) (fuel rounds : nat) : proc unit :=
  _ ← configure_telemetry settings "jobs-ticker" None;
  engine ← make_engine settings;
  client ← create_redis_client (redis_url settings);
  health_server ← start_health_server fuel (health_port settings) (ticker_heartbeat_threshold_s settings) false;
  _ ← on_world (ensure_groups settings);
  sync ← start_gauges settings;
  _ ← handle_signals;
  _ ← log_line "info" "ticker.started";
  _ ← on_world (ticks settings rounds fuel (0, 0));
  _ ← log_line "info" "ticker.stopped";
  _ ← stop_health_server health_server;
  _ ← shutdown_telemetry;
  _ ← release [client] CloseRedis;
  _ ← release [engine] DisposeEngine;
  close_sync sync.

(** * The application *)

Inductive middleware := BodySizeLimitMiddleware (max_bytes : Z) | ProxyHeadersMiddleware (trusted_hosts : string).

Record application := mkApplication {
  app_settings : Settings;
  app_engine : resource;
  app_redis : resource;
  app_reviewer : resource;             (** the HTTP client of the token reviewer *)
  app_middleware : list middleware;    (** the outermost first *)
}.

(** [add_middleware] puts the new one outside the others. *)
Definition add_middleware (m : middleware) (ms : list middleware) : list middleware := m :: ms.

(** [TokenReviewer.__init__] *)
Definition new_token_reviewer (settings : Settings) : proc resource :=
  let verify :=
    if starts_with (text "https://") (text (auth_tokenreview_url settings)) && is_file (auth_ca_file settings)
    then inl (auth_ca_file settings) else inr true in
  client ← acquire HttpClient (CreateHttpClient verify (auth_timeout_s settings));
  _ ← on_auth _read_sa_token;
  Ret client.

(** [TokenCache(ttl_s=...)] *)
Definition new_token_cache (ttl : duration) : TokenCache := mkCache ttl 1024 [].

Definition create_app (settings : Settings) : proc application :=
  configured ← act (fun p => let r := configure_logging (log_level settings) (p_loggers p) in (set_loggers r.1 p, r.2));
  _ ← (match configured with inl e => Raise e | inr _ => Ret tt end);
  _ ← configure_telemetry settings "jobs-api" None;
  engine ← make_engine settings;
  redis_client ← create_redis_client (redis_url settings);
  token_reviewer ← new_token_reviewer settings;
  let middleware :=
    add_middleware (ProxyHeadersMiddleware (forwarded_allow_ips settings))
      (add_middleware (BodySizeLimitMiddleware (max_request_body_bytes settings)) []) in
  _ ← on_auth (act (fun w => (set_cache (new_token_cache (auth_cache_ttl_s settings)) w, tt)));
  _ ← (if otel_enabled settings then call_lib InstrumentApp else Ret O);
  Ret (mkApplication settings engine redis_client token_reviewer middleware).

(** The lifespan around the requests. *)
Definition lifespan (app : application) (requests : coroutine unit) : proc unit :=
  _ ← on_world (ensure_groups (app_settings app));
  _ ← (if rate_limit_enabled (app_settings app) then call_lib InitLimiter else Ret O);
  _ ← on_world requests;
  _ ← release [app_redis app] CloseRedis;
  _ ← release [app_reviewer app] CloseHttp;
  _ ← release [app_engine app] DisposeEngine;
  shutdown_telemetry.

(** [get_settings()] reads the environment; the class validates what it read. *)
Definition get_settings (read : exn + Settings) : exn + Settings :=
  match read with
  | inl e => inl e
  | inr s => match check_timeout_invariant s with inl e => inl (ValidationError (exn_str e)) | inr s => inr s end
  end.

(** The module level: no application without valid settings. *)
Definition module_app (read : exn + Settings) : proc (option application) :=
  r ← attempt (match get_settings read with inl e => Raise e | inr s => create_app s end);
  match r with
  | inl (ValidationError _) => Ret None
  | inl e => Raise e
  | inr app => Ret (Some app)
  end.

(** [main] of the worker and of the ticker. *)
Definition process_main {A} (read : exn + Settings) (run : Settings -> proc A) : proc A :=
  match get_settings read with
  | inl e => Raise e
  | inr settings =>
      configured ← act (fun p => let r := configure_logging (log_level settings) (p_loggers p) in (set_loggers r.1 p, r.2));
      match configured with inl e => Raise e | inr _ => run settings end
  end.
End Lifecycle.

(** * Running and closing *)

Section Facts.
Context {PG : Postgres} {RD : Redis} {EN : Entropy} {OT : Otel} {AP : Apiserver} {PF : Platform}.
Implicit Types (p q : process) (w : world).

Definition is_provider (r : resource) : bool := match res_kind r with Provider _ => true | _ => false end.

(** [q] runs on the world [w], with the telemetry providers [rs] and [extra] open since
    [p]; the providers are noted unless there was a warning. *)
Record running p w rs extra q : Prop := mkRunning {
  run_calls : exists l, p_calls q = p_calls p ++ l;
  run_held : p_held q = p_held p ++ rs ++ extra;
  run_ids : Forall (fun r => since p q (res_id r)) (rs ++ extra);
  run_providers : Forall is_provider rs;
  run_extra : Forall (fun r => ~ is_provider r) extra;
  run_handlers : Forall (since p q) (p_handlers q);
  run_loggers : p_loggers q = on_root (fun l => l ++ (Foreign <$> p_handlers q)) (p_loggers p);
  run_noted : p_providers q = rs \/ p_providers q = [] /\ (rs = [] \/ configure_failed ∈ p_calls q);
  run_world : p_world q = w;
}.

(** What calls, new resources and a new world make of it. *)
Lemma running_step l new p w w' rs extra q q' :
  running p w rs extra q ->
  p_calls q' = p_calls q ++ l -> p_held q' = p_held q ++ new ->
  Forall (fun r => ~ is_provider r /\ since q q' (res_id r)) new ->
  p_handlers q' = p_handlers q -> p_loggers q' = p_loggers q -> p_providers q' = p_providers q -> p_world q' = w' ->
  running p w' rs (extra ++ new) q'.
Proof.
  intros [[l0 Hl0] Hheld Hids Hk He Hh Hl Hn _] Hcalls Hheld' Hnew Hh' Hl' Hn' Hw'.
  assert (exists l, p_calls q' = p_calls q ++ l) as Hlater by eauto. split; try done.
  - exists (l0 ++ l). by rewrite Hcalls, Hl0, app_assoc.
  - by rewrite Hheld', Hheld, <-!app_assoc.
  - rewrite app_assoc. apply Forall_app. split.
    + eapply Forall_impl; [exact Hids|]. intros r. by apply since_mono.
    + eapply Forall_impl; [exact Hnew|]. intros r [_ Hr]. unfold since in *. rewrite Hl0, length_app in Hr. lia.
  - apply Forall_app. split; [done|]. eapply Forall_impl; [exact Hnew|]. by intros r [? _].
  - rewrite Hh'. eapply Forall_impl; [exact Hh|]. intros h. by apply since_mono.
  - by rewrite Hl', Hl, Hh'.
  - rewrite Hn'. destruct Hn as [?|[? [?|?]]]; [by left|by right; eauto|]. right. split; [done|]. right.
    rewrite Hcalls. set_solver.
Qed.

Lemma running_same l p w w' rs extra q q' :
  running p w rs extra q ->
  p_calls q' = p_calls q ++ l -> p_held q' = p_held q ->
  p_handlers q' = p_handlers q -> p_loggers q' = p_loggers q -> p_providers q' = p_providers q -> p_world q' = w' ->
  running p w' rs extra q'.
Proof.
  intros Hr Hc Hh ????. rewrite <-(app_nil_r extra). eapply running_step; try done. by rewrite app_nil_r.
Qed.

Lemma running_made p w rs extra q : made p -> running p w rs extra q -> made q.
Proof.
  intros [Hm Hheld] [[l Hl] Hh Hids _ _ Hhs Hlg _ _]. split.
  - intros h. rewrite Hlg. unfold on_root. simpl. intros [Hin|Hin]%elem_of_app.
    + apply Hm in Hin. rewrite Hl, length_app. lia.
    + apply list_elem_of_fmap in Hin as (h' & [= <-] & Hh'). rewrite Forall_forall in Hhs. by apply Hhs in Hh' as [_ ?].
  - rewrite Hh. apply Forall_app. split.
    + eapply Forall_impl; [exact Hheld|]. cbv beta. intros r ?. rewrite Hl, length_app. lia.
    + eapply Forall_impl; [exact Hids|]. by intros r [_ ?].
Qed.

(** Telemetry is set up: whatever fails, the process runs on. *)
Lemma running_configured settings name inst p :
  (forall h c e, fault h c = Some e -> is_exception e = true) -> made p -> p_handlers p = [] -> p_providers p = [] ->
  exists q rs, exec (configure_telemetry settings name inst) p = (q, inr tt) /\ running p (p_world p) rs [] q.
Proof.
  intros Hexc [Hm _] Hh Hp. destruct (configure_telemetry_runs settings name inst p Hexc Hm) as (Hret & rs & hs & Hg & Hk & Hend).
  destruct (exec _ p) as [q r]. cbn [fst snd] in *. subst r. exists q, rs. split; [done|].
  destruct Hg as [Hc Hheld Hids Hhids Hl Hhs _ Hw _]. rewrite Hh in Hhs. simpl in Hhs. split; try done.
  - by rewrite app_nil_r.
  - by rewrite app_nil_r.
  - eapply Forall_impl; [exact Hk|]. intros r [s Hs]. unfold is_provider. by rewrite Hs.
  - by rewrite Hhs.
  - by rewrite Hl, Hhs.
  - destruct Hend as [?|[Hpv [?|Hlast]]]; [by left|right; rewrite Hpv; eauto|]. right. rewrite Hpv. split; [done|].
    right. apply last_Some_elem_of in Hlast. done.
Qed.

(** ** Rules for a running process *)

Section Rules.
Context {A : Type} (p : process) (rs : list resource) (Post : process * (exn + A) -> Prop).
Abbreviation runs w extra q := (running p w rs extra q).

Lemma run_call c w extra q (k : nat -> proc A) :
  runs w extra q -> fault (p_calls q) c = None ->
  (forall q' id, runs w extra q' -> Post (exec (k id) q')) -> Post (exec (call_lib c ≫= k) q).
Proof.
  intros Hr Hf Hk. rewrite exec_bind, exec_call_lib, Hf. apply Hk. eapply (running_same [c]); try done.
  apply (run_world _ _ _ _ _ Hr).
Qed.

Lemma run_acquire kd c w extra q (k : resource -> proc A) :
  runs w extra q -> fault (p_calls q) c = None -> is_provider (Res kd O) = false ->
  (forall q' r, res_kind r = kd -> runs w (extra ++ [r]) q' -> Post (exec (k r) q')) ->
  Post (exec (acquire kd c ≫= k) q).
Proof.
  intros Hr Hf Hkd Hk. rewrite exec_bind, exec_acquire, Hf. cbv beta iota zeta. apply Hk; [done|].
  eapply (running_step [c]); try done; [|apply (run_world _ _ _ _ _ Hr)]. constructor; [|done]. split.
  - unfold is_provider in *. cbn [res_kind] in *. rewrite Hkd. by intros [].
  - unfold since. simpl. rewrite length_app. simpl. lia.
Qed.

Lemma run_line lv ev w extra q (k : unit -> proc A) :
  runs w extra q -> (forall q', runs w extra q' -> Post (exec (k tt) q')) -> Post (exec (log_line lv ev ≫= k) q).
Proof.
  intros Hr Hk. unfold log_line. rewrite exec_bind, exec_modify. apply Hk. eapply (running_same [_]); try done.
  apply (run_world _ _ _ _ _ Hr).
Qed.

Lemma run_on_world {B} (c : coroutine B) w extra q (k : B -> proc A) :
  runs w extra q ->
  (forall q' e, runs (exec c w).1 extra q' -> (exec c w).2 = inl e -> Post (q', inl e)) ->
  (forall q' b, runs (exec c w).1 extra q' -> (exec c w).2 = inr b -> Post (exec (k b) q')) ->
  Post (exec (on_world c ≫= k) q).
Proof.
  intros Hr He Hk. rewrite exec_bind, exec_on_world. rewrite (run_world _ _ _ _ _ Hr).
  assert (runs (exec c w).1 extra (set_world (exec c w).1 q)) as Hr'.
  { eapply (running_same []); try done. by rewrite app_nil_r. }
  destruct (exec c w) as [w' [e|b]]; cbn [fst snd] in *; eauto.
Qed.

Lemma run_on_log {B} (c : prog log_state exn B) w extra q (k : B -> proc A) :
  runs w extra q -> (forall l, exists l' b, exec c l = (l', inr b)) ->
  (forall q' b, runs w extra q' -> Post (exec (k b) q')) -> Post (exec (on_log c ≫= k) q).
Proof.
  intros Hr Hc Hk. rewrite exec_bind, exec_on_log. destruct (Hc (p_log q)) as (l' & b & ->). apply Hk.
  eapply (running_same []); try done; [by rewrite app_nil_r|apply (run_world _ _ _ _ _ Hr)].
Qed.

Lemma run_on_auth {B} (c : prog auth_world exn B) w extra q (k : B -> proc A) :
  runs w extra q -> (forall a, exists a' b, exec c a = (a', inr b)) ->
  (forall q' b, runs w extra q' -> Post (exec (k b) q')) -> Post (exec (on_auth c ≫= k) q).
Proof.
  intros Hr Hc Hk. rewrite exec_bind, exec_on_auth. destruct (Hc (p_auth q)) as (a' & b & ->). apply Hk.
  eapply (running_same []); try done; [by rewrite app_nil_r|apply (run_world _ _ _ _ _ Hr)].
Qed.

(** What a started health server, if any, holds. *)
Definition serves (hs : option HealthServer) (taken : list resource) : Prop :=
  match hs with
  | Some hs => exists task sock, hs_task hs = Some (task, sock) /\ taken = [task; sock]
  | None => taken = []
  end.

Lemma run_start_health_server fuel port max_age draining (refused : option exn) w extra q (k : option HealthServer -> proc A) :
  made p -> runs w extra q ->
  (forall h c, server_call c = true -> fault h c = None) ->
  (forall h n, fault h (Bind n) = refused) ->
  (forall h, exists n, (n < fuel)%nat /\ settles h n /\ started (h ++ naps n) = true) ->
  match port, refused with
  | Some _, Some e => forall q', runs w extra q' -> Post (q', inl e)
  | _, _ => forall q' hs taken extra', serves hs taken -> (forall r, r ∈ extra' <-> r ∈ extra \/ r ∈ taken) ->
      runs w extra' q' -> Post (exec (k hs) q')
  end ->
  Post (exec (start_health_server fuel port max_age draining ≫= k) q).
Proof.
  intros Hm Hr Hserver Hbind Hup Hk. destruct port as [port|]; cbn [start_health_server].
  2: { rewrite exec_bind. cbn [exec]. eapply (Hk q None [] extra); [done|set_solver|done]. }
  rewrite exec_bind, exec_bind.
  set (hs := new_health_server port max_age draining).
  pose proof (exec_start fuel hs q Hserver (running_made _ _ _ _ _ Hm Hr)) as Hs. rewrite Hbind in Hs.
  pose proof (run_world _ _ _ _ _ Hr) as Hw.
  destruct refused as [e|].
  - rewrite Hs. cbn [fst snd]. apply Hk. unfold binding. rewrite <-app_assoc. by eapply running_same.
  - destruct (Hup (serving hs q)) as (n & Hn & Hset & Hstarted). specialize (Hs n Hset Hn). cbv zeta in Hs.
    rewrite Hstarted in Hs. rewrite Hs. cbn [exec].
    eapply (Hk _ _ [serving_task hs q; fresh_socket q] (extra ++ [fresh_socket q; serving_task hs q])); [|set_solver|].
    + by exists (serving_task hs q), (fresh_socket q).
    + unfold serving, binding. rewrite <-!app_assoc. eapply running_step; try done.
      repeat constructor; unfold since; cbn [res_id fresh_socket serving_task p_calls set_calls set_held];
        unfold binding; try (by intros []); rewrite ?length_app; cbn [length]; rewrite ?length_app; cbn [length]; lia.
Qed.
End Rules.

(** ** Closing *)

(** [z] is what is left of [p]: another world, the loggers and the telemetry's notes as
    they were, and held besides what was held only the providers of a set-up that has
    failed with a warning. *)
Record released p w z : Prop := mkReleased {
  rel_world : p_world z = w;
  rel_loggers : p_loggers z = p_loggers p;
  rel_handlers : p_handlers z = [];
  rel_providers : p_providers z = [];
  rel_held : exists leaked, p_held z = p_held p ++ leaked /\ Forall is_provider leaked /\
    (leaked = [] \/ configure_failed ∈ p_calls z);
}.

(** [z] is [q] with [gone] closed. *)
Definition closed gone q z : Prop :=
  p_held z = without gone (p_held q) /\ (exists l, p_calls z = p_calls q ++ l) /\ p_loggers z = p_loggers q /\
  p_handlers z = p_handlers q /\ p_providers z = p_providers q /\ p_world z = p_world q.

Lemma closed_refl q : closed [] q q.
Proof. split_and!; try done; [by rewrite without_nil|exists []; by rewrite app_nil_r]. Qed.

Lemma closed_trans g g' q z z' : closed g q z -> closed g' z z' -> closed (g ++ g') q z'.
Proof.
  intros (Hh & [l Hl] & H1 & H2 & H3 & H4) (Hh' & [l' Hl'] & H1' & H2' & H3' & H4'). split_and!; try congruence.
  - by rewrite Hh', Hh, without_without.
  - exists (l ++ l'). by rewrite Hl', Hl, app_assoc.
Qed.

Lemma shut_now p w rs extra gone q z :
  (forall h s, fault h (ShutdownProvider s) = None) -> made p ->
  running p w rs extra q -> (forall r, r ∈ gone -> r ∈ extra) -> closed gone q z ->
  exists z', exec shutdown_telemetry z = (z', inr tt) /\ exists gone', (forall r, r ∈ gone <-> r ∈ gone') /\
    p_world z' = w /\ p_loggers z' = p_loggers p /\ p_handlers z' = [] /\ p_providers z' = [] /\
    p_held z' = without (gone' ++ p_providers q) (p_held p ++ rs ++ extra) /\
    (configure_failed ∈ p_calls q -> configure_failed ∈ p_calls z').
Proof.
  intros Hcalm [Hm _] Hr Hsub (Hheld & [l Hl] & Hlg & Hh & Hpv & Hw).
  destruct Hr as [[l0 Hl0] Hqheld _ Hk _ Hhs Hqlg Hnoted Hqw].
  destruct (shutdown_telemetry_runs z Hcalm) as (l' & Hz & _).
  { rewrite Hpv. destruct Hnoted as [->|[-> _]]; [|done]. eapply Forall_impl; [exact Hk|].
    intros r Hp. unfold is_provider in Hp. destruct (res_kind r); try done. eauto. }
  rewrite Hz. eexists. split; [done|]. exists gone. split; [done|].
  cbn [p_world p_loggers p_handlers p_providers p_held p_calls]. split_and!; try done.
  - congruence.
  - rewrite Hlg, Hqlg, Hh. destruct (p_loggers p) as [[lv l1 pr] nm] eqn:El. unfold on_root. simpl. do 2 f_equal.
    apply remove_installed. eapply Forall_impl; [exact Hhs|]. intros h [Hlt _] Hin.
    assert (h < length (p_calls p))%nat; [|lia]. apply Hm. by rewrite El.
  - by rewrite Hheld, without_without, Hpv, Hqheld.
  - intros Hin. rewrite Hl. set_solver.
Qed.

(** What is left when everything but the providers is closed. *)
Lemma held_left (held rs extra gone noted : list resource) (n : nat) :
  Forall (fun r => (res_id r < n)%nat) held -> Forall (fun r => (n <= res_id r)%nat) (rs ++ extra) ->
  Forall is_provider rs -> Forall (fun r => ~ is_provider r) extra ->
  (forall r, r ∈ gone <-> r ∈ extra \/ r ∈ noted) -> noted = rs \/ noted = [] ->
  without gone (held ++ rs ++ extra) = held ++ (if decide (noted = rs) then [] else rs).
Proof.
  intros Hheld Hids Hk He Hgone Hnoted. rewrite !Forall_forall in *. unfold without. rewrite !filter_app.
  rewrite (filter_keep_none _ extra) by (intros r Hr Hn; apply Hn, Hgone; by left). rewrite app_nil_r. f_equal.
  - apply filter_keep_all. intros r Hr Hin. apply Hheld in Hr. assert (r ∈ rs ++ extra) as H%Hids; [|lia].
    apply elem_of_app. apply Hgone in Hin as [?|Hin]; [by right|]. destruct Hnoted as [->| ->]; [by left|].
    by apply not_elem_of_nil in Hin.
  - destruct (decide (noted = rs)) as [->|Hne].
    + apply filter_keep_none. intros r Hr Hn. apply Hn, Hgone. by right.
    + destruct Hnoted as [->| ->]; [done|]. apply filter_keep_all. intros r Hr Hin.
      apply Hgone in Hin as [Hin|Hin]; [by apply (He r Hin), Hk|by apply not_elem_of_nil in Hin].
Qed.

(** The whole of an orderly exit: what [first] closes before telemetry is shut down
    and [later] closes after it is all that was opened. *)
Lemma orderly_exit p w rs extra first later q z1 z2 :
  (forall h s, fault h (ShutdownProvider s) = None) -> made p ->
  running p w rs extra q -> closed first q z1 -> exec shutdown_telemetry z1 = (z2, inr tt) ->
  forall z3, closed later z2 z3 -> (forall r, r ∈ first \/ r ∈ later <-> r ∈ extra) -> released p w z3.
Proof.
  intros Hcalm Hm Hr Hfirst Hshut z3 Hlater Hall.
  destruct (shut_now p w rs extra first q z1 Hcalm Hm Hr) as (z2' & Hz2 & gone & Hgone & Hw & Hlg & Hh & Hpv & Hheld & Hfail);
    [set_solver|done|].
  rewrite Hshut in Hz2. injection Hz2 as <-. destruct Hlater as (Hheld3 & [l Hl] & Hlg3 & Hh3 & Hpv3 & Hw3).
  split; [congruence..|]. exists (if decide (p_providers q = rs) then [] else rs). split; [|split].
  - rewrite Hheld3, Hheld, without_without. apply (held_left _ _ _ _ _ (length (p_calls p))).
    + apply Hm.
    + eapply Forall_impl; [apply (run_ids _ _ _ _ _ Hr)|]. by intros r [? _].
    + apply Hr.
    + apply Hr.
    + intros r. rewrite !elem_of_app, <-Hgone, <-Hall. tauto.
    + destruct (run_noted _ _ _ _ _ Hr) as [?|[? _]]; eauto.
  - destruct (decide _); [done|apply Hr].
  - destruct (decide _) as [|Hne]; [by left|]. destruct (run_noted _ _ _ _ _ Hr) as [?|[_ [?|Hc]]]; [done|by left|].
    right. rewrite Hl. apply elem_of_app. left. by apply Hfail.
Qed.

Lemma closed_release rs c q :
  fault (p_calls q) c = None -> exists z, exec (release rs c) q = (z, inr tt) /\ closed rs q z.
Proof. intros Hf. rewrite exec_release, Hf. eexists. split; [done|]. split_and!; try done. by exists [c]. Qed.

Lemma closed_line lv ev q : exists z, exec (log_line lv ev) q = (z, inr tt) /\ closed [] q z.
Proof.
  unfold log_line. rewrite exec_modify. eexists. split; [done|]. split_and!; try done; [|by eexists].
  simpl. by rewrite without_nil.
Qed.

Lemma closed_stop hs taken q :
  fault (p_calls q) AwaitServe = None -> serves hs taken ->
  exists z, exec (stop_health_server hs) q = (z, inr tt) /\ closed taken q z.
Proof.
  intros Hf Hs. destruct hs as [hs|]; simpl in Hs; [|subst; eauto using closed_refl].
  destruct Hs as (task & sock & Ht & ->). unfold stop_health_server, stop. cbn [hs_task]. rewrite Ht.
  rewrite exec_bind, exec_bind, exec_release, Hf. eexists. split; [done|]. split_and!; try done. by eexists.
Qed.

Lemma closed_close_sync sync q :
  (forall h, fault h CloseRedis = None) -> (forall h, fault h DisposeEngine = None) ->
  exists z, exec (close_sync sync) q = (z, inr tt) /\
    closed (match sync with Some (e, c) => [c; e] | None => [] end) q z.
Proof.
  intros H1 H2. destruct sync as [[e c]|]; cbn [close_sync]; [|eauto using closed_refl].
  destruct (closed_release [c] CloseRedis q (H1 _)) as (z & Hz & Hc). rewrite exec_bind, Hz.
  destruct (closed_release [e] DisposeEngine z (H2 _)) as (z' & Hz' & Hc'). exists z'. split; [done|].
  by apply (closed_trans [c] [e] _ _ _ Hc).
Qed.

(** * The life of a process *)

(** The calls of the set-up of telemetry. *)
Definition telemetry_call (c : call) : bool :=
  match c with
  | ResourceCreate _ | NewProvider _ | NewExporter _ _ | NewProcessor _ | AddProcessor _ | SetProvider _
  | NewLoggingHandler | AddFilter _ | Instrument _ => true
  | _ => false
  end.

(** An environment where only the set-up of telemetry and binds may fail, every bind in
    the same way, and where a health server comes up within [fuel] polls.  A gauge that
    cannot be registered, or a provider that cannot be shut down, is outside it: the code
    does not guard those calls, and such a process ends with their exception. *)
Record orderly (fuel : nat) (refused : option exn) : Prop := mkOrderly {
  exceptions : forall h c e, fault h c = Some e -> is_exception e = true;
  calm : forall h c, telemetry_call c = false -> (forall n, c <> Bind n) -> fault h c = None;
  binds : forall h n, fault h (Bind n) = refused;
  comes_up : forall h, exists n, (n < fuel)%nat /\ settles h n /\ started (h ++ naps n) = true;
}.

Section Lives.
Context (fuel : nat) (refused : option exn) (Henv : orderly fuel refused) (p : process) (Hmade : made p)
  (Hhandlers : p_handlers p = []) (Hproviders : p_providers p = []).

(** A new process: nothing noted, and all it has made by itself. *)
Lemma server_calm h c : server_call c = true -> fault h c = None.
Proof. intros Hc. apply (calm _ _ Henv); destruct c; done. Qed.

Ltac no_fault := apply (calm _ _ Henv); done.

(** How the [run_forever]s and the application end. *)
Definition life {A} (port : option Z) (w : world * (exn + unit)) (value : A) (r : process * (exn + A)) : Prop :=
  match port, refused with
  | Some _, Some e => r.2 = inl e /\ p_world r.1 = p_world p
  | _, _ =>
      p_world r.1 = w.1 /\
      match w.2 with inl e => r.2 = inl e | inr _ => r.2 = inr value /\ released p w.1 r.1 end
  end.

(** The common beginning: telemetry, the clients, the health server, the groups. *)
Lemma life_begins {A} settings name inst max_age draining (work : coroutine unit) (value : A)
    (k : resource -> resource -> option HealthServer -> proc A) :
  let life := life (health_port settings) (exec (_ ← ensure_groups settings; work) (p_world p)) value in
  (forall q rs engine client hs taken extra w,
    serves hs taken -> (forall r, r ∈ extra <-> r ∈ [engine; client] \/ r ∈ taken) ->
    running p w rs extra q -> exec (ensure_groups settings) (p_world p) = (w, inr tt) ->
    (forall r, p_world r.1 = (exec work w).1 ->
      match (exec work w).2 with inl e => r.2 = inl e | inr _ => r.2 = inr value /\ released p (exec work w).1 r.1 end ->
      life r) ->
    life (exec (k engine client hs) q)) ->
  life (exec (_ ← configure_telemetry settings name inst; engine ← make_engine settings;
    client ← create_redis_client (redis_url settings);
    hs ← start_health_server fuel (health_port settings) max_age draining;
    _ ← on_world (ensure_groups settings); k engine client hs) p).
Proof.
  intros Life Hk. unfold make_engine, create_redis_client. destruct (running_configured settings name inst p (exceptions _ _ Henv) Hmade Hhandlers Hproviders)
    as (q & rs & Hq & Hr). rewrite exec_bind, Hq. clear Hq.
  eapply run_acquire; [exact Hr|no_fault|done|]. clear dependent q. intros q engine _ Hr.
  eapply run_acquire; [exact Hr|no_fault|done|]. clear dependent q. intros q client _ Hr.
  eapply run_start_health_server; [exact Hmade|exact Hr|exact server_calm|apply (binds _ _ Henv)|apply (comes_up _ _ Henv)|].
  assert (forall q' hs taken extra', serves hs taken -> (forall r, r ∈ extra' <-> r ∈ ([] ++ [engine]) ++ [client] \/ r ∈ taken) ->
    running p (p_world p) rs extra' q' -> health_port settings = None \/ refused = None ->
    Life (exec (_ ← on_world (ensure_groups settings); k engine client hs) q')) as Hgo.
  { clear dependent q. intros q hs taken extra Hs Hx Hr Hcase.
    assert (forall r, p_world r.1 = (exec (_ ← ensure_groups settings; work) (p_world p)).1 ->
      match (exec (_ ← ensure_groups settings; work) (p_world p)).2 with
      | inl e => r.2 = inl e
      | inr _ => r.2 = inr value /\ released p (exec (_ ← ensure_groups settings; work) (p_world p)).1 r.1
      end -> Life r) as Hend.
    { intros r H1 H2. unfold Life, life. destruct Hcase as [->| ->]; [done|]. by destruct (health_port settings). }
    rewrite !exec_bind in Hend. eapply run_on_world; [exact Hr|..].
    - intros q' e Hr' He. destruct (exec (ensure_groups settings) (p_world p)) as [w r]. cbn [fst snd] in *. subst r.
      apply Hend; [|done]. apply (run_world _ _ _ _ _ Hr').
    - intros q' [] Hr' He. destruct (exec (ensure_groups settings) (p_world p)) as [w r]. cbn [fst snd] in *. subst r.
      eapply Hk; try done. }
  unfold Life, life in *. destruct (health_port settings), refused; try (intros; eapply Hgo; eauto; fail).
  intros q' Hr'. split; [done|]. apply (run_world _ _ _ _ _ Hr').
Qed.

(** The signal handlers. *)
Lemma run_handle_signals {A} rs (Post : process * (exn + A) -> Prop) w extra q (k : unit -> proc A) :
  running p w rs extra q -> (forall q', running p w rs extra q' -> Post (exec (k tt) q')) ->
  Post (exec (handle_signals ≫= k) q).
Proof.
  intros Hr Hk. unfold handle_signals. rewrite exec_assoc.
  eapply run_call; [exact Hr|no_fault|]. clear dependent q. intros q _ Hr. rewrite exec_assoc.
  eapply run_call; [exact Hr|no_fault|]. intros q' _ Hr'. by apply Hk.
Qed.

(** The common end, up to what is closed [later]. *)
Lemma life_closes {A} ev (k : proc A) w rs extra taken later engine client hs q :
  running p w rs extra q -> serves hs taken ->
  (forall r, r ∈ extra <-> r ∈ [engine; client] \/ r ∈ taken \/ r ∈ later) ->
  exists z, exec (_ ← log_line "info" ev; _ ← stop_health_server hs; _ ← shutdown_telemetry;
      _ ← release [client] CloseRedis; _ ← release [engine] DisposeEngine; k) q = exec k z /\
    forall z', closed later z z' -> released p w z'.
Proof.
  intros Hr Hs Hx. destruct (closed_line "info" ev q) as (z0 & Hz0 & Hc0). rewrite (exec_then _ Hz0).
  destruct (closed_stop hs taken z0) as (z1 & Hz1 & Hc1); [no_fault|done|]. rewrite (exec_then _ Hz1).
  pose proof (closed_trans _ _ _ _ _ Hc0 Hc1) as Hc.
  assert (forall h s, fault h (ShutdownProvider s) = None) as Hcalm by (intros; no_fault).
  destruct (shut_now p _ rs extra taken q z1 Hcalm Hmade Hr) as (z2 & Hz2 & _); [set_solver|done|].
  rewrite (exec_then _ Hz2).
  destruct (closed_release [client] CloseRedis z2) as (z3 & Hz3 & Hc3); [no_fault|]. rewrite (exec_then _ Hz3).
  destruct (closed_release [engine] DisposeEngine z3) as (z4 & Hz4 & Hc4); [no_fault|]. rewrite (exec_then _ Hz4).
  exists z4. split; [done|]. intros z' Hlater.
  apply (orderly_exit p _ rs extra taken (([client] ++ [engine]) ++ later) q z1 z2 Hcalm Hmade Hr Hc Hz2).
  - exact (closed_trans _ _ _ _ _ (closed_trans _ _ _ _ _ Hc3 Hc4) Hlater).
  - set_solver.
Qed.

(** C39: The life of a worker process is that of its work.  Whatever call of the set-up of
    telemetry fails, the other calls of the process succeeding, it does to Postgres and
    Redis exactly what creating the groups and then the loop do, and ends as they end;
    when they end without an exception it answers 0 having closed the health server, the
    clients and the engine and put the loggers back, so that it holds what it held before
    but for the providers of a telemetry set-up that failed.  With a health port that is
    taken it fails with the bind's error before it has touched Postgres or Redis; the
    engine, the client and the providers it made by then are left to the end of the
    process. *)
Theorem worker_run_forever_spec settings consumer (loop : coroutine unit) :
  life (health_port settings) (exec (_ ← ensure_groups settings; loop) (p_world p)) 0
    (exec (worker_run_forever settings consumer fuel loop) p).
Proof.
  unfold worker_run_forever. eapply (life_begins settings "jobs-worker" (Some consumer) _ _ loop 0
    (fun engine client hs => _)). intros q rs engine client hs taken extra w Hs Hx Hr Hg Hend.
  assert (forall q, running p w rs extra q ->
    life (health_port settings) (exec (_ ← ensure_groups settings; loop) (p_world p)) 0
      (exec (_ ← handle_signals; _ ← on_log (bind_static_log_context [("consumer"%string, str_value consumer)]);
        _ ← log_line "info" "worker.started"; _ ← on_world loop; _ ← log_line "info" "worker.stopped";
        _ ← stop_health_server hs; _ ← shutdown_telemetry; _ ← release [client] CloseRedis;
        _ ← release [engine] DisposeEngine; Ret 0) q)) as Hrest.
  2: { destruct (otel_enabled settings); [|by apply Hrest]. unfold register_worker_resource_gauges. rewrite exec_assoc.
    eapply run_call; [exact Hr|no_fault|]. intros q' _ Hr'. by apply Hrest. }
  clear dependent q. intros q Hr. eapply run_handle_signals; [exact Hr|]. clear dependent q. intros q Hr.
  eapply run_on_log; [exact Hr|eauto|]. clear dependent q. intros q _ Hr.
  eapply run_line; [exact Hr|]. clear dependent q. intros q Hr.
  eapply run_on_world; [exact Hr|..]; clear dependent q.
  { intros q e Hr He. apply Hend; [apply (run_world _ _ _ _ _ Hr)|]. by rewrite He. }
  intros q [] Hr Hdone.
  destruct (life_closes "worker.stopped" (Ret 0) _ rs extra taken [] engine client hs q Hr Hs) as (z & -> & Hz);
    [set_solver|]. specialize (Hz z (closed_refl z)). apply Hend; [apply (rel_world _ _ _ Hz)|]. by rewrite Hdone.
Qed.

(** The ticker's own clients, when telemetry is on. *)
Lemma run_start_gauges {A} settings rs (Post : process * (exn + A) -> Prop) w extra q
    (k : option (resource * resource) -> proc A) :
  running p w rs extra q ->
  (forall q' sync, running p w rs (extra ++ (match sync with Some (e, c) => [e; c] | None => [] end)) q' ->
    Post (exec (k sync) q')) ->
  Post (exec (start_gauges settings ≫= k) q).
Proof.
  intros Hr Hk. unfold start_gauges. destruct (otel_enabled settings).
  2: { apply (Hk q None). by rewrite app_nil_r. }
  unfold _make_sync_observability_resources, register_ticker_gauges. rewrite !exec_assoc.
  eapply run_acquire; [exact Hr|no_fault|done|]. clear dependent q. intros q e _ Hr. rewrite exec_assoc.
  eapply run_acquire; [exact Hr|no_fault|done|]. clear dependent q. intros q c _ Hr.
  cbn [mbind prog_mbind prog_bind]. rewrite !exec_assoc.
  eapply run_call; [exact Hr|no_fault|]. clear dependent q. intros q _ Hr. rewrite exec_assoc.
  eapply run_call; [exact Hr|no_fault|]. clear dependent q. intros q _ Hr. rewrite exec_assoc.
  eapply run_call; [exact Hr|no_fault|]. clear dependent q. intros q _ Hr.
  apply (Hk q (Some (e, c))). by rewrite <-app_assoc in Hr.
Qed.

(** The life of a ticker process is [ticker_main], in the same way: its effect on the
    world and its end are those of creating the groups and ticking, whatever call of the
    set-up of telemetry fails; on an orderly exit it has closed everything, the clients of its gauges
    included. *)
Theorem ticker_run_forever_spec settings rounds :
  life (health_port settings) (exec (ticker_main settings rounds fuel) (p_world p)) tt
    (exec (ticker_run_forever settings fuel rounds) p).
Proof.
  unfold ticker_run_forever, ticker_main. eapply (life_begins settings "jobs-ticker" None _ _ (ticks settings rounds fuel (0, 0)) tt
    (fun engine client hs => _)). intros q rs engine client hs taken extra w Hs Hx Hr Hg Hend.
  eapply run_start_gauges; [exact Hr|]. clear dependent q. intros q sync Hr.
  eapply run_handle_signals; [exact Hr|]. clear dependent q. intros q Hr.
  eapply run_line; [exact Hr|]. clear dependent q. intros q Hr.
  eapply run_on_world; [exact Hr|..]; clear dependent q.
  { intros q e Hr He. apply Hend; [apply (run_world _ _ _ _ _ Hr)|]. by rewrite He. }
  intros q [] Hr Hdone. set (later := match sync with Some (e, c) => [c; e] | None => [] end).
  destruct (life_closes "ticker.stopped" (close_sync sync) _ rs _ taken later engine client hs q Hr Hs) as (z & -> & Hz).
  { intros r. subst later. destruct sync as [[??]|]; set_solver. }
  destruct (closed_close_sync sync z) as (z' & -> & Hc); [intros; no_fault..|]. specialize (Hz z' Hc).
  apply Hend; [apply (rel_world _ _ _ Hz)|]. by rewrite Hdone.
Qed.

(** The logging of the process is configured. *)
Definition logged settings : process := set_loggers (configure_logging (log_level settings) (p_loggers p)).1 p.

Lemma logged_made settings : made (logged settings).
Proof.
  destruct Hmade as [_ Hheld]. split; [|done]. intros h. unfold logged, configure_logging.
  destruct (checked_level (log_level settings)); cbn; by intros [=]%list_elem_of_singleton.
Qed.

(** The application is made, on the world as it is. *)
Lemma app_made {A} settings level (Post : process * (exn + A) -> Prop) (k : application -> proc A) :
  checked_level (log_level settings) = inr level ->
  (forall q rs app, running (logged settings) (p_world p) rs [app_engine app; app_redis app; app_reviewer app] q ->
    app_settings app = settings ->
    app_middleware app = [ProxyHeadersMiddleware (forwarded_allow_ips settings);
                          BodySizeLimitMiddleware (max_request_body_bytes settings)] ->
    Post (exec (k app) q)) ->
  Post (exec (create_app settings ≫= k) p).
Proof.
  intros Hlevel Hk. unfold create_app, make_engine, create_redis_client, new_token_reviewer. rewrite exec_assoc.
  assert ((configure_logging (log_level settings) (p_loggers p)).2 = inr tt) as Hok.
  { unfold configure_logging. by rewrite Hlevel. }
  rewrite (exec_then _ (exec_act _ _)). cbn [fst snd]. rewrite Hok. fold (logged settings).
  rewrite exec_assoc. cbn [mbind prog_mbind prog_bind]. rewrite exec_assoc.
  destruct (running_configured settings "jobs-api" None (logged settings) (exceptions _ _ Henv) (logged_made settings)
    Hhandlers Hproviders) as (q & rs & Hq & Hr). rewrite (exec_then _ Hq). clear Hq. rewrite exec_assoc.
  eapply run_acquire; [exact Hr|no_fault|done|]. clear dependent q. intros q engine _ Hr. rewrite exec_assoc.
  eapply run_acquire; [exact Hr|no_fault|done|]. clear dependent q. intros q client _ Hr. rewrite !exec_assoc.
  eapply run_acquire; [exact Hr|no_fault|done|]. clear dependent q. intros q http _ Hr.
  cbn [mbind prog_mbind prog_bind]. rewrite !exec_assoc.
  eapply run_on_auth; [exact Hr|intros a; by do 2 eexists|]. clear dependent q. intros q _ Hr.
  cbn [mbind prog_mbind prog_bind]. rewrite exec_assoc.
  eapply run_on_auth; [exact Hr|intros a; by do 2 eexists|]. clear dependent q. intros q _ Hr. rewrite exec_assoc.
  destruct (otel_enabled settings).
  - eapply run_call; [exact Hr|no_fault|]. clear dependent q. intros q _ Hr. by eapply Hk.
  - by eapply Hk.
Qed.

(** The life of the API process is that of its requests: once it is made, with the
    proxy's headers read before the body is counted, its effect on the world and its
    end are those of creating the groups and then serving; on an orderly exit every
    client is closed and telemetry shut down. *)
Theorem app_life settings level (requests : coroutine unit) :
  checked_level (log_level settings) = inr level ->
  let r := exec (app ← create_app settings; lifespan app requests) p in
  let w := exec (_ ← ensure_groups settings; requests) (p_world p) in
  p_world r.1 = w.1 /\
  match w.2 with inl e => r.2 = inl e | inr _ => r.2 = inr tt /\ released (logged settings) w.1 r.1 end.
Proof.
  intros Hlevel. cbv zeta. rewrite (exec_bind (ensure_groups settings)).
  pattern (exec (create_app settings ≫= fun app => lifespan app requests) p).
  match goal with |- ?P _ => set (Post := P) end.
  apply (app_made settings level Post _ Hlevel). intros q rs app Hr Hset _. unfold lifespan. rewrite Hset.
  eapply run_on_world; [exact Hr|..]; clear dependent q.
  { intros q e Hr He. subst Post. cbv beta. destruct (exec (ensure_groups settings) (p_world p)) as [w1 r1].
    cbn [fst snd] in *. subst r1. split; [apply (run_world _ _ _ _ _ Hr)|done]. }
  intros q [] Hr Hg.
  assert (forall q, running (logged settings) (exec (ensure_groups settings) (p_world p)).1 rs
    [app_engine app; app_redis app; app_reviewer app] q ->
    Post (exec (_ ← on_world requests; _ ← release [app_redis app] CloseRedis; _ ← release [app_reviewer app] CloseHttp;
      _ ← release [app_engine app] DisposeEngine; shutdown_telemetry) q)) as Hrest.
  2: { destruct (rate_limit_enabled settings); [|by apply Hrest].
    eapply run_call; [exact Hr|no_fault|]. intros q' _ Hr'. by apply Hrest. }
  clear dependent q. intros q Hr. subst Post. cbv beta.
  destruct (exec (ensure_groups settings) (p_world p)) as [w r]. cbn [fst snd] in *. subst r.
  match goal with |- context [exec ?c q] => pattern (exec c q) end.
  eapply run_on_world; [exact Hr|..]; clear dependent q.
  { intros q e Hr He. rewrite He. split; [apply (run_world _ _ _ _ _ Hr)|done]. }
  intros q [] Hr Hdone. rewrite Hdone.
  destruct (closed_release [app_redis app] CloseRedis q) as (z1 & Hz1 & Hc1); [no_fault|]. rewrite (exec_then _ Hz1).
  destruct (closed_release [app_reviewer app] CloseHttp z1) as (z2 & Hz2 & Hc2); [no_fault|]. rewrite (exec_then _ Hz2).
  destruct (closed_release [app_engine app] DisposeEngine z2) as (z3 & Hz3 & Hc3); [no_fault|]. rewrite (exec_then _ Hz3).
  pose proof (closed_trans _ _ _ _ _ (closed_trans _ _ _ _ _ Hc1 Hc2) Hc3) as Hc.
  assert (forall h s, fault h (ShutdownProvider s) = None) as Hcalm by (intros; no_fault).
  destruct (shut_now (logged settings) _ rs _ (([app_redis app] ++ [app_reviewer app]) ++ [app_engine app]) q z3 Hcalm (logged_made settings) Hr) as (z4 & Hz4 & _);
    [|exact Hc|]; [set_solver|]. rewrite Hz4.
  assert (released (logged settings) (exec requests w).1 z4) as Hrel; [|split; [apply (rel_world _ _ _ Hrel)|done]].
  eapply orderly_exit; [done|apply logged_made|exact Hr|exact Hc|exact Hz4|apply closed_refl|]. set_solver.
Qed.
End Lives.
End Facts.

(** * Three processes *)

Lemma platform_orderly broken taken : @orderly (platform broken taken) 3 (if taken then Some address_in_use else None).
Proof.
  split.
  - intros h c e. apply platform_exceptions.
  - intros h c Ht Hb. destruct c; try done. by destruct (Hb port).
  - intros h n. cbn. by destruct taken.
  - intros h. set (up := @started (platform broken taken)). destruct (up h) eqn:Hs.
    + exists O. assert (up (h ++ naps 0) = true) as Hup by (cbn [replicate]; by rewrite app_nil_r).
      split; [lia|]. split; [|done]. split; [intros i Hi; lia|by left].
    + exists 1%nat. assert (up (h ++ naps 1) = true) as Hup.
      { subst up. cbn in *. rewrite existsb_app, orb_true_r. done. }
      split; [lia|]. split; [|done]. split; [|by left]. intros i Hi. assert (i = O) as -> by lia.
      cbn [replicate]. by rewrite app_nil_r.
Qed.

Definition observed : Settings := deployed true (Some 8080) default_settings.

(** The second worker on a machine fails; a ticker whose telemetry breaks ticks and ends. *)
Lemma worker_run_forever_spec_witness :
  (exec (@worker_run_forever _ _ _ _ (platform false true) observed "worker_local_1" 3 (worker_round observed "worker_local_1"))
    new_process).2 = inl address_in_use.
Proof.
  exact (proj1 (@worker_run_forever_spec _ _ _ _ (platform false true) 3 _ (platform_orderly false true) new_process
    new_process_made eq_refl eq_refl observed "worker_local_1" (worker_round observed "worker_local_1"))).
Defined.

Lemma ticker_run_forever_spec_witness :
  (exec (@ticker_run_forever _ _ _ _ _ (platform true false) observed 3 1) new_process).2 = inr tt /\
  p_loggers (exec (@ticker_run_forever _ _ _ _ _ (platform true false) observed 3 1) new_process).1 = p_loggers new_process.
Proof.
  assert ((exec (ticker_main observed 1 3) (p_world new_process)).2 = inr tt) as Hticks by (vm_compute; reflexivity).
  pose proof (@ticker_run_forever_spec _ _ _ _ _ (platform true false) 3 _ (platform_orderly true false) new_process
    new_process_made eq_refl eq_refl observed 1) as H.
  unfold life in H. cbn [health_port observed deployed] in H. rewrite Hticks in H. destruct H as (_ & Hr & Hrel).
  split; [exact Hr|]. exact (rel_loggers _ _ _ Hrel).
Defined.

Lemma app_life_witness :
  let r := exec (app ← @create_app _ _ _ _ (platform false false) observed;
    @lifespan _ _ _ _ (platform false false) app (_ ← worker_round observed "w"; Ret tt)) new_process in
  r.2 = inr tt /\ p_held r.1 = [].
Proof.
  pose proof (@app_life _ _ _ _ (platform false false) 3 _ (platform_orderly false false) new_process
    new_process_made eq_refl eq_refl observed 20 (_ ← worker_round observed "w"; Ret tt) eq_refl) as [_ H].
  cbv zeta. split; [|vm_compute; reflexivity].
  assert ((exec (_ ← ensure_groups observed; _ ← worker_round observed "w"; Ret tt) (p_world new_process)).2 = inr tt) as Hw
    by (vm_compute; reflexivity).
  rewrite Hw in H. exact (proj1 H).
Defined.
