(* ===== verification/RetryFacts.v ===== *)
(** What [schedule_retry_or_fail] does on every branch: the verdict is a pure
    function of the job, and the run is its refinement. *)
From stdpp Require Import base tactics option list gmap strings numbers relations.
From S2P Require Import Prelude Prog Uuid Model Services Repository RepositoryFacts Queue Retry Effects Scenario.
Set Default Goal Selector "!".
Open Scope Z_scope.

(** * The backoff table *)

(** The backoff table is read in range for every attempt count from 1 on: the
    entry of the attempt, and the last entry once the attempts exceed the table. *)
Theorem backoff_delay_table attempts table :
  1 <= attempts -> table <> [] ->
  backoff_delay attempts table =
    inr (default 0 (table !! Z.to_nat (attempts - 1))) /\ attempts <= Z.of_nat (length table) \/
  backoff_delay attempts table = inr (default 0 (last table)) /\ Z.of_nat (length table) < attempts.
Proof.
  intros Ha Ht. assert (0 < Z.of_nat (length table)) as Hlen by (destruct table; simpl; [done|lia]).
  unfold backoff_delay. destruct (decide (attempts <= Z.of_nat (length table))) as [Hle|Hgt].
  - left. split; [|done]. rewrite Z.min_l, py_index_nonneg by lia.
    destruct (lookup_lt_is_Some_2 table (Z.to_nat (attempts - 1))) as [x ->]; [lia|done].
  - right. split; [|lia]. rewrite Z.min_r, py_index_nonneg by lia.
    rewrite last_lookup. replace (Z.to_nat (Z.of_nat (length table) - 1)) with (pred (length table)) by lia.
    destruct (lookup_lt_is_Some_2 table (pred (length table))) as [x ->]; [lia|done].
Qed.

Lemma backoff_delay_table_witness :
  backoff_delay 2 (retry_backoff_schedule default_settings) = inr 30 /\
  backoff_delay 9 (retry_backoff_schedule default_settings) = inr 120.
Proof.
  split.
  - destruct (backoff_delay_table 2 (retry_backoff_schedule default_settings)) as [[H _]|[_ H]];
      [lia|done|exact H|by compute in H].
  - destruct (backoff_delay_table 9 (retry_backoff_schedule default_settings)) as [[_ H]|[H _]];
      [lia|done|by compute in H|exact H].
Defined.

Lemma backoff_delay_ok attempts table :
  1 <= attempts -> table <> [] -> exists delay, backoff_delay attempts table = inr delay.
Proof.
  intros Ha Ht. unfold backoff_delay, py_index.
  assert (0 < Z.of_nat (length table)) by (destruct table; simpl; [done|lia]).
  set (i := Z.min _ _). assert (0 <= i < Z.of_nat (length table)) as Hi by lia.
  rewrite (proj2 (Z.leb_le 0 i)), (proj2 (Z.ltb_lt i _)) by lia. simpl.
  destruct (lookup_lt_is_Some_2 table (Z.to_nat i)) as [x ->]; [lia|eauto].
Qed.

(** * The verdict *)

Inductive verdict := GiveUp | RetryNow | RetryAt (t : datetime).

(** What becomes of a job whose attempt just ended. *)
Definition retry_verdict (settings : Settings) (now : datetime) (job : Job) : exn + verdict :=
  if j_max_attempts job <=? j_attempts job + 1 then inr GiveUp
  else match backoff_delay (j_attempts job + 1) (retry_backoff_schedule settings) with
       | inl e => inl e
       | inr delay => inr (if delay <=? 0 then RetryNow else RetryAt (now + seconds delay))
       end.

Definition verdict_row (v : verdict) (now : datetime) (error : json) (j : Job) : Job :=
  match v with
  | GiveUp => set_status failed (set_error (Some error) (set_completed_at (Some now)
                (set_attempts (j_attempts j + 1) j)))
  | RetryNow => set_is_synced_to_redis true (set_status pending (set_attempts (j_attempts j + 1)
                  (set_is_synced_to_redis false (set_started_at None j))))
  | RetryAt t => set_is_synced_to_redis true (set_status scheduled (set_scheduled_at (Some t)
                   (set_attempts (j_attempts j + 1)
                     (set_is_synced_to_redis false (set_started_at None j)))))
  end.

Lemma verdict_exists settings (Htable : retry_backoff_schedule settings <> []) now job :
  0 <= j_attempts job -> exists v, retry_verdict settings now job = inr v.
Proof.
  intros Ha. unfold retry_verdict. destruct (_ <=? _); [by eexists|].
  destruct (backoff_delay_ok (j_attempts job + 1) (retry_backoff_schedule settings)) as [d ->];
    [lia|done|by eexists].
Qed.

Section Retry.
Context {PG : Postgres} {RD : Redis} {EN : Entropy} {OT : Otel}.
Context (settings : Settings).

Definition verdict_redis (v : verdict) (now : datetime) (job : Job) (carrier : option fields)
    (r : rd) : rd :=
  match v with
  | GiveUp => r
  | RetryNow =>
      let stream := stream_for_priority settings (j_priority job) in
      (xadd stream (message_fields stream (str_uuid (j_id job)) carrier) now r).1
  | RetryAt t => (zadd (delayed_zset settings) (str_uuid (j_id job)) t r).1
  end.

Lemma retry_won w job row error carrier v :
  rows w !! j_id job = Some row -> j_status row = processing ->
  retry_verdict settings (w_now w) job = inr v ->
  exists w', exec (schedule_retry_or_fail settings job error carrier) w = (w', inr true) /\
    rows w' = <[j_id job := verdict_row v (w_now w) error row]> (rows w) /\
    w_redis w' = verdict_redis v (w_now w) job carrier (w_redis w) /\ w_now w' = w_now w.
Proof.
  intros Hrow Hst Hv. unfold schedule_retry_or_fail, retry_verdict in *.
  assert (status_in [processing] row = true) as Hg by (unfold status_in; by rewrite Hst).
  destruct (_ <=? _).
  { simplify_eq. win (fun now => fail_job now (j_id job) error) Hrow Hg as (w1 & E & [HR HF Hn _]).
    by exists w1. }
  destruct (backoff_delay _ _) as [e|delay]; [done|]. cbn [or_raise]. rewrite bind_ret.
  destruct (delay <=? 0); simplify_eq.
  - win (fun _ : Z => retry_to_pending (j_id job)) Hrow Hg as (w1 & E1 & [R1 F1 N1 _]).
    rewrite exec_bind, E1. unfold enqueue. autorewrite with jobs_rw. cbn [fst snd].
    synced as (w2 & E2 & [R2 F2 N2 _]); [by rewrite rows_with_redis, R1, lookup_insert_eq|].
    rewrite E2. eexists. split; [done|].
    by rewrite R2, F2, rows_with_redis, R1, N2, insert_insert_eq; simpl; rewrite F1, N1.
  - rewrite exec_bind, exec_clock.
    win (fun _ : Z => retry_to_scheduled (j_id job) (w_now w + seconds delay)) Hrow Hg
      as (w1 & E1 & [R1 F1 N1 _]).
    rewrite exec_bind, E1. unfold schedule. autorewrite with jobs_rw. cbn [fst snd].
    synced as (w2 & E2 & [R2 F2 N2 _]); [by rewrite rows_with_redis, R1, lookup_insert_eq|].
    rewrite E2. eexists. split; [done|].
    by rewrite R2, F2, rows_with_redis, R1, N2, insert_insert_eq; simpl; rewrite F1, N1.
Qed.

(** C21: When the job is still processing, the actor wins and the run is exactly the
    verdict: at the attempt limit the row fails with the error; otherwise it goes
    back to pending with a message on its priority's stream, or to scheduled with
    a member of the delayed set, in both cases counted, unleased and synced. *)
Theorem schedule_retry_or_fail_won w job row error carrier v :
  rows w !! j_id job = Some row -> j_status row = processing ->
  retry_verdict settings (w_now w) job = inr v ->
  exists w', exec (schedule_retry_or_fail settings job error carrier) w = (w', inr true) /\
    rows w' = <[j_id job := verdict_row v (w_now w) error row]> (rows w) /\
    w_redis w' = verdict_redis v (w_now w) job carrier (w_redis w) /\ w_now w' = w_now w.
Proof. apply retry_won. Qed.

(** When the job is no longer processing (or has no row), the actor loses and
    neither the table nor Redis changes, whatever the verdict was. *)
Theorem schedule_retry_or_fail_lost w job error carrier v :
  row_at (rows w) (j_id job) (status_in [processing]) = None ->
  retry_verdict settings (w_now w) job = inr v ->
  exists w', exec (schedule_retry_or_fail settings job error carrier) w = (w', inr false) /\
    rows w' = rows w /\ w_redis w' = w_redis w /\ w_now w' = w_now w.
Proof.
  intros Hrow Hv. unfold schedule_retry_or_fail, retry_verdict in *.
  destruct (_ <=? _).
  { lose (fun now => fail_job now (j_id job) error) Hrow as (w1 & E & [HR HF Hn _]). by exists w1. }
  destruct (backoff_delay _ _) as [e|delay]; [done|]. cbn [or_raise]. rewrite bind_ret.
  destruct (delay <=? 0).
  - lose (fun _ : Z => retry_to_pending (j_id job)) Hrow as (w1 & E1 & [R1 F1 N1 _]).
    rewrite exec_bind, E1. autorewrite with jobs_rw. by exists w1.
  - rewrite exec_bind, exec_clock.
    lose (fun _ : Z => retry_to_scheduled (j_id job) (w_now w + seconds delay)) Hrow
      as (w1 & E1 & [R1 F1 N1 _]).
    rewrite exec_bind, E1. autorewrite with jobs_rw. by exists w1.
Qed.
End Retry.

(** * At the first failure of a claimed report, and of one that is not claimed *)

Lemma claimed_verdict : retry_verdict the_settings (w_now claimed_world) claimed_job = inr RetryNow.
Proof. vm_compute. reflexivity. Qed.

Lemma schedule_retry_or_fail_won_witness :
  exists w', exec (schedule_retry_or_fail the_settings claimed_job JNull None) claimed_world = (w', inr true) /\
    rows w' = <[first_id := verdict_row RetryNow t0 JNull claimed_job]> (rows claimed_world).
Proof.
  destruct (schedule_retry_or_fail_won the_settings claimed_world claimed_job claimed_job JNull None
    RetryNow claimed_job_row eq_refl claimed_verdict) as (w' & E & R & _).
  exists w'. split; [exact E|exact R].
Defined.

Lemma submitted_not_processing :
  row_at (rows submitted_world) (j_id submitted_job) (status_in [processing]) = None.
Proof. vm_compute. reflexivity. Qed.
Lemma submitted_verdict : retry_verdict the_settings (w_now submitted_world) submitted_job = inr RetryNow.
Proof. vm_compute. reflexivity. Qed.

Lemma schedule_retry_or_fail_lost_witness :
  exists w', exec (schedule_retry_or_fail the_settings submitted_job JNull None) submitted_world = (w', inr false) /\
    rows w' = rows submitted_world.
Proof.
  destruct (schedule_retry_or_fail_lost the_settings submitted_world submitted_job JNull None RetryNow
    submitted_not_processing submitted_verdict) as (w' & E & R & _).
  exists w'. split; [exact E|exact R].
Defined.
