(* ===== verification/WorkerFacts.v ===== *)
(** The worker settles what it claims: a job that starts is never left in
    processing, the message is acknowledged only by the actor whose transition
    won, and at most [worker_concurrency] tasks run at a time. *)
From stdpp Require Import base tactics option list gmap strings numbers relations.
From S2P Require Import Prelude Prog Uuid Model Services Repository RepositoryFacts Queue Retry Handlers Payloads Worker Ticker Api Effects Along Scenario RetryFacts.
Set Default Goal Selector "!".
Open Scope Z_scope.

(** * What a handler may raise *)

(** Cancellation comes from outside only. *)
Definition not_cancelled (e : exn) : Prop := e <> CancelledError.

Section Throws.
Context {PG : Postgres} {RD : Redis} {EN : Entropy} {PY : Pydantic}.
Notation ok := (throws not_cancelled).

Lemma throws_or_raise {A} (r : exn + A) :
  (forall e, r = inl e -> not_cancelled e) -> ok (or_raise r : coroutine A).
Proof. destruct r; simpl; eauto. Qed.

Lemma throws_with_deadline {A} d (p : coroutine A) : ok p -> ok (with_deadline d p).
Proof. induction p as [a|e|X f k IH]; simpl; [done..|]. intros Hk [[|] x]; [done|]. by apply IH. Qed.

Lemma throws_handle_email p : ok (handle_email p).
Proof. by intros ??. Qed.
Lemma throws_handle_webhook p : ok (handle_webhook p).
Proof. intros ?? r. simpl. by repeat case_match. Qed.
Lemma throws_handle_report p : ok (handle_report p).
Proof. by intros ??. Qed.

Lemma throws_run_item i : ok (run_item i).
Proof.
  destruct i; [apply throws_handle_email|apply throws_handle_webhook|apply throws_handle_report].
Qed.

Lemma throws_ctx_cancelled (P : exn -> Prop) c : throws P (ctx_cancelled c).
Proof. intros now. simpl. by repeat (case_match; simpl). Qed.

Lemma throws_batch_loop n i items c s : ok (batch_loop n i items c s).
Proof.
  revert i c s. induction items as [|item items IH]; intros i c s; cbn [batch_loop]; [done|].
  apply throws_bind; [apply throws_ctx_cancelled|]. intros [[|] c']; [done|].
  eapply throws_bind_returns; [apply throws_attempt|apply attempt_returns, throws_run_item|].
  intros [e|result] He; [|apply IH]. destruct (is_exception e) eqn:Hx; [apply IH|]. by destruct e.
Qed.

Lemma throws_run_handler t p c : ok (run_handler t p c).
Proof.
  destruct t; [apply throws_handle_email|apply throws_handle_webhook|apply throws_handle_report|].
  destruct p as [|items]; [done|]. apply throws_bind; [apply throws_batch_loop|done].
Qed.

Lemma validate_not_cancelled t raw s e :
  validate_payload t raw s = inl e -> not_cancelled e.
Proof.
  assert (forall s i e, check_item s i = inl e -> not_cancelled e) as Hitem.
  { intros ? [] ?; simpl; repeat case_match; by intros [= <-]. }
  assert (forall s l e, check_items s l = inl e -> not_cancelled e) as Hitems.
  { intros ? l ?. induction l as [|i l IH]; simpl; [done|].
    destruct (check_item _ i) eqn:E; [intros [= <-]; eauto|done]. }
  unfold validate_payload. destruct raw; try (by intros [= <-]).
  destruct (validate_python _) as [e'|p] eqn:E.
  - intros [= <-]. destruct (validate_error _ _ E) as [m ->]. done.
  - destruct s as [s|]; [|done]. destruct (_check_policy s p) eqn:Hp; [|done]. intros [= <-].
    destruct p; simpl in Hp; eauto.
Qed.

Lemma throws_run_job settings job : ok (run_job settings job).
Proof.
  apply throws_bind.
  - apply throws_or_raise. apply validate_not_cancelled.
  - intros p now. apply throws_with_deadline, throws_run_handler.
Qed.
End Throws.

(** * What a handler does to its row *)

(** A processing row keeps everything but its progress. *)
Definition held (id : uuid) (m m' : gmap uuid Job) : Prop :=
  forall j, m !! id = Some j -> j_status j = processing -> exists p, m' !! id = Some (set_progress p j).

Lemma set_progress_same j : set_progress (j_progress j) j = j.
Proof. by destruct j. Qed.

#[export] Instance held_refl id : Reflexive (held id).
Proof. intros m j Hj _. exists (j_progress j). by rewrite set_progress_same. Qed.

#[export] Instance held_trans id : Transitive (held id).
Proof.
  intros m1 m2 m3 H12 H23 j Hj Hst. destruct (H12 j Hj Hst) as [p Hp].
  destruct (H23 _ Hp Hst) as [q Hq]. by exists q.
Qed.

Section Held.
Context {PG : Postgres} {RD : Redis} {EN : Entropy} {PY : Pydantic}.

Lemma held_write_progress id p : leads (held id) (fun _ => write_progress id p).
Proof.
  intros now d j Hj Hst. exists (Some p). unfold write_progress. simpl.
  rewrite update_where_id_rows by done. unfold upd_rows, row_at, status_in.
  rewrite Hj, Hst. simpl. by rewrite lookup_insert_eq.
Qed.

Lemma only_row_write_progress id p : leads (only_row id) (fun _ => write_progress id p).
Proof. apply (moves_write_progress _ _). Qed.

Lemma rtc_along Q `{!Reflexive Q, !Transitive Q} {A} (p : coroutine A) w :
  all_steps (on_rows Q) p -> Q (rows w) (rows (exec p w).1).
Proof.
  intros Hp. apply (all_steps_exec _ p w) in Hp. induction Hp as [|w w1 w2 H _ IH]; [done|].
  by etrans; [exact H|].
Qed.

#[export] Instance only_row_trans id : Transitive (only_row id).
Proof. intros m1 m2 m3 H12 H23 k Hk. by rewrite H23, H12. Qed.

(** [job] is the row as read after the claim; the row may show progress since. *)
Definition running (w : world) (job : Job) : Prop :=
  exists p, rows w !! j_id job = Some (set_progress p job) /\ j_status job = processing /\ 0 <= j_attempts job.

(** A run of the handler leaves the job running and the other rows untouched, and
    no cancellation escapes. *)
Lemma exec_run_job settings job w :
  running w job ->
  exists w' r, exec (run_job settings job) w = (w', r) /\ running w' job /\
    only_row (j_id job) (rows w) (rows w') /\ (forall e, r = inl e -> not_cancelled e).
Proof.
  intros (q & Hj & Hst & Ha). exists (exec (run_job settings job) w).1, (exec (run_job settings job) w).2.
  split; [by destruct (exec _ _)|]. repeat split.
  - assert (held (j_id job) (rows w) (rows (exec (run_job settings job) w).1)) as Hh.
    { apply (rtc_along _). apply (along_run_job _ (j_id job)); [|done]. intros p. apply along_pg, held_write_progress. }
    destruct (Hh _ Hj Hst) as [p Hp]. by exists p.
  - apply (rtc_along _). apply (along_run_job _ (j_id job)); [|done]. intros p. apply along_pg, only_row_write_progress.
  - intros e He. eapply throws_exec; [apply throws_run_job|done].
Qed.
End Held.

(** * Settlement *)

(** What the worker's outcome says of the row it leaves, [j] being the row claimed. *)
Inductive settled (j : Job) : string -> Job -> Prop :=
| settled_completed j' :
    j_status j' = completed -> is_Some (j_result j') -> j_attempts j' = j_attempts j + 1 ->
    (j_type j = batch -> j_progress j' = Some 100) -> settled j "completed" j'
| settled_cancelled j' :
    j_status j' = cancelled -> is_Some (j_result j') -> j_attempts j' = j_attempts j ->
    settled j "cancelled" j'
| settled_rejected label j' :
    label = "policy_rejected"%string \/ label = "dropped_ownerless"%string /\ j_user_id j = None ->
    j_status j' = failed -> is_Some (j_error j') -> j_attempts j' = j_attempts j + 1 ->
    settled j label j'
| settled_retry label j' :
    label = "retried"%string \/ label = "timeout"%string ->
    j_attempts j' = j_attempts j + 1 ->
    (if j_max_attempts j <=? j_attempts j + 1
     then j_status j' = failed /\ is_Some (j_error j')
     else (j_status j' = pending \/ j_status j' = scheduled /\ is_Some (j_scheduled_at j')) /\
          j_is_synced_to_redis j' = true /\ j_started_at j' = None) ->
    settled j label j'.

Section Settle.
Context {PG : Postgres} {RD : Redis} {EN : Entropy} {OT : Otel} {PY : Pydantic}.
Context (settings : Settings) (Htable : retry_backoff_schedule settings <> []).

(** The run [p] settles [job]: it answers an outcome with an acknowledgement. *)
Definition settles (p : coroutine Outcome) (w : world) (job : Job) : Prop :=
  exists w' label j', exec p w = (w', inr (mkOutcome true label)) /\
    rows w' = <[j_id job := j']> (rows w) /\ settled job label j'.

Lemma running_guard p job : j_status job = processing -> status_in [processing] (set_progress p job) = true.
Proof. unfold status_in. simpl. by intros ->. Qed.

Lemma settled_by_verdict now v error p job label :
  label = "retried"%string \/ label = "timeout"%string ->
  retry_verdict settings now job = inr v ->
  settled job label (verdict_row v now error (set_progress p job)).
Proof.
  intros Hl. unfold retry_verdict. destruct (_ <=? _) eqn:Hmax.
  - intros [= <-]. apply settled_retry; [done..|]. by rewrite Hmax.
  - destruct (backoff_delay _ _) as [e|delay]; [done|]. intros [= <-].
    apply settled_retry; [done|by destruct (delay <=? 0)|]. rewrite Hmax.
    destruct (delay <=? 0); simpl; eauto.
Qed.

Lemma settles_retry w job error label :
  running w job -> label = "retried"%string \/ label = "timeout"%string ->
  settles (won ← schedule_retry_or_fail settings job error None; Ret (mkOutcome won label)) w job.
Proof.
  intros (p & Hp & Hst & Ha) Hl. destruct (verdict_exists settings Htable (w_now w) job Ha) as [v Hv].
  destruct (retry_won settings w job _ error None v Hp Hst Hv) as (w' & E & R & _).
  exists w', label, (verdict_row v (w_now w) error (set_progress p job)).
  rewrite exec_bind, E. split; [done|]. split; [done|]. by apply settled_by_verdict.
Qed.

Lemma settles_error w job e : running w job -> not_cancelled e -> settles (settle_error settings job e) w job.
Proof.
  intros Hrun He. pose proof Hrun as (p & Hp & Hst & Ha). pose proof (running_guard p job Hst) as Hg.
  destruct e; cbn [settle_error]; try (apply settles_retry; auto; fail); [| |done].
  - win (fun now => fail_job now (j_id job) (error_json "PayloadPolicyError" msg)) Hp Hg
      as (w' & E & [R _ _ _]).
    eexists w', "policy_rejected"%string, _. rewrite exec_bind, E. split; [done|]. split; [exact R|].
    apply settled_rejected; simpl; eauto.
  - win (fun now => cancel_job now (j_id job) summary) Hp Hg as (w' & E & [R _ _ _]).
    eexists w', "cancelled"%string, _. rewrite exec_bind, E. split; [done|]. split; [exact R|].
    apply settled_cancelled; simpl; eauto.
Qed.

Lemma settles_result w job result : running w job -> settles (settle_result job result) w job.
Proof.
  intros (p & Hp & Hst & Ha). pose proof (running_guard p job Hst) as Hg. unfold settle_result.
  win (fun now => complete_job now (j_id job) result (if decide (j_type job = batch) then Some 100 else None))
    Hp Hg as (w' & E & [R _ _ _]).
  eexists w', "completed"%string, _. rewrite exec_bind, E. split; [done|]. split; [exact R|].
  apply settled_completed; simpl; eauto. intros Ht. by rewrite decide_True.
Qed.

Lemma settles_ownerless w job :
  running w job -> j_user_id job = None -> settles (process_claimed settings job) w job.
Proof.
  intros (p & Hp & Hst & Ha) Hu. unfold process_claimed. rewrite Hu.
  win (fun now => fail_job now (j_id job) (JObj [("reason", JStr "ownerless job dropped")]%string))
    Hp (running_guard p job Hst) as (w' & E & [R _ _ _]).
  eexists w', "dropped_ownerless"%string, _. rewrite exec_bind, E. split; [done|]. split; [exact R|].
  apply settled_rejected; simpl; eauto.
Qed.

Lemma only_row_insert id (m m' : gmap uuid Job) j :
  only_row id m m' -> <[id := j]> m' = <[id := j]> m.
Proof.
  intros Ho. apply map_eq. intros k. destruct (decide (k = id)) as [->|Hne];
    [by rewrite !lookup_insert_eq|rewrite !lookup_insert_ne by done; by apply Ho].
Qed.

Lemma settles_try w job : running w job ->
  settles (r ← attempt (run_job settings job);
           match r with inl e => settle_error settings job e | inr result => settle_result job result end)
    w job.
Proof.
  intros Hrun. destruct (exec_run_job settings job w Hrun) as (w1 & r & E & Hrun1 & Ho & He).
  assert (settles (match r with inl e => settle_error settings job e
                   | inr result => settle_result job result end) w1 job) as (w2 & l & j' & E2 & R2 & Hs).
  { destruct r; [apply settles_error|apply settles_result]; auto. }
  exists w2, l, j'. rewrite exec_bind, exec_attempt, E. split; [done|]. split; [|done].
  rewrite R2. by apply only_row_insert.
Qed.

Lemma settles_claimed w job : running w job -> settles (process_claimed settings job) w job.
Proof.
  intros Hrun. destruct (j_user_id job) as [u|] eqn:Hu; [|by apply settles_ownerless].
  unfold process_claimed. rewrite Hu. case_decide as Hb.
  - pose proof Hrun as (p & Hp & Hst & Ha).
    win (fun _ : Z => init_progress (j_id job)) Hp (running_guard p job Hst) as (w1 & E & [R _ _ _]).
    destruct (settles_try w1 job) as (w2 & l & j' & E2 & R2 & Hs).
    { exists (Some 0). by rewrite R, lookup_insert_eq. }
    exists w2, l, j'. rewrite exec_bind, E. split; [done|]. split; [|done].
    by rewrite R2, R, insert_insert_eq.
  - rewrite bind_ret. by apply settles_try.
Qed.

(** C14: A worker that claims a job settles it: the run ends with an acknowledged
    outcome (it never raises), the row has left processing in the way the outcome
    says (completed with a result, cancelled, failed, or handed back to the queue
    with one attempt counted), and no other row changed. *)
Theorem process_job_settles w id j :
  rows w !! id = Some j -> j_id j = id -> j_status j = pending \/ j_status j = scheduled ->
  0 <= j_attempts j ->
  exists w' label j', exec (process_job settings id) w = (w', inr (mkOutcome true label)) /\
    rows w' = <[id := j']> (rows w) /\ settled j label j' /\ j_status j' <> processing.
Proof.
  intros Hj Hid Hst Ha. assert (status_in [pending; scheduled] j = true) as Hg.
  { apply status_in_true. destruct Hst as [-> | ->]; set_solver. }
  unfold process_job. win (fun now => claim_job now id) Hj Hg as (w1 & E1 & [R1 _ _ _]).
  set (job := set_started_at _ _) in *. rewrite exec_bind, E1. autorewrite with jobs_rw.
  rewrite R1, lookup_insert_eq. autorewrite with jobs_rw.
  destruct (settles_claimed w1 job) as (w2 & l & j' & E2 & R2 & Hs).
  { exists (j_progress job). rewrite set_progress_same. subst job. simpl. rewrite Hid.
    by rewrite R1, lookup_insert_eq. }
  exists w2, l, j'. split; [exact E2|]. rewrite R2, R1. subst job; simpl in *. rewrite Hid, insert_insert_eq.
  split; [done|]. split.
  - destruct Hs; [apply settled_completed|apply settled_cancelled|apply settled_rejected|apply settled_retry]; auto.
  - destruct Hs as [? Hs|? Hs|? ? _ Hs|? ? _ _ Hs]; [congruence..|].
    destruct (_ <=? _); destruct Hs as [Hs _]; [congruence|]. destruct Hs as [Hs|[Hs _]]; congruence.
Qed.
End Settle.

(** * Duplicates and poison *)

Section Messages.
Context {PG : Postgres} {RD : Redis} {EN : Entropy} {OT : Otel} {PY : Pydantic}.
Context (settings : Settings).

(** A delivery of a job that is not claimable (a duplicate of a running or
    finished job, or a job without a row) is acknowledged and has no other effect:
    the table is untouched and Redis only loses the delivery. *)
Theorem handle_message_duplicate w stream mid f id :
  message_job f = Some id -> row_at (rows w) id (status_in [pending; scheduled]) = None ->
  exists w', exec (handle_message settings (stream, mid, f)) w = (w', inr (mkOutcome true "skipped")) /\
    rows w' = rows w /\ w_redis w' = (xack stream (consumer_group settings) mid (w_redis w)).1.
Proof.
  intros Hf Hrow. unfold handle_message, process_job, ack. rewrite Hf.
  lose (fun now => claim_job now id) Hrow as (w1 & E1 & [R1 F1 _ _]).
  rewrite exec_bind, exec_bind, E1. autorewrite with jobs_rw. simpl.
  eexists. split; [done|]. simpl. by rewrite rows_with_redis, F1.
Qed.

(** A message without a readable job id is acknowledged and dropped; nothing
    else happens. *)
Theorem handle_message_poison w stream mid f :
  message_job f = None ->
  exec (handle_message settings (stream, mid, f)) w =
  (with_redis (xack stream (consumer_group settings) mid (w_redis w)).1 w, inr (mkOutcome true "poison")).
Proof. intros Hf. unfold handle_message. by rewrite Hf. Qed.
End Messages.

(** * The semaphore *)

Section Loop.
Context (settings : Settings).

Definition held_slot (p : phase) : nat := match p with Reading => 1 | _ => 0 end.

Lemma loop_step_slots l l' :
  loop_step l l' ->
  (l_free l' + length (l_tasks l') + held_slot (l_phase l') =
   l_free l + length (l_tasks l) + held_slot (l_phase l))%nat.
Proof.
  destruct 1; simpl; rewrite ?length_app; simpl; try lia; case_match; simpl; lia.
Qed.

(** The slots of a worker are conserved: free slots, running tasks and the slot
    of a pending read always add up to [worker_concurrency], so at most that many
    jobs run at once, and a stopped worker has given every slot back. *)
Theorem loop_slots l :
  rtc loop_step (loop_start settings) l ->
  (l_free l + length (l_tasks l) + held_slot (l_phase l) = worker_concurrency settings)%nat.
Proof.
  intros Hl.
  assert (forall l0, rtc loop_step l0 l ->
    (l_free l + length (l_tasks l) + held_slot (l_phase l) =
     l_free l0 + length (l_tasks l0) + held_slot (l_phase l0))%nat) as H.
  { clear. induction 1 as [|l0 l1 l2 Hs _ IH]; [done|]. rewrite IH. by apply loop_step_slots. }
  rewrite (H _ Hl). simpl. lia.
Qed.

#[local] Instance phase_eq_dec : EqDecision phase.
Proof. solve_decision. Defined.

Definition leaving (p : phase) : Prop := p = Draining \/ p = Stopped.

(** Once a worker drains (stop signal, memory limit, or an error of the loop)
    it starts no further job: the tasks only run out, and it stops only when none
    is left. *)
Theorem loop_drains l l' :
  rtc loop_step l l' -> leaving (l_phase l) ->
  leaving (l_phase l') /\ sublist (l_tasks l') (l_tasks l) /\
  (l_phase l <> Stopped -> l_phase l' = Stopped -> l_tasks l' = []).
Proof.
  induction 1 as [l|l l1 l2 Hs _ IH]; [naive_solver|]. intros Hl.
  assert (leaving (l_phase l1) /\ sublist (l_tasks l1) (l_tasks l) /\
    (l_phase l1 = Stopped -> l_tasks l1 = [] \/ l_phase l = Stopped)) as (H1 & H2 & H3).
  { unfold leaving in *. destruct Hs; simpl in *; split_and?; try naive_solver;
      try (apply sublist_app; [done|by constructor]); try done. }
  destruct (IH H1) as (H4 & H5 & H6). split; [done|]. split; [by etrans|].
  intros Hn Hst. destruct (decide (l_phase l1 = Stopped)) as [E|E]; [|by apply H6].
  destruct (H3 E) as [E'|E']; [|done]. rewrite E' in H5. by apply sublist_nil_r in H5.
Qed.
End Loop.

(** * At the report of the scenario *)

Lemma process_job_settles_witness :
  exists w' label j', exec (process_job the_settings first_id) submitted_world = (w', inr (mkOutcome true label)) /\
    rows w' = <[first_id := j']> (rows submitted_world) /\ settled submitted_job label j' /\
    j_status j' <> processing.
Proof.
  apply (process_job_settles the_settings).
  - discriminate.
  - exact submitted_job_row.
  - reflexivity.
  - left. reflexivity.
  - vm_compute. discriminate.
Defined.

Definition first_message : fields := {["job_id" := str_uuid first_id]}%string.

Lemma handle_message_duplicate_witness :
  exists w', exec (handle_message the_settings ("jobs:stream:normal"%string, (1, 1)%N, first_message)) claimed_world =
      (w', inr (mkOutcome true "skipped")) /\
    rows w' = rows claimed_world /\
    w_redis w' = (xack "jobs:stream:normal" "workers" (1, 1)%N (w_redis claimed_world)).1.
Proof.
  apply (handle_message_duplicate the_settings claimed_world _ _ first_message first_id).
  - vm_compute. reflexivity.
  - vm_compute. reflexivity.
Defined.

Lemma handle_message_poison_witness :
  message_job {["job_id" := "nope"%string]} = None /\
  (exec (handle_message the_settings ("jobs:stream:low"%string, (1, 1)%N, {["job_id" := "nope"]}%string)) ready_world).2 =
    inr (mkOutcome true "poison").
Proof.
  assert (message_job {["job_id" := "nope"%string]} = None) as H by (vm_compute; reflexivity).
  split; [exact H|]. rewrite (handle_message_poison the_settings ready_world _ _ _ H). reflexivity.
Defined.

Definition one_task : delivery := ("jobs:stream:normal"%string, (1, 1)%N, first_message).
Definition busy_loop : loop := mkLoop Head 9 [one_task] (new_recycler None).

Lemma busy_reachable : rtc loop_step (loop_start the_settings) busy_loop.
Proof.
  eapply rtc_l; [apply (loop_check 0)|]. eapply rtc_l; [apply (loop_acquire 9)|].
  eapply rtc_l; [by apply (loop_task [one_task] one_task)|]. apply rtc_refl.
Qed.

Lemma loop_slots_witness : (l_free busy_loop + length (l_tasks busy_loop) + 0 = 10)%nat.
Proof. exact (loop_slots the_settings busy_loop busy_reachable). Defined.

Definition draining_loop : loop := mkLoop Draining 9 [one_task] (new_recycler None).
Definition stopped_loop : loop := mkLoop Stopped 10 [] (new_recycler None).

Lemma stopped_reachable : rtc loop_step draining_loop stopped_loop.
Proof.
  eapply rtc_l; [apply (loop_finish Draining [] one_task [])|].
  eapply rtc_l; [apply loop_drained|]. apply rtc_refl.
Qed.

Lemma loop_drains_witness :
  leaving (l_phase stopped_loop) /\ sublist (l_tasks stopped_loop) (l_tasks draining_loop).
Proof.
  destruct (loop_drains draining_loop stopped_loop stopped_reachable (or_introl eq_refl)) as (H1 & H2 & _).
  exact (conj H1 H2).
Defined.
