(* ===== verification/Heartbeat.v ===== *)
(** The heartbeat of a worker (app/core/healthcheck.py, the loop of
    app/worker/runner.py): "busy is healthy, hung is not".

    The loop of Worker.v runs in time.  A task ends within [task_s] of its start and a
    read within [read_s]; the steps of the loop themselves take no time, a free slot is
    taken at once, and the loop leaves the task group when the last task is gone. *)
From stdpp Require Import base tactics option list gmap strings numbers relations.
From S2P Require Import Prelude Prog Uuid Model Services Queue Handlers Worker WorkerFacts Scenario Observability.
Set Default Goal Selector "!".
Open Scope Z_scope.

Record Heartbeat := mkHeartbeat { _last : datetime }.

Definition new_heartbeat (now : datetime) : Heartbeat := mkHeartbeat now.
Definition beat (now : datetime) (h : Heartbeat) : Heartbeat := mkHeartbeat now.
Definition age_seconds (now : datetime) (h : Heartbeat) : duration := now - _last h.

(** * The loop in time *)

(** [t_since] is when the loop came to its phase, [t_started] when each of its tasks
    started, in the order of [l_tasks]. *)
Record timed := mkTimed {
  t_loop : loop;
  t_heartbeat : Heartbeat;
  t_now : datetime;
  t_since : datetime;
  t_started : list datetime;
}.

#[export] Instance phase_eq_dec : EqDecision phase. Proof. solve_decision. Defined.

(** The loop goes on to [l'] with its tasks started at [started]; it beats when it
    goes on from its head to the semaphore. *)
Definition goes_on (s : timed) (l' : loop) (started : list datetime) : timed :=
  mkTimed l'
    (if decide (l_phase (t_loop s) = Head /\ l_phase l' = Acquire) then beat (t_now s) (t_heartbeat s) else t_heartbeat s)
    (t_now s) (if decide (l_phase (t_loop s) = l_phase l') then t_since s else t_now s) started.

Definition later (d : duration) (s : timed) : timed :=
  mkTimed (t_loop s) (t_heartbeat s) (t_now s + d) (t_since s) (t_started s).

Section Timed.
Context (settings : Settings) (task_s read_s : duration).

(** Where the loop waits, and for how long at most. *)
Definition waits (s : timed) : Prop :=
  match l_phase (t_loop s) with
  | Head => False
  | Acquire => l_free (t_loop s) = 0%nat
  | Reading => t_now s <= t_since s + read_s
  | Draining => l_tasks (t_loop s) <> []
  | Stopped => True
  end.

Inductive timed_step : timed -> timed -> Prop :=
| timed_quiet s l' :
    loop_step (t_loop s) l' -> l_tasks l' = l_tasks (t_loop s) -> timed_step s (goes_on s l' (t_started s))
| timed_task s l' m :
    loop_step (t_loop s) l' -> l_tasks l' = l_tasks (t_loop s) ++ [m] ->
    timed_step s (goes_on s l' (t_started s ++ [t_now s]))
| timed_end s l' ts1 m ts2 at1 t at2 :
    loop_step (t_loop s) l' -> l_tasks (t_loop s) = ts1 ++ m :: ts2 -> l_tasks l' = ts1 ++ ts2 ->
    t_started s = at1 ++ t :: at2 -> length at1 = length ts1 ->
    timed_step s (goes_on s l' (at1 ++ at2))
| timed_wait s d :
    0 <= d -> waits (later d s) -> Forall (fun t => t_now s + d <= t + task_s) (t_started s) ->
    timed_step s (later d s).

Definition timed_start (now : datetime) : timed := mkTimed (loop_start settings) (new_heartbeat now) now now [].

(** GET /health *)
Definition answer (s : timed) : Z * (string * checks) :=
  health (_last (t_heartbeat s)) (t_now s) (worker_heartbeat_threshold_s settings).

(** ** What holds all along *)

Context (Htask : 0 <= task_s) (Hread : 0 <= read_s) (Hslots : (0 < worker_concurrency settings)%nat).

#[local] Abbreviation last s := (_last (t_heartbeat s)).

Record punctual (s : timed) : Prop := mkPunctual {
  pu_lengths : length (t_started s) = length (l_tasks (t_loop s));
  pu_slots : (l_free (t_loop s) + length (l_tasks (t_loop s)) + held_slot (l_phase (t_loop s)) = worker_concurrency settings)%nat;
  pu_past : Forall (fun t => t <= t_now s) (t_started s) /\ t_since s <= t_now s /\ last s <= t_now s;
  pu_due : match l_phase (t_loop s) with
    | Head => t_now s <= last s + task_s + read_s
    | Acquire => t_now s <= last s + task_s /\ Forall (fun t => t <= last s) (t_started s)
    | Reading => t_since s <= last s + task_s /\ t_now s <= t_since s + read_s
    | Draining => t_since s <= last s + task_s + read_s /\ t_now s <= t_since s + task_s /\
        Forall (fun t => t <= t_since s) (t_started s)
    | Stopped => l_tasks (t_loop s) = []
    end;
}.

Lemma punctual_start now : punctual (timed_start now).
Proof. constructor; simpl; [done|lia|split; [constructor|lia]|lia]. Qed.

(** A task that runs, and so bounds how long the loop has waited for it. *)
Lemma some_task s :
  length (t_started s) = length (l_tasks (t_loop s)) -> l_tasks (t_loop s) <> [] ->
  exists t, t ∈ t_started s.
Proof.
  intros Hl Ht. destruct (t_started s) as [|t l]; [|exists t; by left].
  by destruct (l_tasks (t_loop s)).
Qed.

Lemma punctual_wait s d :
  0 <= d -> waits (later d s) -> Forall (fun t => t_now s + d <= t + task_s) (t_started s) ->
  punctual s -> punctual (later d s).
Proof.
  intros Hd Hw Hdue [Hl Hslots' (Hpast & Hsince & Hlast) Hph]. rewrite Forall_forall in Hdue.
  assert (forall b, l_tasks (t_loop s) <> [] -> Forall (fun t => t <= b) (t_started s) -> t_now s + d <= b + task_s) as Hwait.
  { intros b Hne Hb. destruct (some_task s Hl Hne) as [t Ht]. specialize (Hdue t Ht).
    rewrite Forall_forall in Hb. specialize (Hb t Ht). lia. }
  constructor; unfold waits in Hw; simpl in *; [done|done| |].
  - split; [|lia]. eapply Forall_impl; [exact Hpast|]. simpl. lia.
  - destruct (l_phase (t_loop s)) eqn:E; simpl in *; [done|..|done].
    + destruct Hph as [_ Hb]. split; [|done]. pose proof (Hwait (last s)).
      assert (l_tasks (t_loop s) <> []) as Hne by (intros E'; rewrite E', Hw in Hslots'; simpl in *; lia).
      specialize (H Hne Hb). lia.
    + lia.
    + destruct Hph as (? & _ & Hb). split; [done|]. split; [|done]. specialize (Hwait _ Hw Hb). lia.
Qed.

(** What a step of the loop keeps: the tasks are those of before, but for one that
    starts now when the loop is back at its head. *)
Lemma punctual_goes_on s l' started :
  loop_step (t_loop s) l' -> length started = length (l_tasks l') ->
  (forall t, t ∈ started -> t ∈ t_started s \/ t = t_now s /\ l_phase l' = Head) ->
  punctual s -> punctual (goes_on s l' started).
Proof.
  intros Hs Hlen Hsub [Hl Hslots' (Hpast & Hsince & Hlast) Hph].
  pose proof (loop_step_slots _ _ Hs) as Hkeep.
  assert (Forall (fun t => t <= t_now s) started) as Hnow.
  { apply Forall_forall. intros t Ht. rewrite Forall_forall in Hpast.
    destruct (Hsub t Ht) as [Ht'|[-> _]]; [by apply Hpast|lia]. }
  assert (forall b, l_phase l' <> Head -> Forall (fun t => t <= b) (t_started s) -> Forall (fun t => t <= b) started) as Hb.
  { intros b Hne Hb. apply Forall_forall. intros t Ht. rewrite Forall_forall in Hb.
    destruct (Hsub t Ht) as [Ht'|[_ ?]]; [by apply Hb|done]. }
  destruct s as [l h now since at0]. simpl in *. constructor; simpl; [done|lia| |].
  - split; [done|]. repeat case_decide; simpl; lia.
  - destruct Hs; try destruct p; simpl in *; repeat (case_decide || case_match); simpl in *;
      destruct_and?; simplify_eq; split_and?; try lia; try (by apply Hb); try tauto;
      by destruct ts1.
Qed.

Lemma punctual_step s s' : timed_step s s' -> punctual s -> punctual s'.
Proof.
  destruct 1 as [s l' Hs Ht|s l' m Hs Ht|s l' ts1 m ts2 at1 t at2 Hs Ht Ht' Hat Hlen|s d Hd Hw Hdue]; intros Hp.
  - apply punctual_goes_on; [done| |by left|done]. rewrite Ht. apply Hp.
  - apply punctual_goes_on; [done|rewrite Ht, !length_app; simpl; by rewrite (pu_lengths s Hp)| |done].
    intros t [Hin|Hin%list_elem_of_singleton]%elem_of_app; [by left|right]. split; [done|].
    pose proof (f_equal length Ht) as Hlen. rewrite length_app in Hlen. simpl in Hlen.
    destruct Hs; simpl in *; try done; rewrite ?length_app in Hlen; simpl in Hlen; lia.
  - apply punctual_goes_on; [done| | |done].
    + rewrite Ht', !length_app. pose proof (pu_lengths s Hp) as H. rewrite Hat, Ht, !length_app in H. simpl in H. lia.
    + intros u Hu. left. rewrite Hat. set_solver.
  - by apply punctual_wait.
Qed.

Lemma punctual_reach now s : rtc timed_step (timed_start now) s -> punctual s.
Proof.
  intros Hs. assert (forall s0, rtc timed_step s0 s -> punctual s0 -> punctual s) as H.
  { clear -Hslots Htask Hread. induction 1 as [|s0 s1 s2 Hs _ IH]; [done|]. intros Hp. by eapply IH, punctual_step. }
  by eapply H, punctual_start.
Qed.

(** A task has its handler's timeout, a read the time it may block, and both together ten
    seconds more. *)
Context (Hbound : task_s + read_s <= job_handler_timeout_s settings + block_ms settings * 1000 + seconds 10).

(** C30: Busy is healthy.  If a task ends within [task_s] of its start and a read within
    [read_s], and the two exceed the handler's timeout and the blocking time of a read by no
    more than ten seconds, then as long as the worker's loop runs, however many jobs
    it is busy with, /health answers 200.  While it drains, the last beat is at
    most twice [task_s] and once [read_s] old. *)
Theorem busy_is_healthy now s :
  rtc timed_step (timed_start now) s ->
  (l_phase (t_loop s) <> Draining -> l_phase (t_loop s) <> Stopped ->
     answer s = (200, ("ok", [("loop", "ok")]))%string) /\
  (l_phase (t_loop s) = Draining -> age_seconds (t_now s) (t_heartbeat s) <= 2 * task_s + read_s).
Proof.
  intros Hs. destruct (punctual_reach now s Hs) as [_ _ _ Hdue]. split.
  - intros H1 H2. unfold answer, health.
    assert (t_now s - last s <= worker_heartbeat_threshold_s settings) as Hage.
    { unfold worker_heartbeat_threshold_s. destruct (l_phase (t_loop s)); try done; lia. }
    by rewrite (proj2 (Z.leb_le _ _) Hage).
  - intros Hd. rewrite Hd in Hdue. unfold age_seconds. lia.
Qed.
End Timed.

(** * A worker with its slots full that is told to stop *)

(** A handler may take its 45 seconds, and what surrounds it 10. *)
Definition slow_task : duration := seconds 55.
Definition slow_read : duration := seconds 5.

#[local] Abbreviation step := (timed_step slow_task slow_read).

Lemma step_to s l' started s' (P : Prop) :
  (P -> timed_step slow_task slow_read s (goes_on s l' started)) -> P -> goes_on s l' started = s' -> step s s'.
Proof. intros H HP <-. by apply H. Qed.

(** A turn of the loop that finds a message at once. *)
Lemma quick_turn h now since free tasks started :
  rtc step (mkTimed (mkLoop Head (S free) tasks (new_recycler None)) h now since started)
    (mkTimed (mkLoop Head free (tasks ++ [one_task]) (new_recycler None)) (beat now h) now now (started ++ [now])).
Proof.
  set (r := new_recycler None).
  apply (rtc_l _ _ (mkTimed (mkLoop Acquire (S free) tasks r) (beat now h) now now started)).
  { eapply step_to; [intros H; apply timed_quiet; [exact H|]|apply (loop_check 0)|]; reflexivity. }
  apply (rtc_l _ _ (mkTimed (mkLoop Reading free tasks r) (beat now h) now now started)).
  { eapply step_to; [intros H; apply timed_quiet; [exact H|]|apply loop_acquire|]; reflexivity. }
  apply rtc_once.
  eapply step_to; [intros H; apply (timed_task _ _ _ _ one_task); [exact H|]|by apply (loop_task [one_task])|]; reflexivity.
Qed.

Lemma quick_turns n h now since free tasks started :
  rtc step (mkTimed (mkLoop Head (S n + free) tasks (new_recycler None)) h now since started)
    (mkTimed (mkLoop Head free (tasks ++ repeat one_task (S n)) (new_recycler None)) (beat now h) now now
       (started ++ repeat now (S n))).
Proof.
  revert h since tasks started. induction n as [|n IH]; intros h since tasks started; [apply quick_turn|].
  etrans; [apply (quick_turn h now since (S n + free))|]. etrans; [apply IH|].
  rewrite <-!(assoc_L (++)). done.
Qed.

(** The tasks end one by one while the loop waits for a slot. *)
Lemma tasks_end n at0 h now since free :
  rtc step (mkTimed (mkLoop Acquire free (repeat one_task n) (new_recycler None)) h now since (repeat at0 n))
    (mkTimed (mkLoop Acquire (n + free) [] (new_recycler None)) h now since []).
Proof.
  revert free. induction n as [|n IH]; intros free; [done|].
  apply (rtc_l _ _ (mkTimed (mkLoop Acquire (S free) (repeat one_task n) (new_recycler None)) h now since (repeat at0 n))).
  { eapply step_to; [intros H; apply (timed_end _ _ _ _ [] one_task (repeat one_task n) [] at0 (repeat at0 n)); [exact H|..]
      |apply (loop_finish Acquire [] one_task)|]; reflexivity. }
  replace (S n + free)%nat with (n + S free)%nat by lia. apply IH.
Qed.

(** Ten jobs of 55 seconds start at [t0] and keep the loop waiting; it then reads an eleventh
    job after 5 seconds, is told to stop, and drains it. *)
Definition drained_late : timed :=
  mkTimed (mkLoop Draining 9 [one_task] (new_recycler None)) (mkHeartbeat t0) (t0 + seconds 115) (t0 + seconds 60)
    [t0 + seconds 60].

Lemma drained_late_reachable : rtc step (timed_start the_settings t0) drained_late.
Proof.
  set (r := new_recycler None). set (h := mkHeartbeat t0).
  etrans; [apply (quick_turns 9 h t0 t0 0 [] [])|].
  apply (rtc_l _ _ (mkTimed (mkLoop Acquire 0 (repeat one_task 10) r) h t0 t0 (repeat t0 10))).
  { eapply step_to; [intros H; apply timed_quiet; [exact H|]|apply (loop_check 0)|]; reflexivity. }
  eapply rtc_l; [apply (timed_wait _ _ _ slow_task); [by vm_compute|done|repeat constructor; by vm_compute]|].
  etrans; [apply (tasks_end 10 t0 h (t0 + slow_task) t0 0)|].
  apply (rtc_l _ _ (mkTimed (mkLoop Reading 9 [] r) h (t0 + slow_task) (t0 + slow_task) [])).
  { eapply step_to; [intros H; apply timed_quiet; [exact H|]|apply loop_acquire|]; reflexivity. }
  eapply rtc_l; [apply (timed_wait _ _ _ slow_read); [by vm_compute|by vm_compute|constructor]|].
  apply (rtc_l _ _ (mkTimed (mkLoop Head 9 [one_task] r) h (t0 + seconds 60) (t0 + seconds 60) [t0 + seconds 60])).
  { eapply step_to; [intros H; apply (timed_task _ _ _ _ one_task); [exact H|]|by apply (loop_task [one_task])|]; reflexivity. }
  apply (rtc_l _ _ (mkTimed (mkLoop Draining 9 [one_task] r) h (t0 + seconds 60) (t0 + seconds 60) [t0 + seconds 60])).
  { eapply step_to; [intros H; apply timed_quiet; [exact H|]|apply loop_stop|]; reflexivity. }
  change drained_late with
    (later slow_task (mkTimed (mkLoop Draining 9 [one_task] r) h (t0 + seconds 60) (t0 + seconds 60) [t0 + seconds 60])).
  apply rtc_once, timed_wait; [by vm_compute|done|repeat constructor; by vm_compute].
Qed.

(** Draining does not beat: a worker that does all its work within the bounds is reported
    dead while it drains. *)
Example draining_is_unhealthy :
  slow_task + slow_read <= worker_heartbeat_threshold_s the_settings /\
  rtc step (timed_start the_settings t0) drained_late /\
  answer the_settings drained_late = (503, ("unavailable", [("loop", "stale (115s > 60s)")]))%string.
Proof. split; [by vm_compute|]. split; [exact drained_late_reachable|by vm_compute]. Qed.

(** The full worker that waits for a slot is not. *)
Definition busy_worker : timed :=
  mkTimed (mkLoop Head 0 (repeat one_task 10) (new_recycler None)) (mkHeartbeat t0) t0 t0 (repeat t0 10).

Lemma busy_is_healthy_witness : answer the_settings busy_worker = (200, ("ok", [("loop", "ok")]))%string.
Proof.
  refine (proj1 (busy_is_healthy the_settings slow_task slow_read _ _ _ _ t0 busy_worker (quick_turns 9 _ t0 t0 0 [] [])) _ _);
    [vm_compute; discriminate|vm_compute; discriminate|apply Nat.lt_0_succ|vm_compute; discriminate|discriminate|discriminate].
Defined.
