(* ===== verification/HandlerFacts.v ===== *)
(** A batch is permissive: whatever its items do and whatever the rest of the
    deployment does meanwhile, the handler answers a summary that accounts for every
    item, or raises [JobCancelled] with a summary of the items already run. *)
From stdpp Require Import base tactics option list gmap strings numbers.
From S2P Require Import Prelude Prog Uuid Model Services Repository Handlers Payloads Scenario.
From S2P Require Import Worker Ticker Api Effects Along RetryFacts WorkerFacts.
Set Default Goal Selector "!".
Open Scope Z_scope.

(** The summary of the first [k] items of [n]. *)
Record accounts (n k : nat) (s : batch_summary) : Prop := {
  acc_total : bs_total s = Z.of_nat n;
  acc_succeeded : bs_succeeded s = Z.of_nat (length (bs_results s));
  acc_failed : bs_failed s = Z.of_nat (length (bs_errors s));
  (** every index of [0 .. k-1] occurs once, in the results or in the errors *)
  acc_indexes : (bs_results s).*1 ++ (bs_errors s).*1 ≡ₚ Z.of_nat <$> seq 0 k;
}.

Lemma accounts_total n k s : accounts n k s -> bs_succeeded s + bs_failed s = Z.of_nat k.
Proof.
  intros [_ -> -> Hp]. apply Permutation_length in Hp.
  rewrite length_app, !length_fmap, length_seq in Hp. lia.
Qed.

Lemma accounts_result n k s r : accounts n k s -> accounts n (S k) (add_result (Z.of_nat k) r s).
Proof.
  intros [H1 H2 H3 H4]. split;
    [done|cbn; rewrite length_app; cbn; lia|done|].
  rewrite seq_S, !fmap_app, <-H4. cbn. rewrite fmap_app. cbn. solve_Permutation.
Qed.

Lemma accounts_error n k s e : accounts n k s -> accounts n (S k) (add_error (Z.of_nat k) e s).
Proof.
  intros [H1 H2 H3 H4]. split;
    [done|done|cbn; rewrite length_app; cbn; lia|].
  rewrite seq_S, !fmap_app, <-H4. cbn. rewrite fmap_app. cbn. by rewrite <-app_assoc.
Qed.

Section Batch.
Context {PG : Postgres} {RD : Redis} {EN : Entropy}.

(** The exception a batch may raise, [n] items in all. *)
Definition cancelled_part (n : nat) (e : exn) : Prop :=
  exists s k, e = JobCancelled (summary_json s) /\ accounts n k s /\ (k < n)%nat.

Lemma batch_loop_accounts n items k c s :
  accounts n k s -> (k + length items = n)%nat ->
  returns (accounts n n) (batch_loop n k items c s) /\
  throws (cancelled_part n) (batch_loop n k items c s).
Proof.
  revert k c s. induction items as [|item items IH]; intros k c s Hs Hk; cbn [batch_loop].
  { simpl in *. by assert (k = n) as -> by lia. }
  simpl in Hk. split.
  - eapply returns_bind; [apply returns_any|]. intros [[|] c'] _; [done|].
    eapply returns_bind; [apply attempt_returns, throws_run_item|].
    intros [e|r] He; [destruct e; try done|]; (apply IH; [auto using accounts_result, accounts_error|lia]).
  - apply throws_bind; [apply throws_ctx_cancelled|]. intros [[|] c'].
    { exists s, k. split; [done|]. split; [done|lia]. }
    eapply throws_bind_returns; [apply throws_attempt|apply attempt_returns, throws_run_item|].
    intros [e|r] He; [destruct e; try done|]; (apply IH; [auto using accounts_result, accounts_error|lia]).
Qed.

Lemma accounts_start n : accounts n 0 (mkSummary (Z.of_nat n) 0 0 [] []).
Proof. by split. Qed.

(** C23: Whatever its items and its environment do, a batch handler that returns
    returns the summary of all its items, each index once among the results or the
    errors; and the only exception it raises is [JobCancelled], with the summary of
    the items before the checkpoint. *)
Theorem handle_batch_accounts items c :
  returns (fun v => exists s, v = summary_json s /\ accounts (length items) (length items) s)
    (handle_batch (BatchPayload items) c) /\
  throws (cancelled_part (length items)) (handle_batch (BatchPayload items) c).
Proof.
  destruct (batch_loop_accounts (length items) items 0 c _ (accounts_start _)) as [Hr Ht]; [done|].
  split; simpl.
  - eapply returns_bind; [exact Hr|]. intros s Hs. by exists s.
  - by apply throws_bind.
Qed.
End Batch.
