(* ===== verification/PayloadFacts.v ===== *)
(** What validation promises: the payload has the submitted type and every item of
    it, batch items included, is inside the allowlists; hosts match at label
    boundaries only. *)
From stdpp Require Import base tactics option list gmap strings numbers.
From Stdlib Require Import Ascii.
From S2P Require Import Prelude Prog Uuid Model Json Handlers Payloads Scenario.
Set Default Goal Selector "!".
Open Scope Z_scope.

(** * Text *)

Lemma ends_with_spec suffix l : ends_with suffix l = true <-> exists p, l = p ++ suffix.
Proof.
  unfold ends_with. rewrite bool_decide_eq_true. split.
  - intros [Hd Hl]. exists (take (length l - length suffix) l). by rewrite <-Hd at 2; rewrite take_drop.
  - intros [p ->]. rewrite length_app. split; [|lia]. replace (_ - _)%nat with (length p) by lia.
    apply drop_app_length.
Qed.

Lemma drop_while_head f l c r : drop_while f l = c :: r -> f c = false.
Proof. induction l as [|x l IH]; simpl; [done|]. destruct (f x) eqn:E; [auto|]. by intros [= -> _]. Qed.

(** A canonical host ends with no dot. *)
Lemma rstrip_dots_last l p : rstrip_dots l <> p ++ ["."%char].
Proof.
  unfold rstrip_dots. intros H. apply (f_equal (@rev ascii)) in H. rewrite rev_involutive, rev_app_distr in H.
  apply drop_while_head in H. done.
Qed.

(** * The host allowlist *)

Lemma entry_allows_iff h e :
  entry_allows h e = true <-> h = e \/ exists sub, h = sub ++ "."%char :: e.
Proof. unfold entry_allows. by rewrite orb_true_iff, bool_decide_eq_true, ends_with_spec. Qed.

Lemma host_allowed_entry host allowed :
  _host_allowed host allowed = true <->
  exists entry, entry ∈ allowed /\ entry_allows (canonical_host host) (canonical_entry entry) = true.
Proof. unfold _host_allowed. rewrite existsb_exists. by setoid_rewrite <-list_elem_of_In. Qed.

(** [host] names [h]: [h] is what it says, in lower case, before its trailing dots. *)
Definition dots (l : list ascii) : Prop := Forall (fun c => c = "."%char) l.
Definition host_names (host : string) (h : list ascii) : Prop :=
  last h <> Some "."%char /\ exists ds, dots ds /\ lower (text host) = h ++ ds.

(** [entry] names [e], the dots around it aside. *)
Definition entry_names (entry : string) (e : list ascii) : Prop :=
  head e <> Some "."%char /\ last e <> Some "."%char /\
  exists ds ds', dots ds /\ dots ds' /\ lower (text entry) = ds ++ e ++ ds'.

(** The host is the entry, or a subdomain of it: what comes before the entry ends at a
    label boundary. *)
Definition inside (host entry : string) : Prop :=
  exists h e, host_names host h /\ entry_names entry e /\
    (h = e \/ exists sub, h = sub ++ "."%char :: e).

Lemma drop_dots ds l : dots ds -> head l <> Some "."%char -> drop_while is_dot (ds ++ l) = l.
Proof.
  intros Hds Hl. induction Hds as [|c ds -> _ IH]; [|exact IH].
  destruct l as [|c l]; [done|]. simpl. unfold is_dot. rewrite bool_decide_false; [done|]. simpl in Hl. congruence.
Qed.

Lemma drop_dots_split l :
  exists ds, dots ds /\ l = ds ++ drop_while is_dot l /\ head (drop_while is_dot l) <> Some "."%char.
Proof.
  induction l as [|c l (ds & Hds & E & Hh)]; [exists []; by repeat constructor|].
  simpl. unfold is_dot at 1 3. case_bool_decide as Hc; [|exists []; split_and!; [constructor|done|simpl; congruence]].
  exists (c :: ds). split_and!; [by constructor|by rewrite E at 1|done].
Qed.

Lemma last_rev (l : list ascii) : last (rev l) = head l.
Proof. rewrite rev_alt. apply last_reverse. Qed.

Lemma dots_rev ds : dots ds -> dots (rev ds).
Proof. apply Forall_rev. Qed.

Lemma rstrip_dots_iff l h :
  rstrip_dots l = h <-> last h <> Some "."%char /\ exists ds, dots ds /\ l = h ++ ds.
Proof.
  unfold rstrip_dots. split.
  - intros <-. destruct (drop_dots_split (rev l)) as (ds & Hds & E & Hh). split.
    + by rewrite last_rev.
    + exists (rev ds). split; [by apply dots_rev|]. by rewrite <-rev_app_distr, <-E, rev_involutive.
  - intros [Hl (ds & Hds & ->)]. rewrite rev_app_distr, drop_dots; [apply rev_involutive|by apply dots_rev|].
    by rewrite <-last_rev, rev_involutive.
Qed.

Lemma host_names_iff host h : host_names host h <-> h = canonical_host host.
Proof. unfold host_names, canonical_host. rewrite <-rstrip_dots_iff. naive_solver. Qed.

Lemma entry_names_iff entry e : entry_names entry e <-> e = canonical_entry entry.
Proof.
  unfold entry_names, canonical_entry, strip_dots. generalize (lower (text entry)). intros l.
  change (strip_chars is_dot l) with (rstrip_dots (drop_while is_dot l)). split.
  - intros (Hh & Hl & ds & ds' & Hds & Hds' & ->). symmetry. apply rstrip_dots_iff. split; [done|].
    destruct e as [|c e]; cbn [app].
    + exists []. split; [constructor|]. rewrite <-(app_nil_r (ds ++ ds')). by rewrite drop_dots; [|apply Forall_app|].
    + exists ds'. split; [done|]. by rewrite drop_dots.
  - intros ->. destruct (drop_dots_split l) as (ds & Hds & E & Hh).
    destruct (proj1 (rstrip_dots_iff (drop_while is_dot l) _) eq_refl) as (Hl & ds' & Hds' & E').
    split_and!; [|done|exists ds, ds'; by rewrite <-E'].
    destruct (rstrip_dots _) as [|c e]; [done|]. rewrite E' in Hh. exact Hh.
Qed.

Lemma inside_iff host entry :
  inside host entry <-> entry_allows (canonical_host host) (canonical_entry entry) = true.
Proof.
  unfold inside. setoid_rewrite host_names_iff. setoid_rewrite entry_names_iff.
  rewrite entry_allows_iff. split; [by intros (h & e & -> & -> & ?)|]. intros H. by do 2 eexists.
Qed.

(** A webhook host is allowed exactly when, case and outer dots aside, it is an
    allowlisted entry or a subdomain of one: what precedes the entry ends with a dot,
    so a longer label with the same ending does not match. *)
Theorem host_allowed_iff host allowed :
  _host_allowed host allowed = true <-> exists entry, entry ∈ allowed /\ inside host entry.
Proof. rewrite host_allowed_entry. by setoid_rewrite inside_iff. Qed.

(** An allowlist of empty entries (what an unset variable leaves) allows no host
    but the empty one. *)
Theorem host_allowed_empty host allowed :
  Forall (fun entry => canonical_entry entry = []) allowed ->
  _host_allowed host allowed = true -> canonical_host host = [].
Proof.
  intros Hall (entry & Hin & Hhost%entry_allows_iff)%host_allowed_entry.
  rewrite Forall_forall in Hall. rewrite (Hall _ Hin) in Hhost.
  destruct Hhost as [Hhost|[sub Hhost]]; [done|]. by apply rstrip_dots_last in Hhost.
Qed.

(** * Validation *)

(** The policy on one item: a webhook's host (the empty text when its URL has none) is
    an allowlisted host or below one; what follows the last [@] of an address is an
    allowlisted domain, up to case. *)
Definition item_permitted (settings : Settings) (i : item_payload) : Prop :=
  match i with
  | WebhookPayload _ host _ => exists entry, entry ∈ webhook_allowed_hosts settings /\ inside (default "" host) entry
  | EmailPayload to _ _ => exists d, after_last_at (text to) = Some d /\
      exists entry, entry ∈ email_allowed_domains settings /\ lower (text entry) = lower d
  | ReportPayload _ _ => True
  end.

Definition payload_items (p : job_payload) : list item_payload :=
  match p with ItemPayload i => [i] | BatchPayload items => items end.

Lemma check_item_permitted settings i : check_item settings i = inr tt <-> item_permitted settings i.
Proof.
  destruct i as [to subject body|url host method|r params]; simpl.
  - destruct (after_last_at (text to)) as [d|]; [|naive_solver].
    transitivity (domain_allowed (lower d) (email_allowed_domains settings) = true).
    { destruct (domain_allowed _ _); naive_solver. }
    unfold domain_allowed. rewrite existsb_exists. setoid_rewrite <-list_elem_of_In.
    setoid_rewrite bool_decide_eq_true. naive_solver.
  - rewrite <-host_allowed_iff. destruct (_host_allowed _ _); naive_solver.
  - done.
Qed.

Lemma check_policy_permitted settings p :
  _check_policy settings p = inr tt <-> Forall (item_permitted settings) (payload_items p).
Proof.
  destruct p as [i|items]; simpl.
  - by rewrite Forall_singleton, check_item_permitted.
  - induction items as [|i items IH]; simpl; [done|].
    rewrite Forall_cons, <-check_item_permitted, <-IH. destruct (check_item settings i) as [e|[]]; naive_solver.
Qed.

Lemma dict_get_set k v l : NoDup l.*1 -> dict_get k (dict_set k v l) = Some v.
Proof.
  induction l as [|[k' v'] l IH]; simpl; [by rewrite decide_True|].
  rewrite NoDup_cons. intros [Hk Hnd]. case_bool_decide as E; simpl.
  - subst k'. assert (dict_get k l = None) as ->; [|by rewrite decide_True].
    clear -Hk. induction l as [|[k' v'] l IH]; simpl in *; [done|].
    rewrite IH by set_solver. rewrite decide_False; set_solver.
  - by rewrite IH.
Qed.

Lemma JobType_value_inj a b : JobType_value a = JobType_value b -> a = b.
Proof. by destruct a, b. Qed.

Section Validate.
Context {PY : Pydantic}.

(** C29: A payload that validates has the type it was submitted under, and every
    item of it, inside a batch as well, is permitted: each webhook's host is, case and
    trailing dots aside, an entry of the allowlist or ends with a dot and an entry, and
    each mail's domain is an entry of its allowlist up to case. *)
Theorem validate_payload_sound settings t l p :
  NoDup l.*1 -> validate_payload t (JObj l) (Some settings) = inr p ->
  payload_type p = t /\ Forall (item_permitted settings) (payload_items p).
Proof.
  intros Hnd. unfold validate_payload. destruct (validate_python _) as [e|q] eqn:E; [done|].
  destruct (_check_policy settings q) as [e|[]] eqn:Hpol; [done|]. intros [= <-]. split.
  - apply validate_discriminator in E. rewrite dict_get_set in E by done.
    apply JobType_value_inj. congruence.
  - by apply check_policy_permitted.
Qed.

(** The allowlist error is raised exactly for the payloads the schema accepts
    and the policy refuses; without settings no policy applies. *)
Theorem validate_payload_policy settings t l q :
  validate_python (JObj (dict_set "type" (JStr (JobType_value t)) l)) = inr q ->
  (validate_payload t (JObj l) (Some settings) = inr q <->
    Forall (item_permitted settings) (payload_items q)) /\
  validate_payload t (JObj l) None = inr q.
Proof.
  intros E. unfold validate_payload. rewrite E. split; [|done].
  rewrite <-check_policy_permitted. destruct (_check_policy settings q) as [e|[]]; naive_solver.
Qed.
End Validate.

(** * At concrete hosts and payloads *)

Example label_boundary :
  _host_allowed "hooks.Example.com." ["example.com"; ".internal"]%string = true /\
  _host_allowed "evil-example.com" ["example.com"; ".internal"]%string = false /\
  _host_allowed "a.internal" ["example.com"; ".internal"]%string = true.
Proof. vm_compute. done. Qed.

Lemma host_allowed_empty_witness :
  _host_allowed "." [""; "."]%string = true /\ canonical_host "." = [].
Proof.
  assert (_host_allowed "." [""; "."]%string = true) as H by (vm_compute; reflexivity).
  split; [exact H|]. apply (host_allowed_empty "." [""; "."]%string); [|exact H].
  repeat constructor.
Defined.

(** A batch of a webhook on a subdomain of the one allowlisted host and a report. *)
Definition hook_batch_json : list (string * json) :=
  [("items", JArr [JObj [("type", JStr "webhook"); ("url", JStr "https://hooks.example.com./x")];
                   JObj [("type", JStr "report"); ("report_type", JStr "sales")]])]%string.
Definition hook_batch_items : list item_payload :=
  match validate_payload batch (JObj hook_batch_json) (Some hook_settings) with
  | inr (BatchPayload items) => items
  | _ => []
  end.

Example hook_batch_host :
  head hook_batch_items = Some (WebhookPayload "https://hooks.example.com./x" (Some "hooks.example.com.") "POST")%string.
Proof. vm_compute. reflexivity. Qed.

Lemma hook_fields_unique : NoDup hook_batch_json.*1.
Proof. apply (bool_decide_unpack _). vm_compute. exact I. Qed.

Lemma validate_payload_sound_witness :
  length hook_batch_items = 2%nat /\
  payload_type (BatchPayload hook_batch_items) = batch /\
  Forall (item_permitted hook_settings) hook_batch_items.
Proof.
  split; [vm_compute; reflexivity|].
  apply (validate_payload_sound hook_settings batch hook_batch_json).
  - exact hook_fields_unique.
  - vm_compute. reflexivity.
Defined.

Lemma validate_payload_policy_witness :
  validate_payload report report_json None = inr (ItemPayload (ReportPayload sales None)).
Proof.
  apply (validate_payload_policy the_settings report [("report_type", JStr "sales")]%string).
  vm_compute. reflexivity.
Defined.
