(* ===== verification/QueueFacts.v ===== *)
(** What the queue promises without interference: strict priority between streams,
    idempotent creation of groups, and a promotion that enqueues before it forgets. *)
From stdpp Require Import base tactics option list gmap strings numbers relations.
From S2P Require Import Prelude Prog Uuid Model Services Repository RepositoryFacts Queue Retry Handlers Worker Ticker Api Effects Scenario.
Set Default Goal Selector "!".
Open Scope Z_scope.

Section Queue.
Context {PG : Postgres} {RD : Redis} {EN : Entropy} {OT : Otel}.
Implicit Types (w : world) (r : rd).

(** Two Redis states no client can tell apart. *)
Record same_redis r r' : Prop := mkSame {
  same_group s g : rd_group r' s g = rd_group r s g;
  same_zset z : rd_zset r' z = rd_zset r z;
}.

#[export] Instance same_redis_equiv : Equivalence same_redis.
Proof.
  split; [by intros r|intros r r' [H1 H2]; by split|].
  intros r1 r2 r3 [H1 H2] [H3 H4]. split; intros; [by rewrite H3|by rewrite H4].
Qed.

Definition groups_exist r group (streams : list string) : Prop :=
  forall s, s ∈ streams -> is_Some (rd_group r s group).

(** No message of [s] waits for the group. *)
Definition idle r group s : Prop := exists v, rd_group r s group = Some v /\ g_fresh v = [].

Lemma deliver_idle n c now v : g_fresh v = [] -> deliver n c now v = v.
Proof. destruct v as [f p]. simpl. intros ->. unfold deliver. simpl. by rewrite drop_nil, take_nil, app_nil_r. Qed.

(** ** Reads *)

Lemma xreadgroup_one r s group c n now v :
  rd_group r s group = Some v ->
  (xreadgroup [s] group c n now r).2 = inr (read_reply n [(s, v)]) /\
  (forall s' g', rd_group (xreadgroup [s] group c n now r).1 s' g' =
    if decide (s' = s /\ g' = group) then Some (deliver n c now v) else rd_group r s' g').
Proof.
  intros Hv. destruct (xreadgroup_ok [s] group c n now r [(s, v)]) as [H1 H2].
  - apply NoDup_singleton.
  - constructor; [done|constructor].
  - split; [done|]. intros s' g'. rewrite H2.
    destruct (decide (s' ∈ [s] /\ g' = group)) as [[Hs ->]|Hn].
    + apply list_elem_of_singleton in Hs as ->. rewrite decide_True, Hv by done. done.
    + rewrite decide_False; [done|]. intros [-> ->]. apply Hn. set_solver.
Qed.

(** Reading idle streams answers nothing and changes nothing. *)
Lemma xreadgroup_idle r ss group c n now :
  NoDup ss -> (forall s, s ∈ ss -> idle r group s) ->
  (xreadgroup ss group c n now r).2 = inr [] /\ same_redis r (xreadgroup ss group c n now r).1.
Proof.
  intros Hnd Hidle.
  assert (exists views, Forall2 (fun s v => v.1 = s /\ rd_group r s group = Some v.2) ss views /\
    Forall (fun v : string * group_view => g_fresh v.2 = []) views) as (views & Hviews & Hempty).
  { clear Hnd. induction ss as [|s ss IH]; [by exists []|].
    destruct IH as (views & H1 & H2); [set_solver|].
    destruct (Hidle s) as (v & Hv & Hf); [set_solver|].
    exists ((s, v) :: views). split; constructor; done. }
  destruct (xreadgroup_ok ss group c n now r views Hnd Hviews) as [-> H].
  split.
  - f_equal. unfold read_reply. clear -Hempty. induction Hempty as [|[s v] views Hv _ IH]; [done|].
    simpl in *. rewrite Hv, take_nil. rewrite filter_cons_False; [done|]. naive_solver.
  - split; intros; [|apply xreadgroup_zset]. rewrite H. case_decide as Hs; [|done].
    destruct Hs as [Hs ->]. destruct (Hidle _ Hs) as (v & -> & Hf). simpl. by rewrite deliver_idle.
Qed.

(** What a read of [n] messages for [consumer] took: the front of the highest
    non-empty stream. *)
Definition took_front r r' group consumer n now (streams : list string) (msgs : list delivery) : Prop :=
  exists hi s lo v, streams = hi ++ s :: lo /\ (forall s', s' ∈ hi -> idle r group s') /\
    rd_group r s group = Some v /\ g_fresh v <> [] /\
    msgs = (fun m : stream_id * fields => (s, m.1, m.2)) <$> take n (g_fresh v) /\
    (forall s' g', rd_group r' s' g' =
      if decide (s' = s /\ g' = group) then Some (deliver n consumer now v) else rd_group r s' g').

Lemma idle_same r r' group s : same_redis r r' -> idle r' group s -> idle r group s.
Proof. intros Hs (v & Hv & Hf). exists v. by rewrite <-(same_group _ _ Hs). Qed.

Lemma took_front_skip r r1 r' group c n now s streams msgs :
  idle r group s -> same_redis r r1 ->
  took_front r1 r' group c n now streams msgs -> took_front r r' group c n now (s :: streams) msgs.
Proof.
  intros Hs Hsame (hi & s0 & lo & v & -> & Hhi & Hv & Hf & Hm & Hg).
  exists (s :: hi), s0, lo, v. split; [done|]. split.
  { intros s' [->|Hs']%elem_of_cons; [done|]. eapply idle_same; eauto. }
  split; [by rewrite <-(same_group _ _ Hsame)|]. split; [done|]. split; [done|].
  intros s' g'. rewrite Hg. case_decide; [done|]. apply (same_group _ _ Hsame).
Qed.

Lemma probe_spec group consumer n streams w :
  (0 < n)%nat -> groups_exist (w_redis w) group streams ->
  exists w', rows w' = rows w /\ w_now w' = w_now w /\
    ((exists msgs, exec (probe group consumer n streams) w = (w', inr (Some msgs)) /\
        took_front (w_redis w) (w_redis w') group consumer n (w_now w) streams msgs) \/
     (exec (probe group consumer n streams) w = (w', inr None) /\
        (forall s, s ∈ streams -> idle (w_redis w) group s) /\ same_redis (w_redis w) (w_redis w'))).
Proof.
  intros Hn. revert w. induction streams as [|s streams IH]; intros w Hex; cbn [probe].
  { exists w. split; [done|]. split; [done|]. right. split; [done|]. split; [set_solver|done]. }
  destruct (Hex s) as [v Hv]; [set_solver|]. autorewrite with jobs_rw.
  destruct (xreadgroup_one (w_redis w) s group consumer n (w_now w) v Hv) as [Hmsgs Hg].
  destruct (decide (g_fresh v = [])) as [Hempty|Hne].
  - destruct (xreadgroup_idle (w_redis w) [s] group consumer n (w_now w)) as [-> Hsame].
    { apply NoDup_singleton. }
    { intros s' ->%list_elem_of_singleton. by exists v. }
    cbn [_flatten].
    set (w1 := with_redis _ w).
    destruct (IH w1) as (w' & Hr & Ht & H).
    { intros s' Hs'. subst w1; simpl. rewrite (same_group _ _ Hsame). apply Hex. set_solver. }
    exists w'. split; [done|]. split; [done|].
    assert (idle (w_redis w) group s) as Hidle by (by exists v).
    destruct H as [(msgs & E & Htook)|(E & Hall & Hs')].
    + left. exists msgs. split; [done|]. by eapply took_front_skip.
    + right. split; [done|]. split; [|by etrans].
      intros s' [->|Hs1]%elem_of_cons; [done|]. eapply idle_same; [exact Hsame|]. by apply Hall.
  - rewrite Hmsgs. assert (take n (g_fresh v) <> []) as Htake by (destruct n; [lia|by destruct (g_fresh v)]).
    assert (_flatten (read_reply n [(s, v)]) = (fun m : stream_id * fields => (s, m.1, m.2)) <$> take n (g_fresh v)) as ->.
    { unfold read_reply. simpl. rewrite filter_cons_True by done. simpl. by rewrite app_nil_r. }
    exists (with_redis (xreadgroup [s] group consumer n (w_now w) (w_redis w)).1 w).
    split; [done|]. split; [done|]. left.
    exists ((fun m : stream_id * fields => (s, m.1, m.2)) <$> take n (g_fresh v)). split.
    + destruct (take n (g_fresh v)); [done|reflexivity].
    + exists [], s, streams, v. split; [done|]. split; [set_solver|]. done.
Qed.

(** How the last read ends when no message comes: a [block] that is negative is an error
    of the client's, one of zero waits without end, and another one for its time. *)
Definition waits (block_ms : Z) (w w' : world) (r : exn + list delivery) : Prop :=
  if block_ms <? 0 then w_now w' = w_now w /\ exists name msg, r = inl (OtherError name msg)
  else if block_ms =? 0 then w_now w' = w_now w /\ r = inl OutOfFuel
  else w_now w' = w_now w + block_ms * 1000 /\ r = inr [].

(** C19: Strict priority: a read takes the front of the first stream that has a
    message, only when every stream before it has none, and delivers exactly those
    messages to the consumer; when no stream has one it changes nothing and waits
    [block_ms] (without end for 0; a negative one is an error). *)
Theorem read_priority_strict streams group consumer block_ms n w :
  NoDup streams -> (0 < n)%nat -> groups_exist (w_redis w) group streams ->
  exists w' (r : exn + list delivery), exec (read_priority streams group consumer block_ms n) w = (w', r) /\
    rows w' = rows w /\
    ((exists msgs, r = inr msgs /\
        took_front (w_redis w) (w_redis w') group consumer n (w_now w) streams msgs) \/
     (forall s, s ∈ streams -> idle (w_redis w) group s) /\
       same_redis (w_redis w) (w_redis w') /\ waits block_ms w w' r).
Proof.
  intros Hnd Hn Hex. unfold read_priority.
  destruct (probe_spec group consumer n streams w Hn Hex) as (w1 & R1 & T1 & [(msgs & E & H)|(E & Hidle & Hs1)]).
  - exists w1, (inr msgs). rewrite exec_bind, E. split; [done|]. split; [done|]. left. by exists msgs.
  - rewrite exec_bind, E. unfold waits. destruct (block_ms <? 0).
    { exists w1. eexists. split; [done|]. split; [done|]. right. by repeat (split; [done|]); eauto. }
    autorewrite with jobs_rw.
    destruct (xreadgroup_idle (w_redis w1) streams group consumer n (w_now w1)) as [-> Hs2]; [done| |].
    { intros s Hs. eapply idle_same; [symmetry; exact Hs1|]. by apply Hidle. }
    destruct (block_ms =? 0); simpl; do 2 eexists; (split; [done|]); (split; [done|]); right;
      (split; [done|]); (split; [by etrans|]); by rewrite T1.
Qed.

(** ** Groups *)

Lemma exec_ensure_group s g w :
  exists w', exec (ensure_group s g) w = (w', inr tt) /\ rows w' = rows w /\ w_now w' = w_now w /\
    rd_group (w_redis w') s g = Some (default (mkGroup [] []) (rd_group (w_redis w) s g)) /\
    (forall s' g', (s', g') <> (s, g) -> rd_group (w_redis w') s' g' = rd_group (w_redis w) s' g') /\
    (forall z, rd_zset (w_redis w') z = rd_zset (w_redis w) z).
Proof.
  exists (with_redis (xgroup_create s g (w_redis w)).1 w).
  unfold ensure_group. autorewrite with jobs_rw.
  split; [|split; [done|split; [done|]]].
  - destruct (rd_group (w_redis w) s g) as [v|] eqn:Hv.
    + destruct (xgroup_create_busy s g (w_redis w)) as [-> _]; [by rewrite Hv|]. done.
    + destruct (xgroup_create_new s g (w_redis w)) as [-> _]; done.
  - simpl. split; [|split; intros; [by apply xgroup_create_frame|apply xgroup_create_zset]].
    destruct (rd_group (w_redis w) s g) as [v|] eqn:Hv; simpl.
    + destruct (xgroup_create_busy s g (w_redis w)) as [_ ->]; by rewrite Hv.
    + by destruct (xgroup_create_new s g (w_redis w)) as [_ ->].
Qed.

(** Creating the group of a stream is idempotent: it exists afterwards, an
    existing one is kept as it is with its undelivered and pending entries, and no
    other group or set changes. *)
Theorem ensure_group_spec s g w :
  exists w', exec (ensure_group s g) w = (w', inr tt) /\ rows w' = rows w /\ w_now w' = w_now w /\
    rd_group (w_redis w') s g = Some (default (mkGroup [] []) (rd_group (w_redis w) s g)) /\
    (forall s' g', (s', g') <> (s, g) -> rd_group (w_redis w') s' g' = rd_group (w_redis w) s' g') /\
    (forall z, rd_zset (w_redis w') z = rd_zset (w_redis w) z).
Proof. apply exec_ensure_group. Qed.

(** ** Promotion *)

(** The fields of the messages that [routed] sends to the stream [s], in order. *)
Definition sent_to (s : string) (routed : list (string * fields)) : list fields :=
  (filter (fun sf : string * fields => sf.1 = s) routed).*2.

(** Exactly the messages of [routed] were appended, each to its stream. *)
Definition appended (routed : list (string * fields)) r r' : Prop :=
  (forall z, rd_zset r' z = rd_zset r z) /\
  exists new : string -> list (stream_id * fields),
    (forall s, (new s).*2 = sent_to s routed) /\
    forall s g, rd_group r' s g = (fun v => mkGroup (g_fresh v ++ new s) (g_pel v)) <$> rd_group r s g.

Lemma appended_nil r : appended [] r r.
Proof.
  split; [done|]. exists (fun _ => []). split; [done|]. intros s g.
  destruct (rd_group r s g) as [[f p]|]; simpl; [by rewrite app_nil_r|done].
Qed.

Lemma appended_xadd routed s f now r r1 :
  appended routed r r1 -> appended (routed ++ [(s, f)]) r (xadd s f now r1).1.
Proof.
  intros [Hz (new & Hnew & Hg)]. split; [intros z; by rewrite xadd_zset|].
  exists (fun s' => if decide (s' = s) then new s' ++ [((xadd s f now r1).2, f)] else new s'). split.
  - intros s'. unfold sent_to. rewrite filter_app, fmap_app. case_decide as Hs.
    + subst s'. rewrite fmap_app, Hnew, filter_cons_True by done. done.
    + rewrite filter_cons_False by (simpl; congruence). by rewrite app_nil_r, Hnew.
  - intros s' g. rewrite xadd_group. case_decide as Hs; rewrite Hg; [|done].
    destruct (rd_group r s' g); simpl; [by rewrite app_assoc|done].
Qed.

Lemma always_enqueue_all r0 m sent todo w :
  appended sent r0 (w_redis w) -> rows w = m ->
  always (fun w' => exists k, appended (sent ++ take k todo) r0 (w_redis w') /\ rows w' = m)
    (for_each (fun sf : string * fields => _ ← redis_do (xadd sf.1 sf.2); Ret tt) todo)
    (fun res w' => res = inr tt /\ appended (sent ++ todo) r0 (w_redis w') /\ rows w' = m /\ w_now w' = w_now w) w.
Proof.
  revert sent w. induction todo as [|[s f] todo IH]; intros sent w Hsent Hm.
  - rewrite app_nil_r. split; [|done]. exists 0%nat. by rewrite app_nil_r.
  - split; [exists 0%nat; by rewrite app_nil_r|].
    set (w1 := with_redis (xadd s f (w_now w) (w_redis w)).1 w).
    assert (appended (sent ++ [(s, f)]) r0 (w_redis w1)) as H1 by by apply appended_xadd.
    eapply always_weaken; [eapply always_mono; [exact (IH _ w1 H1 Hm)|]|].
    + intros res w' _. by rewrite <-app_assoc.
    + intros w' (k & Hk & Hr). exists (S k). by rewrite <-app_assoc in Hk.
Qed.

Lemma exec_enqueue_all routed w :
  exists w', exec (for_each (fun sf : string * fields => _ ← redis_do (xadd sf.1 sf.2); Ret tt) routed) w =
      (w', inr tt) /\
    appended routed (w_redis w) (w_redis w') /\ rows w' = rows w /\ w_db w' = w_db w /\ w_now w' = w_now w.
Proof.
  destruct (always_exec _ _ _ _ (always_enqueue_all (w_redis w) (rows w) [] routed w (appended_nil _) eq_refl))
    as [_ (E & Happ & Hr & Ht)].
  eexists. split; [by rewrite <-E, <-surjective_pairing|]. split; [done|]. split; [done|]. split; [|done].
  clear. revert w. induction routed as [|[s f] routed IH]; intros w; [done|].
  exact (IH (with_redis (xadd s f (w_now w) (w_redis w)).1 w)).
Qed.

(** Every message of [routed] is in the groups of its stream. *)
Definition all_sent (routed : list (string * fields)) r r' : Prop :=
  forall s f g v, (s, f) ∈ routed -> rd_group r s g = Some v ->
    exists v', rd_group r' s g = Some v' /\ f ∈ (g_fresh v').*2.

Lemma appended_sent routed r r' : appended routed r r' -> all_sent routed r r'.
Proof.
  intros [_ (new & Hnew & Hg)] s f g v Hin Hv. rewrite Hg, Hv. simpl. eexists. split; [done|]. simpl.
  rewrite fmap_app, elem_of_app, Hnew. right. unfold sent_to.
  apply list_elem_of_fmap. exists (s, f). split; [done|]. by apply list_elem_of_filter.
Qed.

(** Promotion loses nothing in a crash: wherever it stops, either the delayed set
    is untouched, or every routed message has been appended to its stream and only
    then the ids are removed; the table is not touched. *)
Theorem promote_crash_safe zset routed ids n w :
  let w' := exec_upto n (promote zset routed ids) w in
  rows w' = rows w /\
  ((forall z, rd_zset (w_redis w') z = rd_zset (w_redis w) z) \/
   all_sent routed (w_redis w) (w_redis w')).
Proof.
  set (ok := fun w' : world => rows w' = rows w /\
    ((forall z, rd_zset (w_redis w') z = rd_zset (w_redis w) z) \/ all_sent routed (w_redis w) (w_redis w'))).
  apply (always_upto ok _ (fun _ _ => True)).
  assert (ok w) as Hok by (split; [done|by left]). destruct ids as [|i ids]; [done|].
  apply always_bind. eapply always_weaken; [eapply always_mono|].
  - apply (always_enqueue_all (w_redis w) (rows w) [] routed w); [apply appended_nil|done].
  - intros res w1 _ (-> & Happ & Hr & _). simpl. split.
    + split; [done|]. left. apply Happ.
    + split; [|done]. split; [done|]. right. simpl.
      intros s f g v Hin Hv. destruct (appended_sent _ _ _ Happ s f g v Hin Hv) as (v' & Hv' & Hf).
      exists v'. by rewrite zrem_group.
  - intros w' (k & [Hz _] & Hr). split; [done|by left].
Qed.
End Queue.

(** * At the queue of the scenario *)

Lemma ordered_streams_NoDup : NoDup (ordered_streams the_settings).
Proof. apply (bool_decide_unpack _). vm_compute. exact I. Qed.

Lemma submitted_groups : groups_exist (w_redis submitted_world) "workers" (ordered_streams the_settings).
Proof.
  intros s Hs. repeat (apply elem_of_cons in Hs as [->|Hs]); [..|exfalso; exact (not_elem_of_nil _ Hs)];
    vm_compute; eexists; reflexivity.
Qed.

Lemma read_priority_strict_witness :
  exists w' r, exec (read_priority (ordered_streams the_settings) "workers" "w1" 5000 1) submitted_world = (w', r) /\
    rows w' = rows submitted_world.
Proof.
  pose proof (read_priority_strict (ordered_streams the_settings) "workers" "w1" 5000 1 submitted_world
    ordered_streams_NoDup Nat.lt_0_1 submitted_groups) as H.
  destruct H as (w' & r & E & R & _). exists w', r. exact (conj E R).
Defined.
