(* ===== verification/TickerFacts.v ===== *)
(** The ticker's jobs without interference: promotion, recovery of unsynced rows and
    reaping each terminate with the stated effect. *)
From stdpp Require Import base tactics option list gmap strings numbers relations sorting.
From S2P Require Import Prelude Prog Uuid Model Services Repository RepositoryFacts Queue Retry Handlers Payloads Worker Ticker Api Effects Along Scenario RetryFacts QueueFacts.
Set Default Goal Selector "!".
Open Scope Z_scope.

Section Ticker.
Context {PG : Postgres} {RD : Redis} {EN : Entropy} {OT : Otel}.
Context (settings : Settings).
Implicit Types (w : world).

(** * Promotion *)

(** The stream of a priority, and the message that hands the job of a row over: the id as
    the delayed set has it, and the trace of the row's stored context if that is not
    empty. *)
Definition stream_of (p : JobPriority) : string :=
  match p with high => stream_high settings | normal => stream_normal settings | low => stream_low settings end.

Definition handover (i : string) (j : Job) : string * fields :=
  (stream_of (j_priority j),
   inject (c ← j_trace_context j; if decide (c = ∅) then None else Some c) {["job_id" := i]})%string.

(** [handed_over m ids sent]: each of the ids with a row in [m] is handed over by its one
    message, in the order of the ids, and the others by none. *)
Inductive handed_over (m : gmap uuid Job) : list string -> list (string * fields) -> Prop :=
| handed_none : handed_over m [] []
| handed_row i u j ids sent :
    parse_uuid i = Some u -> m !! u = Some j -> handed_over m ids sent ->
    handed_over m (i :: ids) (handover i j :: sent)
| handed_gone i u ids sent :
    parse_uuid i = Some u -> m !! u = None -> handed_over m ids sent -> handed_over m (i :: ids) sent.

Lemma message_handover i j :
  (stream_for_priority settings (j_priority j),
   message_fields (stream_for_priority settings (j_priority j)) i (j_trace_context j)) = handover i j.
Proof.
  unfold handover, message_fields. f_equal; [by destruct (j_priority j)|]. f_equal.
  destruct (j_trace_context j) as [c|]; [|done]. simpl. case_bool_decide; by case_decide.
Qed.

(** The promotion info holds the priority and the context of each row asked for. *)
Lemma promotion_info us d u :
  u ∈ us -> get_promotion_info us d !! u = (fun j => (j_priority j, j_trace_context j)) <$> pg_rows d !! u.
Proof.
  intros Hu. unfold get_promotion_info. destruct us as [|u0 us]; [by apply not_elem_of_nil in Hu|].
  set (all := u0 :: us) in *. set (chosen := pg_select _ d).
  assert (forall j, j ∈ chosen <-> pg_rows d !! j_id j = Some j /\ j_id j ∈ all) as Hsel.
  { intros j. unfold chosen. rewrite elem_of_pg_select. by rewrite bool_decide_eq_true. }
  assert (NoDup (fst <$> ((fun j => (j_id j, (j_priority j, j_trace_context j))) <$> chosen))) as Hnd.
  { rewrite <-list_fmap_compose. apply NoDup_fmap_2_strong; [|apply pg_select_NoDup].
    intros a b [Ha _]%Hsel [Hb _]%Hsel E. simpl in E. rewrite E in Ha. congruence. }
  destruct (pg_rows d !! u) as [j|] eqn:Hj; simpl.
  - pose proof (pg_primary_key _ _ _ Hj) as Hid. apply elem_of_list_to_map_1; [done|].
    apply list_elem_of_fmap. exists j. rewrite <-Hid. split; [done|]. apply Hsel. by rewrite Hid.
  - apply not_elem_of_list_to_map_1. rewrite <-list_fmap_compose. intros (j & -> & Hin)%list_elem_of_fmap.
    apply Hsel in Hin as [Hj' _]. simpl in Hj. congruence.
Qed.

(** [route] sends just those messages. *)
Lemma route_handed_over d ids us all :
  parse_ids ids = inr us -> us ⊆ all ->
  handed_over (pg_rows d) ids (route settings (get_promotion_info all d) ids).
Proof.
  revert us. induction ids as [|i ids IH]; intros us; simpl; [constructor|].
  destruct (parse_uuid i) as [u|] eqn:Hi; [|done].
  destruct (parse_ids ids) as [e|us'] eqn:Hus; [done|]. intros [= <-] Hall. simpl.
  specialize (IH us' eq_refl ltac:(set_solver)). rewrite (promotion_info all d u) by set_solver.
  destruct (pg_rows d !! u) as [j|] eqn:Hj; simpl; [|by eapply handed_gone].
  rewrite message_handover. by eapply handed_row.
Qed.

(** C22: Promotion of the due jobs: each due id with a row gets exactly one message, in
    the order of the ids, on the stream of the row's priority, with the id and the row's
    trace context, and a due id without a row gets none; the due ids leave the delayed
    set and no other does, and the due rows that are scheduled become pending; nothing
    else changes. *)
Theorem promote_due_spec w us :
  let ids := zrangebyscore (delayed_zset settings) 0 (w_now w) (ticker_batch_size settings) (w_redis w) in
  parse_ids ids = inr us -> ids <> [] ->
  exists w', exec (promote_due settings) w = (w', inr (length ids)) /\
    (forall k, rows w' !! k =
      (fun j => if bool_decide (k ∈ us) && status_in [scheduled] j then set_status pending j else j)
        <$> rows w !! k) /\
    (forall z, rd_zset (w_redis w') z =
      if decide (z = delayed_zset settings)
      then filter (fun kv : string * Z => kv.1 ∉ ids) (rd_zset (w_redis w) z) else rd_zset (w_redis w) z) /\
    (exists sent r1, handed_over (rows w) ids sent /\ appended sent (w_redis w) r1 /\
      forall s g, rd_group (w_redis w') s g = rd_group r1 s g).
Proof.
  intros ids Hus Hne. unfold promote_due, due_job_ids. rewrite exec_bind, exec_clock. cbv beta.
  rewrite exec_bind, exec_redis_do. cbn [fst snd]. fold ids.
  destruct ids as [|i ids'] eqn:Hids; [done|]. rewrite exec_bind, exec_or_raise, Hus.
  rewrite exec_bind, exec_pg_read. unfold promote. rewrite exec_bind, exec_bind. cbv beta.
  set (routed := route _ _ _). set (w0 := with_redis (w_redis w) w).
  destruct (exec_enqueue_all routed w0) as (w1 & -> & Happ & Hr & Hd & Ht).
  autorewrite with jobs_rw. rewrite exec_pg. cbn [fst snd].
  eexists. split; [done|]. split; [|split].
  - intros k. unfold rows. cbn [w_db with_db with_redis]. rewrite promote_rows, Hd. done.
  - intros z. cbn [w_redis with_db with_redis]. rewrite zrem_zset.
    by rewrite (proj1 Happ).
  - exists routed, (w_redis w1). split; [by eapply route_handed_over|]. split; [exact Happ|]. intros s g. cbn [w_redis with_db with_redis]. apply zrem_group.
Qed.

(** * Recovery of unsynced rows *)

(** The hand-off of a row to Redis. *)
Definition handoff (now : datetime) (j : Job) (r : rd) : rd :=
  match j_status j, j_scheduled_at j with
  | scheduled, Some t => (zadd (delayed_zset settings) (str_uuid (j_id j)) t r).1
  | _, _ =>
      let stream := stream_for_priority settings (j_priority j) in
      (xadd stream (message_fields stream (str_uuid (j_id j)) (j_trace_context j)) now r).1
  end.

(** A row the reconciler does not skip. *)
Definition placeable (j : Job) : Prop := j_status j = scheduled -> is_Some (j_scheduled_at j).

Lemma wf_placeable j : job_wf j = true -> placeable j.
Proof. unfold job_wf, placeable. intros Hwf Hst. rewrite Hst in Hwf. simp_bool. done. Qed.

Lemma reconcile_one_exec w j :
  rows w !! j_id j = Some j -> placeable j ->
  exists w', exec (reconcile_one settings j) w = (w', inr true) /\
    rows w' = <[j_id j := set_is_synced_to_redis true j]> (rows w) /\
    w_redis w' = handoff (w_now w) j (w_redis w) /\ w_now w' = w_now w.
Proof.
  intros Hj Hpl. unfold reconcile_one, handoff, handoff_scheduled, handoff_pending, schedule, enqueue.
  case_decide as Hst.
  - destruct (Hpl Hst) as [t Ht]. rewrite Ht, Hst. autorewrite with jobs_rw. cbn [fst snd].
    synced as (w2 & E2 & [R2 F2 N2 _]); [by rewrite rows_with_redis|]. rewrite E2.
    eexists. split; [done|]. by rewrite R2, F2, N2.
  - autorewrite with jobs_rw. cbn [fst snd].
    synced as (w2 & E2 & [R2 F2 N2 _]); [by rewrite rows_with_redis|]. rewrite E2.
    eexists. split; [done|]. rewrite R2, F2, N2. split; [done|]. split; [|done].
    by destruct (j_status j).
Qed.

(** The table with the rows of [ids] marked as synced. *)
Definition mark (ids : list uuid) (m : gmap uuid Job) : gmap uuid Job :=
  (fun j => if bool_decide (j_id j ∈ ids) then set_is_synced_to_redis true j else j) <$> m.

(** Keys are the ids of their rows. *)
Definition keyed (m : gmap uuid Job) : Prop := forall k j, m !! k = Some j -> j_id j = k.

Lemma mark_nil m : mark [] m = m.
Proof. unfold mark. apply map_eq. intros k. rewrite lookup_fmap. by destruct (m !! k). Qed.

Lemma mark_cons m j ids :
  keyed m -> m !! j_id j = Some j ->
  mark ids (<[j_id j := set_is_synced_to_redis true j]> m) = mark (j_id j :: ids) m.
Proof.
  intros Hk Hj. unfold mark. apply map_eq. intros k. rewrite !lookup_fmap.
  destruct (decide (k = j_id j)) as [->|Hne].
  - rewrite lookup_insert_eq, Hj. simpl. rewrite (bool_decide_eq_true_2 (_ ∈ _ :: _)) by set_solver.
    by destruct (bool_decide _).
  - rewrite lookup_insert_ne by done. destruct (m !! k) as [j'|] eqn:E; [|done]. simpl.
    apply Hk in E. rewrite (bool_decide_ext (j_id j' ∈ ids) (j_id j' ∈ j_id j :: ids)); [done|].
    rewrite elem_of_cons. naive_solver.
Qed.

Lemma reconcile_rows_exec w l n :
  NoDup (j_id <$> l) -> (forall j, j ∈ l -> rows w !! j_id j = Some j /\ placeable j) ->
  exists w', exec (reconcile_rows settings l n) w = (w', inr (n + length l)%nat) /\
    rows w' = mark (j_id <$> l) (rows w) /\
    w_redis w' = foldl (fun r j => handoff (w_now w) j r) (w_redis w) l /\ w_now w' = w_now w.
Proof.
  revert w n. induction l as [|j l IH]; intros w n Hnd Hl; cbn [reconcile_rows].
  { exists w. rewrite mark_nil, Nat.add_0_r. done. }
  apply NoDup_cons in Hnd as [Hj Hnd]. destruct (Hl j) as [Hrow Hpl]; [set_solver|].
  destruct (reconcile_one_exec w j Hrow Hpl) as (w1 & E1 & R1 & F1 & N1).
  destruct (IH w1 (S n) Hnd) as (w2 & E2 & R2 & F2 & N2).
  { intros j' Hj'. destruct (Hl j') as [Hrow' Hpl']; [set_solver|]. split; [|done].
    rewrite R1, lookup_insert_ne; [done|]. intros Heq. apply Hj. rewrite Heq.
    by apply list_elem_of_fmap_2. }
  exists w2. rewrite exec_bind, E1, E2. split; [f_equal; f_equal; simpl; lia|].
  rewrite R2, R1, F2, F1, N2, N1. split; [|done].
  apply mark_cons; [exact (rows_keyed _)|done].
Qed.

(** The rows waiting for a hand-off, in no order. *)
Definition waiting (cutoff : datetime) (m : gmap uuid Job) : list Job :=
  filter (fun j => unsynced cutoff j = true) (map_to_list m).*2.

Lemma elem_of_waiting cutoff m j :
  keyed m -> j ∈ waiting cutoff m <-> m !! j_id j = Some j /\ unsynced cutoff j = true.
Proof.
  intros Hk. unfold waiting. rewrite list_elem_of_filter, list_elem_of_fmap. split.
  - intros [Hu ([k j'] & -> & Hj)]. apply elem_of_map_to_list in Hj. simpl in *.
    by rewrite (Hk _ _ Hj).
  - intros [Hj Hu]. split; [done|]. exists (j_id j, j). split; [done|]. by apply elem_of_map_to_list.
Qed.

Lemma keyed_ids m : keyed m -> j_id <$> (map_to_list m).*2 = (map_to_list m).*1.
Proof.
  intros Hk. rewrite <-list_fmap_compose. apply list_fmap_ext. intros i [k j] Hi. simpl.
  apply list_elem_of_lookup_2, elem_of_map_to_list in Hi. by apply Hk in Hi.
Qed.

Lemma waiting_NoDup cutoff m : keyed m -> NoDup (j_id <$> waiting cutoff m).
Proof.
  intros Hk. eapply sublist_NoDup; [|apply fmap_sublist, sublist_filter].
  rewrite (keyed_ids _ Hk). apply NoDup_fst_map_to_list.
Qed.

(** What still waits once a part of the waiting rows is marked. *)
Lemma waiting_mark cutoff m batch rest :
  keyed m -> waiting cutoff m ≡ₚ batch ++ rest -> waiting cutoff (mark (j_id <$> batch) m) ≡ₚ rest.
Proof.
  intros Hk Hsplit. unfold waiting, mark. rewrite map_to_list_fmap.
  set (f := fun j => if bool_decide _ then _ else j).
  replace ((prod_map id f <$> map_to_list m).*2) with (f <$> (map_to_list m).*2)
    by (rewrite <-!list_fmap_compose; done).
  assert (NoDup (j_id <$> batch ++ rest)) as Hnd by (rewrite <-Hsplit; by apply waiting_NoDup).
  transitivity (filter (fun j => j_id j ∉ j_id <$> batch) (waiting cutoff m)).
  - unfold waiting. generalize ((map_to_list m).*2). clear. intros l. induction l as [|j l IH]; [done|].
    rewrite fmap_cons, !filter_cons. destruct (decide (j_id j ∈ j_id <$> batch)) as [Hj|Hj].
    + assert (f j = set_is_synced_to_redis true j) as -> by (unfold f; by rewrite bool_decide_eq_true_2).
      rewrite decide_False by done. case_decide; [|done]. by rewrite filter_cons_False by naive_solver.
    + assert (f j = j) as -> by (unfold f; by rewrite bool_decide_eq_false_2).
      case_decide; [|done]. rewrite filter_cons_True by done. by rewrite IH.
  - rewrite Hsplit, filter_app. rewrite fmap_app in Hnd. apply NoDup_app in Hnd as (_ & Hdisj & _).
    rewrite (filter_keep_none _ batch), (filter_keep_all _ rest); [done| |].
    + intros j Hj Hb. apply (Hdisj _ Hb). by apply list_elem_of_fmap_2.
    + intros j Hj Hn. apply Hn. by apply list_elem_of_fmap_2.
Qed.

Lemma from_session_fresh held l :
  (forall j h, j ∈ l -> h ∈ held -> j_id h <> j_id j) -> from_session held l = l.
Proof.
  intros H. unfold from_session. rewrite <-(list_fmap_id l) at 2. apply list_fmap_ext.
  intros i j Hj. destruct (list_find _ held) as [[k h]|] eqn:E; [|done].
  apply list_find_Some in E as (Hk & Hid & _). exfalso.
  by apply (H j h); [eapply list_elem_of_lookup_2..|].
Qed.

(** One round: the batch, what is left, and how the batch was chosen. *)
Lemma list_unsynced_batch cutoff n d :
  exists rest, waiting cutoff (pg_rows d) ≡ₚ list_unsynced cutoff n d ++ rest /\
    (length (list_unsynced cutoff n d) <= n)%nat /\
    (rest <> [] -> length (list_unsynced cutoff n d) = n).
Proof.
  unfold list_unsynced. destruct (pg_select_by_rows (unsynced cutoff) older n d) as (l & Hl & _ & ->).
  { intros a b. unfold older, uuid_lt. intros Hab. apply not_true_iff_false. intros Hba.
    apply orb_true_iff in Hab, Hba. rewrite !andb_true_iff, !Z.ltb_lt, !Z.eqb_eq, !N.ltb_lt in *. lia. }
  exists (drop n l). rewrite take_drop. split; [by rewrite Hl|]. rewrite length_take. split; [lia|].
  intros Hd. destruct (decide (n <= length l)%nat); [lia|]. rewrite drop_ge in Hd by lia. done.
Qed.

Definition all_placeable (m : gmap uuid Job) : Prop := map_Forall (fun _ => placeable) m.

Lemma mark_placeable ids m : all_placeable m -> all_placeable (mark ids m).
Proof.
  intros Hm k j'. unfold mark. rewrite lookup_fmap. intros (j & Hj & ->)%fmap_Some.
  specialize (Hm _ _ Hj). by case_bool_decide.
Qed.

Lemma mark_app ids1 ids2 m : mark ids2 (mark ids1 m) = mark (ids1 ++ ids2) m.
Proof.
  unfold mark. rewrite <-map_fmap_compose. apply map_fmap_ext. intros k j _. simpl.
  repeat case_bool_decide; set_solver.
Qed.

(** The rows of a batch are in the table, and differ from what still waits. *)
Lemma batch_facts cutoff m batch rest :
  keyed m -> all_placeable m -> waiting cutoff m ≡ₚ batch ++ rest ->
  NoDup (j_id <$> batch) /\
  (forall j, j ∈ batch -> m !! j_id j = Some j /\ placeable j) /\
  (forall h j, h ∈ batch -> j ∈ rest -> j_id h <> j_id j).
Proof.
  intros Hk Hpl Hl.
  assert (NoDup (j_id <$> batch ++ rest)) as Hnd by (rewrite <-Hl; by apply waiting_NoDup).
  rewrite fmap_app in Hnd. apply NoDup_app in Hnd as (Hnd & Hdisj & _). split; [done|]. split.
  - intros j Hj. destruct (proj1 (elem_of_waiting cutoff m j Hk)) as [Hrow _]; [rewrite Hl; set_solver|].
    split; [done|]. by apply (Hpl _ _ Hrow).
  - intros h j Hh Hj Heq. apply (Hdisj (j_id h)); [by apply list_elem_of_fmap_2|].
    rewrite Heq. by apply list_elem_of_fmap_2.
Qed.

Lemma reconcile_loop_exec fuel cutoff w held n :
  (0 < reconcile_batch_size settings)%nat -> all_placeable (rows w) ->
  (length (waiting cutoff (rows w)) < fuel)%nat ->
  (forall h j, h ∈ held -> j ∈ waiting cutoff (rows w) -> j_id h <> j_id j) ->
  exists w' l, exec (reconcile_loop settings fuel cutoff held n) w = (w', inr (n + length l)%nat) /\
    l ≡ₚ waiting cutoff (rows w) /\ rows w' = mark (j_id <$> l) (rows w) /\
    w_redis w' = foldl (fun r j => handoff (w_now w) j r) (w_redis w) l /\ w_now w' = w_now w.
Proof.
  intros Hsize. revert w held n. induction fuel as [|fuel IH]; intros w held n Hpl Hfuel Hheld; [lia|].
  cbn [reconcile_loop]. rewrite exec_bind, exec_pg_read.
  destruct (list_unsynced_batch cutoff (reconcile_batch_size settings) (w_db w)) as (rest & Hl & Hle & Hrest).
  fold (rows w) in Hl. set (batch := list_unsynced _ _ _) in *.
  rewrite from_session_fresh by (intros j h Hj Hh; apply Hheld; [done|rewrite Hl; set_solver]).
  destruct (batch_facts cutoff (rows w) batch rest (rows_keyed w) Hpl Hl) as (Hnd & Hin & Hdisj).
  clearbody batch. destruct batch as [|j0 batch0].
  { exists w, []. rewrite Nat.add_0_r, mark_nil.
    destruct rest; [by rewrite Hl|specialize (Hrest ltac:(done)); simpl in *; lia]. }
  set (batch := j0 :: batch0) in *.
  destruct (reconcile_rows_exec w batch n Hnd Hin) as (w1 & E1 & R1 & F1 & N1).
  rewrite exec_bind, E1.
  pose proof (waiting_mark cutoff _ batch rest (rows_keyed w) Hl) as Hl1. rewrite <-R1 in Hl1.
  case_decide as Hlt.
  { exists w1, batch. destruct rest; [|specialize (Hrest ltac:(done)); lia].
    rewrite app_nil_r in Hl. split; [reflexivity|]. split; [by symmetry|]. exact (conj R1 (conj F1 N1)). }
  destruct (IH w1 batch (n + length batch)%nat) as (w2 & l & E2 & Hl2 & R2 & F2 & N2).
  - rewrite R1. by apply mark_placeable.
  - rewrite Hl1. rewrite Hl, length_app in Hfuel. subst batch. simpl in Hfuel. lia.
  - intros h j Hh Hj. rewrite Hl1 in Hj. by apply Hdisj.
  - exists w2, (batch ++ l). rewrite E2, length_app. split; [f_equal; f_equal; lia|].
    split; [by rewrite Hl, Hl2, Hl1|].
    by rewrite R2, R1, mark_app, F2, F1, N2, N1, foldl_app, fmap_app.
Qed.

(** C18: The reconciler terminates (fuel above the number of waiting rows is enough)
    and hands every waiting row to Redis exactly once, whatever the batch size:
    scheduled rows to the delayed set at their time, pending rows to their stream;
    it marks exactly those rows as synced and answers their number. *)
Theorem reconcile_orphans_spec fuel w :
  let cutoff := w_now w - reconcile_grace_s settings in
  (0 < reconcile_batch_size settings)%nat -> rows_wf (rows w) ->
  (length (waiting cutoff (rows w)) < fuel)%nat ->
  exists w' l, exec (reconcile_orphans settings fuel) w = (w', inr (length l)) /\
    l ≡ₚ waiting cutoff (rows w) /\ rows w' = mark (j_id <$> l) (rows w) /\
    w_redis w' = foldl (fun r j => handoff (w_now w) j r) (w_redis w) l.
Proof.
  intros cutoff Hsize Hwf Hfuel. unfold reconcile_orphans. rewrite exec_bind, exec_clock.
  destruct (reconcile_loop_exec fuel cutoff w [] 0 Hsize) as (w' & l & E & Hl & R & F & _);
    [|done|set_solver|by exists w', l].
  intros k j Hj. apply wf_placeable, (Hwf k j Hj).
Qed.
End Ticker.

(** * At a due job and at an orphan *)

Lemma due_ids :
  zrangebyscore (delayed_zset the_settings) 0 (w_now due_world) (ticker_batch_size the_settings)
    (w_redis due_world) = [str_uuid first_id].
Proof. vm_compute. reflexivity. Qed.

Lemma promote_due_spec_witness :
  exists w' sent j, exec (promote_due the_settings) due_world = (w', inr 1%nat) /\
    rows due_world !! first_id = Some j /\ j_status j = scheduled /\
    rows w' !! first_id = Some (set_status pending j) /\
    sent = [handover the_settings (str_uuid first_id) j].
Proof.
  pose proof (promote_due_spec the_settings due_world [first_id]) as H.
  rewrite due_ids in H. destruct H as (w' & E & R & _ & sent & r1 & Hsent & _).
  - vm_compute. reflexivity.
  - discriminate.
  - assert (is_Some (rows due_world !! first_id)) as [j Hj] by (vm_compute; eauto).
    assert (status_in [scheduled] j = true) as Hs.
    { revert Hj. vm_compute. intros [= <-]. reflexivity. }
    pose proof (R first_id) as R1. clear R. rewrite Hj in R1.
    rewrite (bool_decide_true (first_id ∈ [first_id])) in R1 by (by apply list_elem_of_singleton).
    cbn [andb fmap option_fmap option_map] in R1. rewrite Hs in R1.
    exists w', sent, j. split; [exact E|]. split; [exact Hj|]. split; [|split; [exact R1|]].
    + unfold status_in in Hs. apply bool_decide_eq_true, list_elem_of_singleton in Hs. exact Hs.
    + inversion Hsent as [|i u j' ids sent' Hi Hj' Hnil|i u ids sent' Hi Hj' Hnil]; subst;
        rewrite parse_str_uuid in Hi; injection Hi as <-; [|congruence].
      rewrite Hj in Hj'. injection Hj' as <-. by inversion Hnil.
Defined.

Lemma orphan_wf : rows_wf (rows orphan_world).
Proof. by apply (bool_decide_unpack _); vm_compute. Qed.

Lemma reconcile_orphans_spec_witness :
  exists w' l, exec (reconcile_orphans the_settings 2) orphan_world = (w', inr (length l)) /\
    l ≡ₚ waiting (t0 + seconds 50) (rows orphan_world) /\
    length (waiting (t0 + seconds 50) (rows orphan_world)) = 1%nat.
Proof.
  destruct (reconcile_orphans_spec the_settings 2 orphan_world) as (w' & l & E & Hl & _).
  - apply Nat.lt_0_succ.
  - exact orphan_wf.
  - apply Nat.ltb_lt. vm_compute. reflexivity.
  - exists w', l. split; [exact E|]. split; [exact Hl|]. vm_compute. reflexivity.
Defined.
