(* ===== verification/ReaperFacts.v ===== *)
(** The reaper: every stale delivery is cleared from the pending list and its job is
    taken out of processing; the scan terminates and leaves fresh deliveries alone. *)
From stdpp Require Import base tactics option list gmap strings numbers relations sorting.
From S2P Require Import Prelude Prog Uuid Model Services Repository RepositoryFacts Queue Retry Handlers Payloads Worker Ticker Api Effects Along Scenario RetryFacts QueueFacts TickerFacts.
Set Default Goal Selector "!".
Open Scope Z_scope.

(** * Relations between states *)

(** No row starts processing. *)
Definition never_starts (m m' : gmap uuid Job) : Prop :=
  forall k j', m' !! k = Some j' -> j_status j' = processing ->
    exists j, m !! k = Some j /\ j_status j = processing.

#[export] Instance never_starts_refl : Reflexive never_starts.
Proof. intros m k j Hj Hst. eauto. Qed.
#[export] Instance never_starts_trans : Transitive never_starts.
Proof. intros m1 m2 m3 H12 H23 k j Hj Hst. destruct (H23 k j Hj Hst) as (j2 & Hj2 & Hst2). eauto. Qed.

Definition not_running (m : gmap uuid Job) (id : uuid) : Prop :=
  forall j, m !! id = Some j -> j_status j <> processing.

Lemma not_running_mono m m' id : never_starts m m' -> not_running m id -> not_running m' id.
Proof. intros Hn Hr j Hj Hst. destruct (Hn id j Hj Hst) as (j0 & Hj0 & Hst0). by apply (Hr j0). Qed.

Lemma never_starts_insert m id j j' :
  m !! id = Some j -> j_status j' <> processing -> never_starts m (<[id := j']> m).
Proof.
  intros Hj Hst k j1. destruct (decide (k = id)) as [->|Hne].
  - rewrite lookup_insert_eq. by intros [= <-].
  - rewrite lookup_insert_ne by done. eauto.
Qed.

Section Reaper.
Context {PG : Postgres} {RD : Redis} {EN : Entropy} {OT : Otel}.
Context (settings : Settings) (Htable : retry_backoff_schedule settings <> []).
Implicit Types (w : world).

(** The group of [s], [g] keeps its undelivered entries, with some appended; its
    pending list becomes [pel]. *)
Definition group_grows (v : group_view) (pel : list pel_entry) (v' : option group_view) : Prop :=
  exists l, v' = Some (mkGroup (g_fresh v ++ l) pel).

Definition grows (r r' : rd) : Prop :=
  forall s g v, rd_group r s g = Some v -> group_grows v (g_pel v) (rd_group r' s g).

Lemma grows_refl r : grows r r.
Proof. intros s g [f p] ->. exists []. by rewrite app_nil_r. Qed.

Lemma grows_xadd s f now r : grows r (xadd s f now r).1.
Proof.
  intros s' g [fr p] Hv. rewrite xadd_group, Hv. case_decide; simpl; [by eexists|].
  exists []. by rewrite app_nil_r.
Qed.

Lemma grows_zadd z m x r : grows r (zadd z m x r).1.
Proof. intros s g v Hv. rewrite zadd_group, Hv. exists []. destruct v. by rewrite app_nil_r. Qed.

Lemma grows_verdict v now job c r : grows r (verdict_redis settings v now job c r).
Proof. destruct v; [apply grows_refl|apply grows_xadd|apply grows_zadd]. Qed.

Lemma grows_handoff now j r : grows r (handoff settings now j r).
Proof. unfold handoff. repeat case_match; auto using grows_xadd, grows_zadd. Qed.

(** * One row *)

(** What [reap_row] promises. *)
Definition row_reaped w j w' : Prop :=
  exists j', rows w' = <[j_id j := j']> (rows w) /\ j_status j' <> processing /\
    grows (w_redis w) (w_redis w') /\ w_now w' = w_now w.

Lemma row_reaped_same w j :
  rows w !! j_id j = Some j -> j_status j <> processing -> row_reaped w j w.
Proof. intros Hj Hst. exists j. by rewrite insert_id; auto using grows_refl. Qed.

Lemma verdict_row_stopped v now e j : j_status (verdict_row v now e j) <> processing.
Proof. by destruct v. Qed.

(** The inline recovery of an unsynced row. *)
Definition reap_handoff (job : Job) : coroutine unit :=
  _ ← (match j_status job, j_scheduled_at job with
       | scheduled, Some scheduled_at => handoff_scheduled settings job scheduled_at
       | _, _ => handoff_pending settings job
       end);
  pg (fun _ => mark_synced (j_id job)).

Lemma reap_handoff_exec w j :
  rows w !! j_id j = Some j -> j_status j <> processing ->
  exists w', exec (reap_handoff j) w = (w', inr tt) /\ row_reaped w j w'.
Proof.
  intros Hj Hst. unfold reap_handoff, handoff_scheduled, handoff_pending, schedule, enqueue.
  set (w1 := with_redis (handoff settings (w_now w) j (w_redis w)) w).
  destruct (exec_mark_synced (j_id j) w1 j Hj) as (w2 & E2 & [R2 F2 N2 _]).
  exists w2. split.
  - rewrite <-E2. subst w1. unfold handoff.
    destruct (j_status j); try done; autorewrite with jobs_rw; try done.
    destruct (j_scheduled_at j); by autorewrite with jobs_rw.
  - exists (set_is_synced_to_redis true j). rewrite R2, F2, N2. subst w1.
    rewrite rows_with_redis. split; [done|]. split; [done|]. split; [|done]. apply grows_handoff.
Qed.

Lemma reap_row_exec w j :
  rows w !! j_id j = Some j -> 0 <= j_attempts j ->
  exists w', exec (reap_row settings j) w = (w', inr tt) /\ row_reaped w j w'.
Proof.
  intros Hj Ha. unfold reap_row.
  destruct (decide (j_status j = processing)) as [Hst|Hst].
  - rewrite Hst. destruct (verdict_exists settings Htable (w_now w) j Ha) as [v Hv].
    destruct (retry_won settings w j j worker_lost (j_trace_context j) v Hj Hst Hv) as (w' & E & R & F & N).
    exists w'. rewrite exec_bind, E. split; [done|]. exists (verdict_row v (w_now w) worker_lost j).
    rewrite R, F, N. split; [done|]. split; [apply verdict_row_stopped|]. split; [|done]. apply grows_verdict.
  - destruct (reap_handoff_exec w j Hj Hst) as (w' & E & H). unfold reap_handoff in E.
    pose proof (row_reaped_same w j Hj Hst).
    destruct (j_status j); try done; try (by exists w);
      destruct (j_is_synced_to_redis j); first [by exists w|by exists w'].
Qed.

(** * One entry, and a page of entries *)

(** The pending lists after the ids [gone] of [stream] are acknowledged. *)
Definition pel_without (stream : string) (gone : list stream_id) (s g : string) (pel : list pel_entry) :
    list pel_entry :=
  if decide (s = stream /\ g = consumer_group settings)
  then filter (fun e => pe_id e ∉ gone) pel else pel.

Definition cleared (stream : string) (gone : list stream_id) (r r' : rd) : Prop :=
  forall s g v, rd_group r s g = Some v ->
    group_grows v (pel_without stream gone s g (g_pel v)) (rd_group r' s g).

Definition attempts_ok (m : gmap uuid Job) : Prop := map_Forall (fun _ j => 0 <= j_attempts j) m.

(** What handling the entries [ms] of [stream] promises. *)
Record page_reaped (stream : string) (ms : list (stream_id * fields)) w w' : Prop := mkPage {
  page_now : w_now w' = w_now w;
  page_cleared : cleared stream ms.*1 (w_redis w) (w_redis w');
  page_starts : never_starts (rows w) (rows w');
  page_stopped m id : m ∈ ms -> message_job m.2 = Some id -> not_running (rows w') id;
}.

Lemma exec_ack s g i w :
  exec (ack s g i) w = (with_redis (xack s g i (w_redis w)).1 w, inr tt).
Proof. unfold ack. rewrite exec_redis_do. by destruct (xack s g i (w_redis w)) as [? []]. Qed.

Lemma cleared_ack stream id r r1 :
  grows r r1 -> cleared stream [id] r (xack stream (consumer_group settings) id r1).1.
Proof.
  intros Hg s g v Hv. destruct (Hg s g v Hv) as [l Hl]. exists l. unfold pel_without.
  rewrite xack_group, Hl. case_decide; [|done]. simpl.
  unfold unack. simpl. do 2 f_equal.
  apply list_filter_iff. intros e. by rewrite list_elem_of_singleton.
Qed.

Lemma reap_entry_exec stream m w :
  rows_wf (rows w) ->
  exists w', exec (reap_entry settings stream m) w = (w', inr tt) /\ page_reaped stream [m] w w'.
Proof.
  intros Hwf. unfold reap_entry, _reap_one. destruct (message_job m.2) as [id|] eqn:Hm.
  - autorewrite with jobs_rw. destruct (rows w !! id) as [j|] eqn:Hj.
    + assert (j_id j = id) as Hid by by eapply rows_keyed. subst id.
      destruct (reap_row_exec w j Hj) as (w1 & E & j' & R & Hst & Hg & N).
      { specialize (Hwf _ _ Hj). unfold job_wf in Hwf. apply andb_true_iff in Hwf as [_ Ha]. lia. }
      rewrite E, exec_ack. eexists. split; [done|].
      split; [done|by apply cleared_ack| |].
      * rewrite rows_with_redis, R. by eapply never_starts_insert.
      * intros m' id ->%list_elem_of_singleton Hid. rewrite Hm in Hid. injection Hid as <-.
        intros j1. rewrite rows_with_redis, R, lookup_insert_eq. by intros [= <-].
    + autorewrite with jobs_rw. rewrite exec_ack. eexists. split; [done|].
      split; [done|apply cleared_ack, grows_refl|done|].
      intros m' id' ->%list_elem_of_singleton Hid. rewrite Hm in Hid. injection Hid as <-.
      intros j1. rewrite rows_with_redis, Hj. done.
  - rewrite exec_ack. eexists. split; [done|].
    split; [done|apply cleared_ack, grows_refl|done|].
    intros m' id' ->%list_elem_of_singleton Hid. congruence.
Qed.

Lemma page_nil stream w : page_reaped stream [] w w.
Proof.
  split; [done| |done|by intros ?? ?%elem_of_nil]. intros s g v Hv. exists []. rewrite app_nil_r, Hv.
  unfold pel_without. case_decide; [|by destruct v].
  rewrite filter_keep_all; [by destruct v|]. intros e _. apply not_elem_of_nil.
Qed.

Lemma page_cons stream m ms w w1 w2 :
  page_reaped stream [m] w w1 -> page_reaped stream ms w1 w2 -> page_reaped stream (m :: ms) w w2.
Proof.
  intros [N1 C1 S1 P1] [N2 C2 S2 P2]. split; [congruence| |by etrans|].
  - intros s g v Hv. destruct (C1 s g v Hv) as [l1 Hl1]. destruct (C2 s g _ Hl1) as [l2 ->].
    exists (l1 ++ l2). simpl. rewrite app_assoc. do 2 f_equal. unfold pel_without.
    case_decide; [|done]. rewrite list_filter_filter. apply list_filter_iff. intros e. simpl.
    set_solver.
  - intros m' id [->|Hin]%elem_of_cons Hid; [|by apply (P2 m')].
    eapply not_running_mono; [exact S2|]. apply (P1 m); [set_solver|done].
Qed.

Lemma reap_page_exec stream ms w :
  rows_wf (rows w) ->
  exists w', exec (for_each (reap_entry settings stream) ms) w = (w', inr tt) /\
    page_reaped stream ms w w' /\ rows_wf (rows w').
Proof.
  revert w. induction ms as [|m ms IH]; intros w Hwf.
  { exists w. split; [done|]. split; [apply page_nil|done]. }
  destruct (reap_entry_exec stream m w Hwf) as (w1 & E1 & P1).
  assert (rows_wf (rows w1)) as Hwf1.
  { pose proof (all_steps_exec _ _ w (along_reap_entry settings stream m)) as H. rewrite E1 in H.
    eapply db_steps_wf; [|exact Hwf]. exact (rtc_on_rows _ _ _ H). }
  destruct (IH w1 Hwf1) as (w2 & E2 & P2 & Hwf2). exists w2. split; [|split; [by eapply page_cons|done]].
  rewrite exec_for_each_cons, E1. exact E2.
Qed.

(** * The scan *)

Definition stale (now : datetime) (e : pel_entry) : Prop := min_idle settings <= pe_idle_ms now e.
#[export] Instance stale_dec now e : Decision (stale now e).
Proof. unfold stale. apply _. Defined.

(** The part of the pending list the scan has still to see. *)
Definition unseen (cursor : stream_id) (pel : list pel_entry) : list pel_entry :=
  filter (fun e => stream_id_le cursor (pe_id e)) pel.

Lemma stream_id_lt_irrefl a : ~ stream_id_lt a a.
Proof. intros [?|[_ ?]]; lia. Qed.
Lemma stream_id_lt_trans a b c : stream_id_lt a b -> stream_id_lt b c -> stream_id_lt a c.
Proof. unfold stream_id_lt. intros [?|[? ?]] [?|[? ?]]; intuition lia. Qed.

(** In a pending list sorted by id, what follows the first entry of [rest] is [rest]. *)
Lemma unseen_rest (scanned rest : list pel_entry) e :
  StronglySorted stream_id_lt (pe_id <$> scanned ++ e :: rest) ->
  unseen (pe_id e) (scanned ++ e :: rest) = e :: rest.
Proof.
  intros Hs. unfold unseen. rewrite filter_app, filter_keep_none.
  - simpl. apply filter_keep_all. intros x [->|Hx]%elem_of_cons; [by left|]. right.
    rewrite fmap_app in Hs. apply StronglySorted_app_1_r in Hs. rewrite fmap_cons in Hs.
    apply StronglySorted_inv in Hs as [_ Hs]. rewrite Forall_forall in Hs. apply Hs.
    by apply list_elem_of_fmap_2.
  - intros x Hx Hle. assert (stream_id_lt (pe_id x) (pe_id e)) as Hlt.
    { rewrite fmap_app in Hs. eapply StronglySorted_app_1_elem_of; [exact Hs|by apply list_elem_of_fmap_2|].
      rewrite fmap_cons. set_solver. }
    destruct Hle as [Heq|Hgt]; [rewrite Heq in Hlt; by eapply stream_id_lt_irrefl|].
    eapply stream_id_lt_irrefl, stream_id_lt_trans; eauto.
Qed.

Lemma sorted_ids_inj (l : list pel_entry) x y :
  StronglySorted stream_id_lt (pe_id <$> l) -> x ∈ l -> y ∈ l -> pe_id x = pe_id y -> x = y.
Proof.
  induction l as [|z l IH]; [by intros _ ?%elem_of_nil|].
  rewrite fmap_cons. intros [Hs Hz]%StronglySorted_inv. rewrite Forall_forall in Hz.
  assert (forall a, a ∈ l -> pe_id z <> pe_id a) as Hne.
  { intros a Ha Heq. apply (stream_id_lt_irrefl (pe_id z)). rewrite Heq at 2.
    apply Hz. by apply list_elem_of_fmap_2. }
  intros [->|Hx]%elem_of_cons [->|Hy]%elem_of_cons Heq; [done|by destruct (Hne y)| |by apply IH].
  by destruct (Hne x).
Qed.

Lemma sorted_ids_filter (P : pel_entry -> Prop) `{!forall x, Decision (P x)} (l : list pel_entry) :
  StronglySorted stream_id_lt (pe_id <$> l) -> StronglySorted stream_id_lt (pe_id <$> filter P l).
Proof.
  induction l as [|x l IH]; [done|]. rewrite fmap_cons. intros [Hs Hx]%StronglySorted_inv.
  rewrite filter_cons. case_decide; [|by apply IH]. rewrite fmap_cons. constructor; [by apply IH|].
  rewrite Forall_forall in *. intros i (y & -> & Hy)%list_elem_of_fmap. apply Hx.
  apply list_elem_of_filter in Hy as [_ Hy]. by apply list_elem_of_fmap_2.
Qed.

(** One page of the scan: [scanned] read, its stale entries removed. *)
Section Page.
Context (pel scanned rest : list pel_entry) (cursor : stream_id) (now : datetime).
Context (Hsorted : StronglySorted stream_id_lt (pe_id <$> pel)).
Context (Hsplit : unseen cursor pel = scanned ++ rest).
Let gone := pe_id <$> filter (stale now) scanned.
Let pel' := filter (fun x => pe_id x ∉ gone) pel.

Lemma tail_sorted : StronglySorted stream_id_lt (pe_id <$> scanned ++ rest).
Proof.
  rewrite <-Hsplit. by apply sorted_ids_filter.
Qed.

Lemma in_tail x : x ∈ pel -> stream_id_le cursor (pe_id x) <-> x ∈ scanned \/ x ∈ rest.
Proof.
  intros Hx. rewrite <-elem_of_app, <-Hsplit. unfold unseen. rewrite list_elem_of_filter. tauto.
Qed.

Lemma part_of_pel x : x ∈ scanned ++ rest -> x ∈ pel.
Proof. rewrite <-Hsplit. unfold unseen. rewrite list_elem_of_filter. tauto. Qed.

Lemma gone_iff x : x ∈ pel -> pe_id x ∈ gone <-> x ∈ scanned /\ stale now x.
Proof.
  intros Hx. unfold gone. rewrite list_elem_of_fmap. setoid_rewrite list_elem_of_filter. split.
  - intros (y & Hid & Hst & Hy). assert (x = y) as ->; [|done].
    eapply sorted_ids_inj; [exact Hsorted|done| |done]. apply part_of_pel. set_solver.
  - intros [Hs Hst]. by exists x.
Qed.

Lemma scanned_before x y : x ∈ scanned -> y ∈ rest -> stream_id_lt (pe_id x) (pe_id y).
Proof.
  intros Hx Hy. pose proof tail_sorted as Hs. rewrite fmap_app in Hs.
  eapply StronglySorted_app_1_elem_of; [exact Hs|by apply list_elem_of_fmap_2..].
Qed.

Lemma unseen_next e rest' : rest = e :: rest' -> unseen (pe_id e) pel' = rest.
Proof.
  intros Hr. pose proof tail_sorted as Hs. rewrite Hr in Hs.
  transitivity (filter (fun x => pe_id x ∉ gone) (unseen (pe_id e) (unseen cursor pel))).
  - unfold unseen, pel'. rewrite !list_filter_filter. apply filter_ext_in. intros x Hx.
    split; [intros [H1 H2]; split_and!; [done|done|]|tauto].
    assert (e ∈ pel) as He by (apply part_of_pel; rewrite Hr; set_solver).
    assert (stream_id_le cursor (pe_id e)) as Hce by (apply in_tail; [done|right; rewrite Hr; set_solver]).
    destruct Hce as [->|Hce]; [done|]. right. destruct H1 as [<-|H1]; [done|].
    by eapply stream_id_lt_trans.
  - rewrite Hsplit, Hr, unseen_rest by done. apply filter_keep_all.
    intros x Hx Hg. rewrite <-Hr in Hx.
    apply gone_iff in Hg as [Hsc _]; [|apply part_of_pel; set_solver].
    by eapply stream_id_lt_irrefl, (scanned_before x x).
Qed.

Lemma removed_last : rest = [] -> pel' = filter (fun x => ~ (stale now x /\ stream_id_le cursor (pe_id x))) pel.
Proof.
  intros Hr. unfold pel'. apply filter_ext_in. intros x Hx. rewrite gone_iff, in_tail, Hr by done. set_solver.
Qed.

Lemma removed_next e rest' :
  rest = e :: rest' ->
  filter (fun x => ~ (stale now x /\ stream_id_le (pe_id e) (pe_id x))) pel' =
  filter (fun x => ~ (stale now x /\ stream_id_le cursor (pe_id x))) pel.
Proof.
  intros Hr. unfold pel'. rewrite list_filter_filter. apply filter_ext_in. intros x Hx.
  rewrite gone_iff, in_tail by done.
  assert (stream_id_le (pe_id e) (pe_id x) <-> x ∈ rest) as ->; [|tauto].
  pose proof (unseen_next e rest' Hr) as Hn. split.
  - intros Hle. assert (pe_id x ∉ gone) as Hg.
    { intros [Hsc _]%gone_iff; [|done]. eapply (stream_id_lt_irrefl (pe_id x)).
      assert (stream_id_lt (pe_id x) (pe_id e)) as Hlt
        by (apply scanned_before; [done|rewrite Hr; set_solver]).
      destruct Hle as [Heq|Hle]; [by rewrite Heq in Hlt|by eapply stream_id_lt_trans]. }
    rewrite <-Hn. unfold unseen, pel'. rewrite !list_elem_of_filter. done.
  - intros Hin. rewrite <-Hn in Hin. unfold unseen in Hin. by apply list_elem_of_filter in Hin as [? _].
Qed.
End Page.

(** What the scan of one stream from [cursor] promises, [pel] being the pending list. *)
Record scanned_from (stream : string) (cursor : stream_id) (v : group_view) w w' : Prop := mkScan {
  scan_now : w_now w' = w_now w;
  scan_wf : rows_wf (rows w');
  scan_group : group_grows v
    (filter (fun e => ~ (stale (w_now w) e /\ stream_id_le cursor (pe_id e))) (g_pel v))
    (rd_group (w_redis w') stream (consumer_group settings));
  scan_others s g v0 : (s, g) <> (stream, consumer_group settings) ->
    rd_group (w_redis w) s g = Some v0 -> group_grows v0 (g_pel v0) (rd_group (w_redis w') s g);
  scan_starts : never_starts (rows w) (rows w');
  scan_stopped e id : e ∈ unseen cursor (g_pel v) -> stale (w_now w) e ->
    message_job (pe_fields e) = Some id -> not_running (rows w') id;
}.

Lemma pel_sorted r s g v : rd_group r s g = Some v -> StronglySorted stream_id_lt (pe_id <$> g_pel v).
Proof.
  intros Hv. apply rd_ids_sorted, StronglySorted_inv in Hv as [Hs _].
  unfold group_ids in Hs. by apply StronglySorted_app_1_l in Hs.
Qed.

Lemma pel_positive r s g v e :
  rd_group r s g = Some v -> e ∈ g_pel v -> stream_id_lt (0%N, 0%N) (pe_id e).
Proof.
  intros Hv He. apply rd_ids_sorted, StronglySorted_inv in Hv as [_ Hs].
  rewrite Forall_forall in Hs. apply Hs. unfold group_ids. apply elem_of_app. left.
  by apply list_elem_of_fmap_2.
Qed.

(** The claimed entries change owner and are then removed, so the touch is gone. *)
Lemma touched_removed (S pel : list pel_entry) c now :
  filter (fun e => pe_id e ∉ pe_id <$> S) (touch (pe_id <$> S) c now <$> pel) =
  filter (fun e => pe_id e ∉ pe_id <$> S) pel.
Proof.
  induction pel as [|e pel IH]; [done|]. rewrite fmap_cons, !filter_cons, IH.
  unfold touch. destruct (decide (pe_id e ∈ pe_id <$> S)) as [He|He]; simpl.
  - by rewrite !decide_False by naive_solver.
  - by rewrite !decide_True.
Qed.

(** One turn of the loop: the page is claimed and handled. *)
Definition turn (stream : string) (cursor : stream_id) : coroutine (stream_id * nat) :=
  resp ← redis_try (xautoclaim stream (consumer_group settings) REAPER_NAME (min_idle settings)
            cursor (reaper_batch_size settings));
  _ ← for_each (reap_entry settings stream) resp.2;
  Ret (resp.1, length resp.2).

Lemma reap_loop_turn fuel stream cursor n w :
  exec (reap_loop settings (S fuel) stream cursor n) w =
  match exec (turn stream cursor) w with
  | (w1, inr (c, k)) =>
      if decide (c = (0%N, 0%N)) then (w1, inr (n + k)%nat)
      else exec (reap_loop settings fuel stream c (n + k)%nat) w1
  | (w1, inl e) => (w1, inl e)
  end.
Proof.
  cbn [reap_loop]. unfold turn. rewrite !exec_bind. destruct (exec _ w) as [w0 [e|resp]]; [done|].
  rewrite !exec_bind. destruct (exec _ w0) as [w1 [e|[]]]; [done|]. simpl. by case_decide.
Qed.

Lemma reap_turn stream cursor v w :
  rd_group (w_redis w) stream (consumer_group settings) = Some v ->
  (0 < reaper_batch_size settings)%nat -> rows_wf (rows w) ->
  exists scanned rest w1, unseen cursor (g_pel v) = scanned ++ rest /\ (rest <> [] -> scanned <> []) /\
    let S := filter (stale (w_now w)) scanned in
    exec (turn stream cursor) w =
      (w1, inr (match rest with [] => (0%N, 0%N) | e :: _ => pe_id e end, length S)) /\
    rows_wf (rows w1) /\ w_now w1 = w_now w /\ never_starts (rows w) (rows w1) /\
    group_grows v (filter (fun e => pe_id e ∉ pe_id <$> S) (g_pel v))
      (rd_group (w_redis w1) stream (consumer_group settings)) /\
    (forall s g v0, (s, g) <> (stream, consumer_group settings) ->
      rd_group (w_redis w) s g = Some v0 -> group_grows v0 (g_pel v0) (rd_group (w_redis w1) s g)) /\
    (forall e id, e ∈ S -> message_job (pe_fields e) = Some id -> not_running (rows w1) id).
Proof.
  intros Hv Hb Hwf.
  destruct (xautoclaim_ok stream (consumer_group settings) REAPER_NAME (min_idle settings) cursor
    (reaper_batch_size settings) (w_now w) (w_redis w) v Hv Hb) as (scanned & rest & Hsplit & Hne & Hresp & Hg).
  set (r1 := (xautoclaim _ _ _ _ _ _ _ _).1) in *. set (w0 := with_redis r1 w).
  set (S := filter (stale (w_now w)) scanned).
  destruct (reap_page_exec stream (pe_message <$> S) w0 Hwf) as (w1 & E1 & [N1 C1 S1 P1] & Hwf1).
  assert ((pe_message <$> S).*1 = pe_id <$> S) as Hids by by rewrite <-list_fmap_compose.
  rewrite Hids in C1. exists scanned, rest, w1. split; [done|]. split; [done|]. cbv zeta. split.
  - unfold turn. rewrite exec_bind, exec_redis_try, Hresp. cbn [fst snd]. rewrite exec_bind. fold r1 w0.
    change (filter (fun e => min_idle settings <= pe_idle_ms (w_now w) e) scanned) with S.
    rewrite E1. by rewrite length_fmap.
  - split; [done|]. split; [done|]. split; [done|]. split; [|split].
    + destruct (C1 stream (consumer_group settings) _ Hg) as [l Hl]. exists l. rewrite Hl. simpl.
      unfold pel_without. rewrite decide_True by done. do 2 f_equal. apply touched_removed.
    + intros s g v0 Hsg Hv0. destruct (C1 s g v0) as [l Hl].
      { cbn [w_redis with_redis w0]. unfold w0, r1. simpl. by rewrite xautoclaim_frame. }
      exists l. rewrite Hl. unfold pel_without. rewrite decide_False; [done|]. naive_solver.
    + intros e id He Hid. apply (P1 (pe_message e)); [by apply list_elem_of_fmap_2|done].
Qed.

Lemma reap_loop_exec fuel stream cursor v w n :
  (0 < reaper_batch_size settings)%nat ->
  rd_group (w_redis w) stream (consumer_group settings) = Some v -> rows_wf (rows w) ->
  (length (unseen cursor (g_pel v)) < fuel)%nat ->
  exists w', exec (reap_loop settings fuel stream cursor n) w =
      (w', inr (n + length (filter (stale (w_now w)) (unseen cursor (g_pel v))))%nat) /\
    scanned_from stream cursor v w w'.
Proof.
  intros Hb. revert cursor v w n. induction fuel as [|fuel IH]; intros cursor v w n Hv Hwf Hfuel; [lia|].
  destruct (reap_turn stream cursor v w Hv Hb Hwf)
    as (scanned & rest & w1 & Hsplit & Hne & E & Hwf1 & N1 & S1 & [l Hl] & O1 & P1).
  rewrite reap_loop_turn, E. pose proof (pel_sorted _ _ _ _ Hv) as Hsorted.
  rewrite Hsplit, filter_app, length_app. destruct rest as [|e rest].
  - exists w1. rewrite decide_True, Nat.add_0_r by done. split; [done|].
    split; [done|done| |done|done|].
    + exists l. rewrite Hl. do 2 f_equal. by eapply removed_last.
    + intros x id Hx Hst Hid. apply (P1 x); [|done]. rewrite Hsplit, app_nil_r in Hx.
      by apply list_elem_of_filter.
  - set (v1 := mkGroup (g_fresh v ++ l) (filter (fun e0 => pe_id e0 ∉ pe_id <$> filter (stale (w_now w)) scanned) (g_pel v))).
    assert (unseen (pe_id e) (g_pel v1) = e :: rest) as Hnext.
    { exact (unseen_next (g_pel v) scanned (e :: rest) cursor (w_now w) Hsorted Hsplit e rest eq_refl). }
    rewrite decide_False; cycle 1.
    { intros Hz. assert (e ∈ g_pel v) as He by (eapply part_of_pel; [exact Hsplit|set_solver]).
      apply (pel_positive _ _ _ _ _ Hv) in He. rewrite Hz in He. by apply stream_id_lt_irrefl in He. }
    destruct (IH (pe_id e) v1 w1 (n + length (filter (stale (w_now w)) scanned))%nat Hl Hwf1)
      as (w2 & E2 & [N2 W2 [l2 G2] O2 S2 P2]).
    { rewrite Hnext. rewrite Hsplit, length_app in Hfuel.
      assert (scanned <> []) by (by apply Hne). destruct scanned; [done|simpl in *; lia]. }
    rewrite N1 in *. exists w2. split; [rewrite E2, Hnext; do 2 f_equal; lia|].
    split; [by rewrite N2|done| | |by etrans|].
    + exists (l ++ l2). rewrite G2. simpl. rewrite app_assoc. do 2 f_equal.
      exact (removed_next (g_pel v) scanned (e :: rest) cursor (w_now w) Hsorted Hsplit e rest eq_refl).
    + intros s g v0 Hsg Hv0. destruct (O1 s g v0 Hsg Hv0) as [l3 Hl3].
      destruct (O2 s g _ Hsg Hl3) as [l4 ->]. exists (l3 ++ l4). simpl. by rewrite app_assoc.
    + intros x id Hx Hst Hid. rewrite Hsplit in Hx. apply elem_of_app in Hx as [Hx|Hx].
      * eapply not_running_mono; [exact S2|]. apply (P1 x); [by apply list_elem_of_filter|done].
      * apply (P2 x); [by rewrite Hnext|done..].
Qed.

(** * All the streams *)

(** The pending entries of a stream that are stale. *)
Definition stale_entries w (s : string) : list pel_entry :=
  match rd_group (w_redis w) s (consumer_group settings) with
  | Some v => filter (stale (w_now w)) (g_pel v)
  | None => []
  end.

(** The streams [ss] are clear of what was stale in [w]. *)
Record reaped (ss : list string) w w' : Prop := mkReaped {
  reaped_starts : never_starts (rows w) (rows w');
  reaped_group s v : s ∈ ss -> rd_group (w_redis w) s (consumer_group settings) = Some v ->
    group_grows v (filter (fun e => ~ stale (w_now w) e) (g_pel v))
      (rd_group (w_redis w') s (consumer_group settings));
  reaped_stopped s e id : s ∈ ss -> e ∈ stale_entries w s -> message_job (pe_fields e) = Some id ->
    not_running (rows w') id;
}.

Lemma unseen_all r s g v : rd_group r s g = Some v -> unseen (0%N, 0%N) (g_pel v) = g_pel v.
Proof.
  intros Hv. apply filter_keep_all. intros e He. right. by eapply pel_positive.
Qed.

(** [do x; do y; do z] runs [do x; do y] first. *)
Lemma exec_assoc_step {A B C} (p : coroutine A) (q : A -> coroutine B) (k : B -> coroutine C) w :
  exec (a ← p; b ← q a; k b) w =
  match exec (a ← p; q a) w with
  | (w', inr b) => exec (k b) w'
  | (w', inl e) => (w', inl e)
  end.
Proof. rewrite !exec_bind. destruct (exec p w) as [w0 [e|a]]; [done|]. by rewrite exec_bind. Qed.

(** The scan of one stream, its group created first. *)
Lemma reap_stream_exec fuel s w n :
  (0 < reaper_batch_size settings)%nat -> rows_wf (rows w) ->
  (forall v, rd_group (w_redis w) s (consumer_group settings) = Some v -> length (g_pel v) < fuel)%nat ->
  (0 < fuel)%nat ->
  exists w', exec (_ ← ensure_group s (consumer_group settings); reap_loop settings fuel s (0%N, 0%N) n) w =
      (w', inr (n + length (stale_entries w s))%nat) /\
    rows_wf (rows w') /\ w_now w' = w_now w /\ reaped [s] w w' /\
    (forall s' v0, s' <> s -> rd_group (w_redis w) s' (consumer_group settings) = Some v0 ->
      group_grows v0 (g_pel v0) (rd_group (w_redis w') s' (consumer_group settings))).
Proof.
  intros Hb Hwf Hfuel Hpos.
  destruct (exec_ensure_group s (consumer_group settings) w) as (w1 & E1 & R1 & N1 & G1 & F1 & _).
  set (v := default (mkGroup [] []) (rd_group (w_redis w) s (consumer_group settings))) in *.
  assert (stale_entries w s = filter (stale (w_now w)) (g_pel v)) as Hst.
  { unfold stale_entries, v. by destruct (rd_group _ _ _). }
  destruct (reap_loop_exec fuel s (0%N, 0%N) v w1 n Hb G1) as (w2 & E2 & [N2 W2 G2 O2 S2 P2]).
  { by rewrite R1. }
  { rewrite (unseen_all _ _ _ _ G1). unfold v.
    destruct (rd_group (w_redis w) s _) as [v'|]; [by apply Hfuel|done]. }
  rewrite (unseen_all _ _ _ _ G1), N1 in *. exists w2. rewrite exec_bind, E1, E2, Hst.
  split; [done|]. split; [done|]. split; [done|]. split; [split|].
  - by rewrite <-R1.
  - intros s' v' ->%list_elem_of_singleton Hv'. subst v. rewrite Hv' in *. simpl in *.
    destruct G2 as [l ->]. exists l. do 2 f_equal. apply filter_ext_in. intros e He.
    assert (stream_id_le (0%N, 0%N) (pe_id e)) by (right; by eapply pel_positive). tauto.
  - intros s' e id ->%list_elem_of_singleton He Hid. rewrite Hst in He.
    apply list_elem_of_filter in He as [He1 He2]. by apply (P2 e).
  - intros s' v0 Hne Hv0. apply O2; [naive_solver|]. rewrite F1; [done|naive_solver].
Qed.

Lemma reap_streams_exec fuel ss w n :
  (0 < reaper_batch_size settings)%nat -> rows_wf (rows w) -> NoDup ss ->
  groups_exist (w_redis w) (consumer_group settings) ss ->
  (forall s v, s ∈ ss -> rd_group (w_redis w) s (consumer_group settings) = Some v ->
    length (g_pel v) < fuel)%nat -> (0 < fuel)%nat ->
  exists w', exec (reap_streams settings fuel ss n) w =
      (w', inr (n + sum_list (length <$> (stale_entries w <$> ss)))%nat) /\ reaped ss w w' /\
    (forall s v, s ∉ ss -> rd_group (w_redis w) s (consumer_group settings) = Some v ->
      group_grows v (g_pel v) (rd_group (w_redis w') s (consumer_group settings))).
Proof.
  intros Hb Hwf Hnd Hex Hfuel Hpos. revert w n Hwf Hex Hfuel.
  induction ss as [|s ss IH]; intros w n Hwf Hex Hfuel.
  { exists w. cbn. rewrite Nat.add_0_r. split; [done|]. split; [split; [done|set_solver..]|].
    intros s v _ ->. exists []. destruct v. by rewrite app_nil_r. }
  apply NoDup_cons in Hnd as [Hs Hnd].
  destruct (reap_stream_exec fuel s w n Hb Hwf) as (w1 & E1 & Hwf1 & N1 & [S1 G1 P1] & O1); [set_solver|done|].
  assert (forall s', s' ∈ ss -> exists v l, rd_group (w_redis w) s' (consumer_group settings) = Some v /\
    rd_group (w_redis w1) s' (consumer_group settings) = Some (mkGroup (g_fresh v ++ l) (g_pel v))) as Hlater.
  { intros s' Hs'. destruct (Hex s') as [v Hv]; [set_solver|].
    destruct (O1 s' v) as [l Hl]; [by intros ->|done|]. by exists v, l. }
  assert (forall s', s' ∈ ss -> stale_entries w1 s' = stale_entries w s') as Hst.
  { intros s' Hs'. destruct (Hlater s' Hs') as (v & l & Hv & Hl). unfold stale_entries. by rewrite Hv, Hl, N1. }
  destruct (IH Hnd w1 (n + length (stale_entries w s))%nat Hwf1) as (w2 & E2 & [S2 G2 P2] & O2).
  { intros s' Hs'. destruct (Hlater s' Hs') as (v & l & _ & Hl). by exists (mkGroup (g_fresh v ++ l) (g_pel v)). }
  { intros s' v' Hs' Hv'. destruct (Hlater s' Hs') as (v & l & Hv & Hl). rewrite Hl in Hv'.
    injection Hv' as <-. apply (Hfuel s' v); [set_solver|done]. }
  exists w2. split; [|split; [split|]].
  - cbn [reap_streams]. rewrite exec_assoc_step, E1, E2. rewrite !fmap_cons. simpl.
    rewrite (list_fmap_ext (stale_entries w1) (stale_entries w) ss); [do 2 f_equal; lia|].
    intros i s' Hi. apply Hst. by eapply list_elem_of_lookup_2.
  - by etrans.
  - intros s' v [->|Hs']%elem_of_cons Hv.
    + destruct (G1 s v) as [l1 Hl1]; [set_solver|done|]. destruct (O2 s _ Hs Hl1) as [l2 ->].
      exists (l1 ++ l2). simpl. by rewrite app_assoc.
    + destruct (Hlater s' Hs') as (v' & l1 & Hv' & Hl1). simplify_eq.
      destruct (G2 s' _ Hs' Hl1) as [l2 ->]. exists (l1 ++ l2). simpl. by rewrite app_assoc, N1.
  - intros s' e id [->|Hs']%elem_of_cons He Hid.
    + eapply not_running_mono; [exact S2|]. by apply (P1 s e); [set_solver|..].
    + apply (P2 s' e); [done|by rewrite Hst|done].
  - intros s' v [Hne Hs']%not_elem_of_cons Hv. destruct (O1 s' v Hne Hv) as [l1 Hl1].
    destruct (O2 s' _ Hs' Hl1) as [l2 ->]. exists (l1 ++ l2). simpl. by rewrite app_assoc.
Qed.

(** C17: The reaper terminates (fuel above the length of every pending list is
    enough) and recovers lost work: in every stream exactly the entries idle for the
    visibility timeout leave the pending list, their number is the answer, no job
    named by one of them is still processing, and no job starts. *)
Theorem reap_stale_spec fuel w :
  (0 < reaper_batch_size settings)%nat -> rows_wf (rows w) -> NoDup (ordered_streams settings) ->
  groups_exist (w_redis w) (consumer_group settings) (ordered_streams settings) ->
  (forall s v, s ∈ ordered_streams settings -> rd_group (w_redis w) s (consumer_group settings) = Some v ->
    length (g_pel v) < fuel)%nat ->
  exists w', exec (reap_stale settings fuel) w =
      (w', inr (sum_list (length <$> (stale_entries w <$> ordered_streams settings)))) /\
    reaped (ordered_streams settings) w w'.
Proof.
  intros Hb Hwf Hnd Hex Hfuel. unfold reap_stale.
  assert (0 < fuel)%nat as Hpos.
  { destruct (Hex (stream_high settings)) as [v Hv]; [set_solver|].
    specialize (Hfuel (stream_high settings) v ltac:(set_solver) Hv). lia. }
  destruct (reap_streams_exec fuel (ordered_streams settings) w 0 Hb Hwf Hnd Hex Hfuel Hpos)
    as (w' & E & Hr & _). by exists w'.
Qed.
End Reaper.

(** * At a lost worker *)

Lemma lost_wf : rows_wf (rows lost_world).
Proof. by apply (bool_decide_unpack _); vm_compute. Qed.

Lemma lost_groups : groups_exist (w_redis lost_world) "workers" (ordered_streams the_settings).
Proof.
  assert (Forall (fun s => is_Some (rd_group (w_redis lost_world) s "workers")) (ordered_streams the_settings))
    as H by (apply (bool_decide_unpack _); vm_compute; exact I).
  rewrite Forall_forall in H. exact H.
Qed.

(** The longest pending list of the settings' group. *)
Definition pel_length (w : world) (s : string) : nat :=
  match rd_group (w_redis w) s "workers" with Some v => length (g_pel v) | None => 0 end.

Lemma lost_fuel s v :
  s ∈ ordered_streams the_settings -> rd_group (w_redis lost_world) s "workers" = Some v ->
  (length (g_pel v) < 2)%nat.
Proof.
  assert (Forall (fun s => pel_length lost_world s < 2)%nat (ordered_streams the_settings)) as H
    by (apply (bool_decide_unpack _); vm_compute; exact I).
  rewrite Forall_forall in H. intros Hs Hv. specialize (H s Hs). unfold pel_length in H. by rewrite Hv in H.
Qed.

Lemma the_streams_NoDup : NoDup (ordered_streams the_settings).
Proof. apply (bool_decide_unpack _). vm_compute. exact I. Qed.

Lemma reap_stale_spec_witness :
  exists w', exec (reap_stale the_settings 2) lost_world = (w', inr 1%nat) /\ not_running (rows w') first_id.
Proof.
  destruct (reap_stale_spec the_settings ltac:(discriminate) 2 lost_world (Nat.lt_0_succ _) lost_wf
    the_streams_NoDup lost_groups lost_fuel) as (w' & E & [_ _ Hstop]).
  assert (sum_list (length <$> (stale_entries the_settings lost_world <$> ordered_streams the_settings)) = 1%nat)
    as Hone by (vm_compute; reflexivity).
  exists w'. rewrite Hone in E. split; [exact E|].
  destruct (stale_entries the_settings lost_world (stream_normal the_settings)) as [|e l] eqn:He;
    [by vm_compute in He|].
  apply (Hstop (stream_normal the_settings) e first_id).
  - exact (stream_for_priority_ordered the_settings normal).
  - rewrite He. left.
  - vm_compute in He. injection He as <- _. vm_compute. reflexivity.
Defined.

(** * A job the reaper strands *)

Lemma unsynced_none d cutoff n :
  Forall (fun j => j_is_synced_to_redis j = true) (map_to_list (pg_rows d)).*2 -> list_unsynced cutoff n d = [].
Proof.
  intros Hs. destruct (list_unsynced cutoff n d) as [|j l] eqn:E; [done|].
  destruct (list_unsynced_batch cutoff n d) as (rest & Hl & _). rewrite E in Hl.
  assert (j ∈ waiting cutoff (pg_rows d)) as Hj by (rewrite Hl; left).
  unfold waiting in Hj. apply list_elem_of_filter in Hj as [Hu Hj].
  rewrite Forall_forall in Hs. specialize (Hs j Hj). unfold unsynced in Hu. rewrite Hs in Hu. simp_bool. done.
Qed.
