(* ===== verification/ApiFacts.v ===== *)
(** What the job routes promise: submission inserts one row and hands it over, a key
    is replayed or refused, a job is visible to its owner only, cancel and retry
    answer for every status. *)
From Stdlib Require Import Ascii.
From stdpp Require Import base tactics option list gmap strings numbers relations.
From S2P Require Import Prelude Prog Uuid Model Services Repository RepositoryFacts Queue Retry Handlers Payloads Idempotency Worker Ticker TokenCache Api Effects Scenario.
Set Default Goal Selector "!".
Open Scope Z_scope.

Section Api.
Context {PG : Postgres} {RD : Redis} {EN : Entropy} {OT : Otel} {PY : Pydantic} {OM : Orm}.
Context (settings : Settings).
Implicit Types (w : world) (user : AuthedUser).

(** * Submission *)

(** Whether the submission waits for its time. *)
Definition deferred (now : datetime) (sub : JobSubmission) : option datetime :=
  match s_scheduled_at sub with
  | Some t => if now <? t then Some t else None
  | None => None
  end.

(** The row a submission inserts. *)
Definition submitted (new_id : uuid) (now : datetime) (sub : JobSubmission) (key req_hash : option string)
    user : Job :=
  new_job new_id now (s_type sub) (s_payload sub)
    (match deferred now sub with Some _ => scheduled | None => pending end) (deferred now sub)
    (s_priority sub) (if decide (s_type sub = batch) then 1 else max_attempts settings) key req_hash
    current_trace_carrier (Some (user_id user)) (Some (user_name user)).

(** Its hand-off. *)
Definition submitted_redis (new_id : uuid) (now : datetime) (sub : JobSubmission) (r : rd) : rd :=
  match deferred now sub with
  | Some t => (zadd (delayed_zset settings) (str_uuid new_id) t r).1
  | None =>
      let stream := stream_for_priority settings (s_priority sub) in
      (xadd stream (message_fields stream (str_uuid new_id) None) now r).1
  end.

(** The row named by a user's key. *)
Definition keyed_row (m : gmap uuid Job) (key : string) user (j : Job) : Prop :=
  m !! j_id j = Some j /\ j_idempotency_key j = Some key /\ j_user_id j = Some (user_id user).

Lemma exec_keyed key user w :
  exists r, exec (pg_read (get_by_idempotency_key key (user_id user))) w = (w, inr (inr r)) /\
    forall j, r = Some j <-> keyed_row (rows w) key user j.
Proof.
  destruct (get_by_idempotency_key_spec key (user_id user) (w_db w)) as (r & E & Hr).
  exists r. by rewrite exec_pg_read, E.
Qed.

Lemma exec_fresh_uuid w :
  exec fresh_uuid w = (with_rng (uuid4 (w_rng w)).1 w, inr (uuid4 (w_rng w)).2).
Proof. done. Qed.

Lemma exec_refresh id w j : rows w !! id = Some j -> exec (refresh id) w = (w, inr j).
Proof. intros Hj. unfold refresh. autorewrite with jobs_rw. by rewrite Hj. Qed.

(** An insert that no key conflicts with. *)
Lemma exec_insert (job : datetime -> Job) w :
  storable (job (w_now w)) = true -> rows w !! j_id (job (w_now w)) = None ->
  (forall k a, rows w !! k = Some a -> idempotency_conflict (job (w_now w)) a = false) ->
  exists w', exec (pg (fun now => create_job (job now))) w = (w', inr (inr (job (w_now w)))) /\
    wrote (<[j_id (job (w_now w)) := job (w_now w)]> (rows w)) w w'.
Proof.
  intros Hst Hfree Hkey. destruct (pg_insert_ok (w_db w) (job (w_now w)) Hst Hfree Hkey) as [Hok Hrows].
  eexists. rewrite exec_pg. unfold create_job at 1 2. cbn [fst snd]. rewrite Hok. split; [done|]. by split.
Qed.

(** An insert of a row that the columns cannot hold. *)
Lemma exec_insert_refused (job : datetime -> Job) w :
  storable (job (w_now w)) = false ->
  exists w' m, exec (pg (fun now => create_job (job now))) w = (w', inr (inl (OtherError "DBAPIError" m))) /\
    wrote (rows w) w w'.
Proof.
  intros Hst. destruct (pg_insert_refused (w_db w) (job (w_now w)) Hst) as [[m Hm] Hrows].
  eexists _, m. rewrite exec_pg. unfold create_job at 1 2. cbn [fst snd]. rewrite Hm. split; [done|]. by split.
Qed.

Lemma no_conflict m key user j :
  (forall k a, m !! k = Some a -> j_id a = k) ->
  j_user_id j = Some (user_id user) -> j_idempotency_key j = key ->
  (forall k a, key = Some k -> ~ keyed_row m k user a) ->
  forall k a, m !! k = Some a -> idempotency_conflict j a = false.
Proof.
  intros Hid Hu Hk Hno k a Ha. unfold idempotency_conflict. rewrite Hu, Hk.
  destruct (j_user_id a) as [u|] eqn:Hua; [|done]. destruct key as [key|]; [|done].
  destruct (j_idempotency_key a) as [l|] eqn:Hka; [|done].
  apply bool_decide_eq_false. intros [<- <-]. apply (Hno key a eq_refl).
  split; [by rewrite (Hid _ _ Ha)|done].
Qed.

Lemma exec_create w sub st sa mx key req_hash user :
  let new_id := (uuid4 (w_rng w)).2 in
  let row := new_job new_id (w_now w) (s_type sub) (s_payload sub) st sa (s_priority sub) mx key
               req_hash current_trace_carrier (Some (user_id user)) (Some (user_name user)) in
  storable row = true -> rows w !! new_id = None ->
  (forall k j, key = Some k -> ~ keyed_row (rows w) k user j) ->
  exists w', exec (create sub st sa mx key req_hash user) w = (w', inr row) /\
    rows w' = <[new_id := row]> (rows w) /\ w_redis w' = w_redis w /\ w_now w' = w_now w.
Proof.
  intros new_id row Hst Hfree Hkey. unfold create. rewrite exec_bind, exec_fresh_uuid. fold new_id.
  set (w0 := with_rng _ w).
  destruct (exec_insert (fun now => new_job new_id now (s_type sub) (s_payload sub) st sa
      (s_priority sub) mx key req_hash current_trace_carrier (Some (user_id user)) (Some (user_name user))) w0)
    as (w1 & E & [R F N _]); [done|done|by eapply (no_conflict _ key user); [apply rows_keyed|..]|].
  rewrite exec_bind, E, exec_bind, exec_or_raise. exists w1.
  rewrite (exec_refresh _ _ row); [done|]. by rewrite R, lookup_insert_eq.
Qed.

Lemma exec_create_refused w sub st sa mx key req_hash user :
  let new_id := (uuid4 (w_rng w)).2 in
  storable (new_job new_id (w_now w) (s_type sub) (s_payload sub) st sa (s_priority sub) mx key
    req_hash current_trace_carrier (Some (user_id user)) (Some (user_name user))) = false ->
  exists w' m, exec (create sub st sa mx key req_hash user) w = (w', inl (OtherError "DBAPIError" m)) /\
    rows w' = rows w /\ w_redis w' = w_redis w.
Proof.
  intros new_id Hst. unfold create. rewrite exec_bind, exec_fresh_uuid. fold new_id. set (w0 := with_rng _ w).
  destruct (exec_insert_refused (fun now => new_job new_id now (s_type sub) (s_payload sub) st sa
      (s_priority sub) mx key req_hash current_trace_carrier (Some (user_id user)) (Some (user_name user))) w0 Hst)
    as (w1 & m & E & [R F _ _]).
  rewrite exec_bind, E, exec_bind, exec_or_raise. by exists w1, m.
Qed.

Lemma exec_create_and_handoff w sub key req_hash user :
  let new_id := (uuid4 (w_rng w)).2 in
  let row := submitted new_id (w_now w) sub key req_hash user in
  storable row = true -> rows w !! new_id = None ->
  (forall k j, key = Some k -> ~ keyed_row (rows w) k user j) ->
  exists w', exec (_create_and_handoff settings sub key req_hash user) w = (w', inr row) /\
    rows w' = <[new_id := set_is_synced_to_redis true row]> (rows w) /\
    w_redis w' = submitted_redis new_id (w_now w) sub (w_redis w) /\ w_now w' = w_now w.
Proof.
  intros new_id row Hst Hfree Hkey. unfold _create_and_handoff. cbv zeta.
  set (mx := if decide _ then _ else _).
  assert (forall st sa, exists w1, exec (create sub st sa mx key req_hash user) w =
    (w1, inr (new_job new_id (w_now w) (s_type sub) (s_payload sub) st sa (s_priority sub) mx key
               req_hash current_trace_carrier (Some (user_id user)) (Some (user_name user)))) /\
    rows w1 = <[new_id := new_job new_id (w_now w) (s_type sub) (s_payload sub) st sa (s_priority sub) mx key
               req_hash current_trace_carrier (Some (user_id user)) (Some (user_name user))]> (rows w) /\
    w_redis w1 = w_redis w /\ w_now w1 = w_now w) as Hcreate by (intros; by apply exec_create).
  unfold schedule, enqueue. subst row. clear Hst. unfold submitted, submitted_redis, deferred.
  destruct (s_scheduled_at sub) as [t|]; [rewrite exec_bind, exec_bind, exec_clock; destruct (w_now w <? t)|].
  all: autorewrite with jobs_rw; match goal with |- context [exec (create _ ?st ?sa _ _ _ _) _] =>
    destruct (Hcreate st sa) as (w1 & E1 & R1 & F1 & N1) end.
  all: rewrite E1; autorewrite with jobs_rw; cbn [fst snd].
  all: synced as (w2 & E2 & [R2 F2 N2 _]); [rewrite rows_with_redis, R1; by rewrite lookup_insert_eq|].
  all: rewrite E2; eexists; (split; [done|]); rewrite R2, F2, N2, rows_with_redis, R1, insert_insert_eq.
  all: simpl; by rewrite F1, N1.
Qed.

(** A row that cannot be stored: the insert fails, and nothing was handed off. *)
Lemma exec_handoff_refused w sub key req_hash user :
  storable (submitted (uuid4 (w_rng w)).2 (w_now w) sub key req_hash user) = false ->
  exists w' m, exec (_create_and_handoff settings sub key req_hash user) w = (w', inl (OtherError "DBAPIError" m)) /\
    rows w' = rows w /\ w_redis w' = w_redis w.
Proof.
  intros Hst. unfold _create_and_handoff. cbv zeta. set (mx := if decide _ then _ else _).
  assert (forall st sa, exists w1 m, exec (create sub st sa mx key req_hash user) w = (w1, inl (OtherError "DBAPIError" m)) /\
    rows w1 = rows w /\ w_redis w1 = w_redis w) as Hcreate by (intros; by apply exec_create_refused).
  destruct (s_scheduled_at sub) as [t|]; [rewrite exec_bind, exec_bind, exec_clock; destruct (w_now w <? t)|].
  all: rewrite !exec_bind; match goal with |- context [exec (create _ ?st ?sa _ _ _ _) _] =>
    destruct (Hcreate st sa) as (w1 & m & -> & R & F) end; by exists w1, m.
Qed.

Definition accepts (sub : JobSubmission) : Prop :=
  exists p, validate_payload (s_type sub) (s_payload sub) (Some settings) = inr p.

Definition submission_hash (sub : JobSubmission) : option string :=
  match s_idempotency_key sub with
  | None => None
  | Some _ => Some (canonical_hash (s_type sub) (s_payload sub))
  end.

(** C20: A valid submission whose key names no job of the user answers 202 with the
    row it inserts: exactly one new row, marked as synced, scheduled if and only if
    its time is in the future, and handed to the delayed set or to the stream of its
    priority accordingly; nothing else changes.  If PostgreSQL cannot store the row
    (its payload holds a NUL, say), the driver's error passes through, which is
    answered as a 500, and nothing changes. *)
Theorem submit_job_accepts w sub user :
  let new_id := (uuid4 (w_rng w)).2 in
  let row := submitted new_id (w_now w) sub (s_idempotency_key sub) (submission_hash sub) user in
  accepts sub -> rows w !! new_id = None ->
  (forall k j, s_idempotency_key sub = Some k -> ~ keyed_row (rows w) k user j) ->
  if storable row then
    exists w', exec (submit_job settings sub user) w = (w', inr (mkResponse 202 (_accepted row))) /\
      rows w' = <[new_id := set_is_synced_to_redis true row]> (rows w) /\
      w_redis w' = submitted_redis new_id (w_now w) sub (w_redis w)
  else
    exists w' m, exec (submit_job settings sub user) w = (w', inl (OtherError "DBAPIError" m)) /\
      rows w' = rows w /\ w_redis w' = w_redis w.
Proof.
  intros new_id row [p Hp] Hfree Hkey. unfold submit_job, submission_hash in *. rewrite Hp.
  destruct (storable row) eqn:Hst; subst row; (destruct (s_idempotency_key sub) as [key|] eqn:Hk;
    [destruct (exec_keyed key user w) as (r & E & Hr); rewrite exec_bind, E, exec_bind, exec_or_raise;
     (destruct r as [j|]; [by destruct (Hkey key j eq_refl); apply Hr|]); rewrite exec_bind, exec_attempt|]).
  - destruct (exec_create_and_handoff w sub (Some key) (Some (canonical_hash (s_type sub) (s_payload sub)))
      user Hst Hfree Hkey) as (w1 & -> & R & F & _). by exists w1.
  - destruct (exec_create_and_handoff w sub None None user Hst Hfree Hkey) as (w1 & E & R & F & _).
    rewrite exec_bind, E. by exists w1.
  - destruct (exec_handoff_refused w sub (Some key) (Some (canonical_hash (s_type sub) (s_payload sub))) user Hst)
      as (w1 & m & -> & R & F). by exists w1, m.
  - destruct (exec_handoff_refused w sub None None user Hst) as (w1 & m & E & R & F).
    rewrite exec_bind, E. by exists w1, m.
Qed.

(** An invalid payload answers 422 and has no effect at all. *)
Theorem submit_job_invalid w sub user m :
  validate_payload (s_type sub) (s_payload sub) (Some settings) = inl (ValidationError m) \/
  validate_payload (s_type sub) (s_payload sub) (Some settings) = inl (PayloadPolicyError m) ->
  exec (submit_job settings sub user) w = (w, inl (HTTPException 422 m)).
Proof. unfold submit_job. by intros [-> | ->]. Qed.

Lemma exec_replay w sub user key j :
  accepts sub -> s_idempotency_key sub = Some key -> keyed_row (rows w) key user j ->
  exec (submit_job settings sub user) w =
    (w, if decide (j_idempotency_hash j = submission_hash sub)
        then inr (mkResponse 200 (_accepted j))
        else inl (HTTPException 409 "idempotency key reused with a different payload")).
Proof.
  intros [p Hp] Hk Hj. unfold submit_job, submission_hash. rewrite Hp, Hk.
  destruct (exec_keyed key user w) as (r & E & Hr). rewrite exec_bind, E, exec_bind, exec_or_raise.
  apply Hr in Hj as ->. rewrite exec_or_raise. unfold _replay_or_conflict. by case_decide.
Qed.

(** A submission that reuses a key of its user changes nothing: it answers 200
    with the existing job when the hash of the payload is the one stored, and 409
    otherwise. *)
Theorem submit_job_replay w sub user key j :
  accepts sub -> s_idempotency_key sub = Some key -> keyed_row (rows w) key user j ->
  exec (submit_job settings sub user) w =
    (w, if decide (j_idempotency_hash j = submission_hash sub)
        then inr (mkResponse 200 (_accepted j))
        else inl (HTTPException 409 "idempotency key reused with a different payload")).
Proof. apply exec_replay. Qed.

(** * Ownership *)

Lemma exec_not_owned w id user :
  row_at (rows w) id (fun j => bool_decide (j_user_id j = Some (user_id user))) = None ->
  exec (owned_job id user) w = (w, inl (HTTPException 404 "job not found")).
Proof. intros H. unfold owned_job. autorewrite with jobs_rw. by rewrite H. Qed.

(** C26: A job of another user, an ownerless job and a missing job cannot be told
    apart: reading, retrying and cancelling it all answer 404 and change nothing. *)
Theorem routes_owner_only w id user :
  (forall j, rows w !! id = Some j -> j_user_id j <> Some (user_id user)) ->
  exec (get_job_route id user) w = (w, inl (HTTPException 404 "job not found")) /\
  exec (retry_job settings id user) w = (w, inl (HTTPException 404 "job not found")) /\
  exec (cancel_job_route settings id user) w = (w, inl (HTTPException 404 "job not found")).
Proof.
  intros Hno.
  assert (row_at (rows w) id (fun j => bool_decide (j_user_id j = Some (user_id user))) = None) as H.
  { unfold row_at. destruct (rows w !! id) as [j|] eqn:Hj; [|done].
    by rewrite bool_decide_eq_false_2 by by apply Hno. }
  unfold get_job_route, retry_job, cancel_job_route. by rewrite !exec_bind, !exec_not_owned.
Qed.

Lemma exec_owned w id user j :
  rows w !! id = Some j -> j_user_id j = Some (user_id user) -> exec (owned_job id user) w = (w, inr j).
Proof.
  intros Hj Hu. unfold owned_job. autorewrite with jobs_rw.
  unfold row_at. rewrite Hj, bool_decide_eq_true_2 by done. done.
Qed.

(** * Cancel *)

(** The answer of a cancel request, and the row it leaves. *)
Definition cancel_row (now : datetime) (j : Job) : Job :=
  match j_status j with
  | pending | scheduled => set_status cancelled (set_completed_at (Some now) j)
  | processing => set_cancel_requested_at (Some now) j
  | _ => j
  end.
Definition cancel_answer (now : datetime) (j : Job) : exn + response JobOut :=
  match j_status j with
  | pending | scheduled | cancelled => inr (mkResponse 200 (job_out (cancel_row now j)))
  | processing => inr (mkResponse 202 (job_out (cancel_row now j)))
  | completed | failed => inl (HTTPException 409 "job cannot be cancelled in its current state")
  end.
Definition cancel_redis (id : uuid) (j : Job) (r : rd) : rd :=
  match j_status j with
  | pending | scheduled => (zrem (delayed_zset settings) [str_uuid id] r).1
  | _ => r
  end.

Lemma exec_answer_with code w id j :
  rows w !! id = Some j -> exec (answer_with code None id) w = (w, inr (mkResponse code (job_out j))).
Proof. intros Hj. unfold answer_with, session_get. autorewrite with jobs_rw. by rewrite Hj. Qed.

(** The round on a row that is not claimed: the job is cancelled at once. *)
Lemma cancel_waiting w id j n :
  rows w !! id = Some j -> status_in [pending; scheduled] j = true ->
  exists w', exec (cancel_rounds settings (S n) id None) w =
      (w', inr (mkResponse 200 (job_out (set_status cancelled (set_completed_at (Some (w_now w)) j))))) /\
    rows w' = <[id := set_status cancelled (set_completed_at (Some (w_now w)) j)]> (rows w) /\
    w_redis w' = (zrem (delayed_zset settings) [str_uuid id] (w_redis w)).1.
Proof.
  intros Hj Hg. cbn [cancel_rounds]. rewrite exec_bind, exec_clock.
  win (fun _ : Z => cancel_pending_or_scheduled (w_now w) id) Hj Hg as (w1 & E & [R F N _]).
  rewrite exec_bind, E, exec_bind, exec_redis_do. eexists.
  rewrite (exec_answer_with _ _ _ (set_status cancelled (set_completed_at (Some (w_now w)) j)));
    [by rewrite F|].
  by rewrite rows_with_redis, R, lookup_insert_eq.
Qed.

(** The round on a claimed row: the worker is asked to stop. *)
Lemma cancel_running w id j n :
  rows w !! id = Some j -> j_status j = processing ->
  exists w', exec (cancel_rounds settings (S n) id None) w =
      (w', inr (mkResponse 202 (job_out (set_cancel_requested_at (Some (w_now w)) j)))) /\
    rows w' = <[id := set_cancel_requested_at (Some (w_now w)) j]> (rows w) /\ w_redis w' = w_redis w.
Proof.
  intros Hj Hst. cbn [cancel_rounds]. rewrite exec_bind, exec_clock.
  assert (row_at (rows w) id (status_in [pending; scheduled]) = None) as Hno.
  { unfold row_at, status_in. rewrite Hj, Hst. done. }
  lose (fun _ : Z => cancel_pending_or_scheduled (w_now w) id) Hno as (w1 & E1 & [R1 F1 N1 _]).
  rewrite exec_bind, E1, exec_bind, exec_clock, N1. cbv beta.
  rewrite <-R1 in Hj. assert (status_in [processing] j = true) as Hg by (unfold status_in; by rewrite Hst).
  win (fun _ : Z => request_cancel (w_now w) id) Hj Hg as (w2 & E2 & [R2 F2 _ _]).
  rewrite exec_bind, E2. exists w2. rewrite (exec_answer_with _ _ _ (set_cancel_requested_at (Some (w_now w)) j)).
  - by rewrite R2, R1, F2, F1.
  - by rewrite R2, lookup_insert_eq.
Qed.

(** The round on a finished row changes nothing. *)
Lemma cancel_finished w id j n :
  rows w !! id = Some j -> terminal (j_status j) = true ->
  exists w', exec (cancel_rounds settings (S n) id None) w = (w', cancel_answer (w_now w) j) /\
    rows w' = rows w /\ w_redis w' = w_redis w.
Proof.
  intros Hj Ht. cbn [cancel_rounds]. rewrite exec_bind, exec_clock.
  assert (forall ss, Forall (fun s => terminal s = false) ss -> row_at (rows w) id (status_in ss) = None) as Hno.
  { intros ss Hss. unfold row_at, status_in. rewrite Hj. case_bool_decide as Hin; [|done].
    rewrite Forall_forall in Hss. specialize (Hss _ Hin). congruence. }
  lose (fun _ : Z => cancel_pending_or_scheduled (w_now w) id) (Hno [pending; scheduled] ltac:(by repeat constructor))
    as (w1 & E1 & [R1 F1 N1 _]).
  rewrite exec_bind, E1, exec_bind, exec_clock, N1. cbv beta. rewrite <-R1 in Hno.
  lose (fun _ : Z => request_cancel (w_now w) id) (Hno [processing] ltac:(by repeat constructor))
    as (w2 & E2 & [R2 F2 _ _]).
  rewrite exec_bind, E2. unfold session_get. cbn [fmap option_fmap option_map]. autorewrite with jobs_rw.
  rewrite R2, R1, Hj. exists w2. rewrite R2, R1, F2, F1. unfold cancel_answer, cancel_row.
  destruct (j_status j) eqn:Hst; try done.
Qed.

(** C25: Cancelling one's job, by status: a waiting job is cancelled at once (200) and
    leaves the delayed set; a running one is asked to stop (202); a cancelled one
    answers 200 again; a completed or failed one answers 409.  Nothing else changes. *)
Theorem cancel_job_route_spec w id user j :
  rows w !! id = Some j -> j_user_id j = Some (user_id user) ->
  exists w', exec (cancel_job_route settings id user) w = (w', cancel_answer (w_now w) j) /\
    rows w' = <[id := cancel_row (w_now w) j]> (rows w) /\ w_redis w' = cancel_redis id j (w_redis w).
Proof.
  intros Hj Hu. unfold cancel_job_route. rewrite exec_bind, (exec_owned _ _ _ _ Hj Hu).
  unfold cancel_row, cancel_redis.
  destruct (terminal (j_status j)) eqn:Ht.
  - destruct (cancel_finished w id j 2 Hj Ht) as (w' & E & R & F). exists w'. split; [done|].
    rewrite R, F. by destruct (j_status j); rewrite ?insert_id.
  - unfold cancel_answer, cancel_row. destruct (j_status j) eqn:Hst; try done.
    + apply cancel_waiting; [done|]. unfold status_in. by rewrite Hst.
    + apply cancel_waiting; [done|]. unfold status_in. by rewrite Hst.
    + by apply cancel_running.
Qed.

(** * Retry *)

(** The row a manual retry leaves. *)
Definition retried_row (j : Job) : Job :=
  set_is_synced_to_redis true (set_status pending (set_attempts 0 (set_error None (set_started_at None
    (set_completed_at None (set_is_synced_to_redis false j)))))).

(** Retrying one's failed job that was never asked to cancel answers 200 with the
    job pending again, its attempts reset, marked as synced and enqueued on its
    stream; any other job of one's own answers 409 and changes nothing. *)
Theorem retry_job_spec w id user j :
  rows w !! id = Some j -> j_user_id j = Some (user_id user) ->
  exists w', exec (retry_job settings id user) w =
      (w', if decide (j_status j = failed /\ j_cancel_requested_at j = None)
           then inr (mkResponse 200 (job_out (retried_row j)))
           else inl (HTTPException 409 "job is not retryable (not failed, or cancel was requested)")) /\
    (if decide (j_status j = failed /\ j_cancel_requested_at j = None)
     then rows w' = <[id := retried_row j]> (rows w) /\
          (let stream := stream_for_priority settings (j_priority j) in
           w_redis w' = (xadd stream (message_fields stream (str_uuid id) None) (w_now w) (w_redis w)).1)
     else rows w' = rows w /\ w_redis w' = w_redis w).
Proof.
  intros Hj Hu. unfold retry_job. rewrite exec_bind, (exec_owned _ _ _ _ Hj Hu). unfold enqueue.
  set (g := fun j => status_in [failed] j && bool_decide (j_cancel_requested_at j = None)).
  assert (g j = true <-> j_status j = failed /\ j_cancel_requested_at j = None) as Hg.
  { unfold g. rewrite andb_true_iff, status_in_true, bool_decide_eq_true, list_elem_of_singleton. done. }
  case_decide as Hok.
  - apply Hg in Hok. win (fun _ : Z => reset_failed_to_pending id) Hj Hok as (w1 & E1 & [R1 F1 N1 _]).
    rewrite exec_bind, E1. autorewrite with jobs_rw. cbn [fst snd].
    synced as (w2 & E2 & [R2 F2 N2 _]); [by rewrite rows_with_redis, R1, lookup_insert_eq|].
    rewrite E2, exec_bind, (exec_refresh _ _ (retried_row j)); [|by rewrite R2, lookup_insert_eq].
    exists w2. rewrite R2, F2, rows_with_redis, R1, insert_insert_eq. simpl. by rewrite F1, N1.
  - assert (row_at (rows w) id g = None) as Hno.
    { unfold row_at. rewrite Hj. rewrite <-Hg in Hok. by destruct (g j). }
    lose (fun _ : Z => reset_failed_to_pending id) Hno as (w1 & E1 & [R1 F1 N1 _]).
    rewrite exec_bind, E1. by exists w1.
Qed.
End Api.

(** * At Alice's report *)

Definition keyed_submission : JobSubmission := report_submission (Some "k1"%string).

Lemma report_accepted : accepts the_settings keyed_submission.
Proof. exists (ItemPayload (ReportPayload sales None)). vm_compute. reflexivity. Qed.

Lemma ready_rows : rows ready_world = ∅.
Proof. apply map_size_empty_inv. vm_compute. reflexivity. Qed.

Lemma ready_no_key k j :
  s_idempotency_key keyed_submission = Some k -> ~ keyed_row (rows ready_world) k alice j.
Proof. intros _ [Hj _]. by rewrite ready_rows, lookup_empty in Hj. Qed.

Lemma ready_free : rows ready_world !! (uuid4 (w_rng ready_world)).2 = None.
Proof. by rewrite ready_rows. Qed.

(** The same report with a NUL in its parameters. *)
Definition nul_submission : JobSubmission :=
  mkSubmission report (JObj [("report_type", JStr "sales"); ("params", JObj [("note", JStr (String "000"%char EmptyString))])])%string
    normal None None.

Lemma nul_accepted : accepts the_settings nul_submission.
Proof. eexists. vm_compute. reflexivity. Qed.

(** It is stored once, and with the NUL it is a 500. *)
Lemma submit_job_accepts_witness :
  (exists w', (exists row, exec (submit_job the_settings keyed_submission alice) ready_world =
      (w', inr (mkResponse 202 (_accepted row)))) /\ size (rows w') = 1%nat) /\
  exists w' m, exec (submit_job the_settings nul_submission alice) ready_world = (w', inl (OtherError "DBAPIError" m)) /\
    rows w' = rows ready_world.
Proof.
  pose proof (submit_job_accepts the_settings ready_world keyed_submission alice report_accepted ready_free
    ready_no_key) as H.
  pose proof (submit_job_accepts the_settings ready_world nul_submission alice nul_accepted ready_free
    ltac:(discriminate)) as Hnul.
  cbv zeta in H, Hnul.
  match type of H with if ?b then _ else _ => assert (b = true) as Hb by (vm_compute; reflexivity); rewrite Hb in H end.
  match type of Hnul with if ?b then _ else _ => assert (b = false) as Hn by (vm_compute; reflexivity); rewrite Hn in Hnul end.
  split.
  - destruct H as (w' & E & R & _). exists w'. split; [eexists; exact E|].
    rewrite R, ready_rows, insert_empty. apply map_size_singleton.
  - destruct Hnul as (w' & m & E & R & _). exists w', m. exact (conj E R).
Defined.

Definition bad_submission : JobSubmission := mkSubmission report JNull normal None None.

Definition unlisted_submission : JobSubmission :=
  mkSubmission webhook (JObj [("url", JStr "https://x.test/hook")]%string) normal None None.

Lemma unlisted_refused :
  validate_payload webhook (s_payload unlisted_submission) (Some the_settings) =
  inl (PayloadPolicyError "webhook host 'x.test' is not allowlisted").
Proof. vm_compute. reflexivity. Qed.

Lemma submit_job_invalid_witness :
  exec (submit_job the_settings unlisted_submission alice) ready_world =
    (ready_world, inl (HTTPException 422 "webhook host 'x.test' is not allowlisted")).
Proof.
  exact (submit_job_invalid the_settings ready_world unlisted_submission alice _ (or_intror unlisted_refused)).
Defined.

Lemma submitted_keyed : keyed_row (rows submitted_world) "k1" alice submitted_job.
Proof. split; [exact submitted_job_row|]. split; reflexivity. Qed.

Lemma submitted_hash : j_idempotency_hash submitted_job = submission_hash keyed_submission.
Proof. vm_compute. reflexivity. Qed.

Lemma submit_job_replay_witness :
  exec (submit_job the_settings keyed_submission alice) submitted_world =
    (submitted_world, inr (mkResponse 200 (_accepted submitted_job))).
Proof.
  rewrite (submit_job_replay the_settings submitted_world keyed_submission alice "k1" submitted_job
    report_accepted eq_refl submitted_keyed).
  rewrite decide_True; [reflexivity|exact submitted_hash].
Defined.

Lemma submitted_not_bobs j : rows submitted_world !! first_id = Some j -> j_user_id j <> Some (user_id bob).
Proof. rewrite submitted_job_row. intros [= <-]. discriminate. Qed.

Lemma routes_owner_only_witness :
  exec (get_job_route first_id bob) submitted_world =
    (submitted_world, inl (HTTPException 404 "job not found")).
Proof. exact (proj1 (routes_owner_only the_settings submitted_world first_id bob submitted_not_bobs)). Defined.

Lemma cancel_job_route_spec_witness :
  exists w', exec (cancel_job_route the_settings first_id alice) claimed_world =
      (w', inr (mkResponse 202 (job_out (set_cancel_requested_at (Some t0) claimed_job)))) /\
    rows w' = <[first_id := set_cancel_requested_at (Some t0) claimed_job]> (rows claimed_world).
Proof.
  destruct (cancel_job_route_spec the_settings claimed_world first_id alice claimed_job claimed_job_row eq_refl)
    as (w' & E & R & _).
  exists w'. split; [exact E|exact R].
Defined.

Lemma retry_job_spec_witness :
  exists w', exec (retry_job the_settings first_id alice) failed_world =
    (w', inr (mkResponse 200 (job_out (retried_row failed_job)))).
Proof.
  destruct (retry_job_spec the_settings failed_world first_id alice failed_job failed_job_row eq_refl)
    as (w' & E & _).
  exists w'. rewrite decide_True in E; [exact E|]. split; reflexivity.
Defined.
