(* ===== verification/Observed.v ===== *)
(** The coroutines of the service with everything they record on the instruments and
    every line they log: retry (app/retry.py), worker (app/worker/runner.py,
    recycler.py), ticker (app/ticker/runner.py), submission (app/api/routes.py) and
    authentication (app/api/deps.py).

    [obs_f] is the whole of the function [f], of which Retry.v, Worker.v, Ticker.v,
    Api.v and Auth.v have the part that acts on the services; ObservedFacts.v proves
    that part is what is left of it without its events.  A task's bound log context is the
    argument [ctx]. *)
From stdpp Require Import base tactics option list gmap strings numbers pretty.
From S2P Require Import Prelude Idempotency TokenCache Auth.
From S2P Require Import Prog Uuid Model Json Services Repository Queue Retry Handlers Payloads Logging Meters Worker Ticker Api.
Set Default Goal Selector "!".
Open Scope Z_scope.

#[export] Instance world_clock {PG : Postgres} {RD : Redis} {EN : Entropy} : Clocked world := w_now.
#[export] Instance auth_clock {AP : Apiserver} : Clocked auth_world := aw_now.

(** [{"type": job.type.value, "priority": job.priority.value}] *)
Definition job_attributes (job : Job) : attributes :=
  [("type", AText (JobType_value (j_type job))); ("priority", AText (JobPriority_value (j_priority job)))]%string.

(** * The worker *)

Section Observed.
Context {PG : Postgres} {RD : Redis} {EN : Entropy} {OT : Otel} {PY : Pydantic} {OM : Orm}.
Context (settings : Settings).

#[local] Abbreviation task := (observed world).

(** ** retry.py *)

Definition retry_line (ctx : log_fields) (message : string) (job : Job) (n : Z) (delay : log_fields) (won : bool) :
    task unit :=
  say ctx "app.retry" "INFO" message
    ([("job_id", field_text (str_uuid (j_id job))); ("attempts", field_int n)]%string ++ delay ++
     [("won", field_bool won)]%string) None.

Definition obs_schedule_retry_or_fail (ctx : log_fields) (job : Job) (error : json) (carrier : option fields) :
    task bool :=
  let n := j_attempts job + 1 in
  if j_max_attempts job <=? n then
    won ← lift (pg (fun now => fail_job now (j_id job) error));
    _ ← (if won : bool then record jobs_failed 1 (job_attributes job) else Ret tt);
    _ ← retry_line ctx "retry.failed_permanent" job n [] won;
    Ret won
  else
    delay ← lift (or_raise (backoff_delay n (retry_backoff_schedule settings)));
    if delay <=? 0 then
      won ← lift (pg (fun _ => retry_to_pending (j_id job)));
      _ ← lift (if won : bool then
             _ ← enqueue (stream_for_priority settings (j_priority job)) (str_uuid (j_id job)) carrier;
             pg (fun _ => mark_synced (j_id job))
           else Ret tt);
      _ ← retry_line ctx "retry.immediate" job n [] won;
      Ret won
    else
      now ← lift clock;
      let scheduled_at := now + seconds delay in
      won ← lift (pg (fun _ => retry_to_scheduled (j_id job) scheduled_at));
      _ ← lift (if won : bool then
             _ ← schedule (delayed_zset settings) (str_uuid (j_id job)) scheduled_at;
             pg (fun _ => mark_synced (j_id job))
           else Ret tt);
      _ ← retry_line ctx "retry.delayed" job n [("delay", field_int delay)]%string won;
      Ret won.

(** ** process_job *)

Definition outcome_attributes (job : option Job) (label : string) : attributes :=
  ("outcome", AText label)%string :: match job with Some job => job_attributes job | None => [] end.

Definition obs_record_outcome (job : option Job) (label : string) (started : datetime) : task unit :=
  let attrs := outcome_attributes job label in
  _ ← record jobs_processed 1 attrs;
  now ← look;
  record job_processing_duration (now - started)
    (filter (fun kv => kv.1 ∈ ["type"; "outcome"]%string) attrs).

(** [log.level(message, extra={..., "won": won})], [_record_outcome], [Outcome]. *)
Definition conclude (ctx : log_fields) (level message : string) (extra : log_fields) (job : option Job)
    (label : string) (started : datetime) (ack : bool) : task Outcome :=
  _ ← say ctx "app.worker" level message extra None;
  _ ← obs_record_outcome job label started;
  Ret (mkOutcome ack label).

Definition won_field (won : bool) : log_fields := [("won", field_bool won)]%string.

(** The [except] clauses. *)
Definition obs_settle_error (ctx : log_fields) (started : datetime) (job : Job) (e : exn) : task Outcome :=
  match e with
  | JobCancelled summary =>
      won ← lift (pg (fun now => cancel_job now (j_id job) summary));
      conclude ctx "INFO" "job.cancelled" (won_field won) (Some job) "cancelled" started won
  | HandlerTimeout =>
      won ← obs_schedule_retry_or_fail ctx job
        (error_json "HandlerTimeout" (">" +:+ float_text (job_handler_timeout_s settings) +:+ "s")%string) None;
      conclude ctx "WARNING" "job.timeout" (won_field won) (Some job) "timeout" started won
  | CancelledError => Raise CancelledError
  | PayloadPolicyError msg =>
      won ← lift (pg (fun now => fail_job now (j_id job) (error_json "PayloadPolicyError" msg)));
      _ ← (if won : bool then record jobs_failed 1 (job_attributes job) else Ret tt);
      conclude ctx "WARNING" "job.policy_rejected" (won_field won) (Some job) "policy_rejected" started won
  | e =>
      won ← obs_schedule_retry_or_fail ctx job (error_json (exn_name e) (exn_str e)) None;
      conclude ctx "INFO" "job.retry_scheduled" (("error_type", field_text (exn_name e))%string :: won_field won)
        (Some job) "retried" started won
  end.

(** After the [try]. *)
Definition obs_settle_result (ctx : log_fields) (started : datetime) (job : Job) (result : json) : task Outcome :=
  won ← lift (pg (fun now => complete_job now (j_id job) result
                    (if decide (j_type job = batch) then Some 100 else None)));
  if won : bool
  then conclude ctx "INFO" "job.completed" [] (Some job) "completed" started true
  else conclude ctx "CRITICAL" "job.complete_lost_to_reaper" [] (Some job) "lost" started false.

Definition obs_process_claimed (ctx : log_fields) (started : datetime) (job : Job) : task Outcome :=
  match j_user_id job with
  | None =>
      won ← lift (pg (fun now => fail_job now (j_id job)
                        (JObj [("reason", JStr "ownerless job dropped")]%string)));
      _ ← record jobs_dropped_ownerless 1 [];
      conclude ctx "WARNING" "job.dropped_ownerless" (won_field won) (Some job) "dropped_ownerless" started won
  | Some _ =>
      _ ← lift (if decide (j_type job = batch) then pg (fun _ => init_progress (j_id job)) else Ret true);
      r ← attempt (lift (run_job settings job));
      match r with
      | inl e => obs_settle_error ctx started job e
      | inr result => obs_settle_result ctx started job result
      end
  end.

Definition obs_process_job (ctx : log_fields) (job_id : uuid) : task Outcome :=
  started ← look;
  claimed ← lift (pg (fun now => claim_job now job_id));
  if claimed : bool then
    found ← lift (pg_read (get_job job_id None));
    row ← lift (or_raise found);
    match row with
    | None => Raise (OtherError "AttributeError" "'NoneType' object has no attribute 'type'")
    | Some job => obs_process_claimed ctx started job
    end
  else conclude ctx "INFO" "job.skipped" [("reason", field_text "not_claimable")]%string None "skipped" started true.

(** ** handle_message *)

Definition message_id_text (id : stream_id) : string := (pretty id.1 +:+ "-" +:+ pretty id.2)%string.

(** [{s: p.value for p, s in settings.priority_streams}.get(stream, stream)] *)
Definition stream_label (stream : string) : string :=
  default stream (od_get stream
    (foldl (fun d ps => od_set ps.2 (JobPriority_value ps.1) d) [] (priority_streams settings))).

Definition message_fields_bound (job_id : uuid) (message_id : stream_id) (stream : string) : log_fields :=
  [("job_id", field_text (str_uuid job_id)); ("message_id", field_text (message_id_text message_id));
   ("stream", field_text stream)]%string.

Definition obs_handle_message (ctx : log_fields) (m : delivery) : task Outcome :=
  let '(stream, message_id, f) := m in
  match message_job f with
  | None =>
      _ ← say ctx "app.worker" "ERROR" "job.poison_message"
            [("stream", field_text stream); ("message_id", field_text (message_id_text message_id))]%string None;
      _ ← lift (ack stream (consumer_group settings) message_id);
      Ret (mkOutcome true "poison")
  | Some job_id =>
      now ← look;
      _ ← record job_queue_wait (Z.max 0 (now - Z.of_N message_id.1 * 1000))
            [("stream", AText (stream_label stream))]%string;
      let bound := merged ctx (message_fields_bound job_id message_id stream) in
      _ ← say bound "app.worker" "INFO" "job.received" [] None;
      outcome ← obs_process_job bound job_id;
      _ ← lift (if o_ack outcome then ack stream (consumer_group settings) message_id else Ret tt);
      Ret outcome
  end.

Definition obs_worker_round (ctx : log_fields) (consumer : string) : task unit :=
  m ← lift (pull settings consumer);
  match m with
  | None => Ret tt
  | Some m => _ ← obs_handle_message ctx m; Ret tt
  end.

(** ** recycler.py *)

(** [round(a / b)], halves to even. *)
Definition round_half_even (a b : Z) : Z :=
  let q := a / b in
  let r := a mod b in
  if 2 * r <? b then q else if b <? 2 * r then q + 1 else if Z.even q then q else q + 1.

Definition obs_should_recycle (ctx : log_fields) (rss : Z) (r : MemoryRecycler) : task (MemoryRecycler * bool) :=
  match _max_bytes r with
  | None => Ret (r, triggered r)
  | Some limit =>
      if triggered r then Ret (r, true)
      else if limit <? rss then
        _ ← record worker_recycles 1 [];
        _ ← say ctx "app.worker" "WARNING" "worker.recycling"
              [("rss_mb", field_int (round_half_even rss _MB));
               ("max_rss_mb", field_int (round_half_even limit _MB))]%string None;
        Ret (mkRecycler (Some limit) true, true)
      else Ret (r, false)
  end.

(** * The ticker *)

#[local] Abbreviation ticker_log level message extra exception := (say [] "app.ticker" level message extra exception).

(** [log.exception] shows the exception with its traceback. *)
Context (format_exception : exn -> string).

Definition obs_promote_due : task nat :=
  now_epoch ← lift clock;
  ids ← lift (due_job_ids (delayed_zset settings) now_epoch (ticker_batch_size settings));
  match ids with
  | [] => Ret 0%nat
  | _ =>
      us ← lift (or_raise (parse_ids ids));
      info ← lift (pg_read (get_promotion_info us));
      let routed := route settings info ids in
      _ ← lift (promote (delayed_zset settings) routed ids);
      _ ← lift (pg (fun _ => promote_scheduled_to_pending us));
      _ ← record ticker_promoted (Z.of_nat (length routed)) [];
      _ ← ticker_log "INFO" "ticker.promoted"
            [("enqueued", field_int (Z.of_nat (length routed))); ("pulled", field_int (Z.of_nat (length ids)))]%string None;
      Ret (length ids)
  end.

Definition obs_reconcile_one (job : Job) : task bool :=
  if decide (j_status job = scheduled) then
    match j_scheduled_at job with
    | None =>
        _ ← ticker_log "WARNING" "ticker.reconcile_skipped_null_scheduled_at"
              [("job_id", field_text (str_uuid (j_id job)))]%string None;
        Ret false
    | Some scheduled_at =>
        _ ← lift (handoff_scheduled settings job scheduled_at);
        _ ← lift (pg (fun _ => mark_synced (j_id job)));
        Ret true
    end
  else
    _ ← lift (handoff_pending settings job);
    _ ← lift (pg (fun _ => mark_synced (j_id job)));
    Ret true.

Fixpoint obs_reconcile_rows (rows : list Job) (total : nat) : task nat :=
  match rows with
  | [] => Ret total
  | job :: rows' =>
      done ← obs_reconcile_one job;
      obs_reconcile_rows rows' (if done : bool then S total else total)
  end.

Fixpoint obs_reconcile_loop (fuel : nat) (cutoff : datetime) (held : list Job) (total : nat) : task nat :=
  match fuel with
  | O => Raise OutOfFuel
  | S fuel' =>
      found ← lift (pg_read (list_unsynced cutoff (reconcile_batch_size settings)));
      match from_session held found with
      | [] => Ret total
      | rows =>
          total' ← obs_reconcile_rows rows total;
          if decide (length rows < reconcile_batch_size settings)%nat then Ret total'
          else obs_reconcile_loop fuel' cutoff rows total'
      end
  end.

(** [if n: instrument.add(n)] *)
Definition add_some (i : instrument) (n : nat) : task unit :=
  if decide (n = 0%nat) then Ret tt else record i (Z.of_nat n) [].

Definition obs_reconcile_orphans (fuel : nat) : task nat :=
  now ← lift clock;
  total ← obs_reconcile_loop fuel (now - reconcile_grace_s settings) [] 0;
  _ ← add_some ticker_reconciled total;
  Ret total.

(** ** The reaper *)

Definition obs_reap_row (job : Job) : task unit :=
  match j_status job with
  | processing =>
      _ ← obs_schedule_retry_or_fail [] job worker_lost (j_trace_context job); Ret tt
  | _ => lift (reap_row settings job)
  end.

Definition obs_reap_one (stream : string) (message_id : stream_id) (job_id : uuid) : task unit :=
  found ← lift (pg_read (get_job job_id None));
  row ← lift (or_raise found);
  _ ← (match row with Some job => obs_reap_row job | None => Ret tt end);
  lift (ack stream (consumer_group settings) message_id).

Definition obs_reap_entry (stream : string) (m : stream_id * fields) : task unit :=
  match message_job m.2 with
  | None =>
      _ ← ticker_log "ERROR" "ticker.reap_poison"
            [("stream", field_text stream); ("message_id", field_text (message_id_text m.1))]%string None;
      lift (ack stream (consumer_group settings) m.1)
  | Some job_id => obs_reap_one stream m.1 job_id
  end.

Fixpoint obs_reap_loop (fuel : nat) (stream : string) (cursor : stream_id) (handled : nat) : task nat :=
  match fuel with
  | O => Raise OutOfFuel
  | S fuel' =>
      resp ← lift (redis_try (xautoclaim stream (consumer_group settings) REAPER_NAME (min_idle settings) cursor
                                (reaper_batch_size settings)));
      _ ← for_each (obs_reap_entry stream) resp.2;
      let handled' := (handled + length resp.2)%nat in
      if decide (resp.1 = (0%N, 0%N)) then Ret handled'
      else obs_reap_loop fuel' stream resp.1 handled'
  end.

Fixpoint obs_reap_streams (fuel : nat) (streams : list string) (handled : nat) : task nat :=
  match streams with
  | [] => Ret handled
  | stream :: streams' =>
      _ ← lift (ensure_group stream (consumer_group settings));
      handled' ← obs_reap_loop fuel stream (0%N, 0%N) handled;
      obs_reap_streams fuel streams' handled'
  end.

Definition obs_reap_stale (fuel : nat) : task nat :=
  handled ← obs_reap_streams fuel (ordered_streams settings) 0;
  _ ← (if decide (handled = 0%nat) then Ret tt
       else
         _ ← record ticker_reaped (Z.of_nat handled) [];
         ticker_log "INFO" "ticker.reaped" [("count", field_int (Z.of_nat handled))]%string None);
  Ret handled.

(** ** run_forever *)

Definition obs_when_due (now interval last : Z) (job : task nat) (after : nat -> task unit) : task (option exn * Z) :=
  if interval <=? now - last then
    r ← attempt job;
    match r with
    | inl e => Ret (Some e, last)
    | inr n => _ ← after n; Ret (None, now)
    end
  else Ret (None, last).

(** [if recovered: log.info("ticker.reconciled", ...)] *)
Definition recovered_line (recovered : nat) : task unit :=
  if decide (recovered = 0%nat) then Ret tt
  else ticker_log "INFO" "ticker.reconciled" [("count", field_int (Z.of_nat recovered))]%string None.

Definition obs_tick_body (fuel : nat) (last_reconcile last_reap : datetime) :
    task ((exn + nat) * (datetime * datetime)) :=
  p ← attempt obs_promote_due;
  match p with
  | inl e => Ret (inl e, (last_reconcile, last_reap))
  | inr promoted =>
      now ← lift clock;
      rc ← obs_when_due now (reconcile_interval_s settings) last_reconcile (obs_reconcile_orphans fuel) recovered_line;
      match rc with
      | (Some e, last_reconcile') => Ret (inl e, (last_reconcile', last_reap))
      | (None, last_reconcile') =>
          rp ← obs_when_due now (reaper_interval_s settings) last_reap (obs_reap_stale fuel) (fun _ => Ret tt);
          match rp with
          | (Some e, last_reap') => Ret (inl e, (last_reconcile', last_reap'))
          | (None, last_reap') => Ret (inr promoted, (last_reconcile', last_reap'))
          end
      end
  end.

Definition obs_tick (fuel : nat) (last : datetime * datetime) : task (datetime * datetime) :=
  b ← obs_tick_body fuel last.1 last.2;
  match b.1 with
  | inl e =>
      if is_exception e then
        _ ← ticker_log "ERROR" "ticker.tick_failed" [] (Some (format_exception e));
        _ ← lift (sleep (ticker_interval_s settings));
        Ret b.2
      else Raise e
  | inr promoted =>
      if decide (ticker_batch_size settings <= promoted)%nat then Ret b.2
      else _ ← lift (sleep (ticker_interval_s settings)); Ret b.2
  end.

Fixpoint obs_ticks (rounds fuel : nat) (last : datetime * datetime) : task unit :=
  match rounds with
  | O => Ret tt
  | S rounds' => last' ← obs_tick fuel last; obs_ticks rounds' fuel last'
  end.

Definition started_line : task unit :=
  ticker_log "INFO" "ticker.started"
    [("zset", field_text (delayed_zset settings));
     ("streams", Plain (JArr (JStr <$> ordered_streams settings)))]%string None.

(** From the groups on, [rounds] turns of the loop. *)
Definition obs_ticker_main (rounds fuel : nat) : task unit :=
  _ ← lift (ensure_groups settings); _ ← started_line; obs_ticks rounds fuel (0, 0).

(** * Submission *)

Definition obs_create_and_handoff (submission : JobSubmission) (key req_hash : option string)
    (user : AuthedUser) : task Job :=
  job ← lift (_create_and_handoff settings submission key req_hash user);
  _ ← record jobs_submitted 1
        [("type", AText (JobType_value (s_type submission)));
         ("priority", AText (JobPriority_value (s_priority submission)));
         ("scheduled", ABool (bool_decide (j_status job = scheduled)))]%string;
  Ret job.

Definition obs_submit_job (submission : JobSubmission) (user : AuthedUser) : task (response JobAccepted) :=
  match validate_payload (s_type submission) (s_payload submission) (Some settings) with
  | inl (ValidationError m | ValueError m | PayloadPolicyError m) => Raise (HTTPException 422 m)
  | inl e => Raise e
  | inr _ =>
      match s_idempotency_key submission with
      | None =>
          job ← obs_create_and_handoff submission None None user;
          Ret (mkResponse 202 (_accepted job))
      | Some key =>
          let req_hash := canonical_hash (s_type submission) (s_payload submission) in
          found ← lift (pg_read (get_by_idempotency_key key (user_id user)));
          existing ← lift (or_raise found);
          match existing with
          | Some j => lift (or_raise (_replay_or_conflict (Some j) req_hash))
          | None =>
              r ← attempt (obs_create_and_handoff submission (Some key) (Some req_hash) user);
              match r with
              | inr job => Ret (mkResponse 202 (_accepted job))
              | inl IntegrityError =>
                  found ← lift (pg_read (get_by_idempotency_key key (user_id user)));
                  existing ← lift (or_raise found);
                  lift (or_raise (_replay_or_conflict existing req_hash))
              | inl e => Raise e
              end
          end
      end
  end.
End Observed.

(** * Authentication *)

Section ObservedAuth.
Context {AP : Apiserver} (settings : Settings).

#[local] Abbreviation task := (observed auth_world).

Definition validated (result source : string) : task unit :=
  record auth_validations 1 [("result", AText result); ("source", AText source)]%string.

Definition auth_line (message : string) (extra : log_fields) : task unit :=
  say [] "app.api" "WARNING" message extra None.

(** The group and the uid of a reviewed user. *)
Definition obs_identify (reviewed : ReviewedUser) : task AuthedUser :=
  let name := [("user_name", Plain (rv_username reviewed))]%string in
  if existsb (fun v => match v with JStr g => bool_decide (g = auth_required_group settings) | _ => false end)
       (rv_groups reviewed)
  then match json_uuid (rv_uid reviewed) with
       | inr uid => Ret (mkUser uid (match rv_username reviewed with JStr s => s | _ => ""%string end))
       | inl (ValueError _) =>
           _ ← validated "invalid_token" "tokenreview";
           _ ← auth_line "auth.non_uuid_uid" name;
           Raise (HTTPException 401 "invalid token")
       | inl e => Raise e
       end
  else
    _ ← validated "forbidden_group" "tokenreview";
    _ ← auth_line "auth.forbidden_group" name;
    Raise (HTTPException 403 "not a member of the required group").

(** Up to the [yield]: what the routes run under its bound context logs nothing. *)
Definition obs_get_current_user (credentials : option string) : task AuthedUser :=
  match credentials with
  | None =>
      _ ← validated "missing_token" "n/a";
      _ ← auth_line "auth.missing_token" [];
      Raise (HTTPException 401 "missing bearer token")
  | Some raw =>
      let token_hash := hash_token raw in
      cached ← lift (cache_get token_hash);
      match cached with
      | Some user => _ ← validated "ok" "cache"; Ret user
      | None =>
          r ← attempt (lift (review raw));
          match r with
          | inl (TokenReviewUnavailable _) =>
              _ ← validated "apiserver_error" "tokenreview";
              Raise (HTTPException 503 "authentication unavailable")
          | inl e => Raise e
          | inr None =>
              _ ← validated "invalid_token" "tokenreview";
              _ ← auth_line "auth.invalid_token" [];
              Raise (HTTPException 401 "invalid token")
          | inr (Some reviewed) =>
              user ← obs_identify reviewed;
              _ ← lift (cache_put token_hash user);
              _ ← validated "ok" "tokenreview";
              Ret user
          end
      end
  end.
End ObservedAuth.
