(* ===== verification/System.v ===== *)
(** The deployment: any number of API requests, workers, and tickers over one
    database and one Redis, interleaved effect by effect, any of them dying at any
    point.  Every effect of every coroutine moves the table along [db_step], so the
    invariants of rows hold in every reachable state. *)
From stdpp Require Import base tactics option list gmap strings numbers relations.
From S2P Require Import Prelude Prog Uuid Model Services Repository RepositoryFacts Queue Retry Handlers Payloads Worker Ticker TokenCache Api Effects Along Scenario ApiFacts.
Set Default Goal Selector "!".
Open Scope Z_scope.

Section System.
Context {PG : Postgres} {RD : Redis} {EN : Entropy} {OT : Otel} {PY : Pydantic} {OM : Orm}.
Context (settings : Settings).

(** What the processes of the deployment run: a request, a read of a worker and
    the task of a message (every message, delivered or not), a ticker. *)
Inductive process : coroutine unit -> Prop :=
| proc_submit s u : process (_ ← submit_job settings s u; Ret tt)
| proc_get id u : process (_ ← get_job_route id u; Ret tt)
| proc_retry id u : process (_ ← retry_job settings id u; Ret tt)
| proc_cancel id u : process (_ ← cancel_job_route settings id u; Ret tt)
| proc_groups : process (ensure_groups settings)
| proc_pull c : process (_ ← pull settings c; Ret tt)
| proc_message m : process (_ ← handle_message settings m; Ret tt)
| proc_round c : process (worker_round settings c)
| proc_ticker n fuel : process (ticker_main settings n fuel).

(** Time passes and Redis does what it likes; only the service writes the table. *)
Definition environment (w w' : world) : Prop := rows w' = rows w.

Definition system_step : relation (list (coroutine unit) * world) := pool_step process environment.

(** [w'] is reachable from [w], where no process is running yet. *)
Definition reachable (w w' : world) : Prop :=
  exists ts, rtc system_step ([], w) (ts, w').

Lemma process_along t : process t -> all_steps (on_rows db_step) t.
Proof.
  destruct 1; try (apply all_steps_bind; [|done]).
  - apply along_submit_job.
  - apply along_get_job_route, _.
  - apply along_retry_job, _.
  - apply along_cancel_job_route, _.
  - apply along_ensure_groups, _.
  - apply along_pull.
  - apply along_handle_message.
  - apply along_worker_round.
  - apply along_ticker_main.
Qed.

Lemma reachable_steps w w' : reachable w w' -> rtc db_step (rows w) (rows w').
Proof.
  intros [ts Hts]. apply rtc_on_rows.
  refine (pool_steps_along process environment _ _ _ process_along _ Hts _).
  - intros a b Hab. unfold on_rows. by rewrite Hab.
  - by apply Forall_nil.
Qed.

(** A process that runs alone to its end. *)
Lemma run_thread (t : coroutine unit) w :
  exists t', rtc system_step ([t], w) ([t'], (exec t w).1).
Proof.
  revert w. induction t as [a|e|X f k IH]; intros w; [by eexists|by eexists|].
  destruct (IH (f w).2 (f w).1) as [t' Ht']. exists t'.
  eapply rtc_l; [apply (pool_run _ _ [] [])|done].
Qed.

Lemma run_alone t w w' : process t -> reachable w w' -> reachable w (exec t w').1.
Proof.
  intros Ht [ts Hts].
  destruct (run_thread t w') as [t' Ht'].
  assert (rtc system_step (ts, w') ([], w')) as Hdie.
  { clear. induction ts as [|u ts IH]; [done|]. eapply rtc_l; [apply (pool_die _ _ [])|done]. }
  exists [t']. etrans; [exact Hts|]. etrans; [exact Hdie|].
  eapply rtc_l; [by apply pool_spawn|done].
Qed.

Lemma run_request {A} (p : coroutine A) w w' :
  process (_ ← p; Ret tt) -> reachable w w' -> reachable w (exec p w').1.
Proof.
  intros Hp Hr. apply (run_alone _ _ _ Hp) in Hr. rewrite exec_bind in Hr.
  by destruct (exec p w') as [? []].
Qed.

Lemma reachable_refl w : reachable w w.
Proof. by exists []. Qed.
End System.

(** * What holds of every reachable state *)

Section Invariants.
Context {PG : Postgres} {RD : Redis} {EN : Entropy} {OT : Otel} {PY : Pydantic} {OM : Orm}.
Context (settings : Settings).

(** C1: Under any interleaving of requests, workers and tickers, with any of them
    dying anywhere, every row keeps its columns consistent with its status
    (lease, result, error, schedule and completion columns, attempt count). *)
Theorem reachable_rows_wf w w' :
  rows_wf (rows w) -> reachable settings w w' -> rows_wf (rows w').
Proof. intros Hwf Hr. eapply db_steps_wf; [by eapply reachable_steps|done]. Qed.

(** C2: No row is ever deleted, and the lease of a job is exclusive and counted:
    in every history of a row the claims and the ends of a claim alternate, so
    their numbers differ by whether the row is processing, and the attempts
    column counts exactly the claims that ended in a result, a failure or a
    retry since the last manual reset. *)
Theorem reachable_lease w w' id j :
  reachable settings w w' -> rows w !! id = Some j ->
  exists history j', rows w' !! id = Some j' /\ row_trace history j j' /\
    (total takes history + is_processing j = total gives_up history + is_processing j')%nat /\
    j_attempts j' = foldl (fun n l => attempts_after l n) (j_attempts j) history.
Proof.
  intros Hr Hj. destruct (db_steps_trace _ _ _ _ (reachable_steps _ _ _ Hr) Hj) as (ls & j' & Hj' & Ht).
  exists ls, j'. repeat split; [done|done|by apply row_trace_lease|by apply row_trace_attempts].
Qed.

(** C3: A completed or cancelled job is final: whatever runs afterwards, its row
    stays as it is, but for the hand-off flag. *)
Theorem reachable_final w w' id j :
  reachable settings w w' -> rows w !! id = Some j ->
  j_status j = completed \/ j_status j = cancelled ->
  rows w' !! id = Some j \/ rows w' !! id = Some (set_is_synced_to_redis true j).
Proof.
  intros Hr Hj Hst. destruct (db_steps_trace _ _ _ _ (reachable_steps _ _ _ Hr) Hj) as (ls & j' & -> & Ht).
  clear Hj. assert (j' = j \/ j' = set_is_synced_to_redis true j) as [->| ->]; [|by auto..].
  induction Ht as [j|l ls j j1 j2 Hs Ht IH]; [by left|].
  destruct (row_step_terminal _ _ _ Hs) as [(_ & Hf & _)|[_ ->]].
  - destruct Hst as [Hst|Hst]; by rewrite Hst.
  - destruct Hst; congruence.
  - destruct IH as [->| ->]; [done|by right..].
Qed.

Lemma row_trace_same history j j' :
  row_trace history j j' ->
  j_key j' = j_key j /\ j_type j' = j_type j /\ j_payload j' = j_payload j /\
  j_priority j' = j_priority j /\ j_max_attempts j' = j_max_attempts j /\
  j_created_at j' = j_created_at j /\ j_idempotency_hash j' = j_idempotency_hash j.
Proof.
  induction 1 as [j|l ls j j1 j2 Hs Ht IH]; [done|]. apply row_step_key in Hs. intuition congruence.
Qed.

Lemma reachable_row w w' id j :
  reachable settings w w' -> rows w !! id = Some j ->
  exists history j', rows w' !! id = Some j' /\ row_trace history j j'.
Proof.
  intros Hr Hj. destruct (db_steps_trace _ _ _ _ (reachable_steps _ _ _ Hr) Hj) as (ls & j' & Hj' & Ht).
  by exists ls, j'.
Qed.

(** The identity, owner, type, payload, priority, attempt limit, creation time
    and idempotency hash of a row never change. *)
Theorem reachable_immutable w w' id j :
  reachable settings w w' -> rows w !! id = Some j ->
  exists j', rows w' !! id = Some j' /\ j_key j' = j_key j /\ j_type j' = j_type j /\
    j_payload j' = j_payload j /\ j_priority j' = j_priority j /\
    j_max_attempts j' = j_max_attempts j /\ j_created_at j' = j_created_at j /\
    j_idempotency_hash j' = j_idempotency_hash j.
Proof.
  intros Hr Hj. destruct (reachable_row w w' id j Hr Hj) as (ls & j' & -> & Ht).
  exists j'. split; [done|]. by eapply row_trace_same.
Qed.

(** C4: An idempotency key binds for ever: once a job of the user carries the key,
    in every later state of the deployment a submission under that key creates
    nothing; with the same payload hash it answers 200 with that job, with another
    one it answers 409. *)
Theorem reachable_replay w w' id j sub user key :
  reachable settings w w' -> rows w !! id = Some j ->
  j_user_id j = Some (user_id user) -> j_idempotency_key j = Some key ->
  accepts settings sub -> s_idempotency_key sub = Some key ->
  exists j', j_id j' = id /\ rows w' !! id = Some j' /\
    exec (submit_job settings sub user) w' =
      (w', if decide (j_idempotency_hash j = submission_hash sub)
           then inr (mkResponse 200 (_accepted j'))
           else inl (HTTPException 409 "idempotency key reused with a different payload")).
Proof.
  intros Hr Hj Hu Hk Hacc Hsub. destruct (reachable_row w w' id j Hr Hj) as (ls & j' & Hj' & Ht).
  apply row_trace_same in Ht as (Hkey & _ & _ & _ & _ & _ & Hhash). injection Hkey as Hid Huser Hik.
  exists j'. assert (j_id j' = id) as Hid' by by eapply rows_keyed. split; [done|]. split; [done|].
  rewrite (exec_replay settings w' sub user key j'); [by rewrite Hhash|done..|].
  split; [by rewrite Hid'|]. split; congruence.
Qed.
End Invariants.

(** * The theorems at a run: Alice submits a report and a worker executes it *)

Definition worked_world : world := (exec (worker_round the_settings "w1"%string) submitted_world).1.

Lemma submitted_reachable : reachable the_settings ready_world submitted_world.
Proof.
  exact (run_request the_settings _ _ _ (proc_submit _ _ _) (reachable_refl _ _)).
Qed.

Lemma worked_reachable : reachable the_settings ready_world worked_world.
Proof. exact (run_alone the_settings _ _ _ (proc_round _ "w1"%string) submitted_reachable). Qed.

Lemma worked_from_submitted : reachable the_settings submitted_world worked_world.
Proof. exact (run_alone the_settings _ _ _ (proc_round _ "w1"%string) (reachable_refl _ _)). Qed.

Lemma ready_wf : rows_wf (rows ready_world).
Proof. by apply (bool_decide_unpack _); vm_compute. Qed.

(** The row as the worker leaves it. *)
Definition worked_job : Job :=
  Eval vm_compute in default no_row (rows worked_world !! first_id).

Lemma worked_job_row : rows worked_world !! first_id = Some worked_job.
Proof. vm_compute. reflexivity. Qed.

(** Bob's and Alice's later requests about the finished job. *)
Definition late_world : world :=
  (exec (cancel_job_route the_settings first_id alice) worked_world).1.

Lemma late_reachable : reachable the_settings worked_world late_world.
Proof. exact (run_request the_settings _ _ _ (proc_cancel _ first_id alice) (reachable_refl _ _)). Qed.

Lemma reachable_rows_wf_witness : rows_wf (rows worked_world) /\ j_status worked_job = completed.
Proof.
  split; [|reflexivity].
  exact (reachable_rows_wf the_settings ready_world worked_world ready_wf worked_reachable).
Defined.

Lemma reachable_lease_witness :
  exists history j', rows worked_world !! first_id = Some j' /\ row_trace history submitted_job j' /\
    (total takes history + 0 = total gives_up history + is_processing j')%nat.
Proof.
  destruct (reachable_lease the_settings submitted_world worked_world first_id submitted_job
    worked_from_submitted submitted_job_row) as (history & j' & Hj' & Ht & Hl & _).
  exists history, j'. exact (conj Hj' (conj Ht Hl)).
Defined.

Lemma reachable_final_witness :
  rows late_world !! first_id = Some worked_job \/
  rows late_world !! first_id = Some (set_is_synced_to_redis true worked_job).
Proof.
  exact (reachable_final the_settings worked_world late_world first_id worked_job late_reachable
    worked_job_row (or_introl eq_refl)).
Defined.

Lemma reachable_immutable_witness :
  exists j', rows worked_world !! first_id = Some j' /\ j_key j' = j_key submitted_job.
Proof.
  destruct (reachable_immutable the_settings submitted_world worked_world first_id submitted_job
    worked_from_submitted submitted_job_row) as (j' & Hj' & Hk & _).
  exists j'. exact (conj Hj' Hk).
Defined.

Lemma reachable_replay_witness :
  exists j', rows worked_world !! first_id = Some j' /\
    exec (submit_job the_settings keyed_submission alice) worked_world =
      (worked_world, inr (mkResponse 200 (_accepted j'))).
Proof.
  destruct (reachable_replay the_settings submitted_world worked_world first_id submitted_job keyed_submission
    alice "k1" worked_from_submitted submitted_job_row eq_refl eq_refl report_accepted eq_refl)
    as (j' & _ & Hj' & E).
  exists j'. split; [exact Hj'|]. rewrite decide_True in E; [exact E|exact submitted_hash].
Defined.
