(* ===== verification/ObservedFacts.v ===== *)
(** Measuring and logging has no effect: without their events the observed coroutines
    are those of the other files, so every state the observed deployment reaches is
    one of System.v. *)
From stdpp Require Import base tactics option list gmap strings numbers relations.
From S2P Require Import Prelude Idempotency TokenCache Auth.
From S2P Require Import Prog Uuid Model Services Json Repository RepositoryFacts Queue Retry Handlers Payloads Logging Meters Worker Ticker Api Effects Along Scenario RetryFacts WorkerFacts Observed System.
Set Default Goal Selector "!".
Open Scope Z_scope.

(** * Erasure *)

Section Erased.
Context {PG : Postgres} {RD : Redis} {EN : Entropy} {OT : Otel} {PY : Pydantic} {OM : Orm}.
Context (settings : Settings) (format_exception : exn -> string).

Lemma silent_conclude ctx level message extra job label started ack :
  erases (conclude ctx level message extra job label started ack : observed world Outcome) (Ret (mkOutcome ack label)).
Proof. unfold conclude, obs_record_outcome. erases_walk. Qed.
Hint Resolve silent_conclude : observed.

Lemma erases_retry ctx job error carrier :
  erases (obs_schedule_retry_or_fail settings ctx job error carrier) (schedule_retry_or_fail settings job error carrier).
Proof. unfold obs_schedule_retry_or_fail, schedule_retry_or_fail, retry_line. erases_walk. Qed.
Hint Resolve erases_retry : observed.

Lemma erases_settle_error ctx started job e :
  erases (obs_settle_error settings ctx started job e) (settle_error settings job e).
Proof. destruct e; cbn [obs_settle_error settle_error]; erases_walk. Qed.

Lemma erases_settle_result ctx started job result :
  erases (obs_settle_result ctx started job result) (settle_result job result).
Proof. unfold obs_settle_result, settle_result. erases_walk. Qed.
Hint Resolve erases_settle_error erases_settle_result : observed.

Lemma erases_process_claimed ctx started job :
  erases (obs_process_claimed settings ctx started job) (process_claimed settings job).
Proof. unfold obs_process_claimed, process_claimed. erases_walk. Qed.
Hint Resolve erases_process_claimed : observed.

Lemma erases_process_job ctx id : erases (obs_process_job settings ctx id) (process_job settings id).
Proof. unfold obs_process_job, process_job. erases_walk. Qed.
Hint Resolve erases_process_job : observed.

Lemma erases_handle_message ctx m : erases (obs_handle_message settings ctx m) (handle_message settings m).
Proof. destruct m as [[stream mid] f]. unfold obs_handle_message, handle_message. erases_walk. Qed.
Hint Resolve erases_handle_message : observed.

Lemma erases_worker_round ctx c : erases (obs_worker_round settings ctx c) (worker_round settings c).
Proof. unfold obs_worker_round, worker_round. erases_walk. Qed.

Lemma erases_promote_due : erases (obs_promote_due settings) (promote_due settings).
Proof. unfold obs_promote_due, promote_due. erases_walk. Qed.

Lemma erases_reconcile_one job : erases (obs_reconcile_one settings job) (reconcile_one settings job).
Proof. unfold obs_reconcile_one, reconcile_one. erases_walk. Qed.
Hint Resolve erases_promote_due erases_reconcile_one : observed.

Lemma erases_reconcile_rows l n : erases (obs_reconcile_rows settings l n) (reconcile_rows settings l n).
Proof. revert n. induction l as [|job l IH]; intros n; cbn [obs_reconcile_rows reconcile_rows]; erases_walk. Qed.
Hint Resolve erases_reconcile_rows : observed.

Lemma erases_reconcile_loop fuel cutoff held n :
  erases (obs_reconcile_loop settings fuel cutoff held n) (reconcile_loop settings fuel cutoff held n).
Proof.
  revert held n. induction fuel as [|fuel IH]; intros held n; cbn [obs_reconcile_loop reconcile_loop]; erases_walk.
Qed.
Hint Resolve erases_reconcile_loop : observed.

Lemma silent_add_some i n : silent (add_some i n : observed world unit).
Proof. unfold add_some. case_match; auto with observed. Qed.
Hint Resolve silent_add_some : observed.

Lemma erases_reconcile_orphans fuel : erases (obs_reconcile_orphans settings fuel) (reconcile_orphans settings fuel).
Proof. unfold obs_reconcile_orphans, reconcile_orphans. erases_walk. Qed.

Lemma erases_reap_row job : erases (obs_reap_row settings job) (reap_row settings job).
Proof. unfold obs_reap_row. destruct (j_status job) eqn:E; try apply erases_lift. unfold reap_row. rewrite E. erases_walk. Qed.
Hint Resolve erases_reconcile_orphans erases_reap_row : observed.

Lemma erases_reap_entry stream m : erases (obs_reap_entry settings stream m) (reap_entry settings stream m).
Proof. unfold obs_reap_entry, reap_entry, obs_reap_one, _reap_one. erases_walk. Qed.
Hint Resolve erases_reap_entry : observed.

Lemma erases_reap_loop fuel stream cursor n :
  erases (obs_reap_loop settings fuel stream cursor n) (reap_loop settings fuel stream cursor n).
Proof. revert cursor n. induction fuel as [|fuel IH]; intros cursor n; cbn [obs_reap_loop reap_loop]; erases_walk. Qed.
Hint Resolve erases_reap_loop : observed.

Lemma erases_reap_streams fuel l n : erases (obs_reap_streams settings fuel l n) (reap_streams settings fuel l n).
Proof. revert n. induction l as [|s l IH]; intros n; cbn [obs_reap_streams reap_streams]; erases_walk. Qed.
Hint Resolve erases_reap_streams : observed.

Lemma erases_reap_stale fuel : erases (obs_reap_stale settings fuel) (reap_stale settings fuel).
Proof. unfold obs_reap_stale, reap_stale. erases_walk. Qed.
Hint Resolve erases_reap_stale : observed.

Lemma erases_when_due now interval last p q after :
  erases p q -> (forall n, silent (after n)) -> erases (obs_when_due now interval last p after) (when_due now interval last q).
Proof. intros Hp Ha. unfold obs_when_due, when_due. erases_walk. Qed.

Lemma silent_recovered_line n : silent (recovered_line n : observed world unit).
Proof. unfold recovered_line. case_match; auto with observed. Qed.
Hint Resolve erases_when_due silent_recovered_line : observed.

Lemma erases_tick fuel last : erases (obs_tick settings format_exception fuel last) (tick settings fuel last).
Proof. unfold obs_tick, tick, obs_tick_body, tick_body. erases_walk. Qed.
Hint Resolve erases_tick : observed.

Lemma erases_ticks rounds fuel last :
  erases (obs_ticks settings format_exception rounds fuel last) (ticks settings rounds fuel last).
Proof. revert last. induction rounds as [|rounds IH]; intros last; cbn [obs_ticks ticks]; erases_walk. Qed.
Hint Resolve erases_ticks : observed.

Lemma erases_ticker_main rounds fuel :
  erases (obs_ticker_main settings format_exception rounds fuel) (ticker_main settings rounds fuel).
Proof. unfold obs_ticker_main, ticker_main, started_line. erases_walk. Qed.

Lemma erases_create_and_handoff sub key req_hash user :
  erases (obs_create_and_handoff settings sub key req_hash user) (_create_and_handoff settings sub key req_hash user).
Proof. unfold obs_create_and_handoff. apply erases_tail; [apply erases_lift|]. erases_walk. Qed.
Hint Resolve erases_create_and_handoff : observed.

Lemma erases_submit_job sub user : erases (obs_submit_job settings sub user) (submit_job settings sub user).
Proof. unfold obs_submit_job, submit_job. erases_walk. Qed.

Lemma erases_should_recycle ctx rss r :
  erases (obs_should_recycle ctx rss r : observed world _) (Ret (should_recycle rss r)).
Proof.
  unfold obs_should_recycle, should_recycle. destruct (_max_bytes r) as [limit|]; [|done].
  destruct (triggered r); [done|]. destruct (limit <? rss); [|done]. erases_walk.
Qed.

(** * The observed deployment *)

(** What the processes of the deployment run, measuring and logging. *)
Inductive obs_process : observed world unit -> Prop :=
| obs_submit s u : obs_process (_ ← obs_submit_job settings s u; Ret tt)
| obs_get id u : obs_process (lift (_ ← get_job_route id u; Ret tt))
| obs_retry id u : obs_process (lift (_ ← retry_job settings id u; Ret tt))
| obs_cancel id u : obs_process (lift (_ ← cancel_job_route settings id u; Ret tt))
| obs_groups : obs_process (lift (ensure_groups settings))
| obs_pull c : obs_process (lift (_ ← pull settings c; Ret tt))
| obs_message ctx m : obs_process (_ ← obs_handle_message settings ctx m; Ret tt)
| obs_round ctx c : obs_process (obs_worker_round settings ctx c)
| obs_ticker n fuel : obs_process (obs_ticker_main settings format_exception n fuel).

(** The events are those of the deployment: what is around it neither measures nor logs. *)
Definition obs_environment (s s' : world * list event) : Prop := environment s.1 s'.1 /\ s'.2 = s.2.

Definition obs_system_step : relation (list (observed world unit) * (world * list event)) :=
  pool_step obs_process obs_environment.

Definition obs_reachable (s s' : world * list event) : Prop :=
  exists ts, rtc obs_system_step ([], s) (ts, s').

Lemma obs_process_erases t : obs_process t -> exists t', process settings t' /\ erases t t'.
Proof.
  destruct 1.
  - eexists. split; [apply (proc_submit _ s u)|]. apply erases_bind; [apply erases_submit_job|done].
  - eexists. split; [apply (proc_get _ id u)|apply erases_lift].
  - eexists. split; [apply (proc_retry _ id u)|apply erases_lift].
  - eexists. split; [apply (proc_cancel _ id u)|apply erases_lift].
  - eexists. split; [apply proc_groups|apply erases_lift].
  - eexists. split; [apply (proc_pull _ c)|apply erases_lift].
  - eexists. split; [apply (proc_message _ m)|]. apply erases_bind; [apply erases_handle_message|done].
  - eexists. split; [apply (proc_round _ c)|apply erases_worker_round].
  - eexists. split; [apply (proc_ticker _ n fuel)|apply erases_ticker_main].
Qed.

(** The functions of Observed.v are those of the other files with events between their
    effects: whatever the observed processes reach,
    under any interleaving and any crash, is reachable by the processes that neither
    measure nor log, and a message handled, a tick or a submission run alone leaves the same
    world and gives the same answer with or without its events. *)
Theorem observed_erases :
  (forall s s', obs_reachable s s' -> reachable settings s.1 s'.1) /\
  (forall ctx m w es, let r := exec (obs_handle_message settings ctx m) (w, es) in
     (r.1.1, r.2) = exec (handle_message settings m) w) /\
  (forall fuel last w es, let r := exec (obs_tick settings format_exception fuel last) (w, es) in
     (r.1.1, r.2) = exec (tick settings fuel last) w) /\
  (forall sub user w es, let r := exec (obs_submit_job settings sub user) (w, es) in
     (r.1.1, r.2) = exec (submit_job settings sub user) w).
Proof.
  assert (forall A (p : observed world A) q w es, erases p q ->
    ((exec p (w, es)).1.1, (exec p (w, es)).2) = exec q w) as Hexec.
  { intros A p q w es Hp. destruct (exec_erases p q w es Hp) as [-> ->]. by destruct (exec q w). }
  split; [|split; [|split]].
  - intros s s' [ts Hts].
    destruct (pool_erases obs_process (process settings) _ environment _ _ obs_process_erases (fun _ _ H => proj1 H) Hts []) as (ts' & _ & H).
    { constructor. }
    by exists ts'.
  - intros. apply Hexec, erases_handle_message.
  - intros. apply Hexec, erases_tick.
  - intros. apply Hexec, erases_submit_job.
Qed.
End Erased.

(** * A worker's round on a submitted job, observed *)

Definition the_context : log_fields := [("consumer", field_text "w1")]%string.
Definition the_traceback (e : exn) : string := exn_name e.

Definition observed_start : world * list event := (submitted_world, []).

Definition observed_round : world * list event :=
  (exec (obs_worker_round the_settings the_context "w1"%string) observed_start).1.

Lemma observed_round_reachable : obs_reachable the_settings the_traceback observed_start observed_round.
Proof.
  destruct (pool_alone (obs_process the_settings the_traceback) obs_environment
    (obs_worker_round the_settings the_context "w1"%string) observed_start (obs_round _ _ _ _)) as [t' Ht'].
  by exists [t'].
Qed.

Lemma observed_erases_witness :
  reachable the_settings observed_start.1 observed_round.1 /\ length observed_round.2 = 5%nat.
Proof.
  split; [|vm_compute; reflexivity].
  exact (proj1 (observed_erases the_settings the_traceback) _ _ observed_round_reachable).
Defined.
