(* ===== verification/Accounts.v ===== *)
(** The counters say what happened: each delivery, each validation of a token and each
    accepted job is counted once, under the label of what was done, and a job that
    fails for good is counted exactly when its row says so. *)
From stdpp Require Import base tactics option list gmap strings numbers relations.
From S2P Require Import Prelude Idempotency TokenCache Auth.
From S2P Require Import Prog Uuid Model Services Json Repository RepositoryFacts Queue Retry Handlers Payloads Logging Meters Worker Ticker Api Effects Along Scenario RetryFacts WorkerFacts Observed ObservedFacts.
Set Default Goal Selector "!".
Open Scope Z_scope.

(** * What a delivery is counted as *)

Section Accounts.
Context {PG : Postgres} {RD : Redis} {EN : Entropy} {OT : Otel} {PY : Pydantic} {OM : Orm}.
Context (settings : Settings).

(** A settlement under which the job is failed for good, and counted as such. *)
Definition fails_for_good (job : Job) (o : Outcome) : bool :=
  o_ack o &&
  (bool_decide (o_label o = "policy_rejected"%string) ||
   bool_decide (o_label o = "retried" \/ o_label o = "timeout")%string && (j_max_attempts job <=? j_attempts job + 1)).

(** The instruments of a job's outcome. *)
Definition job_instrument (i : instrument) : bool :=
  match i with
  | jobs_processed | job_processing_duration | jobs_failed | jobs_dropped_ownerless => true
  | _ => false
  end.

(** The measurements of a delivery that ends in the outcome [o] of [job], the row as
    claimed, [None] if nothing was claimed. *)
Record accounted (job : option Job) (o : Outcome) (es : list event) : Prop := mkAccounted {
  acc_processed : measures jobs_processed es = [(1, outcome_attributes job (o_label o))];
  acc_duration : exists v, measures job_processing_duration es =
    [(v, filter (fun kv => kv.1 ∈ ["type"; "outcome"]%string) (outcome_attributes job (o_label o)))];
  acc_failed : measures jobs_failed es =
    match job with
    | Some j => if fails_for_good j o then [(1, job_attributes j)] else []
    | None => []
    end;
  acc_dropped : measures jobs_dropped_ownerless es =
    match job with
    | Some j => if decide (j_user_id j = None) then [(1, [])] else []
    | None => []
    end;
  acc_ownerless : forall j, job = Some j -> o_label o = "dropped_ownerless"%string <-> j_user_id j = None;
  acc_others : forall i, job_instrument i = false -> measures i es = [];
  acc_skipped : job = None <-> o_label o = "skipped"%string;
}.

(** Nothing about the job is counted. *)
Definition unaccounted (es : list event) : Prop := forall i, measures i es = [].

Lemma unaccounted_nil : unaccounted [].
Proof. done. Qed.
Hint Resolve unaccounted_nil : core.

(** The end of every branch. *)
Lemma yields_conclude (Q : exn + Outcome -> list event -> Prop) ctx level message extra job label started ack :
  (forall r d, Q (inr (mkOutcome ack label))
    [Logged r; Measured jobs_processed 1 (outcome_attributes job label);
     Measured job_processing_duration d
       (filter (fun kv => kv.1 ∈ ["type"; "outcome"]%string) (outcome_attributes job label))]) ->
  yields Q (conclude ctx level message extra job label started ack) [].
Proof.
  intros HQ. unfold conclude, obs_record_outcome. apply yields_bind, yields_say. intros now.
  apply yields_bind, yields_bind, yields_record. apply yields_bind, yields_look. intros t.
  apply yields_record. apply HQ.
Qed.

Lemma yields_retry ctx job error carrier :
  yields (fun r es =>
    match r with
    | inr won => exists line, es =
        (if won && (j_max_attempts job <=? j_attempts job + 1) then [Measured jobs_failed 1 (job_attributes job)] else []) ++
        [Logged line]
    | inl _ => es = []
    end) (obs_schedule_retry_or_fail settings ctx job error carrier) [].
Proof.
  unfold obs_schedule_retry_or_fail, retry_line. destruct (_ <=? _).
  - apply yields_bind, yields_lift. intros [e|[|]]; [done|..]; apply yields_bind.
    + apply yields_record. apply yields_bind, yields_say. intros now. by eexists.
    + cbn [yields]. apply yields_bind, yields_say. intros now. by eexists.
  - apply yields_bind, yields_lift. intros [e|delay]; [done|].
    destruct (delay <=? 0); [|apply yields_bind, yields_lift; intros [e|t]; [done|]];
      (apply yields_bind, yields_lift; intros [e|won]; [done|]);
      (apply yields_bind, yields_lift; intros [e|[]]; [done|]);
      apply yields_bind, yields_say; intros now; simpl; rewrite andb_false_r; by eexists.
Qed.

Definition account (job : Job) (r : exn + Outcome) (es : list event) : Prop :=
  match r with inr o => accounted (Some job) o es | inl _ => unaccounted es end.

(** Every branch ends with the three events of [conclude]; before them there may be a count. *)
Lemma conclude_accounts ctx level message extra job label started ack pre :
  measures jobs_processed pre = [] -> measures job_processing_duration pre = [] ->
  measures jobs_failed pre = (if fails_for_good job (mkOutcome ack label) then [(1, job_attributes job)] else []) ->
  measures jobs_dropped_ownerless pre = (if decide (j_user_id job = None) then [(1, [])] else []) ->
  (label = "dropped_ownerless"%string <-> j_user_id job = None) -> (forall i, job_instrument i = false -> measures i pre = []) -> label <> "skipped"%string ->
  yields (fun r es => account job r (pre ++ es)) (conclude ctx level message extra (Some job) label started ack) [].
Proof.
  intros H1 H2 H3 H4 H5 H6 H7. apply yields_conclude. intros r d. constructor; rewrite ?measures_app, ?H1, ?H2, ?H3, ?H4.
  - done.
  - by eexists.
  - by rewrite app_nil_r.
  - by rewrite app_nil_r.
  - by intros j [= <-].
  - intros i Hi. rewrite measures_app, H6 by done. by destruct i.
  - by split.
Qed.

(** The same for a job that has an owner, where only a failure may come first. *)
Lemma conclude_owned ctx level message extra job label started ack :
  j_user_id job <> None -> label <> "dropped_ownerless"%string -> label <> "skipped"%string ->
  yields (fun r es => account job r
    ((if fails_for_good job (mkOutcome ack label) then [Measured jobs_failed 1 (job_attributes job)] else []) ++ es))
    (conclude ctx level message extra (Some job) label started ack) [].
Proof.
  intros Hu Hd Hs. apply conclude_accounts; [by destruct (fails_for_good _ _)..| | | |done].
  - rewrite decide_False by done. by destruct (fails_for_good _ _).
  - by split.
  - intros i Hi. destruct (fails_for_good _ _), i; done.
Qed.

Lemma retry_accounts ctx started job error label level message extra :
  j_user_id job <> None -> label = "retried"%string \/ label = "timeout"%string ->
  yields (account job)
    (won ← obs_schedule_retry_or_fail settings ctx job error None;
     conclude ctx level message (extra won) (Some job) label started won) [].
Proof.
  intros Hu Hl. eapply yields_then; [apply yields_retry|by intros e es ->|]. intros won es [line ->].
  assert (won && (j_max_attempts job <=? j_attempts job + 1) = fails_for_good job (mkOutcome won label)) as ->.
  { by destruct Hl as [->| ->]. }
  apply conclude_accounts; try (by destruct Hl as [->| ->]; destruct (fails_for_good _ _)).
  - rewrite decide_False by done. by destruct (fails_for_good _ _).
  - by destruct Hl as [->| ->].
  - intros i Hi. destruct (fails_for_good _ _), i; done.
  - by destruct Hl as [->| ->].
Qed.

Lemma settle_error_accounts ctx started job e :
  j_user_id job <> None -> yields (account job) (obs_settle_error settings ctx started job e) [].
Proof.
  intros Hu. destruct e; cbn [obs_settle_error]; try (apply retry_accounts; auto; fail); [| |done].
  - apply yields_bind, yields_lift. intros [e|won]; [done|].
    apply (yields_then (fun r es => r = inr tt /\ es = if won then [Measured jobs_failed 1 (job_attributes job)] else [])).
    + destruct won; [by apply yields_record|done].
    + by intros e es [? _].
    + intros [] es [_ ->]. pose proof (conclude_owned ctx "WARNING" "job.policy_rejected" (won_field won) job
        "policy_rejected" started won Hu) as H. by destruct won; apply H.
  - apply yields_bind, yields_lift. intros [e|won]; [done|].
    pose proof (conclude_owned ctx "INFO" "job.cancelled" (won_field won) job "cancelled" started won Hu) as H.
    by destruct won; apply H.
Qed.

Lemma process_claimed_accounts ctx started job :
  yields (account job) (obs_process_claimed settings ctx started job) [].
Proof.
  unfold obs_process_claimed. destruct (j_user_id job) as [u|] eqn:Hu.
  - assert (j_user_id job <> None) as Hown by by rewrite Hu.
    apply yields_bind, yields_lift. intros [e|b]; [done|]. apply yields_bind, yields_attempt, yields_lift.
    intros [e|result]; [by apply settle_error_accounts|]. apply yields_bind, yields_lift.
    intros [e|[|]]; [done|..]; by apply conclude_owned.
  - apply yields_bind, yields_lift. intros [e|won]; [done|].
    apply (yields_then (fun r es => r = inr tt /\ es = [Measured jobs_dropped_ownerless 1 []])).
    + by apply yields_record.
    + by intros e es [? _].
    + intros [] es [_ ->]. apply conclude_accounts; try done; [by destruct won|by rewrite decide_True|].
      intros i Hi. by destruct i.
Qed.

(** The job of the outcome is the row of the id. *)
Lemma process_job_accounts ctx id :
  yields (fun r es =>
    match r with
    | inr o => exists job, accounted job o es /\ forall j, job = Some j -> j_id j = id
    | inl _ => unaccounted es
    end) (obs_process_job settings ctx id) [].
Proof.
  unfold obs_process_job. apply yields_bind, yields_look. intros started.
  apply yields_bind, yields_lift. intros [e|[|]]; [done|..].
  - apply yields_bind, yields_act. intros w. cbn [snd]. rewrite get_job_rows. simpl.
    destruct (pg_rows (w_db w) !! id) as [job|] eqn:Hj; [|done].
    eapply yields_mono; [apply process_claimed_accounts|]. intros [e|o] es H; [done|].
    exists (Some job). split; [done|]. intros j [= <-]. by eapply pg_primary_key.
  - apply yields_conclude. intros r d. exists None. split; [|done]. constructor; try done; [by eexists|]. intros i Hi. by destruct i.
Qed.

(** No instrument has been recorded on twice. *)
Definition at_most_once (es : list event) : Prop := forall i, (length (measures i es) <= 1)%nat.

Lemma at_most_once_prefix es es' : at_most_once (es ++ es') -> at_most_once es.
Proof. intros H i. specialize (H i). rewrite measures_app, length_app in H. lia. Qed.

(** What is recorded when the program ends says what is when it is cut. *)
Lemma and_during {A} Q (p : observed world A) acc :
  (forall r es, Q r es -> at_most_once es) -> yields Q p acc -> yields Q p acc /\ during at_most_once p acc.
Proof. intros HQ Hp. split; [done|]. by eapply yields_during; [apply at_most_once_prefix|exact HQ|]. Qed.

Lemma accounted_once job o es : accounted job o es -> forall i, i <> job_queue_wait -> (length (measures i es) <= 1)%nat.
Proof.
  intros [Hp [d Hd] Hf Ho _ Hi _] i Hw. destruct (job_instrument i) eqn:Hj; [|by rewrite Hi; [simpl; lia|]].
  destruct i; try done; rewrite ?Hp, ?Hd, ?Hf, ?Ho; simpl; repeat case_match; simpl; lia.
Qed.

(** C15: Every handling of a delivery is counted once, for what was done with it.
    Whatever the other processes do meanwhile, a message without a job id records
    nothing, and another one first records its wait, which is never negative, under the
    name of its stream's priority.  Then, if an outcome is answered, [jobs.processed] and
    the duration have one entry each, under the outcome's label and the type of the
    claimed job; [jobs.failed] has one, under the job's type and priority, exactly if
    this worker's transition failed the job by policy or with its attempts used up, and
    none otherwise; a job without an owner is counted under [jobs.dropped_ownerless]
    instead.  A task that raises an exception of its own counts nothing else.  One that is
    cut at any effect, by a crash or by a service that fails (the XACK after the outcome
    is recorded, too), has recorded at most once on each instrument. *)
Theorem handle_message_accounts ctx stream mid f :
  yields (fun r es =>
    match message_job f with
    | None => r = inr (mkOutcome true "poison") /\ unaccounted es
    | Some id =>
        exists v line rest, 0 <= v /\
          es = Measured job_queue_wait v [("stream"%string, AText (stream_label settings stream))] :: Logged line :: rest /\
          match r with
          | inr o => exists job, accounted job o rest /\ forall j, job = Some j -> j_id j = id
          | inl _ => unaccounted rest
          end
    end) (obs_handle_message settings ctx (stream, mid, f)) [] /\
  during at_most_once (obs_handle_message settings ctx (stream, mid, f)) [].
Proof.
  apply and_during.
  { intros r es H. destruct (message_job f) as [id|]; [|by destruct H as [_ H]; intros i; rewrite H; simpl; lia].
    destruct H as (v & line & rest & _ & -> & H). intros i. unfold measures. cbn [omap list_omap].
    fold (measures i rest). destruct r as [e|o]; [rewrite (H i); case_decide; simpl; lia|].
    destruct H as (job & H & _). case_decide as Hi; [|by apply (accounted_once _ _ _ H); congruence].
    subst i. by rewrite (acc_others _ _ _ H). }
  unfold obs_handle_message. destruct (message_job f) as [id|].
  - apply yields_bind, yields_look. intros now. set (v := Z.max 0 _). set (attrs := [_]).
    apply (yields_then (fun r es => r = inr tt /\ es = [Measured job_queue_wait v attrs]));
      [by apply yields_record|by intros e es [? _]|intros [] es [_ ->]].
    apply (yields_then (fun r es => r = inr tt /\ exists line, es = [Logged line]));
      [apply yields_say; by eauto|by intros e es [? _]|intros [] es [_ [line ->]]].
    apply yields_bind. eapply yields_mono; [apply process_job_accounts|]. intros [e|o] rest H.
    + exists v, line, rest. split; [lia|done].
    + apply yields_bind, yields_lift_quiet; [by destruct (o_ack o)|]. intros []. exists v, line, rest. split; [lia|done].
  - apply yields_bind, yields_say. intros now. apply yields_bind, yields_lift_quiet; [done|]. by intros [].
Qed.

(** ** A run without interference *)

Lemma exec_lift {A} (p : coroutine A) w d :
  exec (lift p) (w, d) = (((exec p w).1, d), (exec p w).2).
Proof. unfold lift. rewrite exec_zoom; by intros; repeat match goal with s : _ * _ |- _ => destruct s end. Qed.

Lemma settled_failed j label j' :
  settled j label j' -> (label = "dropped_ownerless"%string <-> j_user_id j = None) ->
  fails_for_good j (mkOutcome true label) = bool_decide (j_status j' = failed /\ j_user_id j <> None).
Proof.
  intros Hs Howner. assert (label <> "dropped_ownerless"%string -> j_user_id j <> None) as Hown by tauto.
  destruct Hs as [j' Hst _ _ _|j' Hst _ _|label j' Hl Hst _ _|label j' Hl _ Hst].
  - rewrite bool_decide_eq_false_2; [done|]. intros [? _]. congruence.
  - rewrite bool_decide_eq_false_2; [done|]. intros [? _]. congruence.
  - destruct Hl as [->|[-> Hu]].
    + rewrite bool_decide_eq_true_2; [done|]. split; [done|by apply Hown].
    + rewrite bool_decide_eq_false_2; [done|]. by intros [_ ?].
  - assert (j_user_id j <> None) as Hu by by apply Hown; destruct Hl as [->| ->].
    assert (fails_for_good j (mkOutcome true label) = (j_max_attempts j <=? j_attempts j + 1)) as ->.
    { by destruct Hl as [->| ->]. }
    destruct (_ <=? _).
    + symmetry. apply bool_decide_eq_true_2. by destruct Hst.
    + symmetry. apply bool_decide_eq_false_2. intros [? _]. destruct Hst as [[Hst|[Hst _]] _]; congruence.
Qed.

Context (Htable : retry_backoff_schedule settings <> []).

(** C16: The counters agree with the table.  A worker that claims a job alone counts it as
    processed once, under the outcome that says how its row was left; [jobs.failed] counts
    one exactly if the row is left failed and the job has an owner, and
    [jobs.dropped_ownerless] one exactly if it has none. *)
Theorem process_job_counts ctx w d id j :
  rows w !! id = Some j -> j_id j = id -> j_status j = pending \/ j_status j = scheduled ->
  0 <= j_attempts j ->
  exists w' es label j', exec (obs_process_job settings ctx id) (w, d) = ((w', d ++ es), inr (mkOutcome true label)) /\
    rows w' = <[id := j']> (rows w) /\ settled j label j' /\
    measures jobs_processed es = [(1, outcome_attributes (Some j) label)] /\
    measures jobs_failed es = (if decide (j_status j' = failed /\ j_user_id j <> None) then [(1, job_attributes j)] else []) /\
    measures jobs_dropped_ownerless es = (if decide (j_user_id j = None) then [(1, [])] else []).
Proof.
  intros Hj Hid Hst Ha. assert (status_in [pending; scheduled] j = true) as Hg.
  { apply status_in_true. destruct Hst as [-> | ->]; set_solver. }
  win (fun now => claim_job now id) Hj Hg as (w1 & E1 & [R1 _ _ _]).
  set (job := set_started_at _ _) in *.
  assert (exec (obs_process_job settings ctx id) (w, d) =
    exec (obs_process_claimed settings ctx (now_of w) job) (w1, d)) as ->.
  { unfold obs_process_job. rewrite exec_bind. cbn [exec look act fst snd]. rewrite exec_bind, exec_lift, E1.
    cbn [fst snd]. rewrite exec_bind, exec_lift, exec_get_job, R1, lookup_insert_eq. done. }
  destruct (settles_claimed settings Htable w1 job) as (w2 & label & j' & E2 & R2 & Hs).
  { exists (j_progress job). rewrite set_progress_same. subst job. simpl. rewrite Hid.
    by rewrite R1, lookup_insert_eq. }
  pose proof (erases_process_claimed settings ctx (now_of w) job) as He.
  apply (exec_erases _ _ w1 d) in He as [Hw Hr]. rewrite E2 in Hw, Hr.
  destruct (yields_exec _ _ [] w1 d (process_claimed_accounts ctx (now_of w) job)) as (es & Hes & Hacc).
  rewrite Hr in Hacc. cbn [app] in Hacc. destruct Hacc as [Hp _ Hf Hd Ho _ _].
  exists w2, es, label, j'. split; [by destruct (exec _ (w1, d)) as [[]]; simpl in *; simplify_eq|].
  split; [rewrite R2, R1; subst job; simpl in *; by rewrite Hid, insert_insert_eq|].
  split; [destruct Hs; [apply settled_completed|apply settled_cancelled|apply settled_rejected|apply settled_retry]; auto|].
  split; [exact Hp|]. split; [|exact Hd]. rewrite Hf, (settled_failed _ _ _ Hs) by by apply Ho.
  unfold job_attributes. subst job. simpl. repeat case_decide; case_bool_decide; done.
Qed.
End Accounts.

(** * Lines *)

Section Lines.
Context {PG : Postgres} {RD : Redis} {EN : Entropy} {OT : Otel} {PY : Pydantic} {OM : Orm}.
Context (settings : Settings) (ctx : log_fields) (Hctx : NoDup ctx.*1).
Context (id : uuid) (mid : stream_id) (stream : string).

(** The line says whose job it is about, as the formatter writes it. *)
Definition names_job (r : LogRecord) : Prop :=
  od_get "job_id"%string (format_fields r) = Some (field_text (str_uuid id)).

Definition names_event (e : event) : Prop := match e with Logged r => names_job r | Measured _ _ _ => True end.

#[local] Abbreviation bound := (merged ctx (message_fields_bound id mid stream)).

Lemma bound_spec : NoDup bound.*1 /\ od_get "job_id"%string bound = Some (field_text (str_uuid id)).
Proof.
  split; [by apply merged_NoDup|]. rewrite od_get_merged; [done|]. by apply (bool_decide_unpack _); vm_compute.
Qed.

(** A record names the job if its own fields do, or leave it to the context. *)
Lemma names_job_say now logger level message extra :
  NoDup (record_attributes ++ extra.*1) ->
  od_get "job_id"%string extra = None \/ od_get "job_id"%string extra = Some (field_text (str_uuid id)) ->
  names_job (filter_record bound (log_record now logger level message extra None)).
Proof.
  intros Hnd Hextra. destruct bound_spec as [Hb Hget].
  set (r := log_record now logger level message extra None).
  assert ((r_dict r).*1 = record_attributes ++ extra.*1) as Hkeys.
  { subst r. cbn [r_dict log_record]. by rewrite fmap_app, <-list_fmap_compose, list_fmap_id. }
  destruct (filter_record_spec bound r Hb) as (Hnd' & _ & Hfield); [by rewrite Hkeys|].
  unfold names_job. rewrite format_fields_get by done. unfold line_field.
  assert (r_exception (filter_record bound r) = None) as ->.
  { destruct (filter_record_spec bound r Hb) as (_ & Heq & _); [by rewrite Hkeys|]. by injection Heq. }
  change (hidden "job_id") with false. rewrite !(bool_decide_eq_false_2 ("job_id"%string = _)) by done.
  rewrite !andb_false_r, Hfield, Hget. rewrite bool_decide_eq_false_2 by by apply (bool_decide_unpack _); vm_compute.
  assert (od_get "job_id"%string (r_dict r) = od_get "job_id"%string extra) as ->.
  { reflexivity. }
  by destruct Hextra as [->| ->].
Qed.

#[local] Abbreviation tells := (tells (W := world) names_event).

(** For the fields the code gives. *)
Ltac solve_names :=
  intros;
  first
    [ exact I
    | apply names_job_say;
      [apply (bool_decide_unpack _); vm_compute; exact I
      |first [by left|right; match goal with H : j_id _ = id |- _ => by rewrite <-H end]] ].

Lemma tells_retry job error carrier :
  j_id job = id -> tells (obs_schedule_retry_or_fail settings bound job error carrier).
Proof.
  intros Hid. unfold obs_schedule_retry_or_fail, retry_line. tells_walk; solve_names.
Qed.

Lemma tells_conclude level message extra job label started ack :
  (forall now, names_job (filter_record bound (log_record now "app.worker" level message extra None))) ->
  tells (conclude bound level message extra job label started ack).
Proof. intros HP. unfold conclude, obs_record_outcome. tells_walk; first [exact I|apply HP]. Qed.

Lemma tells_process_claimed started job :
  j_id job = id -> tells (obs_process_claimed settings bound started job).
Proof.
  intros Hid. pose proof (fun e c => tells_retry job e c Hid) as Hretry.
  unfold obs_process_claimed, obs_settle_result, obs_settle_error, won_field.
  tells_walk; solve_names.
Qed.

Lemma tells_process_job : tells (obs_process_job settings bound id).
Proof.
  unfold obs_process_job. apply tells_bind; [apply tells_look|]. intros started.
  apply tells_bind; [apply tells_lift|]. intros [|]; [|apply tells_conclude; solve_names].
  apply yields_bind, yields_act. intros w. cbn [snd]. rewrite get_job_rows. simpl.
  destruct (pg_rows (w_db w) !! id) as [job|] eqn:Hj; [|constructor].
  apply tells_process_claimed. by eapply pg_primary_key.
Qed.
End Lines.

Section Attributed.
Context {PG : Postgres} {RD : Redis} {EN : Entropy} {OT : Otel} {PY : Pydantic} {OM : Orm}.
Context (settings : Settings).

(** Every line the worker writes about a delivery can be attributed: whatever the other
    processes do, each record logged while a message of a job is handled, also those of the retry
    helper, shows that job's id under [job_id]. *)
Theorem handle_message_lines ctx stream mid f id :
  NoDup ctx.*1 -> message_job f = Some id ->
  yields (fun _ es => Forall (names_event id) es) (obs_handle_message settings ctx (stream, mid, f)) [].
Proof.
  intros Hctx Hf. change (tells (names_event id) (obs_handle_message settings ctx (stream, mid, f))).
  unfold obs_handle_message. rewrite Hf.
  pose proof (tells_process_job settings ctx Hctx id mid stream) as Hjob. tells_walk; [exact I|].
  by apply names_job_say; [|apply (bool_decide_unpack _); vm_compute; exact I|left].
Qed.
End Attributed.

(** * Submissions *)

Section Submissions.
Context {PG : Postgres} {RD : Redis} {EN : Entropy} {OT : Otel} {PY : Pydantic} {OM : Orm}.
Context (settings : Settings).

Definition submitted (sub : JobSubmission) (later : bool) : attributes :=
  [("type", AText (JobType_value (s_type sub))); ("priority", AText (JobPriority_value (s_priority sub)));
   ("scheduled", ABool later)]%string.

(** A submission is counted exactly when it is accepted as a new job: a 202 adds one to
    [jobs.submitted], under the submission's type and priority and whether the job
    waits for its time; a replay, a conflict, a refused payload and an error add
    nothing.  No other instrument is touched. *)
Theorem submit_job_counts sub user :
  yields (fun r es =>
    match r with
    | inr resp => es = if status_code resp =? 202
        then [Measured jobs_submitted 1 (submitted sub (bool_decide (acc_status (body resp) = scheduled)))] else []
    | inl _ => es = []
    end) (obs_submit_job settings sub user) [].
Proof.
  assert (forall existing h, yields (fun r es =>
    match r with
    | inr resp => es = if status_code resp =? 202
        then [Measured jobs_submitted 1 (submitted sub (bool_decide (acc_status (body resp) = scheduled)))] else []
    | inl _ => es = []
    end) (lift (or_raise (_replay_or_conflict existing h)) : observed world _) []) as Hreplay.
  { intros [j|] h; cbn [_replay_or_conflict]; [|done]. by case_decide. }
  unfold obs_submit_job. destruct (validate_payload _ _ _) as [[]|p]; try done.
  destruct (s_idempotency_key sub) as [key|].
  - apply yields_bind, yields_lift. intros [e|found]; [done|]. apply yields_bind, yields_lift.
    intros [e|[j|]]; [done|apply Hreplay|]. apply yields_bind, yields_attempt, yields_bind, yields_lift.
    intros [e|job].
    + destruct e; try done. apply yields_bind, yields_lift. intros [e|again]; [done|].
      apply yields_bind, yields_lift. intros [e|existing]; [done|apply Hreplay].
    + by apply yields_bind, yields_record.
  - apply yields_bind, yields_bind, yields_lift. intros [e|job]; [done|]. by apply yields_bind, yields_record.
Qed.
End Submissions.

(** * Authentication *)

Section Validations.
Context {AP : Apiserver} (settings : Settings).

(** The results [auth.validations] tells apart, with the answer each goes with. *)
Inductive validation : option string -> exn + AuthedUser -> string -> string -> Prop :=
| validation_missing : validation None (inl (HTTPException 401 "missing bearer token")) "missing_token" "n/a"
| validation_unavailable raw :
    validation (Some raw) (inl (HTTPException 503 "authentication unavailable")) "apiserver_error" "tokenreview"
| validation_invalid raw :
    validation (Some raw) (inl (HTTPException 401 "invalid token")) "invalid_token" "tokenreview"
| validation_forbidden raw :
    validation (Some raw) (inl (HTTPException 403 "not a member of the required group")) "forbidden_group" "tokenreview"
| validation_ok raw user source :
    source = "cache"%string \/ source = "tokenreview"%string -> validation (Some raw) (inr user) "ok" source.

Definition not_http (e : exn) : Prop := match e with HTTPException _ _ => False | _ => True end.

Lemma throws_auth_or_raise {X} (r : exn + X) :
  (forall e, r = inl e -> not_http e) -> throws not_http (Auth.or_raise r : prog auth_world exn X).
Proof. destruct r; simpl; eauto. Qed.

Lemma read_review_not_http body e : read_review body = inl e -> not_http e.
Proof.
  assert (forall v k d e, json_get v k d = inl e -> not_http e) as Hget by by intros [] k d e'; simpl; intros [= <-].
  assert (forall v e, json_items v = inl e -> not_http e) as Hitems by by intros [] e'; simpl; intros [= <-].
  destruct body as [data|]; [|by intros [= <-]]. unfold read_review, mbind, sum_mbind.
  repeat (case_match; [intros [= <-]; by eauto|]). case_match; [|done].
  by repeat (case_match; [intros [= <-]; by eauto|]).
Qed.

Lemma throws_review raw : throws not_http (review raw).
Proof.
  unfold review. eapply throws_bind_returns; [apply throws_attempt|apply (attempt_returns not_http)|].
  - unfold post_with_rotation. apply throws_bind.
    + intros [cls|resp]; done.
    + intros resp. case_match; [|done]. intros []. by intros [cls|resp'].
  - intros [e|[code body]] He; [by destruct e|]. repeat (case_match; [done|]).
    apply throws_auth_or_raise. apply read_review_not_http.
Qed.

Lemma put_not_http t now h u c e : put t now h u c = inl e -> not_http e.
Proof.
  assert (forall max l e, drop_oldest max l = inl e -> not_http e) as Hdrop.
  { intros max l e'. induction l as [|x l IH]; cbn [drop_oldest]; case_match; try done; by intros [= <-]. }
  unfold put, mbind, sum_mbind. case_match; [done|]. case_match; [|done]. intros [= <-].
  repeat case_match; try done. by eapply Hdrop.
Qed.

Lemma yields_cache_put (Q : exn + unit -> list event -> Prop) h u acc :
  Q (inr tt) acc -> (forall e, not_http e -> Q (inl e) acc) -> yields Q (lift (cache_put h u)) acc.
Proof.
  intros HQ He s. exists []. rewrite !app_nil_r. split; [done|]. cbn [fst snd].
  destruct (put _ _ h u _) as [e|c] eqn:E; [|exact HQ]. apply He. by eapply put_not_http.
Qed.

(** What a validation leaves on the instruments. *)
Definition validated_once (credentials : option string) (r : exn + AuthedUser) (es : list event) : Prop :=
  (forall i, i <> auth_validations -> measures i es = []) /\
  ((exists result source, validation credentials r result source /\
      measures auth_validations es = [(1, [("result", AText result); ("source", AText source)]%string)]) \/
   (exists e, r = inl e /\ not_http e /\ measures auth_validations es = [])).

Lemma validated_end credentials r result source line :
  validation credentials r result source ->
  validated_once credentials r
    (Measured auth_validations 1 [("result", AText result); ("source", AText source)]%string ::
     match line with Some r => [Logged r] | None => [] end).
Proof.
  intros Hv. split; [intros i Hi; destruct line; cbn; by rewrite decide_False by done|].
  left. exists result, source. split; [done|]. by destruct line.
Qed.

Lemma validated_broken credentials e : not_http e -> validated_once credentials (inl e) [].
Proof. intros He. split; [done|]. right. by exists e. Qed.

Lemma identify_accounts raw (reviewed : ReviewedUser) :
  yields (fun r es => match r with inr _ => es = [] | inl e => validated_once (Some raw) (inl e) es end)
    (obs_identify settings reviewed) [].
Proof.
  unfold obs_identify, validated, auth_line. destruct (existsb _ _).
  - destruct (json_uuid (rv_uid reviewed)) as [e|u] eqn:Hu; [|done].
    assert (not_http e) as He by (destruct (rv_uid reviewed); simpl in Hu; repeat case_match; by simplify_eq).
    destruct e; try by apply validated_broken.
    apply yields_bind, yields_record, yields_bind, yields_say. intros now.
    apply (validated_end _ _ _ _ (Some _)). constructor.
  - apply yields_bind, yields_record, yields_bind, yields_say. intros now.
    apply (validated_end _ _ _ _ (Some _)). constructor.
Qed.

Lemma erases_identify (reviewed : ReviewedUser) :
  erases (obs_identify settings reviewed) (Auth.or_raise (identify settings reviewed)).
Proof.
  unfold obs_identify, identify, validated, auth_line.
  destruct (existsb _ _); [destruct (json_uuid _) as [[]|]|]; try done; erases_walk.
Qed.
Hint Resolve erases_identify : observed.

(** Every token that is decided on is counted once.  A request that carries no token,
    is let in, or is turned away with 401, 403 or 503 adds one to [auth.validations], under
    the result that goes with the answer and the source that gave it; a review that
    breaks with another error, a 500, adds none.  No other instrument is touched, and to the
    cache and the API server the dependency does what it does without its events. *)
Theorem auth_validations_count credentials :
  yields (validated_once credentials) (obs_get_current_user settings credentials) [] /\
  forall w es, let r := exec (obs_get_current_user settings credentials) (w, es) in
    (r.1.1, r.2) = exec (get_current_user settings credentials) w.
Proof.
  split.
  - unfold obs_get_current_user, validated, auth_line. destruct credentials as [raw|].
    + apply yields_bind, yields_act. intros w. destruct ((_, _).2) as [user|].
      * apply yields_bind, yields_record. apply (validated_end _ _ _ _ None), validation_ok; auto.
      * apply yields_bind, yields_attempt, (yields_lift_throws _ _ _ _ (throws_review raw)).
        -- intros [reviewed|].
           ++ eapply yields_then; [apply (identify_accounts raw)|done|]. intros user es ->.
              apply yields_bind, yields_cache_put; [|by intros e He; apply validated_broken].
              apply yields_bind, yields_record. apply (validated_end _ _ _ _ None), validation_ok; auto.
           ++ apply yields_bind, yields_record, yields_bind, yields_say. intros now.
              apply (validated_end _ _ _ _ (Some _)). constructor.
        -- intros e He. destruct e; try (by apply validated_broken).
           apply yields_bind, yields_record. apply (validated_end _ _ _ _ None). constructor.
    + apply yields_bind, yields_record, yields_bind, yields_say. intros now.
      apply (validated_end _ _ _ _ (Some _)). constructor.
  - intros w es.
    assert (erases (obs_get_current_user settings credentials) (get_current_user settings credentials)) as He.
    { unfold obs_get_current_user, get_current_user, validated, auth_line. erases_walk. }
    destruct (exec_erases _ _ w es He) as [E1 E2]. cbv zeta. rewrite E1, E2. by destruct (exec _ w).
Qed.
End Validations.

(** * Recycling *)

Section Recycling.
Context {PG : Postgres} {RD : Redis} {EN : Entropy}.

(** The loop head's checks, over the readings of the process's memory. *)
Fixpoint obs_checks (ctx : log_fields) (readings : list Z) (r : MemoryRecycler) : observed world MemoryRecycler :=
  match readings with
  | [] => Ret r
  | rss :: readings' => checked ← obs_should_recycle ctx rss r; obs_checks ctx readings' checked.1
  end.

(** A worker counts at most one recycling, and exactly one if it is draining. *)
Theorem recycles_once ctx readings r :
  yields (fun res es => exists r', res = inr r' /\
    measures worker_recycles es = if negb (triggered r) && triggered r' then [(1, [])] else [])
    (obs_checks ctx readings r) [].
Proof.
  assert (forall readings r, triggered r = true -> yields (fun res es => res = inr r /\ es = []) (obs_checks ctx readings r) []) as Hon.
  { clear. intros readings. induction readings as [|rss readings IH]; intros r Hr; cbn [obs_checks]; [done|].
    unfold obs_should_recycle. destruct (_max_bytes r); rewrite ?Hr; by apply (IH r). }
  revert r. induction readings as [|rss readings IH]; intros r; cbn [obs_checks].
  { exists r. by destruct (triggered r). }
  destruct (triggered r) eqn:Hr.
  { eapply yields_mono; [apply (Hon (rss :: readings) r Hr)|]. intros res es [-> ->]. exists r. by rewrite Hr. }
  unfold obs_should_recycle. destruct (_max_bytes r) as [limit|] eqn:Hm; rewrite ?Hr.
  2:{ eapply yields_mono; [apply (IH r)|]. intros res es (r' & -> & H). rewrite Hr in H. by exists r'. }
  destruct (limit <? rss).
  - apply (yields_then (fun res es => res = inr (mkRecycler (Some limit) true, true) /\ measures worker_recycles es = [(1, [])])).
    + apply yields_bind, yields_record, yields_bind, yields_say. by intros now.
    + by intros e es [? _].
    + intros [r1 b] es [[= -> ->] Hes]. eapply yields_mono; [by apply Hon|]. intros res es' [-> ->].
      eexists. split; [done|]. by rewrite app_nil_r.
  - eapply yields_mono; [apply (IH r)|]. intros res es (r' & -> & H). rewrite Hr in H. by exists r'.
Qed.
End Recycling.

(** * The ticker *)

Section Ticks.
Context {PG : Postgres} {RD : Redis} {EN : Entropy} {OT : Otel} {PY : Pydantic} {OM : Orm}.
Context (settings : Settings).

(** A count of [n], if there is anything to count. *)
Definition counted_some (n : nat) : list (Z * attributes) := if decide (n = 0%nat) then [] else [(Z.of_nat n, [])].

(** A loop that leaves its instrument aside, then the count of what it answers. *)
Lemma counts_answer (i : instrument) (p : observed world nat) (add : nat -> observed world unit) :
  tells (aside i) p ->
  (forall n, yields (fun r es => r = inr tt /\ measures i es = counted_some n) (add n) []) ->
  yields (fun r es => measures i es = match r with inr n => counted_some n | inl _ => [] end)
    (n ← p; _ ← add n; Ret n) [].
Proof.
  intros Hp Hadd. eapply yields_then; [exact Hp|intros e es Hes; by apply measures_aside|].
  intros n es Hes. eapply yields_then; [apply Hadd|by intros e es' [? _]|]. intros [] es' [_ Hes'].
  cbn [yields]. by rewrite !measures_app, Hes', (measures_aside i es), app_nil_r by done.
Qed.

Lemma aside_retry i ctx job error carrier :
  i <> jobs_failed -> tells (aside i) (obs_schedule_retry_or_fail settings ctx job error carrier).
Proof. intros Hi. unfold obs_schedule_retry_or_fail, retry_line. tells_walk; by cbn. Qed.

Lemma length_route info ids : (length (route settings info ids) <= length ids)%nat.
Proof.
  unfold route. induction ids as [|i ids IH]; [done|]. cbn [omap list_omap].
  destruct (match parse_uuid i ≫= _ with None => _ | Some _ => _ end); simpl in *; lia.
Qed.

(** The ticker's counters say what its steps answer: a recovery that returns the number
    of jobs it handed off, and a reaping that returns the number of messages it cleared, add
    exactly that number, once, and nothing if it is 0; a promotion adds the number
    it sent, of those it pulled.  A step that raises adds nothing of what it did. *)
Theorem ticker_counts fuel :
  yields (fun r es => measures ticker_reconciled es = match r with inr n => counted_some n | inl _ => [] end)
    (obs_reconcile_orphans settings fuel) [] /\
  yields (fun r es => measures ticker_reaped es = match r with inr n => counted_some n | inl _ => [] end)
    (obs_reap_stale settings fuel) [] /\
  yields (fun r es =>
    match r with
    | inr n => measures ticker_promoted es = [] /\ n = 0%nat \/
        exists k, (k <= n)%nat /\ measures ticker_promoted es = [(Z.of_nat k, [])]
    | inl _ => measures ticker_promoted es = []
    end) (obs_promote_due settings) [].
Proof.
  split; [|split].
  - unfold obs_reconcile_orphans. apply yields_bind, yields_act. intros w. cbn [snd]. apply counts_answer.
    + assert (forall l n, tells (aside ticker_reconciled) (obs_reconcile_rows settings l n)) as Hrows.
      { intros l. induction l as [|job l IH]; intros n; cbn [obs_reconcile_rows]; unfold obs_reconcile_one; by tells_walk. }
      generalize ([] : list Job) as held, 0%nat as n. induction fuel as [|fuel IH]; intros held n;
        cbn [obs_reconcile_loop]; tells_walk.
    + intros n. unfold add_some, counted_some. case_decide; [done|]. by apply yields_record.
  - apply counts_answer.
    + pose proof (fun job => aside_retry ticker_reaped [] job worker_lost (j_trace_context job)) as Hretry.
      assert (forall stream cursor n, tells (aside ticker_reaped) (obs_reap_loop settings fuel stream cursor n)) as Hloop.
      { induction fuel as [|fuel IH]; intros stream cursor n; cbn [obs_reap_loop];
          unfold obs_reap_entry, obs_reap_one, obs_reap_row; tells_walk; try done; by apply Hretry. }
      generalize (ordered_streams settings) as l, 0%nat as n.
      intros l. induction l as [|s l IH]; intros n; cbn [obs_reap_streams]; tells_walk.
    + intros n. unfold counted_some. case_decide; [done|]. apply yields_bind, yields_record, yields_say. by intros now.
  - unfold obs_promote_due. apply yields_bind, yields_act. intros w. apply yields_bind, yields_lift.
    intros [e|ids]; [done|]. destruct ids as [|i ids]; [by left|]. set (all := i :: ids).
    apply yields_bind, yields_lift. intros [e|us]; [done|]. apply yields_bind, yields_lift. intros [e|info]; [done|].
    apply yields_bind, yields_lift. intros [e|[]]; [done|]. apply yields_bind, yields_lift. intros [e|n]; [done|].
    apply yields_bind, yields_record, yields_bind, yields_say. intros now. right.
    exists (length (route settings info all)). split; [|done]. apply length_route.
Qed.
End Ticks.

(** * A delivery of the submitted report *)

Definition report_fields : fields := {["job_id"%string := str_uuid first_id]}.

Definition report_run : world * list event * (exn + Outcome) :=
  exec (obs_handle_message the_settings the_context ("jobs:stream:normal"%string, (1700000000000, 0)%N, report_fields))
    (submitted_world, []).

Lemma report_fields_job : message_job report_fields = Some first_id.
Proof. vm_compute. reflexivity. Qed.

Lemma handle_message_lines_witness :
  Forall (names_event first_id) report_run.1.2 /\ length (records report_run.1.2) = 2%nat.
Proof.
  split; [|vm_compute; reflexivity].
  assert (NoDup the_context.*1) as Hctx by (apply (bool_decide_unpack _); vm_compute; exact I).
  destruct (yields_exec _ _ [] submitted_world []
    (handle_message_lines the_settings the_context "jobs:stream:normal"%string (1700000000000, 0)%N report_fields first_id
      Hctx report_fields_job)) as (es & E & H).
  unfold report_run. rewrite E. exact H.
Defined.

(** What the counters show after it. *)
Example report_run_counts :
  report_run.2 = inr (mkOutcome true "completed") /\
  measures jobs_processed report_run.1.2 =
    [(1, [("outcome", AText "completed"); ("type", AText "report"); ("priority", AText "normal")]%string)] /\
  measures jobs_failed report_run.1.2 = [].
Proof. vm_compute. by repeat split. Qed.

Lemma process_job_counts_witness :
  exists w' es label j',
    exec (obs_process_job the_settings the_context first_id) (submitted_world, []) = ((w', es), inr (mkOutcome true label)) /\
    settled submitted_job label j' /\ measures jobs_processed es = [(1, outcome_attributes (Some submitted_job) label)].
Proof.
  destruct (process_job_counts the_settings ltac:(discriminate) the_context submitted_world [] first_id submitted_job
    submitted_job_row eq_refl (or_introl eq_refl) ltac:(vm_compute; discriminate))
    as (w' & es & label & j' & E & _ & Hs & Hp & _).
  exists w', es, label, j'. exact (conj E (conj Hs Hp)).
Defined.
