(* ===== verification/Counting.v ===== *)
(** The counters never run ahead of the table: in any run of the observed deployment,
    under any interleaving and any crash, [jobs.failed] has counted no more failures than
    rows became failed, and [jobs.submitted] no more jobs than rows were inserted. *)
From stdpp Require Import base tactics option list gmap strings numbers relations fin_maps.
From S2P Require Import Prelude Idempotency TokenCache Auth.
From S2P Require Import Prog Uuid Model Services Json Repository RepositoryFacts Queue Retry Handlers Payloads Logging Meters Credits Worker Ticker Api Effects Along Scenario Observed System ObservedFacts.
Set Default Goal Selector "!".
Open Scope Z_scope.

(** * What a step does to the table *)

(** The rows of [m'] that satisfy [P], given what [m] had there. *)
Definition changed (P : option Job -> Job -> bool) (m m' : gmap uuid Job) : Z :=
  Z.of_nat (size (filter (fun kv : uuid * Job => P (m !! kv.1) kv.2 = true) m')).

Definition newly_failed (before : option Job) (j : Job) : bool :=
  bool_decide (j_status j = failed) && bool_decide ((j_status <$> before) <> Some failed).
Definition newly_inserted (before : option Job) (j : Job) : bool := bool_decide (before = None).

Lemma changed_pos P m m' : 0 <= changed P m m'.
Proof. unfold changed. lia. Qed.

Lemma changed_row P m m' id j : m' !! id = Some j -> P (m !! id) j = true -> 1 <= changed P m m'.
Proof.
  intros Hj HP. unfold changed. set (s := filter _ m').
  assert (s !! id = Some j) as Hs by by apply map_lookup_filter_Some.
  assert (size s <> 0%nat) as Hne; [|lia]. intros E%map_size_empty_iff. by rewrite E in Hs.
Qed.

Lemma changed_inserted m m' :
  (forall k, is_Some (m !! k) -> is_Some (m' !! k)) ->
  changed newly_inserted m m' = Z.of_nat (size m') - Z.of_nat (size m).
Proof.
  intros Hk. unfold changed. rewrite <-!(size_dom (D := gset uuid)).
  assert (dom m ⊆ dom m') as Hsub by (intros k; rewrite !elem_of_dom; apply Hk).
  rewrite <-Nat2Z.inj_sub by by apply subseteq_size. f_equal. rewrite <-size_difference by done. f_equal.
  apply set_eq. intros k. rewrite elem_of_difference, !elem_of_dom. split.
  - intros [j [Hj HP]%map_lookup_filter_Some]. split; [by eexists|]. simpl in HP. apply bool_decide_eq_true in HP.
    rewrite HP. by intros [].
  - intros [[j Hj] Hn]. exists j. apply map_lookup_filter_Some. split; [done|]. simpl. apply bool_decide_eq_true.
    destruct (m !! k) eqn:E; [|done]. destruct Hn. by eexists.
Qed.

Section Counting.
Context {PG : Postgres} {RD : Redis} {EN : Entropy} {OT : Otel} {PY : Pydantic} {OM : Orm}.
Context (settings : Settings) (format_exception : exn -> string).

Definition failures (w w' : world) : Z := changed newly_failed (rows w) (rows w').
Definition insertions (w w' : world) : Z := changed newly_inserted (rows w) (rows w').

Lemma failures_pos w w' : 0 <= failures w w'.
Proof. apply changed_pos. Qed.
Lemma insertions_pos w w' : 0 <= insertions w w'.
Proof. apply changed_pos. Qed.

(** A failing transition that wins makes a row fail. *)
Lemma earns_fail_job id error : earns failures (fun won => won) (pg (fun now => fail_job now id error)).
Proof.
  apply earns_act. intros w. cbn [fst snd].
  pose proof (failures_pos w (with_db (fail_job (w_now w) id error (w_db w)).1 w)) as Hpos.
  unfold fail_job in *. rewrite guarded_won by done.
  destruct (row_at (pg_rows (w_db w)) id (status_in [processing])) as [j|] eqn:Hrow; [|exact Hpos].
  assert (pg_rows (w_db w) !! id = Some j /\ status_in [processing] j = true) as [Hj Hg].
  { unfold row_at in Hrow. destruct (pg_rows (w_db w) !! id) as [j0|]; [|done].
    destruct (status_in [processing] j0) eqn:E; [by simplify_eq|done]. }
  rewrite bool_decide_eq_true_2 by done. unfold failures.
  eapply (changed_row newly_failed _ _ id).
  - unfold rows. cbn [w_db with_db]. rewrite guarded_rows by done. unfold upd_rows. rewrite Hrow. apply lookup_insert_eq.
  - unfold newly_failed, rows. rewrite Hj. apply status_in_true in Hg. apply list_elem_of_singleton in Hg.
    cbn. by rewrite Hg.
Qed.

(** An insert that is not refused makes a row. *)
Lemma earns_create_job job :
  earns insertions (fun r => match r with inr _ => true | inl _ => false end) (pg (fun now => create_job (job now))).
Proof.
  apply earns_act. intros w. cbn [fst snd].
  pose proof (insertions_pos w (with_db (create_job (job (w_now w)) (w_db w)).1 w)) as Hpos.
  pose proof (create_job_rows (job (w_now w)) (w_db w)) as H. destruct (create_job _ (w_db w)).2 as [e|j']; [done|].
  destruct H as (-> & Hnone & Hrows). eapply (changed_row newly_inserted _ _ (j_id (job (w_now w)))).
  - unfold rows. cbn [w_db with_db]. rewrite Hrows. apply lookup_insert_eq.
  - unfold newly_inserted, rows. by rewrite Hnone.
Qed.

Lemma solvent_insertions {A} (p : coroutine A) : solvent insertions p.
Proof. apply solvent_free, insertions_pos. Qed.

Lemma earns_create sub st sa ma key h user : earns insertions (fun _ => true) (create sub st sa ma key h user).
Proof.
  apply earns_later; [apply solvent_insertions|]. intros id.
  eapply earns_first; [apply (earns_create_job (fun now => new_job id now _ _ _ _ _ _ _ _ _ _ _))|..].
  - intros. apply solvent_insertions.
  - intros [e|job] Hr; [|done]. apply earns_raise.
Qed.

(** A submission that is handed off made a row. *)
Lemma earns_create_and_handoff sub key h user :
  earns insertions (fun _ => true) (_create_and_handoff settings sub key h user).
Proof.
  assert (forall A (p : coroutine A) (k : A -> coroutine Job), earns insertions (fun _ => true) p ->
    earns insertions (fun _ => true) (p ≫= k)) as Hthen.
  { intros A p k Hp. eapply earns_first; [exact Hp|intros; apply solvent_insertions|done]. }
  unfold _create_and_handoff. apply Hthen. destruct (s_scheduled_at sub) as [t|]; [|apply Hthen, earns_create].
  apply earns_later; [apply solvent_insertions|]. intros now. destruct (now <? t); apply Hthen, earns_create.
Qed.

(** * Every process pays for what it counts *)

Section Walk.
Context (gain : world -> world -> Z) (gain_pos : forall w w', 0 <= gain w w') (i : instrument).
#[local] Abbreviation pays := (solvent (balance gain i)).
Context (others : forall i', i' <> jobs_failed -> i' <> jobs_submitted -> i' <> i).
Context (pays_failure : forall (p : coroutine bool) id error attrs A (k : bool -> observed world A),
  p = pg (fun now => fail_job now id error) -> (forall won, pays (k won)) ->
  pays (won ← lift p; _ ← (if won then record jobs_failed 1 attrs else Ret tt); k won)).
Context (pays_submission : forall sub key h user, pays (obs_create_and_handoff settings sub key h user)).

#[local] Hint Resolve gain_pos pays_submission : credits.
#[local] Hint Extern 6 (solvent _ (record _ _ _)) =>
  apply solvent_record; [exact gain_pos|apply others; discriminate] : credits.

Lemma pays_retry ctx job error carrier : pays (obs_schedule_retry_or_fail settings ctx job error carrier).
Proof.
  unfold obs_schedule_retry_or_fail, retry_line. case_match.
  - eapply pays_failure; [reflexivity|]. solvent_walk.
  - solvent_walk.
Qed.
#[local] Hint Resolve pays_retry : credits.

Lemma pays_conclude ctx level message extra job label started ack :
  pays (conclude ctx level message extra job label started ack).
Proof. unfold conclude, obs_record_outcome. solvent_walk. Qed.
#[local] Hint Resolve pays_conclude : credits.

Lemma pays_settle_error ctx started job e : pays (obs_settle_error settings ctx started job e).
Proof. destruct e; cbn [obs_settle_error]; solvent_walk. Qed.
#[local] Hint Resolve pays_settle_error : credits.

Lemma pays_handle_message ctx m : pays (obs_handle_message settings ctx m).
Proof.
  destruct m as [[stream mid] f]. unfold obs_handle_message, obs_process_job, obs_process_claimed, obs_settle_result.
  solvent_walk.
Qed.

Lemma pays_promote_due : pays (obs_promote_due settings).
Proof. unfold obs_promote_due. solvent_walk. Qed.

Lemma pays_reconcile_loop fuel cutoff held n : pays (obs_reconcile_loop settings fuel cutoff held n).
Proof.
  assert (forall l n, pays (obs_reconcile_rows settings l n)) as Hrows.
  { intros l. induction l as [|job l IH]; intros m; cbn [obs_reconcile_rows]; unfold obs_reconcile_one; solvent_walk. }
  revert held n. induction fuel as [|fuel IH]; intros held n; cbn [obs_reconcile_loop]; solvent_walk.
Qed.
#[local] Hint Resolve pays_handle_message pays_promote_due pays_reconcile_loop : credits.

Lemma pays_reap_loop fuel stream cursor n : pays (obs_reap_loop settings fuel stream cursor n).
Proof.
  revert cursor n. induction fuel as [|fuel IH]; intros cursor n; cbn [obs_reap_loop];
    unfold obs_reap_entry, obs_reap_one, obs_reap_row; solvent_walk.
Qed.
#[local] Hint Resolve pays_reap_loop : credits.

Lemma pays_reap_streams fuel l n : pays (obs_reap_streams settings fuel l n).
Proof. revert n. induction l as [|s l IH]; intros n; cbn [obs_reap_streams]; solvent_walk. Qed.
#[local] Hint Resolve pays_reap_streams : credits.

Lemma pays_tick fuel last : pays (obs_tick settings format_exception fuel last).
Proof.
  unfold obs_tick, obs_tick_body, obs_when_due, obs_reconcile_orphans, obs_reap_stale, add_some, recovered_line.
  solvent_walk.
Qed.
#[local] Hint Resolve pays_tick : credits.

Lemma pays_process t : obs_process settings format_exception t -> pays t.
Proof.
  destruct 1; try (by auto with credits).
  - unfold obs_submit_job. solvent_walk.
  - solvent_walk.
  - unfold obs_worker_round. solvent_walk.
  - unfold obs_ticker_main, started_line. apply solvent_bind; [by auto with credits|]. intros _.
    apply solvent_bind; [by auto with credits|]. intros _.
    generalize (0, 0). induction n as [|n IH]; intros last; cbn [obs_ticks]; solvent_walk.
Qed.
End Walk.

Lemma pays_failed t : obs_process settings format_exception t -> solvent (balance failures jobs_failed) t.
Proof.
  apply pays_process; [exact failures_pos|by auto|..].
  - intros p id error attrs A k -> Hk.
    apply (solvent_earned failures failures_pos jobs_failed (fun won : bool => won) (pg (fun now => fail_job now id error))
      (fun won => if won then record jobs_failed 1 attrs else Ret tt) k);
      [apply earns_fail_job|intros won ->; by eexists|intros won ->; apply solvent_ret|exact Hk].
  - intros sub key h user. unfold obs_create_and_handoff. pose proof failures_pos. solvent_walk.
Qed.

Lemma pays_submitted t : obs_process settings format_exception t -> solvent (balance insertions jobs_submitted) t.
Proof.
  apply pays_process; [exact insertions_pos|by auto|..].
  - intros p id error attrs A k _ Hk. pose proof insertions_pos. solvent_walk.
  - intros sub key h user. eapply (solvent_earned insertions insertions_pos jobs_submitted (fun _ => true));
      [apply earns_create_and_handoff|by eexists|done|intros; apply solvent_ret].
Qed.

(** C6: Whatever the interleaving, and wherever processes die, the counters never run
    ahead of the table: a run of the observed deployment adds to [jobs.failed] at most
    one for each time a row became failed in it, and to [jobs.submitted] at most the
    number of rows the table grew by. *)
Theorem counters_covered s ts s' z :
  run_total (obs_system_step settings format_exception) (fun c c1 => failures c.2.1 c1.2.1) ([], s) z (ts, s') ->
  counted jobs_failed s'.2 - counted jobs_failed s.2 <= z /\
  counted jobs_submitted s'.2 - counted jobs_submitted s.2 <= Z.of_nat (size (rows s'.1)) - Z.of_nat (size (rows s.1)).
Proof.
  intros Hz. split.
  - apply (counter_covered failures failures_pos jobs_failed _ _ _ _ _ pays_failed (fun _ _ H => proj2 H) Hz).
  - apply run_total_rtc in Hz. apply (rtc_run_total _ (fun c c1 => insertions c.2.1 c1.2.1)) in Hz as [n Hn].
    pose proof (counter_covered insertions insertions_pos jobs_submitted _ _ _ _ _ pays_submitted (fun _ _ H => proj2 H) Hn) as Hc.
    apply (pool_total_along _ _ (fun s s' => db_step (rows s.1) (rows s'.1)) (fun s s' => insertions s.1 s'.1)
      (fun s => Z.of_nat (size (rows s.1)))) in Hn; [simpl in *; lia|..|constructor].
    + intros t Ht. destruct (obs_process_erases settings format_exception t Ht) as (t' & Ht' & He).
      assert (Reflexive (on_rows db_step)) by (intros w; unfold on_rows; reflexivity).
      apply (all_steps_erases (on_rows db_step) t t' He). by apply (process_along settings).
    + intros a b [Hab _]. unfold environment in Hab. by rewrite Hab.
    + intros a b Hab. apply changed_inserted. intros k [j Hj]. destruct Hab as [Hab|<-]; [|by eexists].
      specialize (Hab k). rewrite Hj in Hab. by destruct (rows b.1 !! k); [eexists|].
Qed.
End Counting.

(** * A run in which Alice's submission is counted *)

Definition observed_submission : world * list event :=
  (exec (_ ← obs_submit_job the_settings (report_submission (Some "k1"%string)) alice; Ret tt) (ready_world, [])).1.

Lemma counters_covered_witness :
  counted jobs_submitted observed_submission.2 = 1 /\
  1 <= Z.of_nat (size (rows observed_submission.1)) - Z.of_nat (size (rows ready_world)).
Proof.
  assert (counted jobs_submitted observed_submission.2 = 1) as E by (vm_compute; reflexivity).
  split; [exact E|]. rewrite <-E.
  destruct (pool_alone (obs_process the_settings the_traceback) obs_environment _ (ready_world, [])
    (obs_submit _ _ (report_submission (Some "k1"%string)) alice)) as [t' Ht'].
  destruct (rtc_run_total _ (fun c c1 => failures c.2.1 c1.2.1) _ _ Ht') as [z Hz].
  destruct (counters_covered the_settings the_traceback _ _ _ z Hz) as [_ H].
  cbn [snd] in H. change (counted jobs_submitted []) with 0 in H. rewrite Z.sub_0_r in H. exact H.
Defined.
