(* ===== verification/Delivery.v ===== *)
(** Delivery: every job that the table counts as handed off can still be delivered.

    A row that waits (pending or scheduled) and is marked as synced is [owed] a
    hint in Redis: a message of its id in one of the three streams, read or not, or
    its id in the delayed set.  [delivered] says that no such row lacks one.  The
    coroutines of the service, run alone and stopped anywhere, keep it: they hand a
    job off before they mark it, and forget a message only when it is no longer the
    job's only hint.  With the reconciler, which hands off the waiting rows that are
    not marked, no crash loses a job.

    Two exceptions show why the theorem is stated as it is: the reaper
    ([ReaperFacts.reap_strands_unclaimed]) and interleavings (Races.v). *)
From stdpp Require Import base tactics option list gmap strings numbers relations sorting.
From S2P Require Import Prelude Prog Uuid Model Services Repository RepositoryFacts Queue Retry Handlers Payloads Worker Ticker TokenCache Api Effects Along Scenario RetryFacts QueueFacts TickerFacts System.
Set Default Goal Selector "!".
Open Scope Z_scope.

(** A waiting row that the reconciler will not look at. *)
Definition owed (j : Job) : bool := status_in [pending; scheduled] j && j_is_synced_to_redis j.

(** A message of the job [id]. *)
Definition carries (id : uuid) (f : fields) : Prop := f !! "job_id"%string = Some (str_uuid id).

(** The messages a group still has: read and not acknowledged, then unread. *)
Definition messages (v : group_view) : list (stream_id * fields) := (pe_message <$> g_pel v) ++ g_fresh v.

Lemma message_job_carries id f : carries id f -> message_job f = Some id.
Proof. unfold carries, message_job. intros ->. simpl. apply parse_str_uuid. Qed.

Lemma carries_message {OT : Otel} s id c : carries id (message_fields s (str_uuid id) c).
Proof. unfold carries, message_fields. by rewrite inject_job_id, lookup_singleton_eq. Qed.

Section Delivery.
Context {PG : Postgres} {RD : Redis} {EN : Entropy} {OT : Otel} {PY : Pydantic} {OM : Orm}.
Context (settings : Settings) (Hstreams : NoDup (ordered_streams settings)).
Notation group := (consumer_group settings).
Notation streams := (ordered_streams settings).
Notation zset := (delayed_zset settings).
Implicit Types (r : rd) (w : world).

(** * Hints *)

(** A message of [id] among those [part] of a stream's group. *)
Definition in_stream (part : group_view -> list (stream_id * fields)) r (id : uuid) : Prop :=
  exists s v m, s ∈ streams /\ rd_group r s group = Some v /\ m ∈ part v /\ carries id m.2.

Definition in_zset r (id : uuid) : Prop := is_Some (rd_zset r zset !! str_uuid id).

Definition hinted r (id : uuid) : Prop := in_stream messages r id \/ in_zset r id.

(** A hint no acknowledgement can take. *)
Definition spare r (id : uuid) : Prop := in_stream g_fresh r id \/ in_zset r id.

Definition delivered w : Prop :=
  groups_exist (w_redis w) group streams /\
  forall id j, rows w !! id = Some j -> owed j = true -> hinted (w_redis w) id.

Lemma spare_hinted r id : spare r id -> hinted r id.
Proof.
  intros [(s & v & m & Hs & Hv & Hm & Hc)|?]; [left|by right].
  exists s, v, m. split_and!; [done|done| |done]. apply elem_of_app. by right.
Qed.

(** * Effects that forget nothing *)

(** Groups stay, messages stay, read messages stay read, the delayed set grows. *)
Record keeps r r' : Prop := mkKeeps {
  keeps_group s v : rd_group r s group = Some v ->
    exists v', rd_group r' s group = Some v' /\ messages v ⊆ messages v' /\
      (pe_message <$> g_pel v) ⊆ (pe_message <$> g_pel v');
  keeps_zset i : is_Some (rd_zset r zset !! i) -> is_Some (rd_zset r' zset !! i);
}.

#[export] Instance keeps_preorder : PreOrder keeps.
Proof.
  split.
  - intros r. split; [|done]. intros s v Hv. by exists v.
  - intros r1 r2 r3 [G1 Z1] [G2 Z2]. split; [|by auto].
    intros s v Hv. destruct (G1 _ _ Hv) as (v1 & Hv1 & M1 & P1).
    destruct (G2 _ _ Hv1) as (v2 & Hv2 & M2 & P2). exists v2. split; [done|]. split; by etrans.
Qed.

Lemma keeps_hinted r r' id : keeps r r' -> hinted r id -> hinted r' id.
Proof.
  intros [G Z] [(s & v & m & Hs & Hv & Hm & Hc)|Hz]; [left|right; by apply Z].
  destruct (G _ _ Hv) as (v' & Hv' & M & _). exists s, v', m. by auto.
Qed.

Lemma keeps_groups r r' ss : keeps r r' -> groups_exist r group ss -> groups_exist r' group ss.
Proof. intros [G _] Hg s Hs. destruct (Hg s Hs) as [v Hv]. destruct (G _ _ Hv) as (v' & -> & _). done. Qed.

(** No row becomes owed. *)
Definition no_new_debt (m m' : gmap uuid Job) : Prop :=
  forall id j', m' !! id = Some j' -> owed j' = true -> exists j, m !! id = Some j /\ owed j = true.

#[export] Instance no_new_debt_preorder : PreOrder no_new_debt.
Proof.
  split.
  - intros m id j Hj Ho. by exists j.
  - intros m1 m2 m3 H12 H23 id j Hj Ho. destruct (H23 _ _ Hj Ho) as (j2 & Hj2 & Ho2). eauto.
Qed.

Definition quiet w w' : Prop := no_new_debt (rows w) (rows w') /\ keeps (w_redis w) (w_redis w').

#[export] Instance quiet_preorder : PreOrder quiet.
Proof.
  split; [by split|]. intros w1 w2 w3 [R1 K1] [R2 K2]. split; by etrans.
Qed.

Lemma quiet_delivered w w' : quiet w w' -> delivered w -> delivered w'.
Proof.
  intros [R K] [Hg Hd]. split; [by eapply keeps_groups|].
  intros id j Hj Ho. destruct (R _ _ Hj Ho) as (j0 & Hj0 & Ho0).
  eapply keeps_hinted; [exact K|]. by eapply Hd.
Qed.

#[export] Instance quiet_calm : Calm quiet.
Proof. intros w w' Hd Hr. unfold quiet, rows. by rewrite Hd, Hr. Qed.

(** ** Transactions *)

Lemma quiet_pg {X} (t : datetime -> pg_db -> pg_db * X) :
  leads no_new_debt t -> all_steps quiet (pg t).
Proof. intros Ht. apply all_steps_act. intros w. by split; [apply Ht|]. Qed.

Lemma no_new_debt_upd id g f m :
  (forall j, g j = true -> owed (f j) = true -> owed j = true) -> no_new_debt m (upd_rows id g f m).
Proof.
  intros Hf k j' Hj' Ho. unfold upd_rows, row_at in Hj'.
  destruct (m !! id) as [j|] eqn:Hj; [destruct (g j) eqn:Hg|]; try by exists j'.
  destruct (decide (k = id)) as [->|Hne].
  - rewrite lookup_insert_eq in Hj'. simplify_eq. eauto.
  - rewrite lookup_insert_ne in Hj' by done. by exists j'.
Qed.

Lemma debt_guarded {X} id g f (t : datetime -> pg_db -> pg_db * X) :
  (forall now d, pg_rows (t now d).1 = pg_rows (guarded id g (f now) d).1) ->
  (forall now, keeps_key (f now)) ->
  (forall now j, g j = true -> owed (f now j) = true -> owed j = true) -> leads no_new_debt t.
Proof. intros Ht Hf Hg now d. rewrite Ht, guarded_rows by done. apply no_new_debt_upd, Hg. Qed.

Ltac solve_debt := eapply debt_guarded; [intros; reflexivity|done|intros ???; by unfold owed, status_in].

Lemma debt_claim id : leads no_new_debt (fun now => claim_job now id).
Proof. solve_debt. Qed.
Lemma debt_complete id res p : leads no_new_debt (fun now => complete_job now id res p).
Proof. solve_debt. Qed.
Lemma debt_fail id e : leads no_new_debt (fun now => fail_job now id e).
Proof. solve_debt. Qed.
Lemma debt_retry_pending id : leads no_new_debt (fun _ => retry_to_pending id).
Proof. solve_debt. Qed.
Lemma debt_retry_scheduled id t : leads no_new_debt (fun _ => retry_to_scheduled id t).
Proof. solve_debt. Qed.
Lemma debt_reset id : leads no_new_debt (fun _ => reset_failed_to_pending id).
Proof. solve_debt. Qed.
Lemma debt_init_progress id : leads no_new_debt (fun _ => init_progress id).
Proof. solve_debt. Qed.
Lemma debt_cancel_pending now id : leads no_new_debt (fun _ => cancel_pending_or_scheduled now id).
Proof. solve_debt. Qed.
Lemma debt_request_cancel now id : leads no_new_debt (fun _ => request_cancel now id).
Proof. solve_debt. Qed.
Lemma debt_cancel_job id res : leads no_new_debt (fun now => cancel_job now id res).
Proof. solve_debt. Qed.
Lemma debt_write_progress id p : leads no_new_debt (fun _ => write_progress id p).
Proof. solve_debt. Qed.

Lemma debt_promote us : leads no_new_debt (fun _ => promote_scheduled_to_pending us).
Proof.
  intros now d id j' Hj' Ho. rewrite promote_rows in Hj'.
  destruct (pg_rows d !! id) as [j|] eqn:Hj; simplify_eq/=. exists j. split; [done|].
  destruct (_ && _) eqn:Hg; [|done]. simp_bool. unfold owed in *. simp_bool.
  apply status_in_true in H0. apply andb_true_iff. split; [|done].
  apply status_in_true. set_solver.
Qed.

Lemma debt_create job : j_is_synced_to_redis job = false -> leads no_new_debt (fun _ => create_job job).
Proof.
  intros Hs now d id j' Hj' Ho. pose proof (create_job_rows job d) as Hc.
  destruct (create_job job d).2 as [e|j0].
  - destruct Hc as [_ Hc]. rewrite Hc in Hj'. by exists j'.
  - destruct Hc as (_ & _ & Hc). rewrite Hc in Hj'.
    apply lookup_insert_Some in Hj' as [[_ <-]|[_ Hj']]; [|by exists j'].
    unfold owed in Ho. rewrite Hs, andb_false_r in Ho. done.
Qed.

(** ** Commands *)

Lemma quiet_redis_do {X} (c : datetime -> rd -> rd * X) :
  (forall now r, keeps r (c now r).1) -> all_steps quiet (redis_do c).
Proof. intros Hc. apply all_steps_act. intros w. by split; [|apply Hc]. Qed.

Lemma quiet_redis_try {X} (c : datetime -> rd -> rd * (exn + X)) :
  (forall now r, keeps r (c now r).1) -> all_steps quiet (redis_try c).
Proof. intros Hc. apply all_steps_bind; [by apply quiet_redis_do|]. intros [e|x]; done. Qed.

(** A command that leaves the groups alone, or only adds to them. *)
Lemma keeps_intro r r' :
  (forall s v, rd_group r s group = Some v -> exists v', rd_group r' s group = Some v' /\
     g_pel v ⊆ g_pel v' /\ messages v ⊆ messages v') ->
  (forall i, is_Some (rd_zset r zset !! i) -> is_Some (rd_zset r' zset !! i)) -> keeps r r'.
Proof.
  intros G Z. split; [|done]. intros s v Hv. destruct (G _ _ Hv) as (v' & Hv' & P & M).
  exists v'. split; [done|]. split; [done|].
  intros m (e & -> & He)%list_elem_of_fmap. apply list_elem_of_fmap. eauto.
Qed.

Lemma keeps_xadd s f now r : keeps r (xadd s f now r).1.
Proof.
  apply keeps_intro; [|intros i; by rewrite xadd_zset].
  intros s' v Hv. rewrite xadd_group, Hv. case_decide; simpl; [|by exists v].
  eexists. split; [done|]. split; [done|]. unfold messages. simpl. set_solver.
Qed.

Lemma keeps_xgroup_create s r : keeps r (xgroup_create s group r).1.
Proof.
  apply keeps_intro; [|intros i; by rewrite xgroup_create_zset].
  intros s' v Hv. exists v. split; [|done]. destruct (decide (s' = s)) as [->|Hne].
  - destruct (xgroup_create_busy s group r) as [_ ->]; by rewrite Hv.
  - rewrite xgroup_create_frame; [done|congruence].
Qed.

Lemma keeps_zadd i t r : keeps r (zadd zset i t r).1.
Proof.
  apply keeps_intro.
  - intros s v Hv. exists v. by rewrite zadd_group.
  - intros k Hk. rewrite zadd_zset, decide_True by done. apply lookup_insert_is_Some'. by right.
Qed.

Lemma views_exist r ss :
  groups_exist r group ss ->
  exists views, Forall2 (fun s (v : string * group_view) => v.1 = s /\ rd_group r s group = Some v.2) ss views.
Proof.
  intros Hg. induction ss as [|s ss IH]; [by exists []|].
  destruct IH as [views Hviews]; [intros s' Hs'; apply Hg; by right|].
  destruct (Hg s) as [v Hv]; [by left|]. exists ((s, v) :: views). by constructor.
Qed.

Lemma messages_deliver n c now v : messages v ⊆ messages (deliver n c now v).
Proof.
  unfold messages, deliver. simpl. intros m. rewrite fmap_app, !elem_of_app.
  rewrite <-(take_drop n (g_fresh v)) at 1. rewrite elem_of_app. intros [?|[Hm|?]]; [by auto| |by auto].
  left. right. rewrite <-list_fmap_compose. apply list_elem_of_fmap. exists m. split; [by destruct m|done].
Qed.

Lemma keeps_xreadgroup ss c n now r : NoDup ss -> keeps r (xreadgroup ss group c n now r).1.
Proof.
  intros Hnd. apply keeps_intro; [|intros i; by rewrite xreadgroup_zset].
  intros s v Hv. destruct (decide (Forall (fun s => is_Some (rd_group r s group)) ss)) as [Hall|Hnot].
  - rewrite Forall_forall in Hall. destruct (views_exist r ss Hall) as [views Hviews].
    destruct (xreadgroup_ok ss group c n now r views Hnd Hviews) as [_ ->]. rewrite Hv.
    case_decide; [|by exists v]. eexists. split; [done|]. split; [|apply messages_deliver].
    simpl. set_solver.
  - apply not_Forall_Exists in Hnot; [|apply _]. apply Exists_exists in Hnot as (s0 & Hs0 & Hn).
    apply eq_None_not_Some in Hn. destruct (xreadgroup_nogroup ss group c n now r s0 Hs0 Hn) as (m & _ & ->).
    by exists v.
Qed.

#[local] Hint Resolve quiet_pg debt_claim debt_complete debt_fail debt_retry_pending debt_retry_scheduled
  debt_reset debt_init_progress debt_cancel_pending debt_request_cancel debt_cancel_job
  debt_write_progress debt_promote quiet_redis_do quiet_redis_try keeps_xadd keeps_xgroup_create
  keeps_zadd keeps_xreadgroup : along.

(** ** Coroutines *)

Notation calmly := (all_steps quiet).

Lemma quiet_enqueue s i c : calmly (enqueue s i c).
Proof. unfold enqueue. auto with along nocore. Qed.
Lemma quiet_schedule i t : calmly (schedule zset i t).
Proof. apply quiet_redis_do. intros now r. apply keeps_zadd. Qed.
Lemma quiet_due_job_ids z t n : calmly (due_job_ids z t n).
Proof. by apply quiet_redis_do. Qed.

Lemma quiet_ensure_groups : calmly (ensure_groups settings).
Proof.
  apply all_steps_for_each. intros s. unfold ensure_group. along_walk.
Qed.

Lemma quiet_probe c n ss : calmly (probe group c n ss).
Proof.
  induction ss as [|s ss IH]; cbn [probe]; [done|]. apply all_steps_bind.
  - apply quiet_redis_try. intros now r. apply keeps_xreadgroup, NoDup_singleton.
  - intros resp. by destruct (_flatten resp).
Qed.

Lemma quiet_pull c : calmly (pull settings c).
Proof.
  pose proof quiet_probe. unfold pull, read_priority. along_walk.
Qed.

Lemma quiet_create sub st t mx k h u : calmly (create sub st t mx k h u).
Proof.
  unfold create. along_walk. apply quiet_pg. intros now. by apply debt_create.
Qed.

Lemma quiet_run_job job : calmly (run_job settings job).
Proof. apply (along_run_job _ (j_id job)); [|done]. auto with along. Qed.

Lemma quiet_answer_with code h id : calmly (answer_with code h id).
Proof. unfold answer_with. along_walk. Qed.

Lemma quiet_get_job_route id u : calmly (get_job_route id u).
Proof. unfold get_job_route. along_walk. Qed.

(** * The rules for a run that may stop anywhere *)

(** A message the group has read from a stream, still unacknowledged. *)
Definition unacked r (m : delivery) : Prop :=
  exists v, m.1.1 ∈ streams /\ rd_group r m.1.1 group = Some v /\ (m.1.2, m.2) ∈ pe_message <$> g_pel v.

Lemma keeps_unacked r r' m : keeps r r' -> unacked r m -> unacked r' m.
Proof.
  intros [G _] (v & Hs & Hv & Hm). destruct (G _ _ Hv) as (v' & Hv' & _ & P). exists v'. auto.
Qed.

(** The job can lose one read message. *)
Definition released w id : Prop :=
  forall j, rows w !! id = Some j -> owed j = true -> spare (w_redis w) id.

Notation stays p Q w := (always delivered p Q w).

Lemma stays_exec {A} (p : coroutine A) Q w :
  all_steps quiet p -> delivered w ->
  (forall x w', exec p w = (w', x) -> quiet w w' -> delivered w' -> Q x w') -> stays p Q w.
Proof.
  intros Hp Hw. revert w Q Hw. induction p as [a|e|X f k IH]; intros w Q Hw HQ; simpl; [by split; [|apply HQ]..|].
  destruct Hp as [Hf Hk]. split; [done|]. apply IH; [done|by eapply quiet_delivered; [apply Hf|]|].
  intros x w' E Hq. apply HQ; [done|]. by etrans; [apply Hf|].
Qed.

Lemma stays_quiet {A} (p : coroutine A) Q w :
  all_steps quiet p -> delivered w ->
  (forall x w', quiet w w' -> delivered w' -> Q x w') -> stays p Q w.
Proof. intros Hp Hw HQ. apply stays_exec; eauto. Qed.

Lemma stays_read {X} (q : pg_db -> X) Q w : delivered w -> Q (inr (q (w_db w))) w -> stays (pg_read q) Q w.
Proof. done. Qed.

Lemma stays_enqueue s id c Q w :
  delivered w -> s ∈ streams ->
  (forall i w', quiet w w' -> delivered w' -> spare (w_redis w') id -> Q (inr i) w') ->
  stays (enqueue s (str_uuid id) c) Q w.
Proof.
  intros Hw Hs HQ. assert (quiet w (exec (enqueue s (str_uuid id) c) w).1) as Hq.
  { split; [done|]. apply keeps_xadd. }
  split; [done|]. assert (delivered (exec (enqueue s (str_uuid id) c) w).1) as Hw' by by eapply quiet_delivered.
  split; [done|]. apply HQ; [done..|]. left. destruct (proj1 Hw s Hs) as [v Hv].
  eexists s, _, _. split; [done|]. simpl. rewrite xadd_group, decide_True, Hv by done. simpl.
  split; [done|]. split; [apply elem_of_app; right; by apply list_elem_of_singleton|]. apply carries_message.
Qed.

Lemma stays_schedule id t Q w :
  delivered w ->
  (forall w', quiet w w' -> delivered w' -> spare (w_redis w') id -> Q (inr tt) w') ->
  stays (schedule zset (str_uuid id) t) Q w.
Proof.
  intros Hw HQ. set (w' := (exec (schedule zset (str_uuid id) t) w).1).
  assert (quiet w w') as Hq by (split; [done|apply keeps_zadd]).
  assert (delivered w') as Hw' by by eapply quiet_delivered.
  split; [done|]. split; [done|].
  change (Q (inr (zadd zset (str_uuid id) t (w_redis w)).2) w').
  destruct (zadd zset (str_uuid id) t (w_redis w)).2. apply HQ; [done..|]. right.
  unfold in_zset. simpl. rewrite zadd_zset, decide_True by done. by rewrite lookup_insert_eq.
Qed.

(** A row may be marked once it is hinted. *)
Lemma stays_mark_synced id Q w :
  delivered w -> hinted (w_redis w) id ->
  (forall w', delivered w' -> keeps (w_redis w) (w_redis w') -> w_redis w' = w_redis w -> Q (inr tt) w') ->
  stays (pg (fun _ => mark_synced id)) Q w.
Proof.
  intros Hw Hh HQ. set (w' := (exec (pg (fun _ => mark_synced id)) w).1).
  assert (delivered w') as Hw'; [|split; [done|]; split; [done|by apply HQ]].
  split; [apply Hw|]. intros k j. unfold rows. simpl. rewrite update_where_id_rows by done.
  unfold upd_rows. destruct (row_at _ _ _) as [j0|]; [|apply Hw].
  destruct (decide (k = id)) as [->|Hne]; [done|]. rewrite lookup_insert_ne by done. apply Hw.
Qed.

(** A guarded transition, won or lost. *)
Lemma stays_guarded (t : datetime -> pg_db -> pg_db * bool) id g f Q w :
  (forall now d, t now d = guarded id g (f now) d) -> (forall now, keeps_key (f now)) ->
  leads no_new_debt t -> delivered w ->
  (forall w' won, quiet w w' -> delivered w' -> w_redis w' = w_redis w ->
     match row_at (rows w) id g with
     | Some j => won = true /\ rows w' !! id = Some (f (w_now w) j)
     | None => won = false /\ rows w' = rows w
     end -> Q (inr won) w') ->
  stays (pg t) Q w.
Proof.
  intros Ht Hf Hdebt Hw HQ. assert (quiet w (exec (pg t) w).1) as Hq by (split; [apply Hdebt|done]).
  assert (delivered (exec (pg t) w).1) as Hw' by by eapply quiet_delivered.
  split; [done|]. split; [done|]. apply HQ; [done..|].
  unfold rows. simpl. rewrite Ht, guarded_won, guarded_rows by done. unfold upd_rows.
  destruct (row_at _ _ _) as [j|]; [|done]. by rewrite lookup_insert_eq.
Qed.

(** ** Forgetting *)

(** The ids of a pending list are distinct. *)
Lemma pel_same r s v e e' :
  rd_group r s group = Some v -> e ∈ g_pel v -> e' ∈ g_pel v -> pe_id e = pe_id e' -> e = e'.
Proof.
  intros Hv. apply rd_ids_sorted, StronglySorted_inv in Hv as [Hs _].
  unfold group_ids in Hs. induction (g_pel v) as [|a l IH]; intros He He' Hid; [by apply not_elem_of_nil in He|].
  simpl in Hs. apply StronglySorted_inv in Hs as [Hs Ha]. rewrite Forall_forall in Ha.
  assert (forall b, b ∈ l -> pe_id a <> pe_id b) as Hne.
  { intros b Hb Hab. assert (stream_id_lt (pe_id a) (pe_id b)) as Hlt.
    { apply Ha, elem_of_app. left. apply list_elem_of_fmap. by exists b. }
    rewrite Hab in Hlt. destruct Hlt as [?|[_ ?]]; lia. }
  apply elem_of_cons in He as [->|He], He' as [->|He']; [done|by destruct (Hne e')| |by apply IH].
  by destruct (Hne e).
Qed.

(** Acknowledging a message takes no hint but one of its own job's. *)
Lemma ack_hinted r s i f k :
  unacked r (s, i, f) -> (carries k f -> spare r k) -> hinted r k -> hinted (xack s group i r).1 k.
Proof.
  intros (v & Hs & Hv & Hm) Hsp Hh.
  assert (spare r k -> hinted (xack s group i r).1 k) as Hspare.
  { intros [(s0 & v0 & m & Hs0 & Hv0 & Hm0 & Hc)|Hz]; [left|right; unfold in_zset; by rewrite xack_zset].
    exists s0. rewrite xack_group, Hv0. case_decide as Hd; simpl.
    - exists (unack i v0), m. split_and!; [done|done| |done]. apply elem_of_app. by right.
    - exists v0, m. split_and!; [done|done| |done]. apply elem_of_app. by right. }
  destruct Hh as [(s0 & v0 & m & Hs0 & Hv0 & Hm0 & Hc)|Hz]; [|apply Hspare; by right].
  apply elem_of_app in Hm0 as [(e & -> & He)%list_elem_of_fmap|Hm0]; [|apply Hspare; left; by exists s0, v0, m].
  destruct (decide (s0 = s /\ pe_id e = i)) as [[-> Hi]|Hne].
  - apply list_elem_of_fmap in Hm as (e' & He' & Hin). injection He' as Hi' ->.
    assert (v0 = v) as -> by (simpl in Hv; congruence).
    rewrite (pel_same _ _ _ _ _ Hv Hin He) in Hsp by congruence. by apply Hspare, Hsp.
  - left. exists s0. rewrite xack_group, Hv0. case_decide as Hd; simpl.
    + destruct Hd as [-> _]. exists (unack i v0), (pe_message e). split_and!; [done|done| |done].
      apply elem_of_app. left. apply list_elem_of_fmap. exists e. split; [done|].
      apply list_elem_of_filter. split; [|done]. intros Hi. by apply Hne.
    + exists v0, (pe_message e). split_and!; [done|done| |done]. apply elem_of_app. left.
      apply list_elem_of_fmap. by exists e.
Qed.

Lemma stays_ack s i f Q w :
  delivered w -> unacked (w_redis w) (s, i, f) ->
  (forall id, message_job f = Some id -> released w id) ->
  (forall w', delivered w' -> Q (inr tt) w') -> stays (ack s group i) Q w.
Proof.
  intros Hw Hm Hrel HQ. set (w' := (exec (ack s group i) w).1).
  assert (delivered w') as Hw'.
  { split.
    - intros s0 Hs0. destruct (proj1 Hw s0 Hs0) as [v Hv]. simpl. rewrite xack_group, Hv.
      by case_decide.
    - intros id j Hj Ho. apply (ack_hinted _ s i f); [done| |by eapply Hw].
      intros Hc. by apply (Hrel id (message_job_carries _ _ Hc) j). }
  split; [done|]. split; [done|].
  change (Q (inr (xack s group i (w_redis w)).2) w'). destruct (xack s group i (w_redis w)).2. by apply HQ.
Qed.

(** Ids may leave the delayed set when their jobs have a message, or none is owed. *)
Lemma stays_zrem ids Q w :
  delivered w ->
  (forall id j, rows w !! id = Some j -> owed j = true -> str_uuid id ∈ ids -> in_stream messages (w_redis w) id) ->
  (forall w', delivered w' -> Q (inr tt) w') -> stays (redis_do (fun _ => zrem zset ids)) Q w.
Proof.
  intros Hw Hids HQ. set (w' := (exec (redis_do (fun _ => zrem zset ids)) w).1).
  assert (forall id, in_stream messages (w_redis w) id -> in_stream messages (w_redis w') id) as Hst.
  { intros id (s & v & m & Hs & Hv & Hm). exists s, v, m. simpl. by rewrite zrem_group. }
  assert (delivered w') as Hw'.
  { split; [intros s Hs; simpl; rewrite zrem_group; by apply Hw|]. intros id j Hj Ho.
    destruct (decide (str_uuid id ∈ ids)) as [Hin|Hout]; [left; apply Hst; by eapply Hids|].
    destruct (proj2 Hw id j Hj Ho) as [H|[t Hz]]; [left; by apply Hst|right].
    exists t. simpl. rewrite zrem_zset, decide_True by done. by apply map_lookup_filter_Some. }
  split; [done|]. split; [done|].
  change (Q (inr (zrem zset ids (w_redis w)).2) w'). destruct (zrem zset ids (w_redis w)).2. by apply HQ.
Qed.

(** * The coroutines of one job *)

Lemma released_spare w id : spare (w_redis w) id -> released w id.
Proof. by intros ????. Qed.

Lemma released_row w id j : rows w !! id = Some j -> owed j = false -> released w id.
Proof. intros Hj Ho j' Hj' Ho'. congruence. Qed.
#[local] Hint Resolve released_spare : along.

(** Hand-off, then mark. *)
Lemma stays_enqueue_mark s id c Q w :
  delivered w -> s ∈ streams ->
  (forall w', delivered w' -> keeps (w_redis w) (w_redis w') -> spare (w_redis w') id -> Q (inr tt) w') ->
  stays (_ ← enqueue s (str_uuid id) c; pg (fun _ => mark_synced id)) Q w.
Proof.
  intros Hw Hs HQ. apply always_bind, stays_enqueue; [done..|]. intros _ w1 [_ Hk] Hw1 Hsp.
  apply stays_mark_synced; [done|by apply spare_hinted|]. intros w2 Hw2 _ Hr.
  apply HQ; [done|by rewrite Hr|by rewrite Hr].
Qed.

Lemma stays_schedule_mark id t Q w :
  delivered w ->
  (forall w', delivered w' -> keeps (w_redis w) (w_redis w') -> spare (w_redis w') id -> Q (inr tt) w') ->
  stays (_ ← schedule zset (str_uuid id) t; pg (fun _ => mark_synced id)) Q w.
Proof.
  intros Hw HQ. apply always_bind, stays_schedule; [done..|]. intros w1 [_ Hk] Hw1 Hsp.
  apply stays_mark_synced; [done|by apply spare_hinted|]. intros w2 Hw2 _ Hr.
  apply HQ; [done|by rewrite Hr|by rewrite Hr].
Qed.

(** What a worker knows before it acknowledges: its message is still there, and the
    job can lose it. *)
Definition may_ack r id (x : exn + Outcome) w' : Prop :=
  keeps r (w_redis w') /\ forall o, x = inr o -> o_ack o = true -> released w' id.

(** The end of a claim by a transition that leaves the job unowed. *)
Lemma stays_final (t : datetime -> pg_db -> pg_db * bool) id g f r label (k : bool -> coroutine Outcome) w :
  (forall now d, t now d = guarded id g (f now) d) -> (forall now, keeps_key (f now)) ->
  leads no_new_debt t -> (forall now j, g j = true -> owed (f now j) = false) ->
  (forall won, k won = Ret (mkOutcome won (label won))) ->
  delivered w -> keeps r (w_redis w) ->
  stays (won ← pg t; k won) (may_ack r id) w.
Proof.
  intros Ht Hf Hdebt Hfin Hk Hw Hr. apply always_bind. eapply stays_guarded; [done..|].
  intros w1 won _ Hw1 Hr1 Hrow. rewrite Hk. split; [done|]. split; [by rewrite Hr1|].
  intros o [= <-]. simpl. intros ->. unfold row_at in Hrow. destruct (rows w !! id) as [j|]; [|by destruct Hrow].
  destruct (g j) eqn:Hg; [|by destruct Hrow]. destruct Hrow as [_ Hrow].
  eapply released_row; [done|]. by apply Hfin.
Qed.

Lemma stays_retry job e c r label w :
  delivered w -> keeps r (w_redis w) ->
  stays (won ← schedule_retry_or_fail settings job e c; Ret (mkOutcome won label)) (may_ack r (j_id job)) w.
Proof.
  intros Hw Hr. unfold schedule_retry_or_fail. destruct (_ <=? _).
  { eapply (stays_final _ _ _ _ _ (fun _ => label)); [done|done|apply debt_fail|done|done|done|done]. }
  destruct (backoff_delay _ _) as [e'|delay]; [by split; [|split]|]. cbn [or_raise]. rewrite bind_ret.
  assert (forall won w1, delivered w1 -> keeps r (w_redis w1) -> (won = true -> released w1 (j_id job)) ->
    stays (Ret (mkOutcome won label)) (may_ack r (j_id job)) w1) as Hend.
  { intros won w1 Hw1 Hr1 Hrel. split; [done|]. split; [done|]. intros o [= <-] Ha. by apply Hrel. }
  destruct (delay <=? 0).
  - do 2 apply always_bind. eapply stays_guarded; [done|done|apply debt_retry_pending|done|].
    intros w1 won [_ Hk1] Hw1 _ _. apply always_bind. destruct won; [|split; [done|]].
    + apply stays_enqueue_mark; [done|apply stream_for_priority_ordered|]. intros w2 Hw2 Hk2 Hsp.
      split; [done|]. apply Hend; [done|by do 2 (etrans; [done|])|]. intros _. by apply released_spare.
    + split; [done|]. by apply Hend; [|etrans|].
  - do 2 apply always_bind. split; [done|]. split; [done|]. apply always_bind.
    eapply stays_guarded; [done|done|apply debt_retry_scheduled|done|].
    intros w1 won [_ Hk1] Hw1 _ _. apply always_bind. destruct won; [|split; [done|]].
    + apply stays_schedule_mark; [done|]. intros w2 Hw2 Hk2 Hsp.
      split; [done|]. apply Hend; [done|by do 2 (etrans; [done|])|]. intros _. by apply released_spare.
    + split; [done|]. by apply Hend; [|etrans|].
Qed.

Lemma stays_settle_error job e r w :
  delivered w -> keeps r (w_redis w) -> stays (settle_error settings job e) (may_ack r (j_id job)) w.
Proof.
  intros Hw Hr. destruct e; cbn [settle_error]; try by apply stays_retry.
  - eapply (stays_final _ _ _ _ _ (fun _ => "policy_rejected"%string)); [done|done|apply debt_fail|done..].
  - eapply (stays_final _ _ _ _ _ (fun _ => "cancelled"%string)); [done|done|apply debt_cancel_job|done..].
  - by split; [|split].
Qed.

Lemma stays_settle_result job res r w :
  delivered w -> keeps r (w_redis w) -> stays (settle_result job res) (may_ack r (j_id job)) w.
Proof.
  intros Hw Hr. unfold settle_result.
  eapply (stays_final _ _ _ _ _ (fun won : bool => if won then "completed" else "lost")%string);
    [done|done|apply debt_complete|done|by intros []|done|done].
Qed.

Lemma stays_process_claimed job r w :
  delivered w -> keeps r (w_redis w) -> stays (process_claimed settings job) (may_ack r (j_id job)) w.
Proof.
  intros Hw Hr. unfold process_claimed. destruct (j_user_id job).
  - apply always_bind, stays_quiet; [destruct (decide _); auto with along|done|].
    intros [e|b] w1 [_ Hk1] Hw1; [split; [by etrans|done]|].
    apply always_bind, always_attempt, stays_quiet; [apply quiet_run_job|done|].
    intros [e|res] w2 [_ Hk2] Hw2; [apply stays_settle_error|apply stays_settle_result]; try done;
      by do 2 (etrans; [done|]).
  - eapply (stays_final _ _ _ _ _ (fun _ => "dropped_ownerless"%string)); [done|done|apply debt_fail|done..].
Qed.

Lemma stays_process_job id w :
  delivered w -> stays (process_job settings id) (may_ack (w_redis w) id) w.
Proof.
  intros Hw. unfold process_job. apply always_bind. eapply stays_guarded; [done|done|apply debt_claim|done|].
  intros w1 won [_ Hk1] Hw1 Hr1 Hrow. destruct won.
  - apply always_bind, stays_read; [done|]. cbv beta iota. rewrite get_job_rows. cbn [or_raise].
    rewrite bind_ret. destruct (pg_rows (w_db w1) !! id) as [job|] eqn:Hj; [|by split; [|split]].
    rewrite <-(pg_primary_key _ _ _ Hj). by apply stays_process_claimed.
  - split; [done|]. split; [done|]. intros o _ _ j Hj Ho. exfalso.
    unfold row_at in Hrow. destruct (rows w !! id) as [j0|] eqn:Hj0; [|destruct Hrow; congruence].
    destruct (status_in [pending; scheduled] j0) eqn:Hg; [by destruct Hrow|].
    destruct Hrow as [_ Hrow]. rewrite Hrow, Hj0 in Hj. simplify_eq. unfold owed in Ho. by rewrite Hg in Ho.
Qed.

(** A worker may stop anywhere in the handling of a message it has read. *)
Lemma stays_handle_message m w :
  delivered w -> unacked (w_redis w) m -> stays (handle_message settings m) (fun _ _ => True) w.
Proof.
  intros Hw Hm. destruct m as [[s i] f]. unfold handle_message. destruct (message_job f) as [id|] eqn:Hid.
  - apply always_bind. eapply always_mono; [by apply stays_process_job|].
    intros [e|o] w1 Hw1 [Hk1 Hrel]; [done|]. apply always_bind. destruct (o_ack o) eqn:Ha.
    + apply (stays_ack s i f); [done|by eapply keeps_unacked| |done].
      intros id' Hid'. rewrite Hid in Hid'. simplify_eq. by apply (Hrel o).
    + by split.
  - apply always_bind. apply (stays_ack s i f); [done|done| |done]. intros id Hid'. congruence.
Qed.

(** * Requests *)

Notation held w p := (stays p (fun _ _ => True) w).

Lemma stays_create_and_handoff sub k h u w : delivered w -> held w (_create_and_handoff settings sub k h u).
Proof.
  intros Hw. unfold _create_and_handoff. set (mx := if decide _ then _ else _).
  set (placed := fun (x : exn + Job) w' => match x with inr job => spare (w_redis w') (j_id job) | inl _ => True end).
  assert (forall w0, delivered w0 -> stays (job ← create sub pending None mx k h u;
      _ ← enqueue (stream_for_priority settings (s_priority sub)) (str_uuid (j_id job)) None; Ret job) placed w0)
    as Honce.
  { intros w0 Hw0. apply always_bind, stays_quiet; [apply quiet_create|done|].
    intros [e|job] w1 _ Hw1; [done|]. apply always_bind, stays_enqueue; [done|apply stream_for_priority_ordered|].
    by intros i w2 _ Hw2 Hsp. }
  apply always_bind, (always_mono _ _ placed).
  - destruct (s_scheduled_at sub) as [t|]; [|by apply Honce].
    apply always_bind. split; [done|]. split; [done|]. cbv beta iota. case_match; [|by apply Honce].
    apply always_bind, stays_quiet; [apply quiet_create|done|]. intros [e|job] w1 _ Hw1; [done|].
    by apply always_bind, stays_schedule.
  - intros [e|job] w1 Hw1 Hsp; [done|]. apply always_bind.
    by apply stays_mark_synced; [|apply spare_hinted|].
Qed.

Lemma held_quiet {A} (p : coroutine A) w : all_steps quiet p -> delivered w -> held w p.
Proof. intros Hp Hw. by apply stays_quiet. Qed.

Lemma stays_submit_job sub u w : delivered w -> held w (submit_job settings sub u).
Proof.
  intros Hw. unfold submit_job. destruct (validate_payload _ _ _) as [[]|]; try by split.
  destruct (s_idempotency_key sub) as [key|].
  - apply always_bind, stays_read; [done|]. cbv beta iota.
    destruct (get_by_idempotency_key key (user_id u) (w_db w)) as [e|existing]; [done|].
    cbn [or_raise]. rewrite bind_ret. destruct existing as [job|].
    { by apply held_quiet; [auto with along|]. }
    apply always_bind, always_attempt. eapply always_mono; [by apply stays_create_and_handoff|].
    intros [e|job] w1 Hw1 _; [|done]. cbv beta iota.
    destruct e; try done. apply held_quiet; [along_walk|done].
  - apply always_bind. eapply always_mono; [by apply stays_create_and_handoff|]. by intros [e|job] w1 Hw1 _.
Qed.

Lemma stays_retry_job id u w : delivered w -> held w (retry_job settings id u).
Proof.
  intros Hw. unfold retry_job. apply always_bind, stays_quiet; [auto with along|done|].
  intros [e|job] w1 _ Hw1; [done|]. apply always_bind, stays_quiet; [auto with along|done|].
  intros [e|[|]] w2 _ Hw2; [done| |done].
  apply always_bind, stays_enqueue; [done|apply stream_for_priority_ordered|]. intros _ w3 _ Hw3 Hsp.
  apply always_bind, stays_mark_synced; [done|by apply spare_hinted|]. intros w4 Hw4 _ _.
  apply held_quiet; [along_walk|done].
Qed.

Lemma stays_cancel_rounds n id h w : delivered w -> held w (cancel_rounds settings n id h).
Proof.
  revert h w. induction n as [|n IH]; intros h w Hw; cbn [cancel_rounds]; [done|].
  apply always_bind. split; [done|]. split; [done|]. cbv beta iota.
  apply always_bind. eapply stays_guarded; [done|done|apply debt_cancel_pending|done|].
  intros w1 won _ Hw1 Hr1 Hrow. destruct won.
  - apply always_bind, stays_zrem; [done| |intros w2 Hw2; by apply held_quiet; [apply quiet_answer_with|]].
    intros id' j Hj Ho Hin. exfalso. apply list_elem_of_singleton, str_uuid_inj in Hin as ->.
    destruct (row_at _ id _) as [j0|]; [|by destruct Hrow]. destruct Hrow as [_ Hrow].
    rewrite Hrow in Hj. by simplify_eq.
  - apply always_bind. split; [done|]. split; [done|]. cbv beta iota.
    apply always_bind, stays_quiet; [auto with along|done|]. intros [e|[|]] w2 _ Hw2; [done|..].
    + by apply held_quiet; [apply quiet_answer_with|].
    + apply always_bind, stays_quiet; [auto with along|done|]. intros [e|[job|]] w3 _ Hw3; [done| |done].
      destruct (j_status job); try done; by apply IH.
Qed.

Lemma stays_cancel_job_route id u w : delivered w -> held w (cancel_job_route settings id u).
Proof.
  intros Hw. apply always_bind, stays_quiet; [auto with along|done|].
  intros [e|job] w1 _ Hw1; [done|]. by apply stays_cancel_rounds.
Qed.

(** * The ticker *)

Lemma parse_ids_elem ids us i : parse_ids ids = inr us -> i ∈ ids -> exists u, parse_uuid i = Some u /\ u ∈ us.
Proof.
  revert us. induction ids as [|k ids IH]; intros us E Hi; [by apply not_elem_of_nil in Hi|].
  simpl in E. destruct (parse_uuid k) as [u|] eqn:Hk; [|done].
  destruct (parse_ids ids) as [e|us'] eqn:Hus; [done|]. injection E as <-.
  apply elem_of_cons in Hi as [->|Hi]; [exists u; split; [done|by left]|].
  destruct (IH us') as (v & Hv & Hin); [done..|]. exists v. split; [done|by right].
Qed.

Lemma promotion_info_row us d id :
  is_Some (pg_rows d !! id) -> id ∈ us -> is_Some (get_promotion_info us d !! id).
Proof.
  intros [j Hj] Hin. apply not_eq_None_Some. unfold get_promotion_info. destruct us as [|u us]; [by apply not_elem_of_nil in Hin|].
  intros Hn%not_elem_of_list_to_map_2. apply Hn. rewrite <-list_fmap_compose.
  apply list_elem_of_fmap. exists j. pose proof (pg_primary_key _ _ _ Hj) as Hid. split; [by rewrite <-Hid|].
  apply elem_of_pg_select. rewrite Hid. split; [done|]. by apply bool_decide_eq_true.
Qed.

(** Every due job with a row is routed to a stream. *)
Lemma routed_row ids us d id :
  parse_ids ids = inr us -> str_uuid id ∈ ids -> is_Some (pg_rows d !! id) ->
  exists s f, s ∈ streams /\ (s, f) ∈ route settings (get_promotion_info us d) ids /\ carries id f.
Proof.
  intros Hus Hin Hrow. destruct (parse_ids_elem _ _ _ Hus Hin) as (u & Hu & Hu'). rewrite parse_str_uuid in Hu. simplify_eq.
  destruct (promotion_info_row us d u Hrow Hu') as [[p c] Hinfo].
  exists (stream_for_priority settings p), (message_fields (stream_for_priority settings p) (str_uuid u) c).
  split; [apply stream_for_priority_ordered|]. split; [|apply carries_message].
  apply list_elem_of_omap. exists (str_uuid u). split; [done|]. rewrite parse_str_uuid. simpl. by rewrite Hinfo.
Qed.

Lemma stays_promote_due w : delivered w -> held w (promote_due settings).
Proof.
  intros Hw. unfold promote_due. apply always_bind. split; [done|]. split; [done|]. cbv beta iota.
  apply always_bind, stays_quiet; [apply quiet_due_job_ids|done|]. intros [e|ids] w1 _ Hw1; [done|].
  destruct ids as [|i ids]; [done|]. set (all := i :: ids). apply always_bind.
  destruct (parse_ids all) as [e|us] eqn:Hus; [done|]. split; [done|].
  apply always_bind, stays_read; [done|]. apply always_bind. unfold promote. cbv beta iota.
  apply always_bind, stays_exec; [|done|].
  { apply all_steps_for_each. intros sf. along_walk. }
  intros x w2 E [Hdebt Hk] Hw2.
  destruct (exec_enqueue_all (route settings (get_promotion_info us (w_db w1)) all) w1) as (w2' & E' & Happ & Hr & _).
  rewrite E' in E. injection E as <- <-. apply stays_zrem; [done| |].
  - intros id j Hj Ho Hin. rewrite Hr in Hj.
    destruct (routed_row all us (w_db w1) id) as (s & f & Hs & Hrouted & Hc); [done|done|by eexists|].
    destruct (proj1 Hw1 s Hs) as [v Hv].
    destruct (appended_sent _ _ _ Happ s f group v Hrouted Hv) as (v' & Hv' & Hf).
    apply list_elem_of_fmap in Hf as (m & -> & Hm). exists s, v', m. split_and!; [done|done| |done].
    apply elem_of_app. by right.
  - intros w3 Hw3. apply held_quiet; [along_walk|done].
Qed.

Lemma stays_reconcile_one j w : delivered w -> held w (reconcile_one settings j).
Proof.
  intros Hw. unfold reconcile_one, handoff_scheduled, handoff_pending. destruct (decide _).
  - destruct (j_scheduled_at j) as [t|]; [|done]. apply always_bind, stays_schedule; [done|].
    intros w1 _ Hw1 Hsp. apply always_bind. by apply stays_mark_synced; [|apply spare_hinted|].
  - do 2 apply always_bind. apply stays_enqueue; [done|apply stream_for_priority_ordered|].
    intros _ w1 _ Hw1 Hsp. split; [done|]. apply always_bind. by apply stays_mark_synced; [|apply spare_hinted|].
Qed.

Lemma stays_reconcile_rows l n w : delivered w -> held w (reconcile_rows settings l n).
Proof.
  revert n w. induction l as [|j l IH]; intros n w Hw; cbn [reconcile_rows]; [done|].
  apply always_bind. eapply always_mono; [by apply stays_reconcile_one|].
  intros [e|b] w1 Hw1 _; [done|by apply IH].
Qed.

Lemma stays_reconcile_loop fuel cutoff h n w : delivered w -> held w (reconcile_loop settings fuel cutoff h n).
Proof.
  revert w h n. induction fuel as [|fuel IH]; intros w h n Hw; cbn [reconcile_loop]; [done|].
  apply always_bind, stays_read; [done|]. cbv beta iota. destruct (from_session _ _) as [|j l]; [done|].
  apply always_bind. eapply always_mono; [by apply stays_reconcile_rows|].
  intros [e|total] w1 Hw1 _; [done|]. cbv beta iota. case_decide; [done|]. by apply IH.
Qed.

Lemma stays_reconcile_orphans fuel w : delivered w -> held w (reconcile_orphans settings fuel).
Proof.
  intros Hw. apply always_bind. split; [done|]. split; [done|]. by apply stays_reconcile_loop.
Qed.

(** * Runs and crashes *)

(** What may run in [w]: everything but the reaper, and a task for a message the
    worker has read. *)
Inductive runs w : coroutine unit -> Prop :=
| runs_submit sub u : runs w (_ ← submit_job settings sub u; Ret tt)
| runs_get id u : runs w (_ ← get_job_route id u; Ret tt)
| runs_retry id u : runs w (_ ← retry_job settings id u; Ret tt)
| runs_cancel id u : runs w (_ ← cancel_job_route settings id u; Ret tt)
| runs_groups : runs w (ensure_groups settings)
| runs_pull c : runs w (_ ← pull settings c; Ret tt)
| runs_message m : unacked (w_redis w) m -> runs w (_ ← handle_message settings m; Ret tt)
| runs_promote : runs w (_ ← promote_due settings; Ret tt)
| runs_reconcile fuel : runs w (_ ← reconcile_orphans settings fuel; Ret tt).

(** A run of one of them, to its end or to a crash after [n] effects; or time passes. *)
Inductive crash_step : relation world :=
| crash_run p n w : runs w p -> crash_step w (exec_upto n p w)
| crash_time t g w : crash_step w (with_now t (with_rng g w)).

Lemma runs_delivered w p : delivered w -> runs w p -> held w p.
Proof.
  intros Hw Hp.
  assert (forall A (q : coroutine A), held w q -> held w (_ ← q; Ret tt)) as Hthen.
  { intros A q Hq. apply always_bind. eapply always_mono; [exact Hq|]. by intros [e|x] w1 Hw1 _. }
  destruct Hp; try apply Hthen; [by apply stays_submit_job| |by apply stays_retry_job
    |by apply stays_cancel_job_route| | |by apply stays_handle_message|by apply stays_promote_due
    |by apply stays_reconcile_orphans]; apply held_quiet; try done.
  - apply quiet_get_job_route.
  - apply quiet_ensure_groups.
  - apply quiet_pull.
Qed.

Lemma crash_steps_delivered w w' : rtc crash_step w w' -> delivered w -> delivered w'.
Proof.
  induction 1 as [w|w w1 w2 Hs _ IH]; [done|]. intros Hw. apply IH.
  destruct Hs as [p n w Hp|t g w]; [|done]. eapply always_upto. by apply runs_delivered.
Qed.

Lemma runs_along w p : runs w p -> all_steps (on_rows db_step) p.
Proof.
  destruct 1; try (apply all_steps_bind; [|done]).
  - apply along_submit_job.
  - apply along_get_job_route, _.
  - apply along_retry_job, _.
  - apply along_cancel_job_route, _.
  - apply along_ensure_groups, _.
  - apply along_pull.
  - apply along_handle_message.
  - apply along_promote_due.
  - apply along_reconcile_orphans.
Qed.

Lemma crash_steps_wf w w' : rtc crash_step w w' -> rows_wf (rows w) -> rows_wf (rows w').
Proof.
  induction 1 as [w|w w1 w2 Hs _ IH]; [done|]. intros Hw. apply IH. destruct Hs as [p n w Hp|t g w]; [|done].
  eapply db_steps_wf; [|done]. eapply rtc_on_rows, all_steps_exec_upto, runs_along, Hp.
Qed.

(** A row that still waits, unmarked, after the waiting rows were marked was not old enough. *)
Lemma marked_waiting cutoff m l id j :
  keyed m -> l ≡ₚ waiting cutoff m -> mark (j_id <$> l) m !! id = Some j ->
  status_in [pending; scheduled] j = true -> j_created_at j < cutoff -> j_is_synced_to_redis j = true.
Proof.
  intros Hk Hl Hj Hst Hold. unfold mark in Hj. rewrite lookup_fmap in Hj.
  destruct (m !! id) as [j0|] eqn:Hj0; [|done]. simpl in Hj. injection Hj as Hj.
  case_bool_decide as Hin; [by subst|]. subst j0. apply not_false_iff_true. intros Hs. apply Hin.
  apply list_elem_of_fmap. exists j. split; [done|]. rewrite Hl. apply elem_of_waiting; [done|].
  split; [by rewrite (Hk _ _ Hj0)|]. unfold unsynced. rewrite Hs, Hst. by apply Z.ltb_lt.
Qed.

(** C5: No crash loses a job.  From a state where every job marked as handed off has a
    hint in Redis, let requests, reads, message handlers, promotions and recoveries
    run one after the other, each stopped by a crash after any number of effects:
    the same holds of the state they leave, and a run of the reconciler then
    terminates in a state where every waiting job older than the grace period has a
    hint: a message of its id in a stream, or its id in the delayed set. *)
Theorem no_job_lost fuel w w1 :
  delivered w -> rows_wf (rows w) -> rtc crash_step w w1 ->
  (0 < reconcile_batch_size settings)%nat -> (size (rows w1) < fuel)%nat ->
  delivered w1 /\
  exists w2 n, exec (reconcile_orphans settings fuel) w1 = (w2, inr n) /\ delivered w2 /\
    forall id j, rows w2 !! id = Some j -> status_in [pending; scheduled] j = true ->
      j_created_at j < w_now w1 - reconcile_grace_s settings -> hinted (w_redis w2) id.
Proof.
  intros Hw Hwf Hs Hsize Hfuel. assert (delivered w1) as Hw1 by by eapply crash_steps_delivered.
  split; [done|]. assert (rows_wf (rows w1)) as Hwf1 by by eapply crash_steps_wf.
  set (cutoff := w_now w1 - reconcile_grace_s settings).
  destruct (reconcile_loop_exec settings fuel cutoff w1 [] 0 Hsize) as (w2 & l & E & Hl & R & _).
  - intros k j Hj. apply wf_placeable, (Hwf1 k j Hj).
  - eapply Nat.le_lt_trans; [apply filter_list_length_le|]. by rewrite length_fmap, length_map_to_list.
  - intros h j Hh. by apply not_elem_of_nil in Hh.
  - assert (delivered w2) as Hw2.
    { pose proof (always_exec _ _ _ _ (stays_reconcile_loop fuel cutoff [] 0 w1 Hw1)) as [H _]. by rewrite E in H. }
    exists w2, (0 + length l)%nat. split; [exact E|]. split; [done|]. intros id j Hj Hst Hold.
    apply (proj2 Hw2 id j Hj). unfold owed. rewrite Hst. simpl.
    rewrite R in Hj. eapply (marked_waiting cutoff); [exact (rows_keyed w1)|done..].
Qed.
End Delivery.

(** * A crash of the API, and one of a worker *)

Lemma ready_delivered : delivered the_settings ready_world.
Proof.
  split.
  - intros s Hs. repeat (apply elem_of_cons in Hs as [->|Hs]); [..|exfalso; exact (not_elem_of_nil _ Hs)];
      vm_compute; eexists; reflexivity.
  - intros id j Hj. by vm_compute in Hj.
Qed.

Lemma ready_world_wf : rows_wf (rows ready_world).
Proof. by apply (bool_decide_unpack _); vm_compute. Qed.

(** The API dies between the insert and the hand-off of a job; a minute passes. *)
Lemma orphan_steps : rtc (crash_step the_settings) ready_world orphan_world.
Proof.
  eapply rtc_l; [exact (crash_run the_settings _ 2 ready_world (runs_submit the_settings _ (report_submission None) alice))|].
  apply rtc_once. exact (crash_time _ (t0 + seconds 60) (w_rng _) _).
Qed.

Lemma no_job_lost_witness :
  exists w2 n, exec (reconcile_orphans the_settings 2) orphan_world = (w2, inr n) /\
    hinted the_settings (w_redis w2) first_id.
Proof.
  destruct (no_job_lost the_settings ordered_streams_NoDup 2 ready_world orphan_world ready_delivered
    ready_world_wf orphan_steps) as [_ (w2 & n & E & _ & H)].
  - apply Nat.lt_0_succ.
  - apply Nat.ltb_lt. vm_compute. reflexivity.
  - exists w2, n. split; [exact E|].
    apply (H first_id (set_is_synced_to_redis true (default no_row (rows orphan_world !! first_id)))).
    + assert (w2 = (exec (reconcile_orphans the_settings 2) orphan_world).1) as -> by (rewrite E; reflexivity).
      vm_compute. reflexivity.
    + reflexivity.
    + vm_compute. reflexivity.
Defined.
