(* ===== verification/Lost.v ===== *)
(** A job that is lost for good: it waits, its row says that it was handed off, and
    nothing in Redis names it.  No process but a cancellation of that job ever touches
    it again, however the processes interleave: requests only touch jobs they create or
    that failed, workers only jobs a message names, the ticker only due ids, rows that
    are not marked and entries that are pending. *)
From stdpp Require Import base tactics option list gmap strings numbers relations sorting.
From S2P Require Import Prelude Prog Uuid Model Services Repository RepositoryFacts Queue Retry Handlers Payloads Meters Worker Ticker TokenCache Api Effects Along Scenario QueueFacts TickerFacts ReaperFacts System Delivery.
Set Default Goal Selector "!".
Open Scope Z_scope.

(** A rule of [safe] for what goes on whatever the result was. *)
Lemma safe_then {W E A B} (I : W -> Prop) (V : A -> Prop) Q (p : prog W E A) (k : A -> prog W E B) :
  safe I (fun r => match r with inr a => V a | inl e => Q (inl e) end) p ->
  (forall a, V a -> safe I Q (k a)) -> safe I Q (p ≫= k).
Proof. intros Hp Hk. apply safe_bind. eapply safe_mono; [|exact Hp]. intros [e|a]; auto. Qed.

Lemma safe_for_each {W E A} (I : W -> Prop) (body : A -> prog W E unit) (l : list A) :
  (forall x, safe I (fun _ => True) (body x)) -> safe I (fun _ => True) (for_each body l).
Proof.
  intros Hb. induction l as [|x l IH]; [done|]. apply safe_bind. eapply safe_mono; [|apply Hb]. by intros [e|[]].
Qed.

(** Effects that keep [I] from everywhere. *)
Lemma safe_steps {W E A} (I : W -> Prop) (p : prog W E A) :
  all_steps (fun w w' => I w -> I w') p -> safe I (fun _ => True) p.
Proof. induction p as [a|e|X f k IH]; [done..|]. intros [Hf Hk] w Hw. split; [by apply Hf|by apply IH]. Qed.

Lemma safe_loosen {W E A} (I : W -> Prop) Q (p : prog W E A) : safe I Q p -> safe I (fun _ => True) p.
Proof. by apply safe_mono. Qed.

Lemma safe_act {W E X} (I : W -> Prop) (Q : E + X -> Prop) (f : W -> W * X) :
  (forall w, I w -> I (f w).1 /\ Q (inr (f w).2)) -> safe I Q (act f).
Proof. done. Qed.

(** Whatever the schedule, processes that are safe keep [I]. *)
Lemma pool_safe {W E} (spawn : prog W E unit -> Prop) env (I : W -> Prop) c c' :
  (forall t, spawn t -> safe I (fun _ => True) t) -> (forall w w', env w w' -> I w -> I w') ->
  rtc (pool_step spawn env) c c' -> Forall (safe I (fun _ => True)) c.1 -> I c.2 -> I c'.2.
Proof.
  intros Hspawn Henv Hc. induction Hc as [c|c c1 c' Hstep _ IH]; [done|]. intros Hts Hw.
  destruct Hstep as [ts1 ts2 X f k w|ts1 ts2 t w|ts t w Ht|ts w w' Hw']; simpl in *.
  - apply Forall_app in Hts as [H1 [Hf H2]%Forall_cons]. destruct (Hf w Hw) as [Hw1 Hk].
    apply IH; [|done]. by apply Forall_app; split; [|constructor].
  - apply Forall_app in Hts as [H1 [_ H2]%Forall_cons]. apply IH; [by apply Forall_app|done].
  - apply IH; [constructor; auto|done].
  - apply IH; [done|by eapply Henv].
Qed.

Section Lost.
Context {PG : Postgres} {RD : Redis} {EN : Entropy} {OT : Otel} {PY : Pydantic} {OM : Orm}.
Context (settings : Settings) (Hstreams : NoDup (ordered_streams settings))
  (Hbatch : (0 < reaper_batch_size settings)%nat).
Notation group := (consumer_group settings).
Notation streams := (ordered_streams settings).
Notation zset := (delayed_zset settings).
Implicit Types (w : world).

(** * What names a job *)

(** No message of the [part] of a group's names the job [id], nor does a member of the
    delayed set. *)
Definition unnamed (part : group_view -> list (stream_id * fields)) (id : uuid) (r : rd) : Prop :=
  (forall s v m, s ∈ streams -> rd_group r s group = Some v -> m ∈ part v -> message_job m.2 <> Some id) /\
  (forall k, is_Some (rd_zset r zset !! k) -> parse_uuid k <> Some id).

(** The row of [id] is [j], and nothing names [id]. *)
Definition lost part id (j : Job) w : Prop := rows w !! id = Some j /\ unnamed part id (w_redis w).

(** Every message counts, or only those that were not read yet. *)
Context (part : group_view -> list (stream_id * fields)) (Hpart : part = messages \/ part = g_fresh).

Lemma part_sub v v' : g_fresh v' ⊆ g_fresh v -> messages v' ⊆ messages v -> part v' ⊆ part v.
Proof. by destruct Hpart as [->| ->]. Qed.

Lemma part_append v m x : x ∈ part (mkGroup (g_fresh v ++ [m]) (g_pel v)) -> x ∈ part v \/ x = m.
Proof. destruct Hpart as [->| ->]; unfold messages; cbn [g_fresh g_pel]; set_solver. Qed.

Lemma fresh_part v : g_fresh v ⊆ part v.
Proof. destruct Hpart as [->| ->]; unfold messages; set_solver. Qed.

(** * Commands *)

(** No message and no member comes in; a new group is empty. *)
Definition sheds (r r' : rd) : Prop :=
  (forall s v', rd_group r' s group = Some v' -> v' = mkGroup [] [] \/
     exists v, rd_group r s group = Some v /\ g_fresh v' ⊆ g_fresh v /\ messages v' ⊆ messages v) /\
  (forall k, is_Some (rd_zset r' zset !! k) -> is_Some (rd_zset r zset !! k)).

Lemma sheds_unnamed r r' id : sheds r r' -> unnamed part id r -> unnamed part id r'.
Proof.
  intros [G Z] [Hm Hz]. split; [|by eauto]. intros s v' m Hs Hv' Hin.
  destruct (G s v' Hv') as [->|(v & Hv & Hf & Hmm)].
  - exfalso. revert Hin. by destruct Hpart as [->| ->]; intros ?%elem_of_nil.
  - eapply Hm; [done..|]. by eapply part_sub.
Qed.

Lemma sheds_same r r' :
  (forall s, rd_group r' s group = rd_group r s group) -> (forall k, is_Some (rd_zset r' zset !! k) -> is_Some (rd_zset r zset !! k)) ->
  sheds r r'.
Proof. intros G Z. split; [|done]. intros s v' Hv'. right. exists v'. by rewrite <-G. Qed.

Lemma sheds_xack s g i r : sheds r (xack s g i r).1.
Proof.
  split; [|intros k; by rewrite xack_zset]. intros s' v' Hv'. right. rewrite xack_group in Hv'.
  case_decide; [|by exists v']. destruct (rd_group r s' group) as [v|]; [|done]. injection Hv' as <-.
  exists v. split; [done|]. unfold unack, messages. cbn [g_fresh g_pel]. split; [done|].
  intros m. rewrite !elem_of_app. intros [(e & -> & [_ He]%list_elem_of_filter)%list_elem_of_fmap|Hm]; [left|by right].
  by apply list_elem_of_fmap_2.
Qed.

Lemma sheds_xgroup_create s r : sheds r (xgroup_create s group r).1.
Proof.
  split; [|intros k; by rewrite xgroup_create_zset]. intros s' v' Hv'. destruct (decide (s' = s)) as [->|Hne].
  - destruct (rd_group r s group) as [v|] eqn:Hv.
    + destruct (xgroup_create_busy s group r) as [_ E]; [by rewrite Hv|]. rewrite E, Hv in Hv'.
      right. exists v'. naive_solver.
    + destruct (xgroup_create_new s group r Hv) as [_ E]. left. congruence.
  - rewrite xgroup_create_frame in Hv' by congruence. right. by exists v'.
Qed.

Lemma deliver_sub n c now v : g_fresh (deliver n c now v) ⊆ g_fresh v /\ messages (deliver n c now v) ⊆ messages v.
Proof.
  assert (g_fresh v ≡ₚ take n (g_fresh v) ++ drop n (g_fresh v)) as Hsplit by by rewrite take_drop.
  unfold deliver, messages. cbn [g_fresh g_pel]. split; intros m Hm.
  - rewrite Hsplit. apply elem_of_app. by right.
  - rewrite Hsplit. rewrite fmap_app, !elem_of_app in Hm. rewrite !elem_of_app.
    destruct Hm as [[Hm|Hm]|Hm]; [by left| |by right; right]. right. left.
    rewrite <-list_fmap_compose in Hm. apply list_elem_of_fmap in Hm as (x & -> & Hx). by destruct x.
Qed.

Lemma sheds_xreadgroup ss c n now r : NoDup ss -> sheds r (xreadgroup ss group c n now r).1.
Proof.
  intros Hnd. split; [|intros k; by rewrite xreadgroup_zset]. intros s v' Hv'. right.
  destruct (decide (Forall (fun s => is_Some (rd_group r s group)) ss)) as [Hall|Hnot].
  - rewrite Forall_forall in Hall. destruct (views_exist settings r ss Hall) as [views Hviews].
    destruct (xreadgroup_ok ss group c n now r views Hnd Hviews) as [_ E]. rewrite E in Hv'.
    case_decide; [|by exists v']. destruct (rd_group r s group) as [v|]; [|done]. injection Hv' as <-.
    exists v. split; [done|apply deliver_sub].
  - apply not_Forall_Exists in Hnot; [|apply _]. apply Exists_exists in Hnot as (s0 & Hs0 & Hn).
    apply eq_None_not_Some in Hn. destruct (xreadgroup_nogroup ss group c n now r s0 Hs0 Hn) as (m & _ & E).
    rewrite E in Hv'. by exists v'.
Qed.

Lemma sheds_xautoclaim s c idle start now r :
  sheds r (xautoclaim s group c idle start (reaper_batch_size settings) now r).1.
Proof.
  split; [|intros k; by rewrite xautoclaim_zset]. intros s' v' Hv'. right. destruct (decide (s' = s)) as [->|Hne].
  - destruct (rd_group r s group) as [v|] eqn:Hv.
    + destruct (xautoclaim_ok s group c idle start (reaper_batch_size settings) now r v Hv Hbatch)
        as (scanned & rest & _ & _ & _ & E). rewrite E in Hv'. injection Hv' as <-. exists v. split; [done|].
      unfold messages. cbn [g_fresh g_pel]. split; [done|]. intros m. rewrite !elem_of_app.
      intros [Hm|Hm]; [left|by right]. rewrite <-list_fmap_compose in Hm.
      apply list_elem_of_fmap in Hm as (e & -> & He). apply list_elem_of_fmap. exists e. split; [|done].
      unfold touch, pe_message. simpl. by case_decide.
    + destruct (xautoclaim_nogroup s group c idle start (reaper_batch_size settings) now r Hv) as (m & _ & E). congruence.
  - rewrite xautoclaim_frame in Hv' by congruence. by exists v'.
Qed.

Lemma sheds_zrem ms r : sheds r (zrem zset ms r).1.
Proof.
  apply sheds_same; [intros s; apply zrem_group|]. intros k [t Ht]. rewrite zrem_zset, decide_True in Ht by done.
  apply map_lookup_filter_Some in Ht as [Ht _]. by exists t.
Qed.

Lemma unnamed_xadd id s f now r : message_job f <> Some id -> unnamed part id r -> unnamed part id (xadd s f now r).1.
Proof.
  intros Hf [Hm Hz]. split; [|intros k; rewrite xadd_zset; apply Hz]. intros s' v' m Hs Hv' Hin.
  rewrite xadd_group in Hv'. case_decide; [|by eapply Hm]. destruct (rd_group r s' group) as [v|] eqn:Hv; [|done].
  injection Hv' as <-. apply part_append in Hin as [Hin| ->]; [by eapply Hm|done].
Qed.

Lemma unnamed_zadd id i t r : parse_uuid i <> Some id -> unnamed part id r -> unnamed part id (zadd zset i t r).1.
Proof.
  intros Hi [Hm Hz]. split; [intros s v m Hs; rewrite zadd_group; by apply Hm|].
  intros k. rewrite zadd_zset, decide_True by done. intros [->|Hk]%lookup_insert_is_Some'; [done|by apply Hz].
Qed.

(** * Effects *)

Context (id : uuid) (j : Job) (Howed : owed j = true).
Notation Lost := (lost part id j).

Definition spares w w' : Prop := Lost w -> Lost w'.
Notation sparing := (all_steps spares).

#[local] Instance spares_calm : Calm spares.
Proof. intros w w' Hd Hr [H1 H2]. split; [unfold rows in *; by rewrite Hd|by rewrite Hr]. Qed.

(** A transaction that keeps the row. *)
Definition spares_row (m m' : gmap uuid Job) : Prop := m !! id = Some j -> m' !! id = Some j.

Lemma spares_row_moves i : i <> id -> Moves spares_row i.
Proof.
  intros Hi. split; [by intros m Hm|]. intros g f l m _ Hm. unfold upd_rows.
  destruct (row_at m i g); [by rewrite lookup_insert_ne|done].
Qed.

Lemma sparing_pg {X} (t : datetime -> pg_db -> pg_db * X) : leads spares_row t -> sparing (pg t).
Proof. intros Ht. apply all_steps_act. intros w [H1 H2]. split; [by apply Ht|done]. Qed.

Lemma sparing_redis_do {X} (c : datetime -> rd -> rd * X) :
  (forall now r, unnamed part id r -> unnamed part id (c now r).1) -> sparing (redis_do c).
Proof. intros Hc. apply all_steps_act. intros w [H1 H2]. split; [done|by apply Hc]. Qed.

Lemma sparing_sheds {X} (c : datetime -> rd -> rd * X) : (forall now r, sheds r (c now r).1) -> sparing (redis_do c).
Proof. intros Hc. apply sparing_redis_do. intros now r. by apply sheds_unnamed. Qed.

Lemma sparing_try {X} (c : datetime -> rd -> rd * (exn + X)) : (forall now r, sheds r (c now r).1) -> sparing (redis_try c).
Proof. intros Hc. apply all_steps_bind; [by apply sparing_sheds|]. intros r. by destruct r. Qed.

Lemma names_message s i c : message_job (message_fields s i c) = parse_uuid i.
Proof. unfold message_job, message_fields. rewrite inject_job_id, lookup_singleton_eq. done. Qed.

Lemma sparing_enqueue s i c : parse_uuid i <> Some id -> sparing (enqueue s i c).
Proof. intros Hi. apply sparing_redis_do. intros now r. apply unnamed_xadd. by rewrite names_message. Qed.

Lemma sparing_schedule i t : parse_uuid i <> Some id -> sparing (schedule zset i t).
Proof. intros Hi. apply sparing_redis_do. intros now r. by apply unnamed_zadd. Qed.

Lemma other_text i : i <> id -> parse_uuid (str_uuid i) <> Some id.
Proof. rewrite parse_str_uuid. congruence. Qed.

Lemma sparing_ack s i : sparing (ack s group i).
Proof. apply sparing_sheds. intros now r. apply sheds_xack. Qed.

Lemma sparing_ensure_group s : sparing (ensure_group s group).
Proof.
  unfold ensure_group. apply all_steps_bind; [apply all_steps_attempt, sparing_try; intros; apply sheds_xgroup_create|].
  intros [[]|]; try done. by case_match.
Qed.

Lemma sparing_ensure_groups : sparing (ensure_groups settings).
Proof. apply all_steps_for_each. intros s. apply sparing_ensure_group. Qed.

#[local] Hint Resolve sparing_pg sparing_enqueue sparing_schedule other_text sparing_ack
  sparing_ensure_groups : along.

Lemma sparing_zrem ms : sparing (redis_do (fun _ => zrem zset ms)).
Proof. apply sparing_sheds. intros _ r. apply sheds_zrem. Qed.
#[local] Hint Resolve sparing_zrem : along.

(** * The coroutines of another job *)

Lemma sparing_schedule_retry_or_fail job e c : j_id job <> id -> sparing (schedule_retry_or_fail settings job e c).
Proof. intros Hne. pose proof (spares_row_moves _ Hne). unfold schedule_retry_or_fail. along_walk. Qed.
#[local] Hint Resolve sparing_schedule_retry_or_fail : along.

Lemma sparing_process_claimed job : j_id job <> id -> sparing (process_claimed settings job).
Proof.
  intros Hne. pose proof (spares_row_moves _ Hne). unfold process_claimed, settle_error, settle_result. along_walk.
  apply (along_run_job _ (j_id job)); [|done]. intros p. by apply sparing_pg, moves_write_progress.
Qed.

Lemma sparing_reap_row job : j_id job <> id -> sparing (reap_row settings job).
Proof.
  intros Hne. pose proof (spares_row_moves _ Hne). unfold reap_row, handoff_scheduled, handoff_pending. along_walk.
Qed.

Lemma sparing_reconcile_one job : j_id job <> id -> sparing (reconcile_one settings job).
Proof.
  intros Hne. pose proof (spares_row_moves _ Hne). unfold reconcile_one, handoff_scheduled, handoff_pending. along_walk.
Qed.

Lemma sparing_cancel_rounds n i h : i <> id -> sparing (cancel_rounds settings n i h).
Proof.
  intros Hne. pose proof (spares_row_moves _ Hne). revert h. induction n as [|n IH]; intros h; cbn [cancel_rounds]; [done|].
  unfold answer_with. along_walk.
Qed.

Lemma sparing_cancel_job_route i u : i <> id -> sparing (cancel_job_route settings i u).
Proof. intros Hne. pose proof sparing_cancel_rounds. unfold cancel_job_route. along_walk. Qed.

Lemma sparing_get_job_route i u : sparing (get_job_route i u).
Proof. unfold get_job_route. along_walk. Qed.

(** * What is read is not the job *)

Notation safely := (safe Lost (fun _ => True)).

Lemma safely_sparing {A} (p : coroutine A) : sparing p -> safely p.
Proof. apply safe_steps. Qed.

(** A row read from the table is another job's, or the row itself. *)
Definition other (o : option Job) : Prop := forall j', o = Some j' -> j_id j' <> id \/ j' = j.

Lemma safe_fetch {A} Q i (k : option Job -> coroutine A) :
  (forall o, other o -> (forall j', o = Some j' -> j_id j' = i) -> safe Lost Q (k o)) ->
  safe Lost Q (found ← pg_read (get_job i None); row ← or_raise found; k row).
Proof.
  intros Hk. apply (safe_then _ (fun found => exists o, found = inr o /\ other o /\ forall j', o = Some j' -> j_id j' = i)).
  - apply safe_act. intros w [Hj Hu]. split; [done|]. exists (rows w !! i). split; [apply get_job_rows|].
    assert (forall j', rows w !! i = Some j' -> j_id j' = i) as Hi by (intros j'; apply rows_keyed).
    split; [|done]. intros j' Hj'. destruct (decide (j_id j' = id)) as [E|]; [right|by left].
    assert (i = id) as -> by (rewrite <-E; symmetry; by apply Hi). congruence.
  - intros found (o & -> & Ho & Hi). by apply Hk.
Qed.

Lemma safe_refresh i : i <> id ->
  safe Lost (fun r => match r with inr j' => j_id j' <> id | inl _ => True end) (refresh i).
Proof. intros Hi. apply safe_fetch. intros [j'|] _ H; [|done]. simpl. by rewrite (H j' eq_refl). Qed.

(** * Requests *)

Lemma safe_create sub st t mx k h u :
  safe Lost (fun r => match r with inr j' => j_id j' <> id | inl _ => True end) (create sub st t mx k h u).
Proof.
  unfold create. apply (safe_then _ (fun _ => True)); [by apply safe_act|]. intros new_id _.
  apply (safe_then _ (fun r => forall j', r = inr j' -> j_id j' <> id)).
  - apply safe_act. intros w [Hj Hu]. set (job := new_job _ _ _ _ _ _ _ _ _ _ _ _ _).
    pose proof (create_job_rows job (w_db w)) as Hc. unfold rows in Hj.
    cbn zeta. cbn [fst snd]. destruct (create_job job (w_db w)).2 as [e|job'].
    + split; [|done]. split; [|done]. unfold rows. cbn [w_db with_db]. by destruct Hc as [_ ->].
    + destruct Hc as (-> & Hnew & Hrows). assert (j_id job <> id) as Hne by congruence. split.
      * split; [|done]. unfold rows. cbn [w_db with_db]. by rewrite Hrows, lookup_insert_ne.
      * by intros j' [= <-].
  - intros [e|job] Hne; [done|]. by apply safe_refresh, Hne.
Qed.

Lemma safely_create_and_handoff sub k h u : safely (_create_and_handoff settings sub k h u).
Proof.
  unfold _create_and_handoff. set (mx := if decide _ then _ else _).
  apply (safe_then _ (fun j' => j_id j' <> id)).
  - assert (safe Lost (fun r => match r with inr j' => j_id j' <> id | inl _ => True end)
      (job ← create sub pending None mx k h u;
       _ ← enqueue (stream_for_priority settings (s_priority sub)) (str_uuid (j_id job)) None; Ret job)) as Honce.
    { eapply safe_then; [apply safe_create|]. intros job Hne. apply (safe_then _ (fun _ => True)); [|done].
      eapply safe_mono; [|apply safely_sparing, sparing_enqueue, other_text, Hne]. by intros [e|i]. }
    destruct (s_scheduled_at sub) as [t|]; [|exact Honce].
    apply (safe_then _ (fun _ => True)); [by apply safe_act|]. intros now _. destruct (now <? t); [|exact Honce].
    eapply safe_then; [apply safe_create|]. intros job Hne. apply (safe_then _ (fun _ => True)); [|done].
    eapply safe_mono; [|apply safely_sparing, sparing_schedule, other_text, Hne]. by intros [e|i].
  - intros job Hne. apply safely_sparing. pose proof (spares_row_moves _ Hne). along_walk.
Qed.

Lemma safely_submit_job sub u : safely (submit_job settings sub u).
Proof.
  unfold submit_job. destruct (validate_payload _ _ _) as [[]|]; try done.
  destruct (s_idempotency_key sub) as [key|].
  - apply (safe_then _ (fun _ => True)); [by apply safe_act|]. intros [e|existing] _; [done|].
    cbn [or_raise]. rewrite bind_ret. destruct existing as [job|]; [apply safely_sparing; along_walk|].
    apply (safe_then _ (fun _ => True)).
    { apply safe_attempt. eapply safe_mono; [|apply safely_create_and_handoff]. done. }
    intros [[]|job] _; try done. apply safely_sparing. along_walk.
  - apply (safe_then _ (fun _ => True)); [|done]. eapply safe_mono; [|apply safely_create_and_handoff]. by intros [e|job].
Qed.

(** The row waits, so a reset that wins is another job's. *)
Lemma safely_retry_job i u : safely (retry_job settings i u).
Proof.
  unfold retry_job. apply (safe_then _ (fun _ => True)).
  { eapply safe_mono; [|apply safely_sparing, along_owned_job, _]. by intros [e|job]. }
  intros job _. apply (safe_then _ (fun won : bool => won = true -> i <> id)).
  - apply safe_act. intros w [Hj Hu]. cbn zeta. cbn [fst snd]. destruct (decide (i = id)) as [->|Hi].
    + assert (row_at (rows w) id (fun j => status_in [failed] j && bool_decide (j_cancel_requested_at j = None)) = None)
        as Hrow.
      { unfold row_at. rewrite Hj. unfold owed, status_in in *. destruct (j_status j); try done; by vm_compute in Howed. }
      split.
      * split; [|done]. unfold rows in *. cbn [w_db with_db]. unfold reset_failed_to_pending. rewrite guarded_rows by done.
        unfold upd_rows. by rewrite Hrow.
      * unfold reset_failed_to_pending. unfold rows in Hrow. rewrite guarded_won by done. by rewrite Hrow.
    + split; [|done]. pose proof (spares_row_moves _ Hi) as HM. split; [|done].
      by apply (moves_reset spares_row i (w_now w) (w_db w)).
  - intros [|] Hi; [|done]. specialize (Hi eq_refl). apply safely_sparing. pose proof (spares_row_moves _ Hi). along_walk.
Qed.

(** * The worker *)

(** The delivery is another job's. *)
Definition foreign (m : delivery) : Prop := message_job m.2 <> Some id.

Lemma elem_of_flatten resp s i f :
  (s, i, f) ∈ _flatten resp -> exists ms, (s, ms) ∈ resp /\ (i, f) ∈ ms.
Proof.
  induction resp as [|[s' ms] resp IH]; simpl; [by intros ?%elem_of_nil|]. rewrite elem_of_app.
  intros [(m & [= -> -> ->] & Hm)%list_elem_of_fmap|H].
  - exists ms. split; [by left|]. by destruct m.
  - destruct (IH H) as (ms' & ? & ?). exists ms'. split; [by right|done].
Qed.

Lemma safe_xreadgroup ss c n : NoDup ss -> ss ⊆ streams ->
  safe Lost (fun r => match r with inr resp => Forall foreign (_flatten resp) | inl _ => True end)
    (redis_try (xreadgroup ss group c n)).
Proof.
  intros Hnd Hss. apply (safe_then _ (fun r => forall resp, r = inr resp -> Forall foreign (_flatten resp))).
  2: { intros [e|resp] H; [done|by apply H]. }
  apply safe_act. intros w [Hj Hu]. cbn zeta. cbn [fst snd]. split.
  { split; [done|]. eapply sheds_unnamed; [|exact Hu]. by apply sheds_xreadgroup. }
  destruct (decide (Forall (fun s => is_Some (rd_group (w_redis w) s group)) ss)) as [Hall|Hnot].
  - rewrite Forall_forall in Hall. destruct (views_exist settings (w_redis w) ss Hall) as [views Hviews].
    destruct (xreadgroup_ok ss group c n (w_now w) (w_redis w) views Hnd Hviews) as [-> _].
    intros resp [= <-]. apply Forall_forall. intros [[s i] f] (ms & Hms & Hin)%elem_of_flatten.
    apply list_elem_of_filter in Hms as [_ Hms]. apply list_elem_of_fmap in Hms as ([s' v] & [= -> ->] & Hv).
    apply list_elem_of_lookup in Hv as [k Hk]. destruct (Forall2_lookup_r _ _ _ _ _ Hviews Hk) as (s0 & Hs0 & [Es Hg]).
    simpl in Es, Hg. subst s0. refine (proj1 Hu s' v (i, f) _ Hg (fresh_part v _ _)).
    + apply Hss. by eapply list_elem_of_lookup_2.
    + by apply (subseteq_take n).
  - apply not_Forall_Exists in Hnot; [|apply _]. apply Exists_exists in Hnot as (s0 & Hs0 & Hn).
    apply eq_None_not_Some in Hn.
    destruct (xreadgroup_nogroup ss group c n (w_now w) (w_redis w) s0 Hs0 Hn) as (m & -> & _). done.
Qed.

Lemma safe_probe c n ss : ss ⊆ streams ->
  safe Lost (fun r => match r with inr (Some ms) => Forall foreign ms | _ => True end) (probe group c n ss).
Proof.
  induction ss as [|s ss IH]; intros Hss; [done|]. cbn [probe].
  eapply safe_then; [apply safe_xreadgroup; [apply NoDup_singleton|set_solver]|].
  intros resp. cbv beta. destruct (_flatten resp) as [|m ms]; intros Hf; [apply IH; set_solver|exact Hf].
Qed.

Lemma safe_pull c : safe Lost (fun r => forall m, r = inr (Some m) -> foreign m) (pull settings c).
Proof.
  unfold pull. apply (safe_then _ (Forall foreign)).
  - unfold read_priority. apply safe_bind. eapply safe_mono; [|by apply safe_probe].
    intros [e|[ms|]] H; [done..|]. destruct (block_ms settings <? 0); [done|].
    apply (safe_then _ (fun resp => Forall foreign (_flatten resp))).
    { eapply safe_mono; [|by apply safe_xreadgroup]. by intros [e|resp]. }
    intros resp.
    destruct (_flatten resp); intros Hf; [|exact Hf]. destruct (block_ms settings =? 0); [done|].
    apply (safe_then _ (fun _ => True)); [|done]. eapply safe_mono; [|apply safely_sparing, along_sleep, _]. by intros [e|[]].
  - intros [|m ms] H; intros m' [= <-]. by apply Forall_cons in H as [H _].
Qed.

Lemma safely_handle_message m : foreign m -> safely (handle_message settings m).
Proof.
  destruct m as [[s i] f]. unfold foreign, handle_message. cbn [snd]. destruct (message_job f) as [i'|]; intros Hne.
  2: { apply safely_sparing. along_walk. }
  assert (i' <> id) as Hi by congruence. apply (safe_then _ (fun _ => True)); [|intros o _; apply safely_sparing; along_walk].
  eapply (safe_mono _ (fun _ => True)); [by intros [e|o]|]. unfold process_job.
  apply (safe_then _ (fun _ => True)).
  { pose proof (spares_row_moves _ Hi). eapply safe_mono; [|apply safely_sparing, sparing_pg, moves_claim, _]. by intros [e|b]. }
  intros [|] _; [|done]. apply safe_fetch. intros [job|] _ Hid; [|done].
  apply safely_sparing, sparing_process_claimed. by rewrite (Hid job eq_refl).
Qed.

Lemma safely_worker_round c : safely (worker_round settings c).
Proof.
  unfold worker_round. apply (safe_then _ (fun o => forall m, o = Some m -> foreign m)).
  - eapply safe_mono; [|apply safe_pull]. intros [e|o] H; [done|]. intros m ->. by apply H.
  - intros [m|] H; [|done]. apply (safe_then _ (fun _ => True)); [|done].
    eapply safe_mono; [|apply safely_handle_message, H, eq_refl]. by intros [e|o].
Qed.

(** * The ticker *)

Lemma parse_ids_other ids us : parse_ids ids = inr us -> Forall (fun i => parse_uuid i <> Some id) ids -> id ∉ us.
Proof.
  revert us. induction ids as [|i ids IH]; intros us; simpl; [intros [= <-] _; apply not_elem_of_nil|].
  destruct (parse_uuid i) as [u|] eqn:Hi; [|done]. destruct (parse_ids ids) as [e|us']; [done|].
  intros [= <-] [Hu Hids]%Forall_cons. apply not_elem_of_cons. split; [congruence|by apply IH].
Qed.

Lemma route_other info ids : Forall (fun i => parse_uuid i <> Some id) ids ->
  Forall (fun sf : string * fields => message_job sf.2 <> Some id) (route settings info ids).
Proof.
  intros Hids. apply Forall_forall. intros sf (i & Hi & E)%list_elem_of_omap.
  destruct (parse_uuid i ≫= _) as [[pr c]|]; [|done]. injection E as <-. cbn [snd]. rewrite names_message.
  rewrite Forall_forall in Hids. by apply Hids.
Qed.

Lemma safely_promote_due : safely (promote_due settings).
Proof.
  unfold promote_due. apply (safe_then _ (fun _ => True)); [by apply safe_act|]. intros now _.
  apply (safe_then _ (Forall (fun i => parse_uuid i <> Some id))).
  - apply safe_act. intros w [Hj Hu]. split; [done|]. cbn zeta. cbn [fst snd].
    destruct (zrangebyscore_spec zset 0 now (ticker_batch_size settings) (w_redis w)) as (l & Hl & _ & ->).
    apply Forall_forall. intros k (kv & -> & Hkv)%list_elem_of_fmap. apply (proj2 Hu).
    apply (subseteq_take (ticker_batch_size settings)) in Hkv. rewrite Hl in Hkv.
    apply list_elem_of_filter in Hkv as [_ Hkv]. destruct kv as [k t]. apply elem_of_map_to_list in Hkv. by exists t.
  - intros ids Hids. destruct ids as [|i ids]; [done|]. set (all := i :: ids) in *.
    destruct (parse_ids all) as [e|us] eqn:Hus; [done|]. cbn [or_raise]. rewrite bind_ret.
    pose proof (parse_ids_other _ _ Hus Hids) as Hnot.
    apply (safe_then _ (fun _ => True)); [by apply safe_act|]. intros info _. apply safely_sparing.
    pose proof (route_other info all Hids) as Hroute.
    apply all_steps_bind; [|intros _; apply all_steps_bind; [|done]].
    + unfold promote. apply all_steps_bind; [|intros _; apply sparing_zrem].
      induction Hroute as [|sf routed Hsf _ IH]; [done|]. apply all_steps_bind; [|done].
      apply all_steps_bind; [|done]. apply sparing_redis_do. intros now' r. by apply unnamed_xadd.
    + apply sparing_pg. intros now' d Hj. rewrite promote_rows, Hj. simpl. by rewrite bool_decide_false.
Qed.

Lemma safely_reconcile_orphans fuel : safely (reconcile_orphans settings fuel).
Proof.
  unfold reconcile_orphans. apply (safe_then _ (fun _ => True)); [by apply safe_act|]. intros now _.
  generalize (@nil Job) 0%nat. induction fuel as [|fuel IH]; intros held n; cbn [reconcile_loop]; [done|].
  apply (safe_then _ (Forall (fun j' => j_id j' <> id))).
  - apply safe_act. intros w [Hj Hu]. split; [done|]. apply Forall_forall. intros j' Hin E.
    destruct (list_unsynced_batch (now - reconcile_grace_s settings) (reconcile_batch_size settings) (w_db w)) as (l & Hl & _).
    assert (j' ∈ waiting (now - reconcile_grace_s settings) (pg_rows (w_db w))) as Hw.
    { rewrite Hl. apply elem_of_app. by left. }
    apply elem_of_waiting in Hw as [Hrow Huns]; [|intros k x; apply pg_primary_key].
    rewrite E in Hrow. unfold rows in Hj. assert (j' = j) as -> by congruence.
    unfold owed in Howed. unfold unsynced in Huns. apply andb_true_iff in Howed as [_ Hsync]. by rewrite Hsync in Huns.
  - intros found Hfound.
    assert (Forall (fun j' => j_id j' <> id) (from_session held found)) as Hrows.
    { unfold from_session. rewrite Forall_fmap. eapply Forall_impl; [exact Hfound|]. intros j' Hne. simpl.
      destruct (list_find _ held) as [[k h]|] eqn:Hf; [|done]. apply list_find_Some in Hf as (_ & E & _). simpl in *. congruence. }
    destruct (from_session held found) as [|j0 l0]; [done|]. set (l := j0 :: l0) in *. clearbody l.
    apply (safe_then _ (fun _ => True)).
    + eapply (safe_mono _ (fun _ => True)); [by intros [e|m]|]. apply safely_sparing. clear IH. revert n.
      induction Hrows as [|j' l' Hne _ IH]; intros n; [done|]. cbn [reconcile_rows].
      apply all_steps_bind; [by apply sparing_reconcile_one|]. intros b. apply IH.
    + intros total _. case_decide; [done|]. apply IH.
Qed.

(** An entry of the job itself is acknowledged, and its row left as it is. *)
Lemma safely_reap_entry s m : safely (reap_entry settings s m).
Proof.
  unfold reap_entry, _reap_one. destruct (message_job m.2) as [i|]; [|apply safely_sparing, sparing_ack].
  apply safe_fetch. intros o Ho _. apply safely_sparing. apply all_steps_bind; [|intros _; apply sparing_ack].
  destruct o as [job|]; [|done]. destruct (Ho job eq_refl) as [Hne| ->]; [by apply sparing_reap_row|].
  unfold reap_row. pose proof Howed as [Hst Hs]%andb_true_iff. rewrite Hs. apply bool_decide_eq_true in Hst.
  destruct (j_status j); try done. exfalso. set_solver.
Qed.

Lemma safely_reap_loop fuel s c n : safely (reap_loop settings fuel s c n).
Proof.
  revert c n. induction fuel as [|fuel IH]; intros c n; cbn [reap_loop]; [done|].
  apply (safe_then _ (fun _ => True)).
  { eapply (safe_mono _ (fun _ => True)); [by intros [e|x]|]. apply safely_sparing, sparing_try. intros; apply sheds_xautoclaim. }
  intros resp _. apply (safe_then _ (fun _ => True)).
  { eapply (safe_mono _ (fun _ => True)); [by intros [e|x]|]. apply safe_for_each. intros m. apply safely_reap_entry. }
  intros _ _. case_decide; [done|]. apply IH.
Qed.

Lemma safely_reap_stale fuel : safely (reap_stale settings fuel).
Proof.
  unfold reap_stale. generalize streams as ss, 0%nat as n. induction ss as [|s ss IH]; intros n; cbn [reap_streams]; [done|].
  apply (safe_then _ (fun _ => True)).
  { eapply (safe_mono _ (fun _ => True)); [by intros [e|x]|]. apply safely_sparing, sparing_ensure_group. }
  intros _ _. apply (safe_then _ (fun _ => True)).
  { eapply (safe_mono _ (fun _ => True)); [by intros [e|x]|]. apply safely_reap_loop. }
  intros n' _. apply IH.
Qed.

Lemma safely_when_due now interval last p : safely p ->
  safely (when_due now interval last p).
Proof.
  intros Hp. unfold when_due. case_match; [|done]. apply (safe_then _ (fun _ => True)); [|by intros [e|x]].
  by apply safe_attempt.
Qed.

Lemma safely_tick fuel last : safely (tick settings fuel last).
Proof.
  unfold tick, tick_body. apply (safe_then _ (fun _ => True)).
  - eapply (safe_mono _ (fun _ => True)); [by intros [e|b]|].
    apply (safe_then _ (fun _ => True)); [apply safe_attempt, safely_promote_due|]. intros [e|promoted] _; [done|].
    apply (safe_then _ (fun _ => True)); [by apply safe_act|]. intros now _.
    apply (safe_then _ (fun _ => True)).
    { eapply (safe_mono _ (fun _ => True)); [by intros [e|x]|]. apply safely_when_due, safely_reconcile_orphans. }
    intros [[e|] l] _; [done|]. apply (safe_then _ (fun _ => True)); [|by intros [[e|] l'] _].
    eapply (safe_mono _ (fun _ => True)); [by intros [e|x]|]. apply safely_when_due, safely_reap_stale.
  - intros b _. apply safely_sparing. along_walk.
Qed.

Lemma safely_ticker_main n fuel : safely (ticker_main settings n fuel).
Proof.
  unfold ticker_main. apply (safe_then _ (fun _ => True)).
  { eapply (safe_mono _ (fun _ => True)); [by intros [e|x]|]. apply safely_sparing, sparing_ensure_groups. }
  intros _ _. generalize (0, 0). induction n as [|n IH]; intros last; [done|]. cbn [ticks].
  apply (safe_then _ (fun _ => True)); [|intros l _; apply IH].
  eapply (safe_mono _ (fun _ => True)); [by intros [e|x]|]. apply safely_tick.
Qed.
End Lost.

(** * Every process but a cancellation of the job *)

Section Others.
Context {PG : Postgres} {RD : Redis} {EN : Entropy} {OT : Otel} {PY : Pydantic} {OM : Orm}.
Context (settings : Settings).

(** What the deployment runs, but for a cancellation of [id]: any request, a worker's
    rounds, a task for a message that names another job, and the ticker. *)
Inductive bystander (id : uuid) : coroutine unit -> Prop :=
| by_submit s u : bystander id (_ ← submit_job settings s u; Ret tt)
| by_get i u : bystander id (_ ← get_job_route i u; Ret tt)
| by_retry i u : bystander id (_ ← retry_job settings i u; Ret tt)
| by_cancel i u : i <> id -> bystander id (_ ← cancel_job_route settings i u; Ret tt)
| by_groups : bystander id (ensure_groups settings)
| by_pull c : bystander id (_ ← pull settings c; Ret tt)
| by_message m : message_job m.2 <> Some id -> bystander id (_ ← handle_message settings m; Ret tt)
| by_round c : bystander id (worker_round settings c)
| by_ticker n fuel : bystander id (ticker_main settings n fuel).

(** Time passes, random numbers are drawn elsewhere. *)
Definition time_passes (w w' : world) : Prop := exists t g, w' = with_now t (with_rng g w).

(** The processes [bystander] allows, started and stopped at any time, interleaved
    effect by effect. *)
Definition goes_on (id : uuid) (w w' : world) : Prop :=
  exists ts, rtc (pool_step (bystander id) time_passes) ([], w) (ts, w').

Lemma bystander_safe part id j t :
  NoDup (ordered_streams settings) -> (0 < reaper_batch_size settings)%nat ->
  part = messages \/ part = g_fresh -> owed j = true ->
  bystander id t -> safe (lost settings part id j) (fun _ => True) t.
Proof.
  intros Hnd Hb Hpart Ho Ht.
  assert (forall A (p : coroutine A), safe (lost settings part id j) (fun _ => True) p ->
    safe (lost settings part id j) (fun _ => True) (_ ← p; Ret tt)) as Hthen.
  { intros A p Hp. apply (safe_then _ (fun _ => True)); [|done]. eapply safe_mono; [|exact Hp]. by intros [e|x]. }
  destruct Ht; try apply Hthen.
  - by apply safely_submit_job.
  - by apply safe_steps, sparing_get_job_route.
  - by apply safely_retry_job.
  - by apply safe_steps, sparing_cancel_job_route.
  - by apply safe_steps, sparing_ensure_groups.
  - eapply safe_mono; [|by apply safe_pull]. done.
  - by apply safely_handle_message.
  - by apply safely_worker_round.
  - by apply safely_ticker_main.
Qed.

Lemma goes_on_lost part id j w w' :
  NoDup (ordered_streams settings) -> (0 < reaper_batch_size settings)%nat ->
  part = messages \/ part = g_fresh -> owed j = true ->
  lost settings part id j w -> goes_on id w w' -> lost settings part id j w'.
Proof.
  intros Hnd Hb Hpart Ho Hl [ts Hts].
  refine (pool_safe _ _ (lost settings part id j) _ _ _ _ Hts (Forall_nil_2 _) Hl).
  - intros t. by apply bystander_safe.
  - by intros w1 w2 (t & g & ->).
Qed.

(** No hint of Delivery.v is left, and the reconciler does not select the row. *)
Lemma lost_not_hinted id j w : lost settings messages id j w -> ~ hinted settings (w_redis w) id.
Proof.
  intros [_ [Hm Hz]] [(s & v & m & Hs & Hv & Hin & Hc)|Ht].
  - apply (Hm s v m Hs Hv Hin). by apply message_job_carries.
  - apply (Hz (str_uuid id)); [done|]. apply parse_str_uuid.
Qed.

Lemma lost_not_selected part id j w cutoff n :
  owed j = true -> lost settings part id j w -> id ∉ j_id <$> list_unsynced cutoff n (w_db w).
Proof.
  intros Ho [Hj _] (j' & -> & Hin)%list_elem_of_fmap.
  destruct (list_unsynced_batch cutoff n (w_db w)) as (l & Hl & _).
  assert (j' ∈ waiting cutoff (pg_rows (w_db w))) as Hw by (rewrite Hl; apply elem_of_app; by left).
  apply elem_of_waiting in Hw as [Hrow Huns]; [|intros k x; apply pg_primary_key].
  unfold rows in Hj. assert (j' = j) as -> by congruence. unfold owed in Ho. unfold unsynced in Huns.
  apply andb_true_iff in Ho as [_ Hsync]. by rewrite Hsync in Huns.
Qed.

(** C7: A job that waits, marked as handed off, while no message and no member of the
    delayed set names it, is lost for good: whatever requests, workers and tickers start from
    then on (none being under way), interleaved effect by effect and crashing anywhere,
    its row stays exactly as it is, nothing ever names it again and the reconciler never
    selects it.  Only a cancellation of that very job is left out. *)
Theorem lost_for_good id j w w' :
  NoDup (ordered_streams settings) -> (0 < reaper_batch_size settings)%nat -> owed j = true ->
  lost settings messages id j w -> goes_on id w w' ->
  rows w' !! id = Some j /\ unnamed settings messages id (w_redis w') /\
  ~ hinted settings (w_redis w') id /\
  forall cutoff n, id ∉ j_id <$> list_unsynced cutoff n (w_db w').
Proof.
  intros Hnd Hb Ho Hl Hgo.
  assert (lost settings messages id j w') as Hl' by (eapply goes_on_lost; eauto).
  split; [apply Hl'|]. split; [apply Hl'|]. split; [by eapply lost_not_hinted|].
  intros cutoff n. by eapply lost_not_selected.
Qed.

(** ** The reaper loses a job that was read and not claimed *)

Context (Htable : retry_backoff_schedule settings <> []).

(** C27: A waiting job that is marked as handed off and whose messages have all been
    read by workers that died before they claimed it is lost by the reaper that should
    recover it: once its entries have been idle for the visibility timeout, a run of the
    reaper takes them for duplicates and acknowledges them.  The row is left as it was,
    nothing in Redis names the job, the reconciler does not select it, and nothing the
    deployment starts later changes that, but a cancellation of the job. *)
Theorem reap_strands_unclaimed fuel w id j :
  (0 < reaper_batch_size settings)%nat -> rows_wf (rows w) -> NoDup (ordered_streams settings) ->
  groups_exist (w_redis w) (consumer_group settings) (ordered_streams settings) ->
  (forall s v, s ∈ ordered_streams settings -> rd_group (w_redis w) s (consumer_group settings) = Some v ->
    length (g_pel v) < fuel)%nat ->
  rows w !! id = Some j -> owed j = true ->
  unnamed settings g_fresh id (w_redis w) ->
  (forall s v e, s ∈ ordered_streams settings -> rd_group (w_redis w) s (consumer_group settings) = Some v ->
    e ∈ g_pel v -> message_job (pe_fields e) = Some id -> stale settings (w_now w) e) ->
  exists w' n, exec (reap_stale settings fuel) w = (w', inr n) /\
    forall w'', goes_on id w' w'' ->
      rows w'' !! id = Some j /\ unnamed settings messages id (w_redis w'') /\
      forall cutoff n, id ∉ j_id <$> list_unsynced cutoff n (w_db w'').
Proof.
  intros Hb Hwf Hnd Hex Hfuel Hj Ho Hun Hstale.
  assert (0 < fuel)%nat as Hpos.
  { destruct (Hex (stream_high settings)) as [v Hv]; [set_solver|].
    specialize (Hfuel (stream_high settings) v ltac:(set_solver) Hv). lia. }
  destruct (reap_streams_exec settings Htable fuel (ordered_streams settings) w 0 Hb Hwf Hnd Hex Hfuel Hpos)
    as (w' & E & [_ Hreaped _] & _).
  assert (lost settings g_fresh id j w') as [Hj' [Hfresh Hz]].
  { assert (safe (lost settings g_fresh id j) (fun _ => True) (reap_stale settings fuel)) as Hsafe
      by (apply safely_reap_stale; auto).
    pose proof (proj1 (safe_exec _ _ _ w Hsafe (conj Hj Hun))) as H. unfold reap_stale in H. by rewrite E in H. }
  exists w'. eexists. split; [exact E|].
  assert (lost settings messages id j w') as Hl.
  { split; [done|]. split; [|done]. intros s v' m Hs Hv' Hin Hm. destruct (Hex s Hs) as [v Hv].
    destruct (Hreaped s v Hs Hv) as [l El]. rewrite El in Hv'. injection Hv' as <-.
    apply elem_of_app in Hin as [(e & -> & [Hns He]%list_elem_of_filter)%list_elem_of_fmap|Hin].
    - apply Hns. by eapply Hstale.
    - by eapply (Hfresh s _ m Hs El). }
  intros w'' Hgo. assert (lost settings messages id j w'') as Hl' by (eapply goes_on_lost; eauto).
  split; [apply Hl'|]. split; [apply Hl'|]. intros cutoff k. by eapply lost_not_selected.
Qed.
End Others.

(** * At a worker that died *)

(** Messages and members checked by computation. *)
Definition unnamed_check (settings : Settings) `{RD : Redis} (part : group_view -> list (stream_id * fields))
    (id : uuid) (r : rd) : bool :=
  forallb (fun s => match rd_group r s (consumer_group settings) with
                    | Some v => forallb (fun m : stream_id * fields => bool_decide (message_job m.2 <> Some id)) (part v)
                    | None => true
                    end) (ordered_streams settings) &&
  forallb (fun kv : string * Z => bool_decide (parse_uuid kv.1 <> Some id)) (map_to_list (rd_zset r (delayed_zset settings))).

Lemma unnamed_checked settings `{RD : Redis} part id (r : rd) :
  unnamed_check settings part id r = true -> unnamed settings part id r.
Proof.
  unfold unnamed_check. rewrite andb_true_iff, !forallb_forall. intros [Hm Hz]. split.
  - intros s v m Hs Hv Hin. specialize (Hm s (proj1 (list_elem_of_In _ _) Hs)). rewrite Hv in Hm.
    rewrite forallb_forall in Hm. by eapply bool_decide_eq_true_1, Hm, list_elem_of_In.
  - intros k [t Ht]. apply (bool_decide_eq_true_1 (parse_uuid k <> Some id)), (Hz (k, t)), list_elem_of_In.
    by apply elem_of_map_to_list.
Qed.

(** A worker reads the message of the submitted job and dies before it claims the
    job; the reaper runs 61 seconds later. *)
Definition unclaimed_world : world := with_now (t0 + seconds 61) pulled_world.

Lemma unclaimed_pending :
  forallb (fun s => match rd_group (w_redis unclaimed_world) s (consumer_group the_settings) with
    | Some v => (length (g_pel v) <? 2)%nat &&
        forallb (fun e => bool_decide (stale the_settings (w_now unclaimed_world) e)) (g_pel v)
    | None => false
    end) (ordered_streams the_settings) = true.
Proof. vm_compute. reflexivity. Qed.

Lemma unclaimed_group s : s ∈ ordered_streams the_settings ->
  exists v, rd_group (w_redis unclaimed_world) s (consumer_group the_settings) = Some v /\ (length (g_pel v) < 2)%nat /\
    Forall (fun e => stale the_settings (w_now unclaimed_world) e) (g_pel v).
Proof.
  intros Hs. pose proof unclaimed_pending as H. rewrite forallb_forall in H.
  specialize (H s (proj1 (list_elem_of_In _ _) Hs)). destruct (rd_group _ s _) as [v|]; [|done].
  apply andb_true_iff in H as [Hl H]. exists v. split; [done|]. split; [by apply Nat.ltb_lt|].
  apply Forall_forall. intros e He. rewrite forallb_forall in H.
  by eapply bool_decide_eq_true_1, H, list_elem_of_In.
Qed.

Lemma unclaimed_wf : rows_wf (rows unclaimed_world).
Proof. by apply (bool_decide_unpack _); vm_compute. Qed.

Lemma unclaimed_row : rows unclaimed_world !! first_id = Some submitted_job /\ owed submitted_job = true.
Proof. split; vm_compute; reflexivity. Qed.

Lemma unclaimed_read : unnamed the_settings g_fresh first_id (w_redis unclaimed_world).
Proof. apply unnamed_checked. vm_compute. reflexivity. Qed.

Lemma reap_strands_unclaimed_witness :
  exists w' n, exec (reap_stale the_settings 2) unclaimed_world = (w', inr n) /\
    rows w' !! first_id = Some submitted_job /\ unnamed the_settings messages first_id (w_redis w').
Proof.
  destruct (reap_strands_unclaimed the_settings ltac:(discriminate) 2 unclaimed_world first_id submitted_job)
    as (w' & n & E & H).
  - apply Nat.lt_0_succ.
  - exact unclaimed_wf.
  - exact the_streams_NoDup.
  - intros s Hs. destruct (unclaimed_group s Hs) as (v & Hv & _). by exists v.
  - intros s v Hs Hv. destruct (unclaimed_group s Hs) as (v' & Hv' & Hl & _). rewrite Hv in Hv'. by injection Hv' as ->.
  - exact (proj1 unclaimed_row).
  - exact (proj2 unclaimed_row).
  - exact unclaimed_read.
  - intros s v e Hs Hv He _. destruct (unclaimed_group s Hs) as (v' & Hv' & _ & Hst). rewrite Hv in Hv'.
    injection Hv' as <-. rewrite Forall_forall in Hst. by apply Hst.
  - exists w', n. split; [exact E|]. destruct (H w') as (Hj & Hu & _); [by exists []|]. exact (conj Hj Hu).
Defined.

(** And it stays lost, over a later promotion, worker's round and tick of the deployment. *)
Definition reaped_unclaimed : world := (exec (reap_stale the_settings 2) unclaimed_world).1.

Lemma later_tick :
  goes_on the_settings first_id reaped_unclaimed (exec (ticker_main the_settings 1 3) reaped_unclaimed).1.
Proof.
  destruct (pool_alone (bystander the_settings first_id) time_passes (ticker_main the_settings 1 3) reaped_unclaimed)
    as [t Ht]; [by apply by_ticker|]. by exists [t].
Qed.

Lemma reaped_lost : lost the_settings messages first_id submitted_job reaped_unclaimed.
Proof. split; [vm_compute; reflexivity|]. apply unnamed_checked. vm_compute. reflexivity. Qed.

Lemma lost_for_good_witness :
  rows (exec (ticker_main the_settings 1 3) reaped_unclaimed).1 !! first_id = Some submitted_job.
Proof.
  exact (proj1 (lost_for_good the_settings first_id submitted_job reaped_unclaimed _ the_streams_NoDup
    (Nat.lt_0_succ _) (proj2 unclaimed_row) reaped_lost later_tick)).
Defined.
