(* ===== verification/Races.v ===== *)
(** Two interleavings that lose a job: a promotion with a retry of the same job, in
    general and as a state the deployment can reach, and a submission with a retry
    whose worker dies, as such a state.  Delivery.v shows that without interleaving no
    crash loses one, Lost.v that a lost job stays lost. *)
From stdpp Require Import base tactics option list gmap strings numbers relations.
From S2P Require Import Prelude Prog Uuid Model Services Repository RepositoryFacts Queue Retry Handlers Payloads Worker Ticker TokenCache Api Effects Along Scenario QueueFacts TickerFacts ReaperFacts System Delivery Lost.
Set Default Goal Selector "!".
Open Scope Z_scope.

(** The process that is left of [p] after [n] effects. *)
Fixpoint rest {W E A} (n : nat) (p : prog W E A) (w : W) : prog W E A :=
  match n, p with
  | S n', Step f k => rest n' (k (f w).2) (f w).1
  | _, _ => p
  end.

Section Interleave.
Context {PG : Postgres} {RD : Redis} {EN : Entropy} {OT : Otel} {PY : Pydantic} {OM : Orm}.
Context (settings : Settings).

Lemma run_some n t ts w :
  rtc (system_step settings) (t :: ts, w) (rest n t w :: ts, exec_upto n t w).
Proof.
  revert t w. induction n as [|n IH]; intros [a|e|X f k] w; try done.
  eapply rtc_l; [apply (pool_run _ _ [] ts)|]. apply IH.
Qed.

(** One process runs for [n] effects, another one for [k] and dies, then the first
    for [n'] more. *)
Definition interleaved (n k n' : nat) (t u : coroutine unit) (w : world) : world :=
  exec_upto n' (rest n t w) (exec_upto k u (exec_upto n t w)).

Lemma interleaved_reachable n k n' t u w w0 :
  process settings t -> process settings u -> reachable settings w0 w ->
  reachable settings w0 (interleaved n k n' t u w).
Proof.
  intros Ht Hu [ts Hts]. unfold interleaved. eexists. etrans; [exact Hts|].
  eapply rtc_l; [exact (pool_spawn _ _ _ t _ Ht)|]. etrans; [apply (run_some n)|].
  eapply rtc_l; [exact (pool_spawn _ _ _ u _ Hu)|]. etrans; [apply (run_some k)|].
  eapply rtc_l; [apply (pool_die _ _ [])|]. apply (run_some n').
Qed.

Lemma later_reachable t w w0 : reachable settings w0 w -> reachable settings w0 (with_now t w).
Proof. intros [ts Hts]. exists ts. etrans; [exact Hts|]. apply rtc_once. by apply pool_env. Qed.
End Interleave.

(** * A promotion interleaved with a retry of its job *)

Section Promotion.
Context {PG : Postgres} {RD : Redis} {EN : Entropy} {OT : Otel} {PY : Pydantic} {OM : Orm}.
Context (settings : Settings).
Implicit Types (w : world).

(** The ids that a promotion pulls, and the number of its effects until every message
    is sent: the clock, the due ids, the promotion info and an XADD each. *)
Definition due w : list string :=
  zrangebyscore (delayed_zset settings) 0 (w_now w) (ticker_batch_size settings) (w_redis w).

Definition until_sent w us : nat :=
  3 + length (route settings (get_promotion_info us (w_db w)) (due w)).

(** What is left of the promotion then. *)
Definition promotion_rest (ids : list string) us : coroutine nat :=
  _ ← redis_do (fun _ => zrem (delayed_zset settings) ids);
  _ ← pg (fun _ => promote_scheduled_to_pending us);
  Ret (length ids).

Lemma rest_sent {A} routed (k1 : coroutine unit) (k2 : unit -> coroutine A) w :
  rest (length routed)
    ((_ ← for_each (fun sf : string * fields => _ ← redis_do (xadd sf.1 sf.2); Ret tt) routed; k1) ≫= k2) w =
  (k1 ≫= k2).
Proof. revert w. induction routed as [|sf routed IH]; intros w; [done|]. apply IH. Qed.

Lemma rest_act {X A} n (f : world -> world * X) (k : X -> coroutine A) w :
  rest (S n) (act f ≫= k) w = rest n (k (f w).2) (f w).1.
Proof. done. Qed.

Lemma rest_promotion w us :
  parse_ids (due w) = inr us -> due w <> [] ->
  rest (until_sent w us) (promote_due settings) w = promotion_rest (due w) us.
Proof.
  intros Hus Hne. unfold until_sent, promote_due, due_job_ids, clock, redis_do at 1, pg_read. cbn [Nat.add].
  rewrite !rest_act. cbn zeta. cbn [fst snd]. fold (due w). destruct (due w) as [|i ids]; [done|].
  rewrite Hus. cbn [or_raise]. rewrite bind_ret, rest_act. cbn [fst snd w_db with_redis].
  apply rest_sent.
Qed.

(** C28: Processes that interleave can lose a job.  Stop a promotion when it has sent
    its messages and not yet removed the due ids.  If by then a job it promotes has been
    scheduled again (a worker took the promoted job, its attempt failed, and it
    scheduled the job under the same id), so that only a due id names the job and its
    row is marked as handed off, then the promotion that goes on removes that id and
    makes the row pending.  From then on the row stays as it is, nothing in Redis names
    the job, the reconciler does not select it, and nothing the deployment starts later
    changes that, but a cancellation of the job. *)
Theorem promotion_race_strands w w2 us id j :
  NoDup (ordered_streams settings) -> (0 < reaper_batch_size settings)%nat ->
  parse_ids (due w) = inr us -> str_uuid id ∈ due w ->
  rows w2 !! id = Some j -> j_status j = scheduled -> j_is_synced_to_redis j = true ->
  (forall s v m, s ∈ ordered_streams settings -> rd_group (w_redis w2) s (consumer_group settings) = Some v ->
    m ∈ messages v -> message_job m.2 <> Some id) ->
  (forall k, is_Some (rd_zset (w_redis w2) (delayed_zset settings) !! k) -> parse_uuid k = Some id -> k ∈ due w) ->
  exists w', exec (rest (until_sent w us) (promote_due settings) w) w2 = (w', inr (length (due w))) /\
    forall w'', goes_on settings id w' w'' ->
      rows w'' !! id = Some (set_status pending j) /\ unnamed settings messages id (w_redis w'') /\
      forall cutoff n, id ∉ j_id <$> list_unsynced cutoff n (w_db w'').
Proof.
  intros Hnd Hb Hus Hin Hj Hst Hs Hm Hz.
  assert (due w <> []) as Hne by (intros E; rewrite E in Hin; by apply not_elem_of_nil in Hin).
  rewrite rest_promotion by done. unfold promotion_rest. rewrite exec_bind, exec_redis_do.
  rewrite exec_bind, exec_pg. cbn [fst snd exec]. eexists. split; [reflexivity|]. set (w' := with_db _ _).
  assert (owed (set_status pending j) = true) as Ho by by unfold owed.
  assert (lost settings messages id (set_status pending j) w') as Hl.
  { split; [|split].
    - unfold rows, w'. cbn [w_db with_db with_redis]. rewrite promote_rows. unfold rows in Hj. rewrite Hj. simpl.
      destruct (parse_ids_elem _ _ _ Hus Hin) as (u & Hu & Hu'). rewrite parse_str_uuid in Hu. injection Hu as <-.
      rewrite bool_decide_true by done. unfold status_in. rewrite Hst. by rewrite bool_decide_true by set_solver.
    - intros s v m Hs' Hv. cbn [w' w_redis with_db with_redis] in Hv. rewrite zrem_group in Hv. by eapply Hm.
    - intros k [t Ht] Hk. cbn [w' w_redis with_db with_redis] in Ht. rewrite zrem_zset, decide_True in Ht by done.
      apply map_lookup_filter_Some in Ht as [Ht Hout]. apply Hout, Hz; [by exists t|done]. }
  intros w'' Hgo. assert (lost settings messages id (set_status pending j) w'') as Hl' by (eapply goes_on_lost; eauto).
  split; [apply Hl'|]. split; [apply Hl'|]. intros cutoff k. by eapply lost_not_selected.
Qed.
End Promotion.

Definition hook_submission : JobSubmission :=
  mkSubmission webhook (JObj [("url", JStr "https://example.com/hook")])%string normal None None.

(** A webhook that fails twice and is scheduled for its third attempt, now due. *)
Definition twice_failed_world : world :=
  let w0 := (exec (submit_job hook_settings hook_submission alice) ready_world).1 in
  let w1 := (exec (worker_round hook_settings "w1"%string) w0).1 in
  let w2 := (exec (worker_round hook_settings "w1"%string) w1).1 in
  with_now (t0 + seconds 120) w2.

(** The ticker promotes the job; between its XADD and its ZREM a worker runs the
    third attempt to its end, which fails and schedules the fourth.  Then the tick ends. *)
Definition raced_world : world :=
  interleaved 7 40 40 (ticker_main hook_settings 1 3) (worker_round hook_settings "w1"%string) twice_failed_world.

Lemma raced_reachable : reachable hook_settings ready_world raced_world.
Proof.
  apply interleaved_reachable; [apply proc_ticker|apply proc_round|]. apply later_reachable.
  refine (run_alone hook_settings _ _ _ (proc_round _ "w1"%string) _).
  refine (run_alone hook_settings _ _ _ (proc_round _ "w1"%string) _).
  exact (run_request hook_settings _ _ _ (proc_submit _ _ _) (reachable_refl _ _)).
Qed.

(** Streams without messages and an empty delayed set hint at nothing. *)
Lemma nothing_hinted settings r id :
  Forall (fun s => rd_group r s (consumer_group settings) = Some (mkGroup [] [])) (ordered_streams settings) ->
  rd_zset r (delayed_zset settings) = ∅ -> ~ hinted settings r id.
Proof.
  rewrite Forall_forall. intros Hg Hz [(s & v & m & Hs & Hv & Hm & _)|[t Ht]].
  - rewrite (Hg s Hs) in Hv. injection Hv as <-. by apply not_elem_of_nil in Hm.
  - by rewrite Hz, lookup_empty in Ht.
Qed.

(** A job nothing will ever deliver: it waits, marked as handed off, no hint names
    it, and the reconciler does not select it. *)
Definition stranded (settings : Settings) (w : world) (id : uuid) : Prop :=
  (exists j, rows w !! id = Some j /\ j_status j = pending /\
     j_is_synced_to_redis j = true /\ j_attempts j < j_max_attempts j) /\
  ~ hinted settings (w_redis w) id /\
  forall cutoff n, list_unsynced cutoff n (w_db w) = [].

Lemma stranded_at settings w id :
  Forall (fun s => rd_group (w_redis w) s (consumer_group settings) = Some (mkGroup [] [])) (ordered_streams settings) ->
  rd_zset (w_redis w) (delayed_zset settings) = ∅ ->
  Forall (fun j => j_is_synced_to_redis j = true) (map_to_list (rows w)).*2 ->
  bool_decide (j_status <$> rows w !! id = Some pending /\
    ((fun j => j_attempts j <? j_max_attempts j) <$> rows w !! id) = Some true) = true ->
  stranded settings w id.
Proof.
  intros Hg Hz Hs Hj. split; [|split].
  - simp_bool. destruct Hj as [Hst Hlt]. destruct (rows w !! id) as [j|] eqn:Hrow; [|done].
    injection Hst as Hst. injection Hlt as Hlt. exists j. split_and!; [done|done| |by apply Z.ltb_lt].
    rewrite Forall_forall in Hs. apply Hs, elem_of_all_rows. unfold rows in Hrow.
    by rewrite (pg_primary_key _ _ _ Hrow).
  - by apply nothing_hinted.
  - intros cutoff n. by apply unsynced_none.
Qed.

(** Both worlds below, by computation. *)
Ltac strand :=
  apply stranded_at;
    [repeat constructor; vm_compute; reflexivity | vm_compute; reflexivity
    |apply (bool_decide_unpack _); vm_compute; exact I | vm_compute; reflexivity].

(** The deployment reaches such a state. *)
Theorem promotion_race_reachable :
  reachable hook_settings ready_world raced_world /\ stranded hook_settings raced_world first_id.
Proof.
  split; [exact raced_reachable|strand].
Qed.

(** The state between the ticker's last XADD and its ZREM: the worker's round is over. *)
Definition rescheduled_world : world :=
  exec_upto 40 (worker_round hook_settings "w1"%string)
    (exec_upto 4 (promote_due hook_settings) twice_failed_world).

Lemma rescheduled_row :
  match rows rescheduled_world !! first_id with
  | Some j => bool_decide (j_status j = scheduled) && j_is_synced_to_redis j && (j_attempts j =? 3)
  | None => false
  end = true.
Proof. vm_compute. reflexivity. Qed.

Lemma twice_failed_due :
  due hook_settings twice_failed_world = [str_uuid first_id] /\ until_sent hook_settings twice_failed_world [first_id] = 4%nat.
Proof. split; vm_compute; reflexivity. Qed.

Lemma rescheduled_messages :
  forallb (fun s => match rd_group (w_redis rescheduled_world) s (consumer_group hook_settings) with
                    | Some v => bool_decide (messages v = [])
                    | None => false
                    end) (ordered_streams hook_settings) = true /\
  (map_to_list (rd_zset (w_redis rescheduled_world) (delayed_zset hook_settings))).*1 = [str_uuid first_id].
Proof. split; vm_compute; reflexivity. Qed.

Lemma promotion_race_strands_witness :
  exists w' j, exec (rest 4 (promote_due hook_settings) twice_failed_world) rescheduled_world = (w', inr 1%nat) /\
    rows rescheduled_world !! first_id = Some j /\ rows w' !! first_id = Some (set_status pending j) /\
    unnamed hook_settings messages first_id (w_redis w').
Proof.
  pose proof rescheduled_row as Hrow. destruct (rows rescheduled_world !! first_id) as [j|] eqn:Hj; [|done].
  apply andb_true_iff in Hrow as [[Hst Hs]%andb_true_iff _]. apply bool_decide_eq_true in Hst.
  destruct twice_failed_due as [Hdue Hn]. destruct rescheduled_messages as [Hm Hz].
  destruct (promotion_race_strands hook_settings twice_failed_world rescheduled_world [first_id] first_id j)
    as (w' & E & H).
  - apply (bool_decide_unpack _). vm_compute. exact I.
  - apply Nat.lt_0_succ.
  - rewrite Hdue. vm_compute. reflexivity.
  - rewrite Hdue. by apply list_elem_of_singleton.
  - exact Hj.
  - exact Hst.
  - exact Hs.
  - intros s v m Hin Hv Hmem. rewrite forallb_forall in Hm. specialize (Hm s (proj1 (list_elem_of_In _ _) Hin)).
    rewrite Hv in Hm. apply bool_decide_eq_true_1 in Hm. rewrite Hm in Hmem. exfalso. exact (not_elem_of_nil m Hmem).
  - intros k [t Ht] _. rewrite Hdue, <-Hz. apply list_elem_of_fmap. exists (k, t). split; [reflexivity|].
    apply elem_of_map_to_list. exact Ht.
  - exists w', j. rewrite Hn, Hdue in E. split; [exact E|]. split; [reflexivity|].
    destruct (H w') as (Hj' & Hu & _); [exists []; apply rtc_refl|]. exact (conj Hj' Hu).
Defined.

(** * A submission interleaved with a retry of its job *)

(** The API inserts a job and enqueues it; before it marks the row, a worker reads
    the message, fails the first attempt, makes the row pending and dies before it
    enqueues the retry; then the API marks the row. *)
Definition mismarked_world : world :=
  interleaved 4 9 1 (_ ← submit_job hook_settings hook_submission alice; Ret tt)
    (worker_round hook_settings "w1"%string) ready_world.

(** The ticker starts 100 seconds later, reconciles and reaps. *)
Definition reaped_world : world :=
  (exec (ticker_main hook_settings 1 3) (with_now (t0 + seconds 100) mismarked_world)).1.

Lemma reaped_reachable : reachable hook_settings ready_world reaped_world.
Proof.
  refine (run_alone hook_settings _ _ _ (proc_ticker _ 1 3) _). apply later_reachable.
  apply interleaved_reachable; [apply proc_submit|apply proc_round|apply reachable_refl].
Qed.

(** Marking a row as handed off is not tied to the hand-off it reports: the API's
    mark can fall on the row of a retry that was never handed off.  When the worker
    of that retry has died, the reaper takes its message for a duplicate, and the
    job is stranded. *)
Theorem mark_race_strands :
  reachable hook_settings ready_world reaped_world /\ stranded hook_settings reaped_world first_id.
Proof.
  split; [exact reaped_reachable|strand].
Qed.
